(* ===== verification/_CoqProject ===== *)
-Q . S2P
Prelude.v
Queue.v
Timer.v
Stat.v
CycleBuffer.v
SimpleBuffer.v
Transport.v
Connection.v
Link.v
Ssl.v
StdMap.v
Json.v
Config.v
Socket.v
Shutdown.v
Codec.v
Topology.v
EmpIO.v
ChannelPool.v
Work.v
Wakeup.v
Server.v
Listen.v
Heap.v
Client.v
Process.v
Lifetime.v
Freed.v
Closers.v
Descriptors.v
Callback.v
NetIO.v
Init.v
Closing.v
Network.v
Barrier.v
CheckConfig.v
