(* ===== verification/Prelude.v ===== *)
(** * Rosetta-IO: a verification library

    Rosetta-IO moves messages between the nodes of a privacy-preserving
    computation.  A process opens a channel per task ([CreateInternalChannel]); the
    channel reads which nodes exist and what they do from a JSON configuration,
    connects to its peers, and sends and receives messages that carry an id.  All
    tasks of a process share one connection per peer.

    ** Parts and files

    The files are listed from the bottom up; names under [src/] are the program's.

    - [Prelude]: what every part uses.  [outcome] is the result of a call: a value,
      [Sleep] (the wait predicate of a condition variable is false, the call has
      not returned), an exception, or undefined behaviour.  Unsigned 64-bit
      arithmetic wraps ([u64] and the operators marked with a subscript 64), [int]
      arithmetic that overflows is undefined, blocks of [char] are lists of bytes
      and [memcpy] checks both ranges.
    - [Timer]: [SimpleTimer] ([src/_internal/simple_timer.cpp]).
    - [Queue]: the interface of a byte queue, a class with the list of bytes as its
      specification.
    - [CycleBuffer]: [cycle_buffer] ([src/_internal/cycle_buffer.cpp]), the ring
      that grows.  A ring in state [wf] represents the byte queue [contents] and is
      an instance of [Queue].
    - [SimpleBuffer]: the frame of a message ([include/io/internal/simple_buffer.h])
      and its round trip through [cycle_buffer::read(id, data)].
    - [Transport]: [Connection::readn], [writen] and [peek] over any answers of the
      kernel or of OpenSSL.
    - [Connection]: the data path of [Connection] ([src/connection.cpp]): [send]
      into the send ring, [loop_send] to the transport, [write] from the socket
      into the receive ring, [loop_recv] from there to one ring per message id,
      [recv] from that.
    - [Link]: two connections and the network between them as a transition system;
      [Shutdown]: what is still under way when one end closes.
    - [Work]: the tasks of a connection ([start], [stop], [do_start], [do_stop]), with
      [stop] in one piece ([conn_stop]) and section by section ([stop_section]);
      [Wakeup]: its condition variables, with who sleeps on them and who notifies.
    - [StdMap]: [std::map] with string keys; [Json]: the rapidjson accessors the
      configuration uses.
    - [Config]: [ChannelConfig] ([src/_internal/config.cpp]).
    - [Topology]: the peer lists [CreateInternalChannel] computes
      ([src/channel.cpp]).
    - [EmpIO]: the variant built with [USE_EMP_IO]: a connection per message id, on
      ports one end announces to the other ([GetSubIO] of
      [src/io_channel_impl.cpp]).
    - [Codec]: message ids in hexadecimal and the C structures node ids are handed
      out in.
    - [ChannelPool]: the channels of a process and their caches ([src/channel.cpp]).
    - [Stat]: the counters of [src/_internal/stat.cpp].
    - [Ssl]: contexts, handshake, transport and locks of the SSL sockets ([src/ssl_socket.cpp],
      [src/ssl_server.cpp], [src/ssl_client.cpp], [src/ssl_lock.cpp], and
      [SSLConnection] in [src/connection.cpp]).
    - [Socket]: [gethostip] with its regular expression, and the socket options
      ([src/socket.cpp]).
    - [Server]: [TCPServer] ([src/server.cpp]): the registry of accepted connections,
      the handlers of epoll events, the loop, [start] and [stop].
    - [Listen]: the condition variable on which servers wait for their turn to handle
      epoll events.
    - [Heap]: the type of the heap the servers share.
    - [Client]: [TCPClient] ([src/client.cpp]): [connect] and [close] by their sections,
      and the connections they share.
    - [Process]: the servers and the clients of a process on their one heap.
    - [Lifetime]: the process with rounds of [loop_once] interrupted between any two
      events, and the references that keep a connection alive; [Freed]: which calls
      use a connection nobody holds any more.
    - [Closers]: [Connection::close] called by two threads, access by access, with the
      table of open descriptors.
    - [Descriptors]: the file descriptors of the process, with plain sockets and closes
      that do not overlap: what its servers and clients get from the kernel and close.
    - [Callback]: the error callback: who has one and which errors are reported.
    - [NetIO]: [BasicIO] ([src/net_io.cpp]), which runs the server and the clients of
      a task, and [TCPChannel::Send] and [Recv] ([src/io_channel_impl.cpp]).
    - [Init]: [BasicIO::init] with its threads interleaved; [Closing]:
      [BasicIO::close] with its threads interleaved, each in the sections of its [stop].
    - [Network]: any number of nodes with their processes, the threads of all
      connections and the network between them, and the mailbox they implement.
    - [Barrier]: the two ends of a connection and the tasks that start and stop at
      both, over the threads and the network of [Link].
    - [CheckConfig]: programs that call [Send] and [Recv], and the one of
      [example/check_config_json.cpp] run by every node.

    [TCPChannel] calls [BasicIO], which sends and receives through a [Connection]
    that its server accepted or its client opened.  The objects of all these parts
    live in one heap, a field of the server's registry, which keeps an object after its
    last [shared_ptr]; [Lifetime] says when that is.

    A record models a class, its fields are the members by name, and an operation
    is a function from the old state to an [outcome] of the new one.  Where threads
    share state, each critical section is one such function and the threads are the
    rules of an inductive step relation, so the sections interleave freely.  Coarser
    than that are: the handler of an epoll event and [Connection::close], one step each
    ([Closers] takes the latter apart and shows what overlapping calls do); the creation
    and the end of a channel ([ChannelPool]); and with [USE_EMP_IO] the calls an end
    makes for one id, which come one after the other ([EmpIO]).  What all
    of them keep is an instance of the class [Prelude.Invariant]; a system that
    implements another one is an instance of [Prelude.Simulation], which matches
    every step by a run that shows the same events ([Prelude.trace]).

    ** What the theorems show

    - Data path.  A ring refines a byte queue for every sequence of operations
      ([CycleBuffer.cycle_buffer.refines_queue]); frames survive the ring
      ([SimpleBuffer.frame_roundtrip]); the receiving loop sorts every complete
      message ([Connection.loop_recv_sorts]); and over a whole link nothing is
      lost, reordered or given to another id ([Link.delivery_in_order]) and every
      run of the threads ends with everything delivered
      ([Link.every_run_delivers]).  When an end closes, the peer gets whole messages,
      in order, but with the linger option the code sets not necessarily all of them
      ([Shutdown]).
    - Network.  The connected nodes of a computation implement a mailbox, one queue
      of bytes per sender, receiver and id ([Network.net_refines_mailbox]), and all
      the mailbox holds can be received ([Network.mail_can_be_received]).  Programs
      are proved against the mailbox and run over the network: in
      [check_config_json] every node receives the configuration of each of its
      peers, none waits for ever, and the exchange can always be brought to its end
      over the network ([CheckConfig]).
    - Tasks.  One task works at a time ([Work.one_task_works]); no wake-up of the
      condition variables is lost, and a [stop] that has the lock of the peer ends when
      what its loops have taken is sorted and sent ([Wakeup]).  At the two ends of a
      connection [stop] is a barrier: it gets that lock only when the peer has started
      the task, and then it can as long as the peer has a task it has not stopped; but
      two tasks that the ends take in different orders block each other for ever
      ([Barrier]).
    - Configuration.  A document is read back; each node has one role; the lists
      partition the nodes; both ends of a pair agree on who connects ([Config],
      [Topology]).
    - Channels.  At most one channel per task; destroying one frees what it owns
      exactly once; the getters are stable ([ChannelPool]).  The codecs round-trip
      ([Codec]).  With [USE_EMP_IO] both ends use the same port for an id, as long as each
      makes one call at a time for it ([EmpIO]).
    - Servers and clients. One task at a time listens, and a stopping one hands over
      ([Server]), and the turn to listen is never lost ([Listen]); the heap they share is well typed ([Heap]); what the epoll
      set watches is held by some reference, but a round can outlive a connection of
      another task, a connection closed by its peer is used again, and one that is kept when the last
      task stops is never read after that ([Lifetime]); nothing else follows a pointer to a freed
      connection ([Freed]); two threads can close a connection at once, and then its descriptor is
      closed twice ([Closers]), which calls that do not overlap never do: for them an open
      descriptor belongs to a connection that was not closed, to the epoll set or to a start that
      failed ([Descriptors]); errors are reported to the task that initialised the servers and
      to no other ([Callback]); a read
      event takes everything the kernel has; the server registers exactly the
      clients it expects, by the name in the client's hello; two clients never dial
      the same address at once ([Client]); the threads of [BasicIO::init] carry out
      the plan of [Topology] ([NetIO]), and in whatever order they run, every peer
      has a live connection when it returns [true] ([Init]); and in whatever order those
      of [close] run, the server stops after the clients, every client that was connected is gone
      (one that failed stays counted), and [close] can return once the peers have sent their locks
      and no other task has the mutex of a connection ([Closing]). The handshake accepts
      the verified peers ([Ssl]), and [gethostip] recognises the IPv4 literals
      ([Socket]).
    - Limits.  What the code does outside these bounds is stated as well: ids of 255
      bytes and more, the empty message with an empty id, [EINTR] while writing, a
      failed creation, connect or start, odd message ids, time-outs that overflow,
      a refused peer that tries again.

    ** Bounds and fuel

    Ring counters are 64-bit; theorems about [write] ask that three times the bytes
    involved stay below 2^63, since growing multiplies the size.  [loop_recv] takes
    fuel, one unit per iteration: one more than the number of complete messages is
    enough for it to reach its wait ([Connection.loop_recv_sorts]), and with the
    empty message no fuel is.  The loops over the transport recurse on the list of
    answers.  The loop in which [GetSubIO] reads announcements takes at least eight
    bytes a turn, so the length of the stream is enough fuel ([EmpIO]), and so is the
    length of the file for the loop over [fgets] ([CheckConfig]).  There, a run of at
    most 2^27 events keeps the ring counters in range.  The fresh contents of
    [new char[n]] are an arbitrary function [junk].

    ** What is not modelled

    The kernel, OpenSSL, the file system, the JSON parser and [emp::NetIO] are
    parameters, lists of answers or streams.  The network of [Link] and [Network] is
    reliable and in order, as a TCP connection is while it stands, and [Network]
    begins when every node is connected and ends before one closes.  [log_*] output
    and [GetFloat] are left out.  The programs of [examples/] and [tests/] are
    written for an older interface (constructors, [recv] and [send] with other
    parameters, statistics members) that the library no longer has; only
    [example/check_config_json.cpp] fits it.  Left out are
    the certificate whitelist, which is code after a [return], and the signal
    handler, which is never installed. *)
From stdpp Require Export prelude gmap strings list numbers relations.
From Stdlib Require Import Strings.Byte.
From Stdlib Require Export Lia ZifyBool ZifyNat.

#[global] Set Default Goal Selector "!".
#[export] Set Warnings "-clear-no-such-hyp".

Declare Scope io_scope.
Delimit Scope io_scope with io.
#[global] Open Scope Z_scope.

(** * Outcomes: what a C++ call can do *)

(** The C++ exceptions the modelled code throws or lets through. *)
Inductive exn :=
  | length_error                      (** [std::string::resize] beyond [max_size] *)
  | system_error                      (** [std::thread::join] of no thread *)
  | other_exp (msg : string)          (** [rtt_exceptions.h] *)
  | socket_exp (msg : string).

(** Behaviour the C++ standard leaves undefined, and failed assertions. *)
Inductive fault :=
  | OutOfBounds                       (** an access outside an allocated block *)
  | DivByZero
  | SignedOverflow
  | BadIterator                       (** [*m.end()] *)
  | DoubleFree
  | Dangling                          (** a use of an object after its end *)
  | NullPointer
  | AssertFailed.                     (** [RAPIDJSON_ASSERT] *)

(** [Sleep] is a call whose wait predicate is false: the thread sleeps on the
    condition variable and the call has not returned. *)
Inductive outcome (A : Type) :=
  | Ok (a : A)
  | Sleep
  | Throw (e : exn)
  | UB (f : fault).
Arguments Ok {_} _.
Arguments Sleep {_}.
Arguments Throw {_} _.
Arguments UB {_} _.

#[global] Instance outcome_ret : MRet outcome := λ A, Ok.
#[global] Instance outcome_bind : MBind outcome := λ A B f m,
  match m with
  | Ok a => f a
  | Sleep => Sleep
  | Throw e => Throw e
  | UB u => UB u
  end.
#[global] Instance outcome_fmap : FMap outcome := λ A B f m, m ≫= λ a, Ok (f a).

#[global] Instance exn_eq_dec : EqDecision exn.
Proof. solve_decision. Defined.
#[global] Instance fault_eq_dec : EqDecision fault.
Proof. solve_decision. Defined.
#[global] Instance outcome_eq_dec `{EqDecision A} : EqDecision (outcome A).
Proof. solve_decision. Defined.

(** A loop over the elements of a container. *)
Fixpoint for_each {S A : Type} (f : S → A → outcome S) (s : S) (l : list A) : outcome S :=
  match l with
  | [] => mret s
  | a :: l => s ← f s a; for_each f s l
  end.

(** A condition-variable wait under the lock, and a checked precondition. *)
Definition wait_until (b : bool) : outcome unit := if b then Ok () else Sleep.
Definition require (b : bool) (f : fault) : outcome unit := if b then Ok () else UB f.

(** * Machine integers *)

Definition u8 (z : Z) : Z := z `mod` 2 ^ 8.
Definition u64 (z : Z) : Z := z `mod` 2 ^ 64.
Definition s64 (z : Z) : Z := (z + 2 ^ 63) `mod` 2 ^ 64 - 2 ^ 63.

Notation "a -₆₄ b" := (u64 (a - b)) (at level 50, left associativity) : io_scope.
Notation "a +₆₄ b" := (u64 (a + b)) (at level 50, left associativity) : io_scope.
Notation "a *₆₄ b" := (u64 (a * b)) (at level 40, left associativity) : io_scope.
#[global] Open Scope io_scope.

(** Unsigned 64-bit division and remainder: undefined on a zero divisor. *)
Definition div64 (a b : Z) : outcome Z := if b =? 0 then UB DivByZero else Ok (a `div` b).
Definition mod64 (a b : Z) : outcome Z := if b =? 0 then UB DivByZero else Ok (a `mod` b).

(** Signed 32-bit arithmetic: a result out of range is undefined. *)
Definition int_ok (z : Z) : bool := (- 2 ^ 31 <=? z) && (z <? 2 ^ 31).
Definition int32 (z : Z) : outcome Z := if int_ok z then Ok z else UB SignedOverflow.

(** * Bytes, [char*] blocks and [std::string] *)

Abbreviation byte := Byte.byte.
(** A [std::string], or the block a [char*] points to. *)
Abbreviation bytes := (list Byte.byte).

Definition Z_of_byte (b : byte) : Z := Z.of_N (Byte.to_N b).
Definition byte_of_Z (z : Z) : byte :=
  match Byte.of_N (Z.to_N (u8 z)) with Some b => b | None => x00 end.

#[global] Instance byte_eq_dec : EqDecision byte := Byte.byte_eq_dec.
#[global] Instance byte_countable : Countable byte.
Proof. refine (inj_countable Byte.to_N Byte.of_N _). apply Byte.of_to_N. Defined.
#[global] Instance byte_inhabited : Inhabited byte := populate x00.

(** The C string in a block: what [const char*] readers see of it. *)
Fixpoint c_str (s : bytes) : bytes :=
  match s with
  | [] => []
  | b :: s => if decide (b = x00) then [] else b :: c_str s
  end.

(** No NUL, which [c_str()] cuts at. *)
Definition text (s : bytes) : Prop := c_str s = s.

(** A string literal. *)
Definition str (s : string) : bytes := String.list_byte_of_string s.

Definition zlen {A} (l : list A) : Z := Z.of_nat (length l).
Definition ztake {A} (n : Z) (l : list A) : list A := take (Z.to_nat n) l.
Definition zdrop {A} (n : Z) (l : list A) : list A := drop (Z.to_nat n) l.

(** [memcpy (dst + doff) (src + soff) len]: both ranges must lie in their blocks. *)
Definition memcpy (dst : bytes) (doff : Z) (src : bytes) (soff len : Z) : outcome bytes :=
  if (0 <=? doff) && (0 <=? soff) && (0 <=? len)
     && (doff + len <=? zlen dst) && (soff + len <=? zlen src)
  then Ok (ztake doff dst ++ ztake len (zdrop soff src) ++ zdrop (doff + len) dst)
  else UB OutOfBounds.

(** [new char[n]]: the initial contents are indeterminate, so they come from the
    arbitrary function [junk]. *)
Definition new_char (junk : nat → byte) (n : Z) : bytes := junk <$> seq 0 (Z.to_nat n).

(** [memset p 0 n] on a whole block of [n] bytes. *)
Definition zeros (n : Z) : bytes := replicate (Z.to_nat n) x00.

(** [std::string::resize]: truncate, or pad with NUL; throws beyond [max_size]. *)
Definition string_max_size : Z := 2 ^ 63 - 1.
Definition string_resize (s : bytes) (n : Z) : outcome bytes :=
  if string_max_size <? n then Throw length_error
  else Ok (ztake n s ++ zeros (n - zlen s)).

(** ** Little-endian integers: [memcpy(p, &n, sizeof n)] and [*(uint64_t* )p] *)

Fixpoint le_bytes (k : nat) (z : Z) : bytes :=
  match k with
  | O => []
  | S k => byte_of_Z z :: le_bytes k (z `div` 256)
  end.

Arguments le_bytes : simpl never.

Fixpoint le_value (l : bytes) : Z :=
  match l with
  | [] => 0
  | b :: l => Z_of_byte b + 256 * le_value l
  end.

(** [sizeof(uint64_t)] and [sizeof(uint8_t)]. *)
Abbreviation sz64 := 8.
Abbreviation sz8 := 1.

Definition load_u64 (p : bytes) (off : Z) : outcome Z :=
  if (0 <=? off) && (off + sz64 <=? zlen p)
  then Ok (le_value (ztake sz64 (zdrop off p))) else UB OutOfBounds.
Definition load_u8 (p : bytes) (off : Z) : outcome Z :=
  if (0 <=? off) && (off + sz8 <=? zlen p)
  then Ok (le_value (ztake sz8 (zdrop off p))) else UB OutOfBounds.

(** Conversion to [int], and the four bytes of an [int]. *)
Definition to_int (z : Z) : Z := (z + 2 ^ 31) `mod` 2 ^ 32 - 2 ^ 31.
Definition int_bytes (z : Z) : bytes := le_bytes 4 z.

(** * Transition systems *)

(** A property that every step keeps: what the components that share a state
    promise to each other whatever the order in which they move. *)
Class Invariant {W : Type} (step : relation W) (I : W → Prop) : Prop :=
  invariant_step : ∀ w w', I w → step w w' → I w'.

(** Steps that the outside sees carry an event; [None] is an internal step.  A run
    shows the events of its steps in order. *)
Inductive trace {E W : Type} (step : option E → relation W) : W → list E → W → Prop :=
  | trace_nil w : trace step w [] w
  | trace_step w l w1 es w' :
      step l w w1 → trace step w1 es w' → trace step w (option_list l ++ es) w'.
Arguments trace_nil {_ _ _} _.
Arguments trace_step {_ _ _} _ _ _ _ _ _ _.

(** What an implementation promises to its specification: every step is matched by
    a run of the specification that shows the same event. *)
Class Simulation {E W V : Type} (impl : option E → relation W) (spec : option E → relation V)
    (R : W → V → Prop) : Prop :=
  simulates : ∀ w v l w', R w v → impl l w w' → ∃ v', R w' v' ∧ trace spec v (option_list l) v'.

(** * Lemmas *)

(** ** Transition systems *)

Lemma invariant_rtc {W} (step : relation W) (I : W → Prop) `{!Invariant step I} w w' :
  I w → rtc step w w' → I w'.
Proof.
  intros H Hr. revert H. induction Hr as [|w w1 w' Hs _ IH]; [done|]. intros H.
  apply IH. by apply (invariant_step w w1 H).
Qed.

#[export] Instance invariant_and {W} (step : relation W) (I J : W → Prop) :
  Invariant step I → Invariant step J → Invariant step (λ w, I w ∧ J w).
Proof. intros HI HJ w w' [] Hs. split; [by eapply HI|by eapply HJ]. Qed.

Section traces.
Context {E W : Type} {step : option E → relation W}.

Lemma trace_app w1 es1 w2 es2 w3 :
  trace step w1 es1 w2 → trace step w2 es2 w3 → trace step w1 (es1 ++ es2) w3.
Proof.
  intros H1 H2. induction H1; [done|]. rewrite <- app_assoc. econstructor; eauto.
Qed.

Lemma trace_one w l w' : step l w w' → trace step w (option_list l) w'.
Proof. intros H. rewrite <- (app_nil_r (option_list l)). by eapply trace_step, trace_nil. Qed.

Lemma trace_silent w w' : rtc (step None) w w' → trace step w [] w'.
Proof. induction 1; [constructor|]. by eapply (trace_step _ None _ []). Qed.

(** An invariant of the steps whose events satisfy [Q] is one of the runs. *)
Lemma trace_inv (Q : E → Prop) (I : W → Prop) w es w' :
  (∀ l w w', Forall Q (option_list l) → I w → step l w w' → I w') →
  Forall Q es → I w → trace step w es w' → I w'.
Proof.
  intros HI HQ H Ht. induction Ht as [|w l w1 es w' Hs _ IH]; [done|].
  apply Forall_app in HQ as [? ?]. eauto.
Qed.

(** Runs without events, and runs with one. *)
Lemma trace_none {V} {step' : option E → relation V} (f : W → V) w w' :
  (∀ w w', step None w w' → step' None (f w) (f w')) →
  trace step w [] w' → trace step' (f w) [] (f w').
Proof.
  intros Hf Ht. remember [] as es eqn:Ees. induction Ht as [|w [e|] w1 es w' Hs _ IH]; [constructor|done|].
  cbn in Ees. subst es. apply (trace_step (f w) None (f w1) [] (f w')); [by apply Hf|by apply IH].
Qed.

Lemma trace_single {V} {step' : option E → relation V} (f g : W → V) w e w' :
  (∀ w w', step None w w' → step' None (f w) (f w')) →
  (∀ w w', step None w w' → step' None (g w) (g w')) →
  (∀ w w', step (Some e) w w' → step' (Some e) (f w) (g w')) →
  trace step w [e] w' → trace step' (f w) [e] (g w').
Proof.
  intros Hf Hg He Ht. remember [e] as es eqn:Ees. induction Ht as [|w [e'|] w1 es w' Hs Ht IH]; [done| |].
  - injection Ees as -> ->. apply (trace_step (f w) (Some e) (g w1) [] (g w')); [by apply He|].
    by apply (trace_none g).
  - cbn in Ees. subst es. apply (trace_step (f w) None (f w1) [e] (g w')); [by apply Hf|by apply IH].
Qed.
End traces.

(** A simulation matches whole runs. *)
Lemma simulation_trace {E W V} (step : option E → relation W) (spec : option E → relation V)
    (R : W → V → Prop) `{!Simulation step spec R} w v es w' :
  R w v → trace step w es w' → ∃ v', R w' v' ∧ trace spec v es v'.
Proof.
  intros HR Ht. revert v HR. induction Ht as [w|w l w1 es w' Hs _ IH]; intros v HR.
  { exists v. split; [done|constructor]. }
  destruct (simulates w v l w1 HR Hs) as (v1 & HR1 & Ht1).
  destruct (IH v1 HR1) as (v' & HR' & Ht'). exists v'. split; [done|]. by eapply trace_app.
Qed.

(** ** Outcomes *)

Lemma bind_Ok {A B} (m : outcome A) (f : A → outcome B) b :
  m ≫= f = Ok b ↔ ∃ a, m = Ok a ∧ f a = Ok b.
Proof. split; [destruct m; eauto; discriminate | by intros (a & -> & ?)]. Qed.

Lemma fmap_Ok {A B} (m : outcome A) (f : A → B) b :
  f <$> m = Ok b ↔ ∃ a, m = Ok a ∧ b = f a.
Proof.
  split; [destruct m; try discriminate; injection 1; eauto | by intros (a & -> & ->)].
Qed.

Lemma wait_until_Ok b : wait_until b = Ok () ↔ b = true.
Proof. destruct b; naive_solver. Qed.

Lemma require_Ok b f : require b f = Ok () ↔ b = true.
Proof. destruct b; naive_solver. Qed.

Lemma bind_assoc {A B C} (m : outcome A) (f : A → outcome B) (g : B → outcome C) :
  (m ≫= f) ≫= g = m ≫= λ a, f a ≫= g.
Proof. by destruct m. Qed.

(** An invariant of a loop. *)
Lemma for_each_inv {S A} (f : S → A → outcome S) (P : S → Prop) l : ∀ s s',
  (∀ s a s', a ∈ l → P s → f s a = Ok s' → P s') → P s → for_each f s l = Ok s' → P s'.
Proof.
  induction l as [|a l IH]; intros s s' Hf H E; cbn in E; [by injection E as <-|].
  apply bind_Ok in E as (s1 & E1 & E). apply (IH s1); [|by eapply Hf; [left|..]|done].
  intros ? ? ? ?. apply Hf. by right.
Qed.

Lemma for_each_total {S A} (f : S → A → outcome S) (P : S → Prop) l : ∀ s,
  (∀ s a, a ∈ l → P s → ∃ s', f s a = Ok s' ∧ P s') → P s → ∃ s', for_each f s l = Ok s' ∧ P s'.
Proof.
  induction l as [|a l IH]; intros s Hf H; cbn; [eauto|].
  destruct (Hf s a) as (s1 & E & H1); [by left|done|]. rewrite E. apply IH; [|done]. intros s2 b Hb. apply Hf. by right.
Qed.

Lemma for_each_snoc {S A} (f : S → A → outcome S) s l a :
  for_each f s (l ++ [a]) = for_each f s l ≫= λ s, f s a.
Proof.
  revert s. induction l as [|b l IH]; intros s; cbn; [by destruct (f s a)|].
  destruct (f s b); cbn; [apply IH|done..].
Qed.

(** Splits hypotheses [m ≫= f = Ok b] into the steps that returned. *)
Ltac outcome_inv :=
  repeat match goal with
  | H : _ ≫= _ = Ok _ |- _ => apply bind_Ok in H as (? & ? & ?)
  | H : _ <$> _ = Ok _ |- _ => apply fmap_Ok in H as (? & ? & ?)
  | H : wait_until _ = Ok _ |- _ => apply wait_until_Ok in H
  | H : require _ _ = Ok _ |- _ => apply require_Ok in H
  | H : Ok _ = Ok _ |- _ => injection H as H; subst
  | H : mret _ = Ok _ |- _ => injection H as H; subst
  | x : unit |- _ => destruct x
  | x : (_ * _)%type |- _ => destruct x
  | _ => progress simplify_eq/=
  end.

(** Case analysis on the outermost [if] of the goal; [lia] discards the
    branches the context excludes. *)
Ltac zif :=
  match goal with
  | |- context [if ?c then _ else _] =>
    lazymatch type of c with bool => destruct c eqn:? end
  end; try lia.

(** Case analysis on every boolean comparison of integers in the goal. *)
Ltac zbool :=
  repeat match goal with
  | |- context [?a <=? ?b] => destruct (Z.leb_spec a b)
  | |- context [?a <? ?b] => destruct (Z.ltb_spec a b)
  | |- context [?a =? ?b] => destruct (Z.eqb_spec a b)
  end.

(** ** Integers *)

Lemma u64_small z : 0 ≤ z < 2 ^ 64 → u64 z = z.
Proof. apply Z.mod_small. Qed.

Lemma u64_range z : 0 ≤ u64 z < 2 ^ 64.
Proof. by apply Z.mod_pos_bound. Qed.

Lemma u64_idemp z : u64 (u64 z) = u64 z.
Proof. apply u64_small, u64_range. Qed.

Lemma u8_range z : 0 ≤ u8 z < 256.
Proof. by apply Z.mod_pos_bound. Qed.

Lemma s64_small z : - 2 ^ 63 ≤ z < 2 ^ 63 → s64 z = z.
Proof. intros. unfold s64. rewrite Z.mod_small; lia. Qed.

(** Removes the wrap-around of every [u64] whose argument [lia] proves in range. *)
Ltac u64_simpl :=
  repeat match goal with |- context [u64 ?z] => rewrite (u64_small z) by lia end.

(** [x mod n] for [x] in [0, 2n), the only case a ring index needs. *)
Lemma mod_ring x n : 0 ≤ x < 2 * n → (x < n ∧ x `mod` n = x) ∨ (n ≤ x ∧ x `mod` n = x - n).
Proof.
  intros. destruct (Z.lt_ge_cases x n); [left|right]; (split; [done|]).
  - apply Z.mod_small. lia.
  - rewrite <- (Z_mod_plus_full x (-1)). apply Z.mod_small. lia.
Qed.

(** Names the value of every ring index of the goal. *)
Ltac zring :=
  repeat match goal with
  | |- context [?x `mod` ?n] =>
    let m := fresh "m" in let Hm := fresh "Hm" in
    assert (Hm : (x < n ∧ x `mod` n = x) ∨ (n ≤ x ∧ x `mod` n = x - n)) by (apply mod_ring; lia);
    set (m := x `mod` n) in *; clearbody m
  end.

(** ** Lengths *)

Section Zlist.
Context {A : Type}.
Implicit Types (l k : list A) (n m : Z).

Lemma zlen_nonneg l : 0 ≤ zlen l.
Proof. unfold zlen. lia. Qed.
Lemma zlen_nil : zlen (@nil A) = 0.
Proof. done. Qed.
Lemma zlen_cons (x : A) l : zlen (x :: l) = 1 + zlen l.
Proof. unfold zlen. simpl. lia. Qed.
Lemma zlen_app l k : zlen (l ++ k) = zlen l + zlen k.
Proof. unfold zlen. rewrite length_app. lia. Qed.
Lemma zlen_ztake n l : zlen (ztake n l) = Z.min (Z.max 0 n) (zlen l).
Proof. unfold zlen, ztake. rewrite length_take. lia. Qed.
Lemma zlen_zdrop n l : zlen (zdrop n l) = Z.max 0 (zlen l - Z.max 0 n).
Proof. unfold zlen, zdrop. rewrite length_drop. lia. Qed.
Lemma zlen_zero_nil l : zlen l = 0 → l = [].
Proof. destruct l; [done|]. rewrite zlen_cons. pose proof (zlen_nonneg l). lia. Qed.

Lemma ztake_zdrop n l : ztake n l ++ zdrop n l = l.
Proof. apply take_drop. Qed.
Lemma ztake_ge n l : zlen l ≤ n → ztake n l = l.
Proof. unfold zlen, ztake. intros. apply take_ge. lia. Qed.
Lemma zdrop_ge n l : zlen l ≤ n → zdrop n l = [].
Proof. unfold zlen, zdrop. intros. apply drop_ge. lia. Qed.
Lemma ztake_0 n l : n ≤ 0 → ztake n l = [].
Proof. unfold ztake. intros. by replace (Z.to_nat n) with O by lia. Qed.
Lemma zdrop_0 n l : n ≤ 0 → zdrop n l = l.
Proof. unfold zdrop. intros. by replace (Z.to_nat n) with O by lia. Qed.
Lemma ztake_app n l k : ztake n (l ++ k) = ztake n l ++ ztake (n - zlen l) k.
Proof. unfold ztake, zlen. rewrite take_app. do 2 f_equal. lia. Qed.
Lemma zdrop_app n l k : zdrop n (l ++ k) = zdrop n l ++ zdrop (n - zlen l) k.
Proof. unfold zdrop, zlen. rewrite drop_app. do 2 f_equal. lia. Qed.
Lemma zdrop_zdrop n m l : 0 ≤ n → 0 ≤ m → zdrop n (zdrop m l) = zdrop (n + m) l.
Proof. unfold zdrop. intros. rewrite drop_drop. f_equal. lia. Qed.
Lemma ztake_ztake n m l : n ≤ m → ztake n (ztake m l) = ztake n l.
Proof. unfold ztake. intros. rewrite take_take. f_equal. lia. Qed.

(** Prefixes and suffixes at the end of the first list. *)
Lemma ztake_app_eq n l k : zlen l = n → ztake n (l ++ k) = l.
Proof. intros. rewrite ztake_app, ztake_ge, ztake_0, app_nil_r by lia. done. Qed.
Lemma zdrop_app_eq n l k : zlen l = n → zdrop n (l ++ k) = k.
Proof. intros. rewrite zdrop_app, zdrop_ge, zdrop_0 by lia. done. Qed.

(** [ztake] and [zdrop] by index. *)
Lemma lookup_ztake n l (i : nat) :
  0 ≤ n → ztake n l !! i = if Z.of_nat i <? n then l !! i else None.
Proof.
  unfold ztake. intros. zbool.
  - apply lookup_take_lt. lia.
  - apply lookup_take_ge. lia.
Qed.
Lemma lookup_zdrop n l (i : nat) : zdrop n l !! i = l !! (Z.to_nat n + i)%nat.
Proof. apply lookup_drop. Qed.
End Zlist.

Lemma zlen_zeros n : zlen (zeros n) = Z.max 0 n.
Proof. unfold zlen, zeros. rewrite length_replicate. lia. Qed.

Lemma zlen_new_char junk n : zlen (new_char junk n) = Z.max 0 n.
Proof. unfold zlen, new_char. rewrite length_fmap, length_seq. lia. Qed.

Lemma zlen_fmap {A B} (f : A → B) l : zlen (f <$> l) = zlen l.
Proof. unfold zlen. by rewrite length_fmap. Qed.

(** The lengths of the blocks every component builds. *)
Create Rewrite HintDb zlist.
#[export] Hint Rewrite @zlen_nil @zlen_cons @zlen_app @zlen_fmap @zlen_ztake @zlen_zdrop
  zlen_zeros zlen_new_char : zlist.

Ltac zlen_pos :=
  repeat match goal with
  | l : list _ |- _ =>
    match goal with
    | _ : 0 ≤ zlen l |- _ => fail 1
    | _ => pose proof (zlen_nonneg l)
    end
  end.
(** [lia] on goals about lengths. *)
Ltac zlia := zlen_pos; autorewrite with zlist in *; lia.

(** ** Memory *)

Lemma memcpy_ok dst doff src soff len :
  0 ≤ doff → 0 ≤ soff → 0 ≤ len → doff + len ≤ zlen dst → soff + len ≤ zlen src →
  memcpy dst doff src soff len
  = Ok (ztake doff dst ++ ztake len (zdrop soff src) ++ zdrop (doff + len) dst).
Proof.
  intros. unfold memcpy. zbool; simpl; try lia; done.
Qed.

Lemma memcpy_is_Ok dst doff src soff len :
  0 ≤ doff → 0 ≤ soff → 0 ≤ len → doff + len ≤ zlen dst → soff + len ≤ zlen src →
  ∃ res, memcpy dst doff src soff len = Ok res.
Proof. eauto using memcpy_ok. Qed.

Lemma memcpy_Ok_inv dst doff src soff len res :
  memcpy dst doff src soff len = Ok res →
  0 ≤ doff ∧ 0 ≤ soff ∧ 0 ≤ len ∧ doff + len ≤ zlen dst ∧ soff + len ≤ zlen src
  ∧ res = ztake doff dst ++ ztake len (zdrop soff src) ++ zdrop (doff + len) dst.
Proof. unfold memcpy. zbool; simpl; intros; simplify_eq; naive_solver lia. Qed.

(** A copy that fills its destination exactly. *)
Lemma memcpy_fill dst src soff len :
  0 ≤ soff → 0 ≤ len → zlen dst = len → soff + len ≤ zlen src →
  memcpy dst 0 src soff len = Ok (ztake len (zdrop soff src)).
Proof.
  intros. rewrite memcpy_ok by lia.
  rewrite ztake_0, (zdrop_ge (0 + len) dst), app_nil_r by lia. done.
Qed.

(** Two consecutive copies at the front of the destination. *)
Lemma memcpy_memcpy dst s1 o1 l1 s2 o2 l2 :
  0 ≤ o1 → 0 ≤ o2 → 0 ≤ l1 → 0 ≤ l2 → l1 + l2 ≤ zlen dst →
  o1 + l1 ≤ zlen s1 → o2 + l2 ≤ zlen s2 →
  (memcpy dst 0 s1 o1 l1 ≫= λ d, memcpy d l1 s2 o2 l2)
  = Ok (ztake l1 (zdrop o1 s1) ++ ztake l2 (zdrop o2 s2) ++ zdrop (l1 + l2) dst).
Proof.
  intros. rewrite (memcpy_ok dst) by lia. cbn [mbind outcome_bind].
  rewrite ztake_0 by lia. cbn [app].
  assert (zlen (ztake l1 (zdrop o1 s1)) = l1) by zlia.
  rewrite memcpy_ok by zlia.
  rewrite ztake_app_eq, zdrop_app by done.
  rewrite (zdrop_ge (l1 + l2)), zdrop_zdrop by lia. cbn [app].
  do 4 f_equal. lia.
Qed.

Lemma zlen_memcpy dst doff src soff len res :
  memcpy dst doff src soff len = Ok res → zlen res = zlen dst.
Proof.
  intros (?&?&?&?&?&->)%memcpy_Ok_inv. zlia.
Qed.

Lemma string_resize_ok s n :
  n ≤ string_max_size → string_resize s n = Ok (ztake n s ++ zeros (n - zlen s)).
Proof. intros. unfold string_resize. zbool; [lia|done]. Qed.

Lemma zlen_resize s n : 0 ≤ n → zlen (ztake n s ++ zeros (n - zlen s)) = n.
Proof.
  intros. rewrite zlen_app. unfold zlen, ztake, zeros.
  rewrite length_take, length_replicate. lia.
Qed.

(** [s.resize(n); memcpy(&s[0], src + off, s.size())] *)
Lemma resize_memcpy {A} s n src off (f : bytes → outcome A) :
  0 ≤ n ≤ string_max_size → 0 ≤ off → off + n ≤ zlen src →
  (string_resize s n ≫= λ s, memcpy s 0 src off (zlen s) ≫= f) = f (ztake n (zdrop off src)).
Proof.
  intros. rewrite string_resize_ok by lia. cbn.
  assert (zlen (ztake n s ++ zeros (n - zlen s)) = n) as -> by (apply zlen_resize; lia).
  rewrite memcpy_fill; [done|lia..|apply zlen_resize; lia|lia].
Qed.

(** What a copy leaves at each index of the destination. *)
Lemma memcpy_lookup dst doff src soff len res (i : nat) :
  memcpy dst doff src soff len = Ok res →
  res !! i =
    if (doff <=? Z.of_nat i) && (Z.of_nat i <? doff + len)
    then src !! Z.to_nat (soff + (Z.of_nat i - doff)) else dst !! i.
Proof.
  intros (?&?&?&?&?&->)%memcpy_Ok_inv. unfold ztake, zdrop, zlen in *.
  destruct (decide (Z.of_nat i < doff)).
  { rewrite lookup_app_l by (rewrite length_take; lia).
    rewrite lookup_take_lt by lia. zbool; simpl; lia || done. }
  rewrite lookup_app_r by (rewrite length_take; lia). rewrite length_take.
  destruct (decide (Z.of_nat i < doff + len)).
  - rewrite lookup_app_l by (rewrite length_take, length_drop; lia).
    rewrite lookup_take_lt, lookup_drop by lia.
    zbool; simpl; try lia. f_equal. lia.
  - rewrite lookup_app_r, length_take, length_drop, lookup_drop by
      (rewrite length_take, length_drop; lia).
    zbool; simpl; try lia; f_equal; lia.
Qed.

(** ** Bytes and little-endian integers *)

Lemma Z_of_byte_range b : 0 ≤ Z_of_byte b < 256.
Proof. unfold Z_of_byte. pose proof (Byte.to_N_bounded b). lia. Qed.

Lemma byte_of_Z_of_byte b : byte_of_Z (Z_of_byte b) = b.
Proof.
  unfold byte_of_Z, u8, Z_of_byte. pose proof (Z_of_byte_range b).
  rewrite Z.mod_small by (unfold Z_of_byte in *; lia).
  by rewrite N2Z.id, Byte.of_to_N.
Qed.

Lemma Z_of_byte_of_Z z : Z_of_byte (byte_of_Z z) = u8 z.
Proof.
  unfold byte_of_Z, Z_of_byte. pose proof (u8_range z).
  destruct (Byte.of_N _) as [b|] eqn:E.
  - apply Byte.to_of_N in E. rewrite E. lia.
  - apply Byte.of_N_None_iff in E. lia.
Qed.

Lemma byte_of_Z_u8 z : byte_of_Z (u8 z) = byte_of_Z z.
Proof. unfold byte_of_Z, u8. by rewrite Zmod_mod. Qed.

Lemma u8_small z : 0 ≤ z < 256 → u8 z = z.
Proof. apply Z.mod_small. Qed.

#[global] Instance Z_of_byte_inj : Inj (=) (=) Z_of_byte.
Proof. intros a b E. by rewrite <- (byte_of_Z_of_byte a), E, byte_of_Z_of_byte. Qed.

Lemma length_le_bytes k z : length (le_bytes k z) = k.
Proof. revert z. induction k as [|k IH]; intros z; [done|]. exact (f_equal S (IH _)). Qed.

Lemma zlen_le_bytes k z : zlen (le_bytes k z) = Z.of_nat k.
Proof. unfold zlen. by rewrite length_le_bytes. Qed.
#[export] Hint Rewrite zlen_le_bytes : zlist.

Lemma le_value_le_bytes k z : 0 ≤ z → le_value (le_bytes k z) = z `mod` 2 ^ (8 * Z.of_nat k).
Proof.
  revert z. induction k as [|k IH]; intros z Hz; [by rewrite Z.mod_1_r|].
  change (le_bytes (S k) z) with (byte_of_Z z :: le_bytes k (z `div` 256)).
  cbn [le_value]. rewrite IH, Z_of_byte_of_Z by (apply Z.div_pos; lia).
  replace (8 * Z.of_nat (S k)) with (8 + 8 * Z.of_nat k) by lia.
  rewrite Z.pow_add_r, Z.rem_mul_r by lia. done.
Qed.

Lemma zlen_int_bytes z : zlen (int_bytes z) = 4.
Proof. apply zlen_le_bytes. Qed.
#[export] Hint Rewrite zlen_int_bytes : zlist.

Lemma to_int_small z : - 2 ^ 31 ≤ z < 2 ^ 31 → to_int z = z.
Proof. intros. unfold to_int. rewrite Z.mod_small; lia. Qed.

Lemma int_bytes_value z : 0 ≤ z < 2 ^ 31 → to_int (le_value (int_bytes z)) = z.
Proof.
  intros. unfold int_bytes. rewrite le_value_le_bytes by lia.
  change (8 * Z.of_nat 4) with 32. rewrite (Z.mod_small z) by lia. apply to_int_small. lia.
Qed.

Lemma le_value_range l : 0 ≤ le_value l < 2 ^ (8 * zlen l).
Proof.
  induction l as [|b l IH]; simpl; [done|].
  pose proof (Z_of_byte_range b). pose proof (zlen_nonneg l).
  rewrite zlen_cons, Z.mul_add_distr_l, Z.pow_add_r by lia. lia.
Qed.

Lemma le_value_sz8 b : le_value [b] = Z_of_byte b.
Proof. simpl. lia. Qed.

Lemma load_u64_ok p off :
  0 ≤ off → off + sz64 ≤ zlen p → load_u64 p off = Ok (le_value (ztake sz64 (zdrop off p))).
Proof. intros. unfold load_u64. zbool; simpl; lia || done. Qed.

Lemma load_u8_ok p off :
  0 ≤ off → off + sz8 ≤ zlen p → load_u8 p off = Ok (le_value (ztake sz8 (zdrop off p))).
Proof. intros. unfold load_u8. zbool; simpl; lia || done. Qed.
