(* ===== verification/Queue.v ===== *)
(** The interface of a byte queue: the requests its clients make, the replies of a
    plain list of bytes, and what an implementation promises.  Clients that make a
    sequence of requests are verified against the interface; the ring buffer of
    [CycleBuffer] is an instance of it. *)
From Stdlib Require Import Strings.Byte.
From S2P Require Import Prelude.
#[local] Open Scope Z_scope.

Inductive request :=
  | Write (d : bytes)
  | Read (len : Z)
  | Peek (len : Z)
  | CanRead (len : Z).

(** What a request returns: bytes and an integer. *)
Abbreviation reply := (bytes * Z)%type.

(** The specification: a list of bytes, oldest first. *)
Definition serve_queue (q : bytes) (r : request) : outcome (reply * bytes) :=
  match r with
  | Write d => mret (([], zlen d), q ++ d)
  | Read len => if len <=? zlen q then mret ((ztake len q, len), zdrop len q) else Sleep
  | Peek len => if len <=? zlen q then mret ((ztake len q, len), q) else Sleep
  | CanRead len => mret (([], Z.b2z (len <=? zlen q)), q)
  end.

Definition request_ok (r : request) : bool :=
  match r with Write _ => true | Read len | Peek len | CanRead len => 0 <=? len end.

Definition request_bytes (r : request) : Z := match r with Write d => zlen d | _ => 0 end.

(** Serves requests in turn; one that sleeps is given up and changes nothing. *)
Fixpoint serve_all {S} (serve : S → request → outcome (reply * S)) (s : S) (rs : list request)
    : outcome (list (option reply) * S) :=
  match rs with
  | [] => mret ([], s)
  | r :: rs =>
    match serve s r with
    | Ok (a, s) => '(l, s) ← serve_all serve s rs; mret (Some a :: l, s)
    | Sleep => '(l, s) ← serve_all serve s rs; mret (None :: l, s)
    | Throw e => Throw e
    | UB f => UB f
    end
  end.

Fixpoint total_bytes (rs : list request) : Z :=
  match rs with [] => 0 | r :: rs => request_bytes r + total_bytes rs end.

Lemma total_bytes_nonneg rs : 0 ≤ total_bytes rs.
Proof. induction rs as [|[]]; simpl; zlia. Qed.

(** An implementation in state [s] holds the bytes [bq_contents s], and as long as
    their number stays in bounds it serves a request like the list does. *)
Class ByteQueue (S : Type) (serve : S → request → outcome (reply * S)) := {
  bq_wf : S → Prop;
  bq_contents : S → bytes;
  bq_serve s r :
    bq_wf s → request_ok r = true → 3 * (zlen (bq_contents s) + request_bytes r) < 2 ^ 63 →
    match serve_queue (bq_contents s) r with
    | Ok (a, q) => ∃ s', serve s r = Ok (a, s') ∧ bq_wf s' ∧ bq_contents s' = q
    | o => serve s r = Sleep ∧ o = Sleep
    end
}.

Lemma serve_queue_length q r a q' :
  serve_queue q r = Ok (a, q') → zlen q' ≤ zlen q + request_bytes r.
Proof.
  unfold serve_queue, mret, outcome_ret.
  destruct r; repeat case_match; intros [= <- <-] || discriminate; cbn [request_bytes]; zlia.
Qed.

(** Any implementation refines the list over any sequence of requests. *)
Lemma serve_all_refines {St} {serve : St → request → outcome (reply * St)} `{!ByteQueue St serve} rs : ∀ s,
  bq_wf s → forallb request_ok rs = true → 3 * (zlen (bq_contents s) + total_bytes rs) < 2 ^ 63 →
  ∃ replies s', serve_all serve s rs = Ok (replies, s') ∧ bq_wf s'
    ∧ serve_all serve_queue (bq_contents s) rs = Ok (replies, bq_contents s').
Proof.
  induction rs as [|r rs IH]; intros s Hs Hok Hmax; [by exists [], s|].
  cbn [forallb total_bytes] in *. apply andb_true_iff in Hok as [Hr Hok].
  pose proof (total_bytes_nonneg rs).
  pose proof (bq_serve s r Hs Hr) as Hone. cbn [serve_all].
  destruct (serve_queue (bq_contents s) r) as [[a q]| | |] eqn:E.
  - destruct Hone as (s1 & -> & H1 & Hc1); [lia|]. apply serve_queue_length in E.
    destruct (IH s1) as (l & s' & -> & H' & Hq); [done..|rewrite Hc1; lia|].
    exists (Some a :: l), s'. rewrite <- Hc1, Hq. done.
  - destruct Hone as [-> _]; [lia|].
    destruct (IH s) as (l & s' & -> & H' & Hq); [done..|destruct r; cbn in *; zlia|].
    exists (None :: l), s'. by rewrite Hq.
  - destruct Hone as [_ [=]]. lia.
  - destruct Hone as [_ [=]]. lia.
Qed.
