(* ===== verification/Timer.v ===== *)
(** [SimpleTimer] of [include/io/internal/simple_timer.h] and
    [src/_internal/simple_timer.cpp].  A reading of [steady_clock] is an integer
    number of nanoseconds and is an argument of the operations that take it.
    [elapse] is the exact rational number of seconds; the code rounds it to a
    [double]. *)
From Stdlib Require Import QArith.
From S2P Require Import Prelude.
#[local] Open Scope Z_scope.

Record SimpleTimer := Timer { stoped : bool; begin_ : Z; end_ : Z }.

Definition timer_start (now : Z) (t : SimpleTimer) : SimpleTimer := Timer false now now.

(** The constructor calls [start()]. *)
Definition timer_create (now : Z) : SimpleTimer := timer_start now (Timer false 0 0).

Definition seconds (ns : Z) : Q := ns # 1000000000.

Definition timer_stop (now : Z) (t : SimpleTimer) : Q * SimpleTimer :=
  (seconds (now - begin_ t), Timer true (begin_ t) now).

Definition ending (now : Z) (t : SimpleTimer) : Z := if stoped t then end_ t else now.

Definition elapse (now : Z) (t : SimpleTimer) : Q := seconds (ending now t - begin_ t).

(** [duration_cast] truncates towards zero. *)
Definition ms_elapse (now : Z) (t : SimpleTimer) : Z := Z.quot (ending now t - begin_ t) 1000000.
Definition us_elapse (now : Z) (t : SimpleTimer) : Z := Z.quot (ending now t - begin_ t) 1000.
Definition ns_elapse (now : Z) (t : SimpleTimer) : Z := ending now t - begin_ t.
