(* ===== verification/Stat.v ===== *)
(** The statistics of [src/_internal/stat.cpp]: counters that wrap, their sums and
    differences, and the line they are printed as. *)
From stdpp Require Import pretty.
From Stdlib Require Import Strings.Byte.
From S2P Require Import Prelude.
#[local] Open Scope Z_scope.

(** * The program *)

(** [NetStat]; [NetStat_st] holds the same counters as atomics. *)
Record NetStat := MkNetStat {
  bytes_sent_ : Z;
  bytes_received_ : Z;
  message_sent_ : Z;
  message_received_ : Z
}.

(** [NetStat_st::reset], and the initial value of both. *)
Definition net_stat_reset : NetStat := MkNetStat 0 0 0 0.

Definition net_stat_sub (ns1 ns2 : NetStat) : NetStat :=
  MkNetStat (bytes_sent_ ns1 -₆₄ bytes_sent_ ns2) (bytes_received_ ns1 -₆₄ bytes_received_ ns2)
            (message_sent_ ns1 -₆₄ message_sent_ ns2) (message_received_ ns1 -₆₄ message_received_ ns2).

Definition net_stat_add (ns1 ns2 : NetStat) : NetStat :=
  MkNetStat (bytes_sent_ ns1 +₆₄ bytes_sent_ ns2) (bytes_received_ ns1 +₆₄ bytes_received_ ns2)
            (message_sent_ ns1 +₆₄ message_sent_ ns2) (message_received_ ns1 +₆₄ message_received_ ns2).

(** [std::setw(n) << z]: padded with spaces on the left. *)
Definition setw (n : Z) (z : Z) : bytes :=
  let s := str (pretty z) in replicate (Z.to_nat (n - zlen s)) " "%byte ++ s.

Definition fmt_string (ns : NetStat) : bytes :=
  str " bytes sent:" ++ setw 15 (bytes_sent_ ns)
  ++ str " bytes recv:" ++ setw 15 (bytes_received_ ns)
  ++ str " msges sent:" ++ setw 6 (message_sent_ ns)
  ++ str " msges recv:" ++ setw 6 (message_received_ ns).

(** * Lemmas *)

(** The counters of a [NetStat] are 64-bit. *)
Definition stat_ok (ns : NetStat) : Prop :=
  Forall (λ z, 0 ≤ z < 2 ^ 64)
         [bytes_sent_ ns; bytes_received_ ns; message_sent_ ns; message_received_ ns].

Lemma add_sub_64 a b : 0 ≤ a < 2 ^ 64 → (a +₆₄ b) -₆₄ b = a.
Proof.
  intros H. unfold u64. rewrite Zminus_mod_idemp_l, Z.add_simpl_r. by apply Z.mod_small.
Qed.

(** The difference of two readings is what was counted in between, also when a
    counter wrapped. *)
Lemma net_stat_add_sub ns1 ns2 : stat_ok ns1 → net_stat_sub (net_stat_add ns1 ns2) ns2 = ns1.
Proof.
  unfold stat_ok. rewrite !Forall_cons. intros (? & ? & ? & ? & _). destruct ns1.
  unfold net_stat_sub, net_stat_add. cbn in *. by rewrite !add_sub_64.
Qed.

Lemma net_stat_add_comm ns1 ns2 : net_stat_add ns1 ns2 = net_stat_add ns2 ns1.
Proof. unfold net_stat_add. f_equal; f_equal; apply Z.add_comm. Qed.

(** Shorter counters leave the line at its usual width. *)
Lemma zlen_setw n z : zlen (str (pretty z)) ≤ n → zlen (setw n z) = n.
Proof. intros H. unfold setw. rewrite zlen_app. unfold zlen in *. rewrite length_replicate. lia. Qed.
