(* ===== verification/CycleBuffer.v ===== *)
(** [cycle_buffer] of [include/io/internal/cycle_buffer.h] and
    [src/_internal/cycle_buffer.cpp]: the growing ring buffer every connection
    is built on, its invariant [wf], the byte queue [contents] it represents,
    and the theorems that each operation implements the queue. *)
From Stdlib Require Import QArith Strings.Byte.
From S2P Require Import Prelude Timer Queue.
#[local] Open Scope Z_scope.

Module cycle_buffer.

(** * The program *)

Record t := CB {
  r_pos_ : Z;                         (** read position *)
  w_pos_ : Z;                         (** write position *)
  n_ : Z;                             (** buffer size *)
  remain_space_ : Z;
  buffer_ : bytes;                    (** the block [new char[n_]] *)
  timer_ : SimpleTimer
}.

Definition size (cb : t) : Z := n_ cb -₆₄ remain_space_ cb.
Definition remain_space (cb : t) : Z := remain_space_ cb.

Definition set_timer (now : Z) (cb : t) : t :=
  CB (r_pos_ cb) (w_pos_ cb) (n_ cb) (remain_space_ cb) (buffer_ cb) (timer_start now (timer_ cb)).

Section program.
(** The indeterminate contents of a fresh [char] block. *)
Context (junk : nat → byte).

(** The constructor [cycle_buffer(uint64_t n)]. *)
Definition create (now n : Z) : t := CB 0 0 n n (new_char junk n) (timer_create now).

Definition reset (cb : t) : t := CB 0 0 (n_ cb) (n_ cb) (buffer_ cb) (timer_ cb).

(** [can_read(uint64_t length)]. *)
Definition can_read_n (cb : t) (length : Z) : bool := length <=? n_ cb -₆₄ remain_space_ cb.

Definition can_remove (now : Z) (cb : t) (s : Q) : bool :=
  (remain_space_ cb =? n_ cb) && negb (Qle_bool (elapse now (timer_ cb)) s).

(** The second critical section of [peek]. *)
Definition peek_copy (cb : t) (data : bytes) (length : Z) : outcome bytes :=
  let 'CB r w n remain buf _ := cb in
  if (w <=? r) && (0 <? n -₆₄ remain) then
    if r <=? n -₆₄ length then memcpy data 0 buf r length
    else
      let first_n := n -₆₄ r in
      data ← memcpy data 0 buf r first_n;
      memcpy data first_n buf 0 (length -₆₄ first_n)
  else if r <? w then memcpy data 0 buf r length
  else mret data.                   (* buffer is empty *)

(** Returns the value returned and the new contents of the caller's [data]. *)
Definition peek (now : Z) (cb : t) (data : bytes) (length : Z) : outcome (Z * bytes * t) :=
  _ ← wait_until (length <=? n_ cb -₆₄ remain_space_ cb);
  data ← peek_copy cb data length;
  mret (s64 length, data, set_timer now cb).

(** The 8 bytes at the read position, which may wrap around; the locals
    [dlen] and [data_len] of [can_read()] and [read(id, data)]. *)
Definition load_len_wrapped (cb : t) : outcome Z :=
  let 'CB r w n remain buf _ := cb in
  dlen ← (if r <=? n -₆₄ sz64 then memcpy (new_char junk sz64) 0 buf r sz64
          else
            dlen ← memcpy (new_char junk sz64) 0 buf r (n -₆₄ r);
            memcpy dlen (n -₆₄ r) buf 0 (sz64 -₆₄ (n -₆₄ r)));
  load_u64 dlen 0.

(** [can_read()]: is a whole message buffered? *)
Definition can_read (cb : t) : outcome bool :=
  let 'CB r w n remain buf _ := cb in
  if sz64 + sz8 <? n -₆₄ remain then
    if r <? w then
      len ← load_u64 buf r;
      mret (len <=? n -₆₄ remain)
    else if 0 <? n -₆₄ remain then
      len ← load_len_wrapped cb;
      mret (len <=? n -₆₄ remain)
    else mret false                 (* buffer is empty *)
  else mret false.

(** The locals [len] and [tmp] of [read(id, data)]: the length field and,
    when the whole message is there, the message. *)
Definition fetch_message (cb : t) : outcome (Z * bytes) :=
  let 'CB r w n remain buf _ := cb in
  if r <? w then
    len ← load_u64 buf r;
    if len <=? n -₆₄ remain then
      tmp ← string_resize [] len;
      tmp ← memcpy tmp 0 buf r len;
      mret (len, tmp)
    else mret (len, [])
  else if 0 <? n -₆₄ remain then
    len ← load_len_wrapped cb;
    if len <=? n -₆₄ remain then
      tmp ← string_resize [] len;
      if len <=? n -₆₄ r then
        tmp ← memcpy tmp 0 buf r len;
        mret (len, tmp)
      else
        tmp ← memcpy tmp 0 buf r (n -₆₄ r);
        tmp ← memcpy tmp (n -₆₄ r) buf 0 (len -₆₄ (n -₆₄ r));
        mret (len, tmp)
    else mret (len, [])
  else mret (0, []).

(** [read(string& id, string& data, node_id)]: takes one message off the
    buffer; [node_id] is only logged. *)
Definition read_message (cb : t) (id data : bytes) : outcome (Z * bytes * bytes * t) :=
  if sz64 + sz8 <? n_ cb -₆₄ remain_space_ cb then
    '(len, tmp) ← fetch_message cb;
    if sz64 + sz8 <? zlen tmp then
      len2 ← load_u8 tmp sz64;
      id ← string_resize id (len2 -₆₄ sz8);
      id ← memcpy id 0 tmp (sz64 + sz8) (zlen id);
      data ← string_resize data (len -₆₄ sz64 -₆₄ len2);
      data ← memcpy data 0 tmp (sz64 + len2) (zlen data);
      r' ← mod64 (r_pos_ cb +₆₄ len) (n_ cb);
      mret (zlen tmp, id, data,
            CB r' (w_pos_ cb) (n_ cb) (remain_space_ cb +₆₄ len) (buffer_ cb) (timer_ cb))
    else mret (0, id, data, cb)
  else mret (0, id, data, cb).

(** The second critical section of [read(data, length)]: the value of
    [length] it ends with, the data and the positions. *)
Definition read_copy (cb : t) (data : bytes) (length : Z) : outcome (Z * bytes * t) :=
  let 'CB r w n remain buf tm := cb in
  '(length, data, r) ←
    (if (w <=? r) && (0 <? n -₆₄ remain) then
       if r <=? n -₆₄ length then
         data ← memcpy data 0 buf r length;
         r ← mod64 (r +₆₄ length) n;
         mret (length, data, r)
       else
         let first_n := n -₆₄ r in
         data ← memcpy data 0 buf r first_n;
         data ← memcpy data first_n buf 0 (length -₆₄ first_n);
         mret (length, data, length -₆₄ first_n)
     else if r <? w then
       data ← memcpy data 0 buf r length;
       mret (length, data, r +₆₄ length)
     else mret (0, data, r));       (* buffer is empty *)
  mret (length, data, CB r w n (remain +₆₄ length) buf tm).

(** [read(char* data, length)]: sleeps until [length] bytes are there. *)
Definition read (now : Z) (cb : t) (data : bytes) (length : Z) : outcome (Z * bytes * t) :=
  _ ← wait_until (length <=? n_ cb -₆₄ remain_space_ cb);
  '(length, data, cb) ← read_copy cb data length;
  mret (s64 length, data, set_timer now cb).

(** The block [realloc] copies the buffered bytes into. *)
Definition relocate (cb : t) (new_n : Z) : outcome bytes :=
  let 'CB r w n remain buf _ := cb in
  let newbuffer := new_char junk new_n in
  let havesize := size cb in
  if r <? w then memcpy newbuffer 0 buf r havesize
  else if 0 <? havesize then        (* w == r may happen when buffer is empty or full *)
    let first_n := n -₆₄ r in
    newbuffer ← memcpy newbuffer 0 buf r first_n;
    if first_n <? havesize then
      memcpy newbuffer first_n buf 0 (havesize -₆₄ first_n)
    else mret newbuffer
  else mret newbuffer.

(** [realloc]: nothing when there is room, else a block at least twice as large. *)
Definition realloc (cb : t) (length : Z) : outcome t :=
  let 'CB r w n remain buf tm := cb in
  if length <=? remain then mret cb
  else
    q ← div64 length n;
    let new_n := n *₆₄ (q +₆₄ 2) in
    newbuffer ← relocate cb new_n;
    let havesize := size cb in
    mret (CB 0 havesize new_n (new_n -₆₄ havesize) newbuffer tm).

(** The second critical section of [write]. *)
Definition write_copy (cb : t) (data : bytes) (length : Z) : outcome t :=
  let 'CB r w n remain buf tm := cb in
  '(buf, w) ←
    (if (r <=? w) && (0 <? remain) then
       if w <=? n -₆₄ length then
         buf ← memcpy buf w data 0 length;
         w ← mod64 (w +₆₄ length) n;
         mret (buf, w)
       else
         let first_n := n -₆₄ w in
         buf ← memcpy buf w data 0 first_n;
         buf ← memcpy buf 0 data first_n (length -₆₄ first_n);
         mret (buf, length -₆₄ first_n)
     else if w <? r then
       buf ← memcpy buf w data 0 length;
       mret (buf, w +₆₄ length)
     else mret (buf, w));           (* logs "buffer is full" *)
  mret (CB r w n (remain -₆₄ length) buf tm).

(** [write(const char* data, length)]. *)
Definition write (now : Z) (cb : t) (data : bytes) (length : Z) : outcome (Z * t) :=
  cb ← realloc cb length;
  _ ← wait_until (length <=? remain_space_ cb);
  cb ← write_copy cb data length;
  mret (s64 length, set_timer now cb).
End program.

(** * What the buffer represents *)

(** The bytes written and not yet read, oldest first. *)
Definition contents (cb : t) : bytes :=
  ztake (n_ cb - remain_space_ cb) (zdrop (r_pos_ cb) (buffer_ cb) ++ ztake (r_pos_ cb) (buffer_ cb)).

Record wf (cb : t) : Prop := {
  wf_n : 0 < n_ cb < 2 ^ 63;             (** an allocation is at most [PTRDIFF_MAX] *)
  wf_block : zlen (buffer_ cb) = n_ cb;
  wf_r : 0 ≤ r_pos_ cb < n_ cb;
  wf_remain : 0 ≤ remain_space_ cb ≤ n_ cb;
  wf_w : w_pos_ cb = (r_pos_ cb + (n_ cb - remain_space_ cb)) `mod` n_ cb
}.

(** * Lemmas *)

(** Opens a well-formed buffer into its fields and their bounds. *)
Ltac open_wf cb H :=
  let Hn := fresh "Hn" in let Hb := fresh "Hblock" in let Hr := fresh "Hr" in
  let Hrem := fresh "Hrem" in let Hw := fresh "Hw" in
  destruct H as [Hn Hb Hr Hrem Hw]; destruct cb as [r w n remain buf tm];
  cbn [r_pos_ w_pos_ n_ remain_space_ buffer_ timer_] in *;
  apply eq_sym in Hw; match type of Hw with ?x `mod` ?n = w =>
    assert (Hring : (x < n ∧ w = x) ∨ (n ≤ x ∧ w = x - n)) by (rewrite <- Hw; apply mod_ring; lia)
  end; clear Hw.

Lemma create_wf junk now n : 0 < n < 2 ^ 63 → wf (create junk now n).
Proof.
  intros. split; cbn; try lia; [zlia|]. by rewrite Z.sub_diag, Z.mod_0_l by lia.
Qed.

Lemma create_contents junk now n : contents (create junk now n) = [].
Proof. unfold contents. cbn. by rewrite Z.sub_diag, ztake_0. Qed.

Lemma size_eq cb : wf cb → size cb = n_ cb - remain_space_ cb.
Proof. intros [????]. apply u64_small. lia. Qed.

Lemma zlen_contents cb : wf cb → zlen (contents cb) = n_ cb - remain_space_ cb.
Proof. intros [????]. unfold contents. zlia. Qed.

Lemma size_contents cb : wf cb → size cb = zlen (contents cb).
Proof. intros H. by rewrite size_eq, zlen_contents. Qed.

Lemma contents_lookup cb (i : nat) :
  wf cb →
  contents cb !! i =
    if Z.of_nat i <? n_ cb - remain_space_ cb
    then buffer_ cb !! Z.to_nat ((r_pos_ cb + Z.of_nat i) `mod` n_ cb) else None.
Proof.
  intros H. unfold contents. open_wf cb H.
  rewrite lookup_ztake by lia. destruct (Z.ltb_spec (Z.of_nat i) (n - remain)); [|done].
  unfold zlen in *. destruct (mod_ring (r + Z.of_nat i) n) as [[? ->]|[? ->]]; [lia|..].
  - rewrite lookup_app_l by (unfold zdrop; rewrite length_drop; lia).
    rewrite lookup_zdrop. f_equal. lia.
  - rewrite lookup_app_r by (unfold zdrop; rewrite length_drop; lia).
    unfold zdrop. rewrite length_drop, lookup_ztake by lia.
    destruct (Z.ltb_spec (Z.of_nat (i - (length buf - Z.to_nat r))) r); [|lia].
    f_equal. lia.
Qed.

(** The oldest [len] bytes, when they do not reach the end of the block. *)
Lemma contents_flat cb len :
  wf cb → 0 ≤ len → len ≤ n_ cb - remain_space_ cb → r_pos_ cb + len ≤ n_ cb →
  ztake len (contents cb) = ztake len (zdrop (r_pos_ cb) (buffer_ cb)).
Proof.
  intros H **. unfold contents. open_wf cb H.
  rewrite ztake_ztake, ztake_app by lia.
  rewrite (ztake_0 (len - _)) by zlia. apply app_nil_r.
Qed.

(** And when they wrap around. *)
Lemma contents_split cb len :
  wf cb → len ≤ n_ cb - remain_space_ cb → n_ cb ≤ r_pos_ cb + len →
  ztake len (contents cb)
  = ztake (n_ cb - r_pos_ cb) (zdrop (r_pos_ cb) (buffer_ cb))
    ++ ztake (len - (n_ cb - r_pos_ cb)) (zdrop 0 (buffer_ cb)).
Proof.
  intros H **. unfold contents. open_wf cb H.
  rewrite ztake_ztake, ztake_app by lia.
  rewrite (zdrop_0 0), (ztake_ge len), (ztake_ge (n - r)) by zlia. f_equal.
  rewrite ztake_ztake by zlia. f_equal. zlia.
Qed.

(** Both copies out of the ring return its oldest bytes. *)
Lemma copy_flat cb data len :
  wf cb → 0 ≤ len → len ≤ n_ cb - remain_space_ cb → r_pos_ cb + len ≤ n_ cb →
  len ≤ zlen data →
  memcpy data 0 (buffer_ cb) (r_pos_ cb) len = Ok (ztake len (contents cb) ++ zdrop len data).
Proof.
  intros H **. rewrite contents_flat by done. destruct H.
  rewrite memcpy_ok by lia. by rewrite ztake_0 by lia.
Qed.

Lemma copy_split cb data len :
  wf cb → len ≤ n_ cb - remain_space_ cb → n_ cb ≤ r_pos_ cb + len → len ≤ zlen data →
  (memcpy data 0 (buffer_ cb) (r_pos_ cb) (n_ cb - r_pos_ cb)
   ≫= λ d, memcpy d (n_ cb - r_pos_ cb) (buffer_ cb) 0 (len - (n_ cb - r_pos_ cb)))
  = Ok (ztake len (contents cb) ++ zdrop len data).
Proof.
  intros H **. rewrite contents_split by done. destruct H.
  rewrite memcpy_memcpy by lia. rewrite <- app_assoc. do 4 f_equal. lia.
Qed.

(** Removing the oldest [len] bytes: [r_pos_] advances around the ring. *)
Definition advance (cb : t) (len : Z) : t :=
  CB ((r_pos_ cb + len) `mod` n_ cb) (w_pos_ cb) (n_ cb) (remain_space_ cb + len)
     (buffer_ cb) (timer_ cb).

Lemma advance_wf cb len :
  wf cb → 0 ≤ len → len ≤ n_ cb - remain_space_ cb → wf (advance cb len).
Proof.
  intros H **. unfold advance. open_wf cb H. split; cbn; try (lia || done).
  rewrite Zplus_mod_idemp_l. zring. lia.
Qed.

Lemma advance_contents cb len :
  wf cb → 0 ≤ len → len ≤ n_ cb - remain_space_ cb →
  contents (advance cb len) = zdrop len (contents cb).
Proof.
  intros H **. assert (wf (advance cb len)) as Ha by (by apply advance_wf).
  apply list_eq. intros i.
  rewrite lookup_zdrop, !contents_lookup by done. destruct H. cbn.
  rewrite Zplus_mod_idemp_l.
  destruct (Z.ltb_spec (Z.of_nat i) (n_ cb - (remain_space_ cb + len))).
  - destruct (Z.ltb_spec (Z.of_nat (Z.to_nat len + i)) (n_ cb - remain_space_ cb)); [|lia].
    do 3 f_equal. lia.
  - destruct (Z.ltb_spec (Z.of_nat (Z.to_nat len + i)) (n_ cb - remain_space_ cb)); [lia|done].
Qed.

(** Adding bytes: any block [buf'] that keeps the ring and holds [d] after it. *)
Lemma push_ok cb buf' d :
  wf cb → zlen d ≤ remain_space_ cb → zlen buf' = n_ cb →
  (∀ k, 0 ≤ k < n_ cb - remain_space_ cb →
     buf' !! Z.to_nat ((r_pos_ cb + k) `mod` n_ cb)
     = buffer_ cb !! Z.to_nat ((r_pos_ cb + k) `mod` n_ cb)) →
  (∀ k, 0 ≤ k < zlen d →
     buf' !! Z.to_nat ((w_pos_ cb + k) `mod` n_ cb) = d !! Z.to_nat k) →
  let cb' := CB (r_pos_ cb) ((w_pos_ cb + zlen d) `mod` n_ cb) (n_ cb)
                (remain_space_ cb - zlen d) buf' (timer_ cb) in
  wf cb' ∧ contents cb' = contents cb ++ d ∧ n_ cb' = n_ cb.
Proof.
  intros H Hd Hbuf Hold Hnew cb'. pose proof (zlen_nonneg d).
  assert (wf cb') as Hcb'.
  { destruct H. split; cbn; try (lia || done). rewrite wf_w0, Zplus_mod_idemp_l.
    f_equal. lia. }
  split_and!; [done| |done]. apply list_eq. intros i.
  rewrite lookup_app, !contents_lookup by done. cbn.
  destruct (Z.ltb_spec (Z.of_nat i) (n_ cb - remain_space_ cb)).
  - destruct (Z.ltb_spec (Z.of_nat i) (n_ cb - (remain_space_ cb - zlen d))); [|lia].
    rewrite Hold by lia.
    destruct (lookup_lt_is_Some_2 (buffer_ cb)
                (Z.to_nat ((r_pos_ cb + Z.of_nat i) `mod` n_ cb))) as [b ->]; [|done].
    destruct H. pose proof (Z.mod_pos_bound (r_pos_ cb + Z.of_nat i) (n_ cb)).
    unfold zlen in *. lia.
  - pose proof (zlen_contents cb H). unfold zlen in *.
    destruct (Z.ltb_spec (Z.of_nat i) (n_ cb - (remain_space_ cb - Z.of_nat (length d)))).
    + specialize (Hnew (Z.of_nat i - (n_ cb - remain_space_ cb)) ltac:(lia)).
      rewrite (wf_w _ H), Zplus_mod_idemp_l in Hnew.
      replace (r_pos_ cb + (n_ cb - remain_space_ cb) + (Z.of_nat i - (n_ cb - remain_space_ cb)))
        with (r_pos_ cb + Z.of_nat i) in Hnew by lia.
      rewrite Hnew. f_equal. lia.
    + symmetry. apply lookup_ge_None. lia.
Qed.

Lemma set_timer_wf now cb : wf cb → wf (set_timer now cb).
Proof. by intros []. Qed.

(** ** The critical sections *)

Lemma peek_copy_ok cb data len :
  wf cb → 0 ≤ len ≤ zlen (contents cb) → len ≤ zlen data →
  peek_copy cb data len = Ok (ztake len (contents cb) ++ zdrop len data).
Proof.
  intros H Hlen Hdata. rewrite zlen_contents in Hlen by done.
  pose proof (copy_flat cb data len H) as Hflat. pose proof (copy_split cb data len H) as Hsplit.
  open_wf cb H. unfold peek_copy. u64_simpl. repeat zif; u64_simpl.
  - apply Hflat; lia.
  - apply Hsplit; lia.
  - apply Hflat; lia.
  - by rewrite ztake_0, zdrop_0 by lia.
Qed.

Lemma read_copy_ok cb data len :
  wf cb → 0 ≤ len ≤ zlen (contents cb) → len ≤ zlen data →
  read_copy cb data len = Ok (len, ztake len (contents cb) ++ zdrop len data, advance cb len).
Proof.
  intros H Hlen Hdata. rewrite zlen_contents in Hlen by done.
  pose proof (copy_flat cb data len H) as Hflat. pose proof (copy_split cb data len H) as Hsplit.
  open_wf cb H. unfold read_copy, advance, mod64. cbn.
  u64_simpl. rewrite (proj2 (Z.eqb_neq n 0)) by lia. repeat zif; u64_simpl.
  - rewrite Hflat by lia. cbn. by u64_simpl.
  - rewrite <- (bind_assoc _ (λ d, memcpy d _ _ _ _)), Hsplit by lia. cbn. u64_simpl.
    zring. repeat f_equal; lia.
  - rewrite Hflat by lia. cbn. u64_simpl. zring. repeat f_equal; lia.
  - assert (len = 0) as -> by lia. rewrite ztake_0, zdrop_0 by lia. cbn. u64_simpl.
    zring. repeat f_equal; lia.
Qed.

(** Closes the lookups that [push_ok] asks of the copies of a [write]. *)
Ltac solve_lookup :=
  match goal with H : ∀ buf' : bytes, _ |- _ => clear H end;
  intros k Hk;
  repeat match goal with H : memcpy _ _ _ _ _ = Ok _ |- _ =>
    rewrite (memcpy_lookup _ _ _ _ _ _ _ H) end;
  try rewrite lookup_ztake by lia;
  zring; repeat zif; repeat f_equal; lia.

Lemma write_copy_ok cb data len :
  wf cb → 0 ≤ len ≤ remain_space_ cb → len ≤ zlen data →
  ∃ cb', write_copy cb data len = Ok cb' ∧ wf cb'
         ∧ contents cb' = contents cb ++ ztake len data ∧ n_ cb' = n_ cb.
Proof.
  intros H Hlen Hdata.
  assert (zlen (ztake len data) = len) as Hd by zlia.
  pose proof (λ buf', push_ok cb buf' (ztake len data) H) as Hpush. rewrite Hd in Hpush.
  open_wf cb H. unfold write_copy, mod64. rewrite (proj2 (Z.eqb_neq n 0)) by lia.
  u64_simpl. repeat zif; u64_simpl.
  - destruct (memcpy_is_Ok buf w data 0 len) as [b1 E]; try lia.
    rewrite E. cbn. u64_simpl. eexists. split; [done|].
    apply Hpush; [lia|by rewrite (zlen_memcpy _ _ _ _ _ _ E)|solve_lookup..].
  - destruct (memcpy_is_Ok buf w data 0 (n - w)) as [b1 E1]; try lia.
    rewrite E1. cbn. pose proof (zlen_memcpy _ _ _ _ _ _ E1).
    destruct (memcpy_is_Ok b1 0 data (n - w) (len - (n - w))) as [b2 E2]; try lia.
    rewrite E2. cbn. u64_simpl. eexists. split; [done|].
    replace (len - (n - w)) with ((w + len) `mod` n) by (zring; lia).
    apply Hpush; [lia|by rewrite (zlen_memcpy _ _ _ _ _ _ E2); lia|solve_lookup..].
  - destruct (memcpy_is_Ok buf w data 0 len) as [b1 E]; try lia.
    rewrite E. cbn. u64_simpl. eexists. split; [done|].
    replace (w + len) with ((w + len) `mod` n) by (zring; lia).
    apply Hpush; [lia|by rewrite (zlen_memcpy _ _ _ _ _ _ E)|solve_lookup..].
  - assert (len = 0) as -> by lia. cbn. u64_simpl. eexists. split; [done|].
    replace w with ((w + 0) `mod` n) at 1 2 by (zring; lia).
    apply Hpush; [lia|done|solve_lookup..].
Qed.

Section realloc.
Context (junk : nat → byte).

(** A fresh block that starts with the old contents. *)
Lemma relocated cb new_n block :
  wf cb → n_ cb ≤ new_n < 2 ^ 63 → zlen block = new_n →
  let have := n_ cb - remain_space_ cb in
  have < new_n → ztake have block = contents cb →
  let cb' := CB 0 have new_n (new_n - have) block (timer_ cb) in
  wf cb' ∧ contents cb' = contents cb.
Proof.
  intros H Hn Hb have Hlt Hc cb'. destruct H. split.
  - split; cbn; try lia. rewrite Z.mod_small; lia.
  - rewrite <- Hc. unfold contents at 1. cbn.
    rewrite zdrop_0, (ztake_0 0), app_nil_r by lia. f_equal. lia.
Qed.

Lemma new_size_bounds n len : 0 < n → 0 ≤ len →
  len + n < n * (len `div` n + 2) ≤ len + 2 * n ∧ 0 ≤ len `div` n ≤ len.
Proof.
  intros. pose proof (Z.div_mod len n) as E. pose proof (Z.mod_pos_bound len n).
  pose proof (Z.div_pos len n). pose proof (Z.div_le_upper_bound len n len). nia.
Qed.

Lemma relocate_ok cb new_n :
  wf cb → n_ cb ≤ new_n →
  ∃ block, relocate junk cb new_n = Ok block ∧ zlen block = new_n
           ∧ ztake (n_ cb - remain_space_ cb) block = contents cb.
Proof.
  intros H Hn. set (fresh := new_char junk new_n).
  assert (zlen fresh = new_n) as Hf by (destruct H; unfold fresh; zlia).
  pose proof (zlen_contents cb H) as Hc. pose proof (size_eq cb H) as Hs.
  pose proof (ztake_ge (n_ cb - remain_space_ cb) (contents cb)) as Htake.
  pose proof (copy_flat cb fresh (n_ cb - remain_space_ cb) H) as Hflat.
  pose proof (copy_split cb fresh (n_ cb - remain_space_ cb) H) as Hsplit.
  assert (∀ block, relocate junk cb new_n = Ok block →
            block = contents cb ++ zdrop (n_ cb - remain_space_ cb) fresh →
            ∃ block, relocate junk cb new_n = Ok block ∧ zlen block = new_n
              ∧ ztake (n_ cb - remain_space_ cb) block = contents cb) as Hgoal.
  { intros block E ->. eexists. split; [done|]. destruct H.
    split; [zlia|]. by rewrite ztake_app_eq. }
  rewrite Htake in Hflat, Hsplit by lia.
  unfold relocate in *. fold fresh in Hgoal |- *.
  open_wf cb H. rewrite Hs in *. revert Hgoal. u64_simpl. repeat zif; u64_simpl.
  - rewrite Hflat by lia. eauto.
  - rewrite Hsplit by lia. eauto.
  - replace (n - r) with (n - remain) by lia. rewrite Hflat by lia. eauto.
  - intros Hgoal. eapply Hgoal; [done|]. rewrite zdrop_0 by lia.
    by rewrite (zlen_zero_nil (contents _)) by lia.
Qed.

Lemma realloc_ok cb len :
  wf cb → 0 ≤ len → 3 * (n_ cb - remain_space_ cb + len) < 2 ^ 63 →
  ∃ cb', realloc junk cb len = Ok cb' ∧ wf cb' ∧ contents cb' = contents cb
         ∧ len ≤ remain_space_ cb'
         ∧ n_ cb' = if len <=? remain_space_ cb then n_ cb
                    else n_ cb * (len `div` n_ cb + 2).
Proof.
  intros H Hlen Hmax. pose proof (wf_n _ H). pose proof (wf_remain _ H).
  destruct (Z.leb_spec len (remain_space_ cb)) as [|Hgrow].
  { exists cb. unfold realloc. destruct cb; cbn in *.
    by rewrite (proj2 (Z.leb_le _ _)) by done. }
  destruct (new_size_bounds (n_ cb) len) as [Hnew Hq]; [lia..|].
  set (q := len `div` n_ cb) in *. set (new_n := n_ cb * (q + 2)) in *.
  destruct (relocate_ok cb new_n H) as (block & E & Hb & Hc); [lia|].
  exists (CB 0 (n_ cb - remain_space_ cb) new_n (new_n - (n_ cb - remain_space_ cb))
            block (timer_ cb)).
  destruct (relocated cb new_n block) as [Hwf Hcont]; [done|lia|done|lia|done|].
  split_and!; [|done..|cbn; lia|done].
  pose proof (size_eq cb H) as Hs. unfold realloc, div64.
  destruct cb as [r w n remain buf tm]. cbn [n_ remain_space_ timer_] in *.
  rewrite (proj2 (Z.leb_gt _ _)), (proj2 (Z.eqb_neq n 0)) by lia.
  cbn -[relocate size]. fold q. u64_simpl. fold new_n. u64_simpl. rewrite E, Hs. cbn. by u64_simpl.
Qed.

(** [write] appends to the queue, whatever the free space was. *)
Lemma write_ok now cb data len :
  wf cb → 0 ≤ len ≤ zlen data → 3 * (zlen (contents cb) + len) < 2 ^ 63 →
  ∃ cb', write junk now cb data len = Ok (len, cb') ∧ wf cb'
         ∧ contents cb' = contents cb ++ ztake len data
         ∧ n_ cb' = if len <=? remain_space_ cb then n_ cb
                    else n_ cb * (len `div` n_ cb + 2).
Proof.
  intros H Hlen Hmax. rewrite zlen_contents in Hmax by done.
  destruct (realloc_ok cb len) as (cb1 & E1 & H1 & Hc1 & Hroom & Hn1); [done|lia..|].
  destruct (write_copy_ok cb1 data len) as (cb2 & E2 & H2 & Hc2 & Hn2); [done|lia..|].
  exists (set_timer now cb2). split_and!; [|by apply set_timer_wf|by rewrite <- Hc1|by rewrite <- Hn1, <- Hn2].
  unfold write. rewrite E1. cbn. rewrite (proj2 (Z.leb_le _ _)) by done. cbn.
  rewrite E2. cbn. rewrite s64_small; [done|]. destruct H; lia.
Qed.
End realloc.

(** ** The operations *)

Lemma peek_ok now cb data len :
  wf cb → 0 ≤ len ≤ zlen (contents cb) → len ≤ zlen data →
  peek now cb data len
  = Ok (len, ztake len (contents cb) ++ zdrop len data, set_timer now cb).
Proof.
  intros H Hlen Hdata. pose proof (zlen_contents cb H).
  unfold peek. rewrite peek_copy_ok by done.
  change (n_ cb -₆₄ remain_space_ cb) with (size cb). rewrite size_contents by done.
  rewrite (proj2 (Z.leb_le _ _)) by lia. cbn. rewrite s64_small; [done|]. destruct H; lia.
Qed.

Lemma read_ok now cb data len :
  wf cb → 0 ≤ len ≤ zlen (contents cb) → len ≤ zlen data →
  ∃ cb', read now cb data len = Ok (len, ztake len (contents cb) ++ zdrop len data, cb')
         ∧ wf cb' ∧ contents cb' = zdrop len (contents cb) ∧ n_ cb' = n_ cb.
Proof.
  intros H Hlen Hdata. exists (set_timer now (advance cb len)).
  pose proof (zlen_contents cb H).
  split_and!; [|apply set_timer_wf, advance_wf; lia || done
               |apply advance_contents; lia || done|done].
  unfold read. rewrite read_copy_ok by done.
  change (n_ cb -₆₄ remain_space_ cb) with (size cb). rewrite size_contents by done.
  rewrite (proj2 (Z.leb_le _ _)) by lia. cbn. rewrite s64_small; [done|]. destruct H; lia.
Qed.

Lemma read_sleeps now cb data len :
  wf cb → zlen (contents cb) < len → read now cb data len = Sleep.
Proof.
  intros H Hlen. unfold read.
  change (n_ cb -₆₄ remain_space_ cb) with (size cb). rewrite size_contents by done.
  by rewrite (proj2 (Z.leb_gt _ _)) by lia.
Qed.

(** ** Messages *)

(** The length field at the read position, on either layout of the ring. *)
Lemma load_len_flat cb :
  wf cb → r_pos_ cb + sz64 ≤ n_ cb → sz64 ≤ n_ cb - remain_space_ cb →
  load_u64 (buffer_ cb) (r_pos_ cb) = Ok (le_value (ztake sz64 (contents cb))).
Proof.
  intros H ??. rewrite contents_flat by (done || lia).
  destruct H. apply load_u64_ok; lia.
Qed.

Lemma load_len_wrapped_ok junk cb :
  wf cb → sz64 ≤ n_ cb - remain_space_ cb →
  load_len_wrapped junk cb = Ok (le_value (ztake sz64 (contents cb))).
Proof.
  intros H Hs. assert (zlen (new_char junk sz64) = sz64) as Hj by zlia.
  pose proof (zlen_contents cb H) as Hc.
  assert (load_u64 (ztake sz64 (contents cb)) 0 = Ok (le_value (ztake sz64 (contents cb)))) as Hl.
  { rewrite load_u64_ok, zdrop_0, ztake_ztake by zlia. done. }
  pose proof (copy_flat cb (new_char junk sz64) sz64 H) as Hflat.
  pose proof (copy_split cb (new_char junk sz64) sz64 H) as Hsplit.
  rewrite (zdrop_ge sz64), app_nil_r in Hflat, Hsplit by zlia.
  open_wf cb H. unfold load_len_wrapped. u64_simpl. repeat zif; u64_simpl.
  - rewrite Hflat by lia. exact Hl.
  - rewrite Hsplit by lia. exact Hl.
Qed.

(** Is there a whole message at the front of these bytes? *)
Definition whole_message (bs : bytes) : bool :=
  (sz64 + sz8 <? zlen bs) && (le_value (ztake sz64 bs) <=? zlen bs).

Lemma can_read_ok junk cb : wf cb → can_read junk cb = Ok (whole_message (contents cb)).
Proof.
  intros H. pose proof (zlen_contents cb H) as Hc.
  pose proof (load_len_flat cb H) as Hflat. pose proof (load_len_wrapped_ok junk cb H) as Hw.
  unfold whole_message. rewrite Hc. open_wf cb H. unfold can_read. u64_simpl.
  destruct (Z.ltb_spec (sz64 + sz8) (n - remain)); [|done].
  repeat zif; [rewrite Hflat by lia|rewrite Hw by lia]; done.
Qed.

Lemma fetch_message_ok junk cb :
  wf cb → sz64 + sz8 < zlen (contents cb) →
  let len := le_value (ztake sz64 (contents cb)) in
  fetch_message junk cb
  = Ok (len, if len <=? zlen (contents cb) then ztake len (contents cb) else []).
Proof.
  intros H Hlong len. pose proof (zlen_contents cb H) as Hc. rewrite Hc in *.
  pose proof (load_len_flat cb H) as Hl. pose proof (load_len_wrapped_ok junk cb H) as Hw.
  pose proof (le_value_range (ztake sz64 (contents cb))) as Hlen. fold len in Hlen, Hl, Hw.
  assert (zlen ([] : bytes) = 0) as Hnil by done.
  pose proof (copy_flat cb (ztake len [] ++ zeros (len - zlen (@nil byte))) len H) as Hflat.
  pose proof (copy_split cb (ztake len [] ++ zeros (len - zlen (@nil byte))) len H) as Hsplit.
  rewrite zlen_resize, (zdrop_ge len), app_nil_r in Hflat, Hsplit by (rewrite ?zlen_resize; lia).
  clearbody len. open_wf cb H. unfold fetch_message. u64_simpl. zif.
  - rewrite Hl by lia. cbn. zif; [|done].
    rewrite string_resize_ok by (unfold string_max_size; lia). cbn.
    by rewrite Hflat by lia.
  - zif. rewrite Hw by lia. cbn. zif; [|done].
    rewrite string_resize_ok by (unfold string_max_size; lia). cbn. zif.
    + by rewrite Hflat by lia.
    + u64_simpl. by rewrite <- (bind_assoc _ (λ d, memcpy d _ _ _ _)), Hsplit by lia.
Qed.

(** One message as it lies in the buffer: the length field, then the byte that
    holds [sizeof(uint8_t) + id.size()] modulo 256, then the id and the data. *)
Definition message (k : Z) (payload : bytes) : bytes :=
  le_bytes 8 (sz64 + sz8 + zlen payload) ++ [byte_of_Z k] ++ payload.
Arguments message : simpl never.

Lemma zlen_message k payload : zlen (message k payload) = sz64 + sz8 + zlen payload.
Proof. unfold message. autorewrite with zlist. lia. Qed.

Lemma message_length_field k payload rest :
  sz64 + sz8 + zlen payload < 2 ^ 64 →
  le_value (ztake sz64 (message k payload ++ rest)) = sz64 + sz8 + zlen payload.
Proof.
  intros. unfold message. rewrite <- app_assoc.
  rewrite ztake_app_eq, le_value_le_bytes, Z.mod_small by (rewrite ?zlen_le_bytes; zlia).
  done.
Qed.

Lemma message_zdrop k payload off :
  sz64 + sz8 ≤ off → zdrop off (message k payload) = zdrop (off - (sz64 + sz8)) payload.
Proof.
  intros. unfold message. rewrite app_assoc, zdrop_app, zdrop_ge by zlia. cbn [app].
  f_equal.
Qed.

Lemma fetch_message_front junk cb k payload rest :
  wf cb → contents cb = message k payload ++ rest → 0 < zlen payload →
  fetch_message junk cb = Ok (sz64 + sz8 + zlen payload, message k payload).
Proof.
  intros H Hc Hpos. pose proof (zlen_contents cb H) as Hz. pose proof (wf_n _ H).
  pose proof (wf_remain _ H). pose proof (zlen_message k payload) as Hm.
  rewrite Hc, zlen_app, Hm in Hz. pose proof (zlen_nonneg rest).
  rewrite fetch_message_ok by (rewrite ?Hc, ?zlen_app; lia || done).
  rewrite Hc, message_length_field, zlen_app, Hm by lia.
  rewrite (proj2 (Z.leb_le _ _)) by lia. by rewrite ztake_app_eq.
Qed.

(** Taking one message off the buffer: the id is cut after [u8 k - 1] bytes. *)
Lemma read_message_ok junk cb id data k payload rest :
  wf cb → contents cb = message k payload ++ rest →
  0 < zlen payload → u8 k - 1 ≤ zlen payload →
  read_message junk cb id data =
    if u8 k =? 0 then Throw length_error
    else Ok (sz64 + sz8 + zlen payload, ztake (u8 k - 1) payload, zdrop (u8 k - 1) payload,
             advance cb (sz64 + sz8 + zlen payload)).
Proof.
  intros H Hc Hpos Hk. pose proof (u8_range k) as Hu8.
  pose proof (zlen_contents cb H) as Hz. pose proof (zlen_message k payload) as Hm.
  rewrite Hc, zlen_app, Hm in Hz. pose proof (zlen_nonneg rest).
  pose proof (wf_n _ H). pose proof (wf_remain _ H). pose proof (wf_r _ H).
  unfold read_message. change (n_ cb -₆₄ remain_space_ cb) with (size cb).
  rewrite size_eq, (fetch_message_front junk cb k payload rest) by done.
  zif. cbn. rewrite Hm. zif. rewrite load_u8_ok by lia. cbn.
  assert (ztake sz8 (zdrop sz64 (message k payload)) = [byte_of_Z k]) as ->.
  { unfold message. by rewrite zdrop_app_eq by apply zlen_le_bytes. }
  rewrite le_value_sz8, Z_of_byte_of_Z.
  destruct (Z.eqb_spec (u8 k) 0) as [->|]; [done|]. u64_simpl.
  rewrite resize_memcpy by (unfold string_max_size; lia).
  rewrite resize_memcpy by (unfold string_max_size; lia).
  rewrite !message_zdrop by lia. unfold mod64. rewrite (proj2 (Z.eqb_neq _ _)) by lia.
  cbn. u64_simpl. unfold advance. do 4 f_equal.
  rewrite ztake_ge by zlia. f_equal. lia.
Qed.

(** Nothing is taken while the message at the front is incomplete. *)
Lemma read_message_incomplete junk cb id data :
  wf cb → whole_message (contents cb) = false →
  read_message junk cb id data = Ok (0, id, data, cb).
Proof.
  intros H Hw. pose proof (zlen_contents cb H) as Hc. unfold whole_message in Hw.
  unfold read_message. change (n_ cb -₆₄ remain_space_ cb) with (size cb).
  rewrite size_eq by done. rewrite <- Hc in *.
  destruct (Z.ltb_spec (sz64 + sz8) (zlen (contents cb))); [|done]. cbn in Hw.
  rewrite fetch_message_ok by done. cbn. by rewrite Hw.
Qed.

(** Nothing is taken either when the message at the front has no payload. *)
Lemma read_message_empty junk cb id data k rest :
  wf cb → contents cb = message k [] ++ rest → read_message junk cb id data = Ok (0, id, data, cb).
Proof.
  intros H Hc. pose proof (zlen_contents cb H) as Hz. pose proof (message_length_field k [] rest) as Hl.
  unfold read_message. change (n_ cb -₆₄ remain_space_ cb) with (size cb).
  rewrite size_eq by done. rewrite <- Hz.
  destruct (Z.ltb_spec (sz64 + sz8) (zlen (contents cb))); [|done].
  rewrite fetch_message_ok by done. rewrite Hc, Hl by done. cbn [mbind outcome_bind].
  rewrite zlen_app, zlen_message, (proj2 (Z.leb_le _ _)) by zlia.
  by rewrite ztake_app_eq by apply zlen_message.
Qed.

(** ** The ring is a byte queue *)

Definition serve_ring (junk : nat → byte) (now : Z) (cb : t) (r : request) : outcome (reply * t) :=
  match r with
  | Write d => '(n, cb) ← write junk now cb d (zlen d); mret (([], n), cb)
  | Read len => '(n, d, cb) ← read now cb (new_char junk len) len; mret ((d, n), cb)
  | Peek len => '(n, d, cb) ← peek now cb (new_char junk len) len; mret ((d, n), cb)
  | CanRead len => mret (([], Z.b2z (can_read_n cb len)), cb)
  end.

(** One request: the ring and the queue reply alike. *)
Lemma serve_ok junk now cb r :
  wf cb → request_ok r = true → 3 * (zlen (contents cb) + request_bytes r) < 2 ^ 63 →
  match serve_queue (contents cb) r with
  | Ok (a, q) => ∃ cb', serve_ring junk now cb r = Ok (a, cb') ∧ wf cb' ∧ contents cb' = q
  | o => serve_ring junk now cb r = Sleep ∧ o = Sleep
  end.
Proof.
  intros H Hr Hmax. pose proof (zlen_contents cb H) as Hc.
  destruct r as [d|len|len|len]; cbn in *.
  - destruct (write_ok junk now cb d (zlen d)) as (cb' & -> & H' & Hc' & _); [done|zlia|done|].
    exists cb'. by rewrite ztake_ge in Hc' by lia.
  - destruct (Z.leb_spec len (zlen (contents cb))).
    + destruct (read_ok now cb (new_char junk len) len) as (cb' & -> & H' & Hc' & _);
        [done|lia|zlia|]. exists cb'. by rewrite zdrop_ge, app_nil_r by zlia.
    + by rewrite read_sleeps by done.
  - destruct (Z.leb_spec len (zlen (contents cb))).
    + rewrite peek_ok by (done || zlia). rewrite zdrop_ge, app_nil_r by zlia.
      eexists. split; [done|]. split; [by apply set_timer_wf|done].
    + unfold peek. change (n_ cb -₆₄ remain_space_ cb) with (size cb).
      by rewrite size_contents, (proj2 (Z.leb_gt _ _)) by done.
  - exists cb. unfold can_read_n. change (n_ cb -₆₄ remain_space_ cb) with (size cb).
    by rewrite size_contents.
Qed.

#[export] Instance ring_is_queue junk now : ByteQueue t (serve_ring junk now) :=
  {| bq_wf := wf; bq_contents := contents; bq_serve := serve_ok junk now |}.

(** * Properties *)

(** A full turn around a ring of 8 bytes: 4 bytes buffered, 2 of them before
    the end of the block and 2 at its start. *)
Definition ring8 : t :=
  CB 6 2 8 4 (str "cd....ab") (timer_create 0).

Lemma ring8_wf : wf ring8.
Proof. split; vm_compute; intuition congruence. Defined.

(** [write] never blocks, never touches memory outside its blocks and
    appends exactly the caller's bytes to the queue, growing the block when
    needed; the block at most triples what it has to hold. *)
Theorem write_appends junk now cb data len :
  wf cb → 0 ≤ len ≤ zlen data → 3 * (zlen (contents cb) + len) < 2 ^ 63 →
  ∃ cb', write junk now cb data len = Ok (len, cb') ∧ wf cb'
         ∧ contents cb' = contents cb ++ ztake len data
         ∧ n_ cb ≤ n_ cb' ≤ Z.max (n_ cb) (3 * (zlen (contents cb) + len)).
Proof.
  intros H Hlen Hmax.
  destruct (write_ok junk now cb data len) as (cb' & E & H' & Hc & Hn); [done..|].
  exists cb'. split_and!; try done; rewrite Hn, ?zlen_contents by done; destruct H;
    pose proof (new_size_bounds (n_ cb) len); zif.
Qed.

Lemma write_appends_witness :
  ∃ cb', write (λ _, x00) 5 ring8 (str "efghijkl") 6 = Ok (6, cb') ∧ wf cb'
         ∧ contents cb' = contents ring8 ++ ztake 6 (str "efghijkl")
         ∧ 8 ≤ n_ cb' ≤ Z.max 8 (3 * (4 + 6)).
Proof. apply (write_appends (λ _, x00) 5 ring8 (str "efghijkl") 6 ring8_wf); vm_compute; intuition congruence. Defined.

(** [read] of [len] bytes returns the oldest [len] bytes in order and removes
    exactly them, on every position of the ring; with fewer bytes buffered it
    sleeps and changes nothing. *)
Theorem read_takes_oldest now cb data len :
  wf cb → 0 ≤ len ≤ zlen data →
  match read now cb data len with
  | Ok (ret, data', cb') =>
    len ≤ zlen (contents cb) ∧ ret = len ∧ data' = ztake len (contents cb) ++ zdrop len data
    ∧ wf cb' ∧ contents cb' = zdrop len (contents cb) ∧ n_ cb' = n_ cb
  | Sleep => zlen (contents cb) < len
  | _ => False
  end.
Proof.
  intros H Hlen. destruct (Z.le_gt_cases len (zlen (contents cb))).
  - destruct (read_ok now cb data len) as (cb' & -> & ?); [done|lia..|done].
  - by rewrite read_sleeps.
Qed.

Lemma read_takes_oldest_witness :
  wf ring8 ∧ match read 7 ring8 (zeros 3) 3 with
  | Ok (ret, data', cb') =>
    3 ≤ zlen (contents ring8) ∧ ret = 3 ∧ data' = ztake 3 (contents ring8) ++ zdrop 3 (zeros 3)
    ∧ wf cb' ∧ contents cb' = zdrop 3 (contents ring8) ∧ n_ cb' = n_ ring8
  | Sleep => zlen (contents ring8) < 3
  | _ => False
  end.
Proof.
  split; [exact ring8_wf|].
  apply (read_takes_oldest 7 ring8 (zeros 3) 3 ring8_wf); vm_compute; intuition congruence.
Defined.

(** C8: refinement: over any sequence of [write], [read], [peek] and [can_read]
    requests the ring buffer gives the replies of a plain byte queue, sleeping
    exactly where the queue has too few bytes. *)
Theorem refines_queue junk now cb rs :
  wf cb → forallb request_ok rs = true → 3 * (zlen (contents cb) + total_bytes rs) < 2 ^ 63 →
  ∃ replies cb', serve_all (serve_ring junk now) cb rs = Ok (replies, cb') ∧ wf cb'
    ∧ serve_all serve_queue (contents cb) rs = Ok (replies, contents cb').
Proof. exact (serve_all_refines rs cb). Qed.

Lemma refines_queue_witness :
  ∃ replies cb', serve_all (serve_ring (λ _, x00) 0) ring8
      [Read 3; Write (str "efghijklm"); Peek 4; Read 20; CanRead 10; Read 10] = Ok (replies, cb')
    ∧ wf cb'
    ∧ serve_all serve_queue (contents ring8)
        [Read 3; Write (str "efghijklm"); Peek 4; Read 20; CanRead 10; Read 10]
      = Ok (replies, contents cb').
Proof.
  apply (refines_queue (λ _, x00) 0 ring8
    [Read 3; Write (str "efghijklm"); Peek 4; Read 20; CanRead 10; Read 10] ring8_wf);
    vm_compute; reflexivity.
Defined.
End cycle_buffer.
