(* ===== verification/SimpleBuffer.v ===== *)
(** [simple_buffer] of [include/io/internal/simple_buffer.h], the frame a message
    travels in, and its round trip through [cycle_buffer::read(id, data)]:

    total length (8 bytes, little endian) | 1 + id.size() (1 byte) | id | data *)
From Stdlib Require Import Strings.Byte.
From S2P Require Import Prelude Timer CycleBuffer.
#[local] Open Scope Z_scope.

(** * The program *)

Record simple_buffer := SB { len_ : Z; buf_ : bytes }.

(** The constructor; [node_id] is only logged. *)
Definition simple_buffer_create (junk : nat → byte) (id data : bytes) (length : Z)
    : outcome simple_buffer :=
  let len_ := sz64 +₆₄ sz8 +₆₄ zlen id +₆₄ length in
  let id_len := u8 (sz8 + zlen id) in
  let buf := new_char junk len_ in
  buf ← memcpy buf 0 (zeros len_) 0 len_;                  (* memset(buf_, 0, len_) *)
  buf ← memcpy buf 0 (le_bytes 8 len_) 0 sz64;
  buf ← memcpy buf sz64 (le_bytes 1 id_len) 0 sz8;
  buf ← memcpy buf (sz64 + sz8) id 0 (zlen id);
  buf ← memcpy buf (sz64 + sz8 + zlen id) data 0 length;
  mret (SB len_ buf).

(** * Specification and lemmas *)

(** The bytes on the wire for one message. *)
Definition frame (id data : bytes) : bytes := cycle_buffer.message (sz8 + zlen id) (id ++ data).

Lemma zlen_frame id data : zlen (frame id data) = sz64 + sz8 + zlen id + zlen data.
Proof. unfold frame. rewrite cycle_buffer.zlen_message, zlen_app. lia. Qed.

Lemma frame_eq id data :
  frame id data = le_bytes 8 (sz64 + sz8 + zlen id + zlen data)
                  ++ [byte_of_Z (sz8 + zlen id)] ++ id ++ data.
Proof. unfold frame, cycle_buffer.message. by rewrite zlen_app, !Z.add_assoc. Qed.

(** A copy that starts where the previous ones ended. *)
Lemma memcpy_append done_ fresh src len off :
  zlen done_ = off → 0 ≤ len ≤ zlen src → len ≤ zlen fresh →
  memcpy (done_ ++ fresh) off src 0 len
  = Ok ((done_ ++ ztake len src) ++ zdrop len fresh).
Proof.
  intros <- **. rewrite memcpy_ok by zlia. rewrite ztake_app_eq, zdrop_0, zdrop_app by (done || lia).
  rewrite (zdrop_ge (zlen done_ + len) done_) by lia. rewrite <- app_assoc. cbn [app].
  do 4 f_equal. lia.
Qed.

Lemma simple_buffer_create_ok junk id data length :
  0 ≤ length ≤ zlen data → sz64 + sz8 + zlen id + length < 2 ^ 64 →
  simple_buffer_create junk id data length
  = Ok (SB (sz64 + sz8 + zlen id + length) (frame id (ztake length data))).
Proof.
  intros Hlen Hmax. pose proof (zlen_nonneg id). unfold simple_buffer_create.
  u64_simpl. set (total := sz64 + sz8 + zlen id + length).
  rewrite memcpy_fill by zlia. cbn [mbind outcome_bind].
  assert (ztake total (zdrop 0 (zeros total)) = zeros total) as ->.
  { rewrite zdrop_0 by lia. apply ztake_ge. zlia. }
  change (zeros total) with ([] ++ zeros total).
  repeat (rewrite memcpy_append by zlia; cbn [mbind outcome_bind]).
  cbn [app]. rewrite <- !app_assoc.
  rewrite !(ztake_ge _ (le_bytes _ _)), (ztake_ge _ id), zdrop_ge, app_nil_r by zlia.
  rewrite frame_eq, zlen_ztake. replace (Z.min _ _) with length by lia.
  unfold total. do 3 f_equal. apply (f_equal (λ b, b :: _)), byte_of_Z_u8.
Qed.

(** What [read(id, data)] finds when a frame is at the front of the ring: the
    one-byte id length counts modulo 256, so longer ids are cut. *)
Lemma read_frame junk cb id0 data0 id data rest :
  cycle_buffer.wf cb → cycle_buffer.contents cb = frame id data ++ rest →
  0 < zlen id + zlen data →
  cycle_buffer.read_message junk cb id0 data0 =
    let k := u8 (sz8 + zlen id) in
    if k =? 0 then Throw length_error
    else Ok (zlen (frame id data), ztake (k - 1) (id ++ data), zdrop (k - 1) (id ++ data),
             cycle_buffer.advance cb (zlen (frame id data))).
Proof.
  intros H Hc Hpos. cbv zeta.
  assert (u8 (sz8 + zlen id) ≤ sz8 + zlen id) as Hk.
  { apply Z.mod_le; zlia. }
  rewrite (cycle_buffer.read_message_ok junk cb id0 data0 _ _ rest H Hc) by zlia.
  by rewrite zlen_frame, zlen_app, !Z.add_assoc.
Qed.

Lemma advance_frame cb bs rest :
  cycle_buffer.wf cb → cycle_buffer.contents cb = bs ++ rest →
  cycle_buffer.wf (cycle_buffer.advance cb (zlen bs))
  ∧ cycle_buffer.contents (cycle_buffer.advance cb (zlen bs)) = rest.
Proof.
  intros H Hc. pose proof (cycle_buffer.zlen_contents cb H) as Hz. rewrite Hc, zlen_app in Hz.
  pose proof (zlen_nonneg bs). pose proof (zlen_nonneg rest).
  split; [apply cycle_buffer.advance_wf; lia || done|].
  rewrite cycle_buffer.advance_contents, Hc by (lia || done). by apply zdrop_app_eq.
Qed.

(** Ids of at most 254 bytes come back whole. *)
Lemma read_frame_short junk cb id0 data0 id data rest :
  cycle_buffer.wf cb → cycle_buffer.contents cb = frame id data ++ rest →
  zlen id ≤ 254 → 0 < zlen id + zlen data →
  ∃ cb', cycle_buffer.read_message junk cb id0 data0 = Ok (zlen (frame id data), id, data, cb')
         ∧ cycle_buffer.wf cb' ∧ cycle_buffer.contents cb' = rest
         ∧ cycle_buffer.n_ cb' = cycle_buffer.n_ cb.
Proof.
  intros H Hc Hid Hpos. pose proof (zlen_nonneg id).
  exists (cycle_buffer.advance cb (zlen (frame id data))).
  destruct (advance_frame cb _ _ H Hc) as [? ?]. split_and!; try done.
  rewrite (read_frame junk cb id0 data0 id data rest) by done. cbv zeta.
  rewrite u8_small, (proj2 (Z.eqb_neq _ _)) by lia.
  by rewrite ztake_app_eq, zdrop_app_eq by lia.
Qed.

Lemma frame_whole id data rest :
  zlen (frame id data) < 2 ^ 64 → 0 < zlen id + zlen data →
  cycle_buffer.whole_message (frame id data ++ rest) = true.
Proof.
  intros Hmax Hpos. unfold cycle_buffer.whole_message. rewrite zlen_frame in Hmax.
  pose proof (zlen_nonneg rest). unfold frame.
  rewrite cycle_buffer.message_length_field by (rewrite zlen_app; lia).
  rewrite zlen_app, cycle_buffer.zlen_message, zlen_app. lia.
Qed.

(** A ring that holds exactly [bs]. *)
Definition ring_of (bs : bytes) : cycle_buffer.t :=
  cycle_buffer.CB 0 (zlen bs) (zlen bs + 8) 8 (bs ++ zeros 8) (timer_create 0).

Lemma ring_of_wf bs : zlen bs + 8 < 2 ^ 63 → cycle_buffer.wf (ring_of bs).
Proof.
  intros. pose proof (zlen_nonneg bs). split; cbn; [lia|zlia|lia..|].
  rewrite Z.mod_small; lia.
Qed.

Lemma ring_of_contents bs : cycle_buffer.contents (ring_of bs) = bs.
Proof.
  unfold cycle_buffer.contents. cbn. rewrite zdrop_0, (ztake_0 0), app_nil_r by lia.
  apply ztake_app_eq. lia.
Qed.

Lemma empty_frame_whole rest :
  rest ≠ [] → cycle_buffer.whole_message (frame [] [] ++ rest) = true.
Proof.
  intros Hne. destruct rest as [|b rest]; [done|]. unfold cycle_buffer.whole_message, frame.
  rewrite cycle_buffer.message_length_field by done.
  rewrite zlen_app, cycle_buffer.zlen_message, zlen_cons. cbn [app].
  change (zlen ([] : bytes)) with 0. pose proof (zlen_nonneg rest). lia.
Qed.

(** * Properties *)

(** the constructor lays out exactly the frame: total length, one-byte id
    length, id, data; all its copies stay inside their blocks. *)
Theorem frame_layout junk id data length :
  0 ≤ length ≤ zlen data → sz64 + sz8 + zlen id + length < 2 ^ 64 →
  simple_buffer_create junk id data length
  = Ok (SB (sz64 + sz8 + zlen id + length)
           (le_bytes 8 (sz64 + sz8 + zlen id + length)
            ++ [byte_of_Z (sz8 + zlen id)] ++ id ++ ztake length data)).
Proof.
  intros. rewrite simple_buffer_create_ok, frame_eq, zlen_ztake by done.
  by replace (Z.min _ _) with length by lia.
Qed.

Lemma frame_layout_witness :
  simple_buffer_create (λ _, x41) (str "id") (str "data!") 4
  = Ok (SB 15 (le_bytes 8 15 ++ [byte_of_Z 3] ++ str "id" ++ ztake 4 (str "data!"))).
Proof. apply (frame_layout (λ _, x41) (str "id") (str "data!") 4); vm_compute; intuition congruence. Defined.

(** C9: round trip, for an id of at most 254 bytes: a frame written into any ring,
    wherever its ends lie, goes behind the bytes [old] that are already in it; and from
    any ring that has the frame in front, whatever bytes [rest] follow, it is read back
    as the same id and the same data, and [rest] is untouched. *)
Theorem frame_roundtrip junk now cb id data :
  cycle_buffer.wf cb → zlen id ≤ 254 → 0 < zlen id + zlen data →
  3 * (zlen (cycle_buffer.contents cb) + zlen (frame id data)) < 2 ^ 63 →
  ∃ sb cb1,
    simple_buffer_create junk id data (zlen data) = Ok sb
    ∧ cycle_buffer.write junk now cb (buf_ sb) (len_ sb) = Ok (len_ sb, cb1)
    ∧ cycle_buffer.wf cb1 ∧ cycle_buffer.contents cb1 = cycle_buffer.contents cb ++ buf_ sb
    ∧ ∀ rd rest, cycle_buffer.wf rd → cycle_buffer.contents rd = buf_ sb ++ rest →
        cycle_buffer.can_read junk rd = Ok true
        ∧ ∃ rd', cycle_buffer.read_message junk rd [] [] = Ok (len_ sb, id, data, rd')
            ∧ cycle_buffer.wf rd' ∧ cycle_buffer.contents rd' = rest.
Proof.
  intros H Hid Hpos Hmax. pose proof (zlen_frame id data) as Hf.
  eexists (SB (sz64 + sz8 + zlen id + zlen data) (frame id data)). cbn [len_ buf_].
  rewrite <- Hf. pose proof (zlen_nonneg (cycle_buffer.contents cb)) as Hold. pose proof (zlen_nonneg (frame id data)) as Hnew.
  destruct (cycle_buffer.write_ok junk now cb (frame id data) (zlen (frame id data)))
    as (cb1 & E & H1 & Hc1 & _); [done|zlia|lia|].
  rewrite ztake_ge in Hc1 by lia. exists cb1. split_and!; [|done..|].
  - rewrite simple_buffer_create_ok by (zlen_pos; lia). by rewrite ztake_ge, Hf by lia.
  - intros rd rest Hr Hc. split; [by rewrite cycle_buffer.can_read_ok, Hc, frame_whole by (done || lia)|].
    destruct (read_frame_short junk rd [] [] id data rest) as (rd' & E2 & H2 & Hc2 & _); [done..|]. by exists rd'.
Qed.

(** A ring with one byte, whose positions are 3 bytes before the end of the block. *)
Definition ring_end : cycle_buffer.t :=
  cycle_buffer.CB 13 14 16 15 (zeros 16) (timer_create 0).

Lemma frame_roundtrip_witness :
  ∃ sb cb1,
    simple_buffer_create (λ _, x41) (str "ab") (str "hi") 2 = Ok sb
    ∧ cycle_buffer.write (λ _, x41) 9 ring_end (buf_ sb) (len_ sb) = Ok (len_ sb, cb1)
    ∧ cycle_buffer.wf cb1 ∧ cycle_buffer.contents cb1 = [x00] ++ buf_ sb
    ∧ ∀ rd rest, cycle_buffer.wf rd → cycle_buffer.contents rd = buf_ sb ++ rest →
        cycle_buffer.can_read (λ _, x41) rd = Ok true
        ∧ ∃ rd', cycle_buffer.read_message (λ _, x41) rd [] [] = Ok (len_ sb, str "ab", str "hi", rd')
            ∧ cycle_buffer.wf rd' ∧ cycle_buffer.contents rd' = rest.
Proof.
  apply (frame_roundtrip (λ _, x41) 9 ring_end (str "ab") (str "hi"));
    [split|..]; vm_compute; intuition congruence.
Defined.

(** An id of 255 bytes or more never survives: the one-byte length wraps, so
    the reader either throws [length_error] out of [resize] or takes at most 254
    bytes as the id and hands the rest of the id over as data. *)
Theorem long_id_corrupted junk cb id data rest :
  cycle_buffer.wf cb → cycle_buffer.contents cb = frame id data ++ rest → 255 ≤ zlen id →
  match cycle_buffer.read_message junk cb [] [] with
  | Ok (_, id', data', _) => zlen id' ≤ 254 ∧ id' ≠ id ∧ id' ++ data' = id ++ data
  | Throw length_error => (sz8 + zlen id) `mod` 256 = 0
  | _ => False
  end.
Proof.
  intros H Hc Hid. pose proof (zlen_nonneg data). pose proof (u8_range (sz8 + zlen id)).
  rewrite (read_frame junk cb [] [] id data rest) by (done || lia). cbv zeta.
  destruct (Z.eqb_spec (u8 (sz8 + zlen id)) 0) as [E|]; [exact E|].
  assert (zlen (ztake (u8 (sz8 + zlen id) - 1) (id ++ data)) ≤ 254) as Hs by zlia.
  split_and!; [done| |apply ztake_zdrop]. intros E. rewrite E in Hs. lia.
Qed.

Definition long_id (n : nat) : bytes := replicate n x61.

Lemma long_id_corrupted_witness :
  255 ≤ zlen (long_id 300) ∧
  match cycle_buffer.read_message (λ _, x00) (ring_of (frame (long_id 300) (str "xy"))) [] [] with
  | Ok (_, id', data', _) =>
    zlen id' ≤ 254 ∧ id' ≠ long_id 300 ∧ id' ++ data' = long_id 300 ++ str "xy"
  | Throw length_error => (sz8 + zlen (long_id 300)) `mod` 256 = 0
  | _ => False
  end.
Proof.
  split; [vm_compute; congruence|].
  apply (long_id_corrupted (λ _, x00) (ring_of (frame (long_id 300) (str "xy")))
           (long_id 300) (str "xy") []).
  - split; vm_compute; intuition congruence.
  - vm_compute. reflexivity.
  - vm_compute. congruence.
Defined.

(** a message with an empty id and no data blocks the ring for good: as soon
    as anything follows it, [can_read] reports a message while [read] returns 0
    and leaves the ring as it is. *)
Theorem empty_message_stalls junk cb rest :
  cycle_buffer.wf cb → cycle_buffer.contents cb = frame [] [] ++ rest →
  cycle_buffer.can_read junk cb = Ok (negb (bool_decide (rest = [])))
  ∧ ∀ id data, cycle_buffer.read_message junk cb id data = Ok (0, id, data, cb).
Proof.
  intros H Hc. split.
  - rewrite cycle_buffer.can_read_ok by done. unfold cycle_buffer.whole_message. rewrite Hc.
    unfold frame. rewrite cycle_buffer.message_length_field by done.
    rewrite zlen_app, cycle_buffer.zlen_message. cbn [app zlen].
    case_bool_decide as E; [by rewrite E|].
    destruct rest as [|b rest]; [done|]. rewrite zlen_cons. pose proof (zlen_nonneg rest).
    change (zlen ([] : bytes)) with 0. cbn [negb]. f_equal. lia.
  - intros id data. exact (cycle_buffer.read_message_empty junk cb id data _ rest H Hc).
Qed.

Lemma empty_message_stalls_witness :
  cycle_buffer.can_read (λ _, x00) (ring_of (frame [] [] ++ frame (str "k") (str "v")))
  = Ok (negb (bool_decide (frame (str "k") (str "v") = [])))
  ∧ ∀ id data,
    cycle_buffer.read_message (λ _, x00) (ring_of (frame [] [] ++ frame (str "k") (str "v"))) id data
    = Ok (0, id, data, ring_of (frame [] [] ++ frame (str "k") (str "v"))).
Proof.
  apply (empty_message_stalls (λ _, x00) (ring_of (frame [] [] ++ frame (str "k") (str "v")))
           (frame (str "k") (str "v"))); [split|]; vm_compute; intuition congruence.
Defined.
