(* ===== verification/Transport.v ===== *)
(** The byte transport under a connection: the virtual [readImpl]/[writeImpl] of
    [include/io/internal/connection.h] and the loops [Connection::readn] and
    [Connection::writen] of [src/connection.cpp].

    What the kernel (or OpenSSL) answers is the environment: a list with one
    result per call, in order.  A loop that has consumed the list and wants
    another result has not returned: [Sleep].  Both overrides return the result
    of [::read]/[::write] or [SSL_read]/[SSL_write] unchanged, so one environment
    describes either class. *)
From S2P Require Import Prelude.
#[local] Open Scope Z_scope.

(** * The program *)

Inductive errno_t := EINTR | EAGAIN | EWOULDBLOCK | EOTHER (code : Z).

#[global] Instance errno_eq_dec : EqDecision errno_t.
Proof. solve_decision. Defined.

(** One answer of [writeImpl]: its value and [errno] after the call. *)
Record write_result := WR { w_ret : Z; w_errno : errno_t }.

(** One answer of [readImpl]: its value, [errno], and the bytes it stored. *)
Record read_result := RR { r_ret : Z; r_errno : errno_t; r_data : bytes }.

Definition again (e : errno_t) : bool := bool_decide (e = EAGAIN ∨ e = EWOULDBLOCK).

(** [Connection::writen]: the value returned, the bytes the transport took and
    the answers left. *)
Fixpoint writen_loop (env : list write_result) (ptr : bytes) (nleft n : Z)
    : outcome (Z * bytes * list write_result) :=
  if nleft <=? 0 then mret (n - nleft, [], env)
  else match env with
  | [] => Sleep
  | WR nwritten errno :: env =>
    if nwritten <? 0 then
      (* EINTR only sets nwritten to 0 before the same error return *)
      if negb (bool_decide (errno = EINTR)) && again errno
      then writen_loop env ptr nleft n
      else mret (-1, [], env)
    else if nwritten =? 0 then
      if again errno then writen_loop env ptr nleft n else mret (n - nleft, [], env)
    else
      '(ret, sent, env) ← writen_loop env (zdrop nwritten ptr) (nleft - nwritten) n;
      mret (ret, ztake nwritten ptr ++ sent, env)
  end.

Definition writen (env : list write_result) (vptr : bytes) (n : Z)
    : outcome (Z * bytes * list write_result) := writen_loop env vptr n n.

(** [Connection::readn]: the value returned, the bytes stored from [vptr] on and
    the answers left. *)
Fixpoint readn_loop (env : list read_result) (nleft n : Z)
    : outcome (Z * bytes * list read_result) :=
  if nleft <=? 0 then mret (n - nleft, [], env)
  else match env with
  | [] => Sleep
  | RR nread errno d :: env =>
    if nread <? 0 then
      if bool_decide (errno = EINTR) then readn_loop env nleft n
      else if again errno then readn_loop env nleft n
      else mret (-1, [], env)
    else if nread =? 0 then
      if again errno then readn_loop env nleft n else mret (n - nleft, [], env)
    else
      '(ret, got, env) ← readn_loop env (nleft - nread) n;
      mret (ret, d ++ got, env)
  end.

Definition readn (env : list read_result) (n : Z) : outcome (Z * bytes * list read_result) :=
  readn_loop env n n.

(** [Connection::peek]: [::recv] with [MSG_PEEK], retried on [EINTR]. *)
Fixpoint peek_loop (env : list read_result) : outcome (Z * bytes * list read_result) :=
  match env with
  | [] => Sleep
  | RR ret errno d :: env =>
    if (ret =? -1) && bool_decide (errno = EINTR) then peek_loop env else mret (ret, d, env)
  end.

(** * Lemmas *)

(** POSIX: a positive answer is at most what was asked for. *)
Fixpoint writes_at_most (nleft : Z) (env : list write_result) : Prop :=
  match env with
  | [] => True
  | WR nwritten _ :: env =>
    nwritten ≤ nleft ∧ writes_at_most (if 0 <? nwritten then nleft - nwritten else nleft) env
  end.

Fixpoint reads_at_most (nleft : Z) (env : list read_result) : Prop :=
  match env with
  | [] => True
  | RR nread _ d :: env =>
    nread ≤ nleft ∧ (0 < nread → zlen d = nread)
    ∧ reads_at_most (if 0 <? nread then nleft - nread else nleft) env
  end.

Lemma writen_loop_ok env : ∀ ptr nleft n ret sent env',
  writen_loop env ptr nleft n = Ok (ret, sent, env') →
  0 ≤ nleft → zlen ptr = nleft → writes_at_most nleft env →
  sent `prefix_of` ptr ∧ (ret = -1 ∨ ret = n - nleft + zlen sent).
Proof.
  induction env as [|[nw e] env IH]; intros ptr nleft n ret sent env' E Hn Hptr Hat;
    cbn [writen_loop] in E; (destruct (Z.leb_spec nleft 0);
      [injection E as <- <- <-; split; [apply prefix_nil|right; change (zlen []) with 0; lia]|]);
    [done|].
  destruct Hat as [Hle Hat].
  destruct (Z.ltb_spec nw 0) as [|Hnw].
  { rewrite (proj2 (Z.ltb_ge 0 nw)) in Hat by lia.
    destruct (_ && _); [by eapply IH|]. injection E as <- <- <-.
    split; [apply prefix_nil|by left]. }
  destruct (Z.eqb_spec nw 0) as [->|].
  { destruct (again e); [by eapply IH|]. injection E as <- <- <-.
    split; [apply prefix_nil|right; change (zlen []) with 0; lia]. }
  rewrite (proj2 (Z.ltb_lt 0 nw)) in Hat by lia. outcome_inv.
  match goal with H : writen_loop _ _ _ _ = _ |- _ => apply IH in H as [Hs Hr]; [|zlia..|done] end.
  split.
  - rewrite <- (ztake_zdrop nw ptr) at 2. by apply prefix_app.
  - destruct Hr as [->| ->]; [by left|right]. rewrite zlen_app. rewrite zlen_ztake. zlia.
Qed.

Lemma readn_loop_ok env : ∀ nleft n ret got env',
  readn_loop env nleft n = Ok (ret, got, env') →
  0 ≤ nleft → reads_at_most nleft env →
  zlen got ≤ nleft ∧ (ret = -1 ∨ ret = n - nleft + zlen got).
Proof.
  induction env as [|[nr e d] env IH]; intros nleft n ret got env' E Hn Hat;
    cbn [readn_loop] in E; (destruct (Z.leb_spec nleft 0);
      [injection E as <- <- <-; change (zlen []) with 0; split; [|right]; lia|]); [done|].
  destruct Hat as (Hle & Hd & Hat).
  destruct (Z.ltb_spec nr 0) as [|Hnr].
  { rewrite (proj2 (Z.ltb_ge 0 nr)) in Hat by lia.
    destruct (bool_decide _); [by eapply IH|]. destruct (again e); [by eapply IH|].
    injection E as <- <- <-. change (zlen []) with 0. split; [|left]; lia. }
  destruct (Z.eqb_spec nr 0) as [->|].
  { destruct (again e); [by eapply IH|]. injection E as <- <- <-.
    change (zlen []) with 0. split; [|right]; lia. }
  rewrite (proj2 (Z.ltb_lt 0 nr)) in Hat by lia. outcome_inv.
  match goal with H : readn_loop _ _ _ = _ |- _ => apply IH in H as [Hs Hr]; [|lia|done] end.
  rewrite zlen_app, Hd by lia. split; [lia|]. destruct Hr as [->| ->]; [by left|right]. lia.
Qed.

(** An answer the loop goes on after: progress, or "try again". *)
Definition goes_on (r : write_result) : bool := (0 <? w_ret r) || again (w_errno r).

Fixpoint progress (env : list write_result) : Z :=
  match env with [] => 0 | r :: env => Z.max 0 (w_ret r) + progress env end.

Lemma progress_nonneg env : 0 ≤ progress env.
Proof. induction env; simpl; lia. Qed.

Lemma writen_loop_complete env : ∀ ptr nleft n,
  forallb goes_on env = true → zlen ptr = nleft → writes_at_most nleft env →
  nleft ≤ progress env → ∃ env', writen_loop env ptr nleft n = Ok (n, ptr, env').
Proof.
  induction env as [|[nw e] env IH]; intros ptr nleft n Hgo Hptr Hat Hp;
    pose proof (zlen_nonneg ptr); cbn [writen_loop progress forallb] in *.
  - assert (nleft = 0) as -> by lia. rewrite (zlen_zero_nil ptr), Z.sub_0_r by lia. by exists [].
  - destruct (Z.leb_spec nleft 0).
    { rewrite (zlen_zero_nil ptr) by lia. replace (n - nleft) with n by lia. eauto. }
    apply andb_true_iff in Hgo as [Hr Hgo]. unfold goes_on in Hr. destruct Hat as [Hle Hat].
    cbn [w_ret w_errno] in *.
    destruct (Z.ltb_spec 0 nw).
    + rewrite (proj2 (Z.ltb_ge nw 0)), (proj2 (Z.eqb_neq nw 0)) by lia.
      destruct (IH (zdrop nw ptr) (nleft - nw) n) as [env' ->]; [done|zlia|done|lia|].
      exists env'. cbn. by rewrite ztake_zdrop.
    + cbn in Hr. rewrite Hr. rewrite Z.max_l in Hp by lia.
      destruct (Z.ltb_spec nw 0).
      * rewrite bool_decide_eq_false_2; [by apply IH|].
        intros ->. discriminate Hr.
      * destruct (Z.eqb_spec nw 0); [by apply IH|lia].
Qed.

(** Answers that let the loop go on but stop short of the whole buffer. *)
Lemma writen_loop_prefix pre : ∀ env ptr nleft n,
  forallb goes_on pre = true → zlen ptr = nleft → progress pre < nleft →
  writen_loop (pre ++ env) ptr nleft n =
    '(ret, sent, rest) ← writen_loop env (zdrop (progress pre) ptr) (nleft - progress pre) n;
    mret (ret, ztake (progress pre) ptr ++ sent, rest).
Proof.
  induction pre as [|[nw e] pre IH]; intros env ptr nleft n Hgo Hptr Hp; cbn [app progress].
  - rewrite zdrop_0, Z.sub_0_r by lia. cbn [progress] in Hp.
    destruct (writen_loop env ptr nleft n) as [[[??]?]| | |]; [|done..]. cbn.
    by rewrite ztake_0 by lia.
  - cbn [writen_loop progress forallb w_ret w_errno] in *.
    apply andb_true_iff in Hgo as [Hr Hgo]. unfold goes_on in Hr. cbn [w_ret w_errno] in Hr.
    pose proof (progress_nonneg pre). rewrite (proj2 (Z.leb_gt nleft 0)) by lia.
    destruct (Z.ltb_spec 0 nw).
    + rewrite (proj2 (Z.ltb_ge nw 0)), (proj2 (Z.eqb_neq nw 0)), Z.max_r by lia.
      rewrite Z.max_r in Hp by lia.
      rewrite IH by (done || zlia). rewrite zdrop_zdrop by lia.
      replace (progress pre + nw) with (nw + progress pre) by lia.
      replace (nleft - nw - progress pre) with (nleft - (nw + progress pre)) by lia.
      destruct (writen_loop env _ _ _) as [[[??]?]| | |]; [|done..]. cbn. do 2 f_equal. f_equal.
      rewrite app_assoc. f_equal. rewrite <- (ztake_zdrop nw ptr) at 3.
      rewrite ztake_app. f_equal; [symmetry; apply ztake_ge; zlia|]. f_equal. zlia.
    + cbn in Hr. rewrite Hr, !Z.max_l by lia. rewrite Z.max_l in Hp by lia.
      rewrite !Z.add_0_l. destruct (Z.ltb_spec nw 0).
      * rewrite bool_decide_eq_false_2 by (intros ->; discriminate Hr). by apply IH.
      * destruct (Z.eqb_spec nw 0); [by apply IH|lia].
Qed.

(** The value and the bytes of a [readn], without the answers left. *)
Definition read_value (o : outcome (Z * bytes * list read_result)) : outcome (Z * bytes) :=
  '(ret, got, _) ← o; mret (ret, got).

Lemma readn_loop_eintr pre d post : ∀ nleft n,
  read_value (readn_loop (pre ++ RR (-1) EINTR d :: post) nleft n)
  = read_value (readn_loop (pre ++ post) nleft n).
Proof.
  induction pre as [|[nr e d'] pre IH]; intros nleft n; cbn [app].
  - cbn [readn_loop]. destruct (Z.leb_spec nleft 0); [|done].
    destruct post as [|[]]; cbn [readn_loop];
      by rewrite (proj2 (Z.leb_le nleft 0)) by done.
  - cbn [readn_loop]. destruct (nleft <=? 0); [done|].
    repeat case_match; try done; try apply IH.
    specialize (IH (nleft - nr) n).
    destruct (readn_loop (pre ++ RR (-1) EINTR d :: post) _ _) as [[[??]?]| | |],
      (readn_loop (pre ++ post) _ _) as [[[??]?]| | |]; unfold read_value, mbind, outcome_bind, mret, outcome_ret in *;
      congruence.
Qed.

(** * Properties *)

(** What [writen] reports: the transport has taken a prefix of the buffer, and
    a result other than the error -1 is the length of that prefix. *)
Theorem writen_sends_prefix env data ret sent env' :
  writen env data (zlen data) = Ok (ret, sent, env') → writes_at_most (zlen data) env →
  sent `prefix_of` data ∧ (ret = -1 ∨ ret = zlen sent).
Proof.
  intros E Hat. apply writen_loop_ok in E as [? Hret]; [|apply zlen_nonneg|done..].
  split; [done|]. destruct Hret as [->| ->]; [by left|right; lia].
Qed.

Lemma writen_sends_prefix_witness :
  str "ab" `prefix_of` str "abc" ∧ (2 = -1 ∨ 2 = zlen (str "ab")).
Proof.
  apply (writen_sends_prefix [WR (-1) EAGAIN; WR 2 (EOTHER 0); WR 0 (EOTHER 0)] (str "abc")
           2 (str "ab") []); vm_compute; intuition congruence.
Defined.

(** [writen] terminates with the whole buffer sent as soon as the transport
    has accepted enough, however it cut the buffer and whatever "try again"
    answers came in between. *)
Theorem writen_completes env data :
  forallb goes_on env = true → writes_at_most (zlen data) env → zlen data ≤ progress env →
  ∃ env', writen env data (zlen data) = Ok (zlen data, data, env').
Proof. intros. by apply writen_loop_complete. Qed.

Lemma writen_completes_witness :
  ∃ env', writen [WR 1 EINTR; WR (-1) EAGAIN; WR 2 (EOTHER 0)] (str "abc") 3 = Ok (3, str "abc", env').
Proof. apply (writen_completes _ (str "abc")); vm_compute; intuition congruence. Defined.

(** A signal defeats [writen]: on [EINTR] it gives up with -1 although it has
    already sent part of the buffer and the transport would take the rest. *)
Theorem writen_gives_up_on_eintr pre post data :
  forallb goes_on pre = true → progress pre < zlen data →
  writen (pre ++ WR (-1) EINTR :: post) data (zlen data)
  = Ok (-1, ztake (progress pre) data, post).
Proof.
  intros Hgo Hp. unfold writen. rewrite writen_loop_prefix by done. cbn [writen_loop].
  rewrite (proj2 (Z.leb_gt (zlen data - _) 0)) by lia.
  change (again EINTR) with false. rewrite andb_false_r. cbn. by rewrite app_nil_r.
Qed.

Lemma writen_gives_up_on_eintr_witness :
  writen ([WR 2 (EOTHER 0)] ++ WR (-1) EINTR :: [WR 1 (EOTHER 0)]) (str "abc") 3
  = Ok (-1, ztake 2 (str "abc"), [WR 1 (EOTHER 0)]).
Proof.
  apply (writen_gives_up_on_eintr [WR 2 (EOTHER 0)] [WR 1 (EOTHER 0)] (str "abc"));
    vm_compute; reflexivity.
Defined.

(** [readn], unlike [writen], is insensitive to signals: an [EINTR] answer
    anywhere in the environment changes neither its value nor the bytes it read. *)
Theorem readn_ignores_eintr pre d post n :
  read_value (readn (pre ++ RR (-1) EINTR d :: post) n) = read_value (readn (pre ++ post) n).
Proof. apply readn_loop_eintr. Qed.
