(* ===== verification/Connection.v ===== *)
(** [Connection] of [include/io/internal/connection.h] and [src/connection.cpp]:
    the data path.  [send] frames a message into [send_buffer_]; the thread
    [loop_send] drains [send_buffer_] into the transport; the server thread puts
    what it reads from the socket into [buffer_] ([Connection::write]); the
    thread [loop_recv] takes the messages out of [buffer_] and sorts their data
    by id into [mapbuffer_]; [recv] reads from [mapbuffer_].

    Every operation is one critical section of the code and takes the state to
    the state.  The tasks that start and stop the two threads are in [Work]. *)
From Stdlib Require Import Strings.Byte.
From S2P Require Import Prelude Timer CycleBuffer SimpleBuffer Transport.
#[local] Open Scope Z_scope.

(** * The program *)

Inductive State :=
  | Invalid | Handshaking | Handshaked | Connecting | Connected | Closing | Closed | Failed.

#[global] Instance State_eq_dec : EqDecision State.
Proof. solve_decision. Defined.

Record Connection := Conn {
  state_ : State;
  fd_ : Z;
  events_ : Z;
  is_server_ : bool;
  node_id_ : bytes;
  reuseable_ : bool;
  buffer_ : cycle_buffer.t;                  (** all messages *)
  mapbuffer_ : gmap bytes cycle_buffer.t;    (** the data of one message id *)
  send_buffer_ : cycle_buffer.t;
  stop_works_ : gmap bytes bool              (** task id -> stop requested *)
}.

Definition set_state (s : State) (c : Connection) : Connection :=
  Conn s (fd_ c) (events_ c) (is_server_ c) (node_id_ c) (reuseable_ c) (buffer_ c)
       (mapbuffer_ c) (send_buffer_ c) (stop_works_ c).
Definition set_reuseable (reuseable : bool) (c : Connection) : Connection :=
  Conn (state_ c) (fd_ c) (events_ c) (is_server_ c) (node_id_ c) reuseable (buffer_ c)
       (mapbuffer_ c) (send_buffer_ c) (stop_works_ c).
Definition set_buffer (b : cycle_buffer.t) (c : Connection) : Connection :=
  Conn (state_ c) (fd_ c) (events_ c) (is_server_ c) (node_id_ c) (reuseable_ c) b
       (mapbuffer_ c) (send_buffer_ c) (stop_works_ c).
Definition set_mapbuffer (m : gmap bytes cycle_buffer.t) (c : Connection) : Connection :=
  Conn (state_ c) (fd_ c) (events_ c) (is_server_ c) (node_id_ c) (reuseable_ c) (buffer_ c)
       m (send_buffer_ c) (stop_works_ c).
Definition set_send_buffer (b : cycle_buffer.t) (c : Connection) : Connection :=
  Conn (state_ c) (fd_ c) (events_ c) (is_server_ c) (node_id_ c) (reuseable_ c) (buffer_ c)
       (mapbuffer_ c) b (stop_works_ c).

(** The results [recv] is declared to give besides a length ([socket.h]). *)
Definition E_ERROR : Z := -1.
Definition E_TIMEOUT : Z := -3.
Definition E_UNCONNECTED : Z := -4.

(** Sizes of the rings: received, to send, and per message id. *)
Definition recv_ring : Z := 1024 * 1024 * 10.
Definition send_ring : Z := 1024 * 1024 * 128.
Definition id_ring : Z := 1024 * 8.

Section program.
Context (junk : nat → byte).

(** [now] is the reading of the clock that timers started by the call see. *)
Definition Connection_create (now fd events : Z) (is_server : bool) (node_id : bytes) : Connection :=
  Conn Invalid fd events is_server node_id true
       (cycle_buffer.create junk now recv_ring) ∅ (cycle_buffer.create junk now send_ring) ∅.

Definition put_into_send_buffer (now : Z) (c : Connection) (data : bytes) (len : Z)
    : outcome (Z * Connection) :=
  '(ret, b) ← cycle_buffer.write junk now (send_buffer_ c) data len;
  mret (ret, set_send_buffer b c).

(** [send(id, data, length, timeout)]. *)
Definition send (now : Z) (c : Connection) (id data : bytes) (length : Z) : outcome (Z * Connection) :=
  buffer ← simple_buffer_create junk id data length;
  put_into_send_buffer now c (buf_ buffer) (len_ buffer).

(** [Connection::write]: bytes the server thread read from the socket. *)
Definition write (now : Z) (c : Connection) (data : bytes) (len : Z) : outcome Connection :=
  '(_, b) ← cycle_buffer.write junk now (buffer_ c) data len;
  mret (set_buffer b c).

Definition stop_requested (c : Connection) (task_id : bytes) : bool :=
  match stop_works_ c !! task_id with Some b => b | None => false end.

(** Second half of an iteration of [loop_recv]: the message goes to its id. *)
Definition dispatch (now : Z) (c : Connection) (tmp_id tmp_data : bytes) : outcome Connection :=
  let m := mapbuffer_ c in
  let m := match m !! tmp_id with
           | None => <[tmp_id := cycle_buffer.create junk now id_ring]> m
           | Some _ => m
           end in
  match m !! tmp_id with
  | Some b =>
    '(_, b) ← cycle_buffer.write junk now b tmp_data (zlen tmp_data);
    mret (set_mapbuffer (<[tmp_id := b]> m) c)
  | None => UB NullPointer
  end.

(** How one iteration of a worker loop ends: it breaks, or goes round again. *)
Inductive iteration := Break (c : Connection) | Again (c : Connection).

(** First half of an iteration of [loop_recv]: sleeps while there is no whole
    message, then takes one out of [buffer_] into [tmp_id] and [tmp_data]. *)
Definition loop_recv_take (task_id : bytes) (c : Connection)
    : outcome (option (bytes * bytes) * Connection) :=
  if stop_requested c task_id then mret (None, c)
  else
    readable ← cycle_buffer.can_read junk (buffer_ c);
    _ ← wait_until readable;
    '(_, tmp_id, tmp_data, b) ← cycle_buffer.read_message junk (buffer_ c) [] [];
    mret (Some (tmp_id, tmp_data), set_buffer b c).

(** One iteration of [loop_recv]. *)
Definition loop_recv_once (now : Z) (task_id : bytes) (c : Connection) : outcome iteration :=
  '(taken, c) ← loop_recv_take task_id c;
  match taken with
  | None => mret (Break c)
  | Some (tmp_id, tmp_data) => c ← dispatch now c tmp_id tmp_data; mret (Again c)
  end.

(** Where [loop_recv] is after at most [fuel] iterations. *)
Inductive loop_state := Left (c : Connection) | Waiting (c : Connection) | Running (c : Connection).

Fixpoint loop_recv (fuel : nat) (now : Z) (task_id : bytes) (c : Connection) : outcome loop_state :=
  match fuel with
  | O => mret (Running c)
  | S fuel =>
    match loop_recv_once now task_id c with
    | Ok (Break c) => mret (Left c)
    | Ok (Again c) => loop_recv fuel now task_id c
    | Sleep => mret (Waiting c)
    | Throw e => Throw e
    | UB f => UB f
    end
  end.

(** First half of an iteration of [loop_send]: takes everything out of
    [send_buffer_] into the local [buffer], or breaks. *)
Definition loop_send_take (now : Z) (task_id : bytes) (c : Connection)
    : outcome (option bytes * Connection) :=
  if stop_requested c task_id then mret (None, c)
  else
    _ ← wait_until (0 <? cycle_buffer.size (send_buffer_ c));
    let n := cycle_buffer.size (send_buffer_ c) in
    let buffer := new_char junk n in
    '(_, buffer, b) ← cycle_buffer.read now (send_buffer_ c) buffer n;
    mret (Some buffer, set_send_buffer b c).

(** An iteration of [loop_send]: an error of [writen] is only logged.  Returns
    what the transport took. *)
Definition loop_send_once (now : Z) (task_id : bytes) (env : list write_result) (c : Connection)
    : outcome (iteration * bytes * list write_result) :=
  '(taken, c) ← loop_send_take now task_id c;
  match taken with
  | None => mret (Break c, [], env)
  | Some buffer =>
    '(_, sent, env) ← writen env buffer (zlen buffer);
    mret (Again c, sent, env)
  end.

Definition flush_send_buffer (now : Z) (env : list write_result) (c : Connection)
    : outcome (Connection * bytes * list write_result) :=
  let remain_size := cycle_buffer.size (send_buffer_ c) in
  if 0 <? remain_size then
    let buffer := new_char junk remain_size in
    '(_, buffer, b) ← cycle_buffer.read now (send_buffer_ c) buffer remain_size;
    '(_, sent, env) ← writen env buffer remain_size;
    mret (set_send_buffer b c, sent, env)
  else mret (c, [], env).

(** [close(task_id)]: what it sends before closing, and the descriptors it
    passes to [::close]. *)
Definition close (now : Z) (env : list write_result) (c : Connection)
    : outcome (Connection * bytes * list Z * list write_result) :=
  if bool_decide (state_ c = Closed) then mret (c, [], [], env)
  else
    '(c, sent, env) ← flush_send_buffer now env (set_state Closing c);
    mret (set_state Closed c, sent, [fd_ c], env).

(** [SSLConnection::close()], which the destructor calls; it does not override
    [close(task_id)]. *)
Definition SSLConnection_close (c : Connection) : Connection * list Z :=
  (set_state Closed (set_state Closing c), [fd_ c]).

(** [recv(id, data, length, timeout)].  [state_now] is the second reading of
    [state_] and [elapsed] the milliseconds since the call began when the loop
    body runs; the wait that follows has no time limit. *)
Definition recv (now elapsed : Z) (state_now : State) (c : Connection) (id data : bytes)
    (length timeout : Z) : outcome (Z * bytes * Connection) :=
  let timeout := if timeout <? 0 then 1000 * 1000000 else timeout in
  if bool_decide (state_ c = Connected) && negb (bool_decide (state_now = Connected))
  then mret (E_UNCONNECTED, data, c)
  else if timeout <? elapsed then mret (E_TIMEOUT, data, c)
  else
    match mapbuffer_ c !! id with
    | None => Sleep
    | Some buffer =>
      _ ← wait_until (cycle_buffer.can_read_n buffer length);
      '(ret, data, buffer) ← cycle_buffer.read now buffer data length;
      mret (ret, data, set_mapbuffer (<[id := buffer]> (mapbuffer_ c)) c)
    end.

Definition get_unrecv_size (c : Connection) : Z :=
  map_fold (λ _ b ret, ret +₆₄ cycle_buffer.size b)
           (cycle_buffer.size (buffer_ c)) (mapbuffer_ c).
End program.

(** * What a connection holds *)

Record conn_wf (c : Connection) : Prop := {
  wf_recv : cycle_buffer.wf (buffer_ c);
  wf_send : cycle_buffer.wf (send_buffer_ c);
  wf_map : map_Forall (λ _, cycle_buffer.wf) (mapbuffer_ c)
}.

(** The bytes queued to be sent, received but not yet sorted, and sorted by id. *)
Definition to_send (c : Connection) : bytes := cycle_buffer.contents (send_buffer_ c).
Definition received (c : Connection) : bytes := cycle_buffer.contents (buffer_ c).
Definition ready (c : Connection) (id : bytes) : bytes :=
  match mapbuffer_ c !! id with Some b => cycle_buffer.contents b | None => [] end.

(** ** Histories of messages *)

(** A message: id and data. *)
Abbreviation msg := (bytes * bytes)%type.

(** The messages the frame format carries (see [long_id_corrupted] and
    [empty_message_stalls] for the others). *)
Definition sendable (m : msg) : bool := (zlen m.1 <=? 254) && (0 <? zlen m.1 + zlen m.2).

(** All the data of one id, in order: the stream the id carries. *)
Definition on (l : list msg) (id : bytes) : bytes :=
  concat ((λ m : msg, if decide (m.1 = id) then m.2 else []) <$> l).

Definition frames (l : list msg) : bytes := concat ((λ m : msg, frame m.1 m.2) <$> l).

(** Bytes on the wire for a history; no counter wraps while it is below 2^61. *)
Definition volume (l : list msg) : Z := zlen (frames l).

(** * Lemmas *)

Lemma on_app l1 l2 id : on (l1 ++ l2) id = on l1 id ++ on l2 id.
Proof. unfold on. by rewrite fmap_app, concat_app. Qed.

Lemma frames_app l1 l2 : frames (l1 ++ l2) = frames l1 ++ frames l2.
Proof. unfold frames. by rewrite fmap_app, concat_app. Qed.

Lemma frames_cons m l : frames (m :: l) = frame m.1 m.2 ++ frames l.
Proof. done. Qed.

Lemma frames_one id data : frames [(id, data)] = frame id data.
Proof. unfold frames. cbn. by rewrite app_nil_r. Qed.

Lemma on_one id data id' : on [(id, data)] id' = if decide (id' = id) then data else [].
Proof. unfold on. cbn. rewrite app_nil_r. by repeat case_decide; subst. Qed.

Lemma zlen_on l id : zlen (on l id) ≤ volume l.
Proof.
  unfold volume. induction l as [|[i d] l IH]; [done|].
  rewrite frames_cons. change ((i, d) :: l) with ([(i, d)] ++ l). rewrite on_app, on_one.
  rewrite !zlen_app, zlen_frame. cbn [fst snd]. pose proof (zlen_nonneg i).
  case_decide; zlia.
Qed.

Lemma volume_app l1 l2 : volume (l1 ++ l2) = volume l1 + volume l2.
Proof. unfold volume. by rewrite frames_app, zlen_app. Qed.

Lemma volume_cons m l : volume (m :: l) = zlen (frame m.1 m.2) + volume l.
Proof. unfold volume. by rewrite frames_cons, zlen_app. Qed.

Lemma volume_nonneg l : 0 ≤ volume l.
Proof. apply zlen_nonneg. Qed.

Lemma stop_requested_set_buffer b c t : stop_requested (set_buffer b c) t = stop_requested c t.
Proof. done. Qed.

Lemma ready_insert c m id b id' :
  ready (set_mapbuffer (<[id := b]> m) c) id'
  = if decide (id' = id) then cycle_buffer.contents b else ready (set_mapbuffer m c) id'.
Proof.
  unfold ready. cbn. case_decide as E.
  - subst. by rewrite lookup_insert_eq.
  - by rewrite lookup_insert_ne.
Qed.

Section lemmas.
Context (junk : nat → byte).

Lemma Connection_create_wf now fd ev sv node :
  conn_wf (Connection_create junk now fd ev sv node)
  ∧ to_send (Connection_create junk now fd ev sv node) = []
  ∧ received (Connection_create junk now fd ev sv node) = []
  ∧ ∀ id, ready (Connection_create junk now fd ev sv node) id = [].
Proof.
  split_and!; [split; try by apply cycle_buffer.create_wf|apply cycle_buffer.create_contents..|].
  - apply map_Forall_empty.
  - intros id. unfold ready, Connection_create. cbn [mapbuffer_]. by rewrite lookup_empty.
Qed.

Lemma send_ok now c id data :
  conn_wf c → 3 * (zlen (to_send c) + zlen (frame id data)) < 2 ^ 63 →
  ∃ b, send junk now c id data (zlen data) = Ok (zlen (frame id data), set_send_buffer b c)
       ∧ cycle_buffer.wf b ∧ cycle_buffer.contents b = to_send c ++ frame id data.
Proof.
  intros [_ H _] Hmax. pose proof (zlen_frame id data) as Hf. pose proof (zlen_nonneg (to_send c)).
  pose proof (zlen_nonneg id).
  destruct (cycle_buffer.write_ok junk now (send_buffer_ c) (frame id data) (zlen (frame id data)))
    as (b & E & Hb & Hc & _); [done|split; zlia|done|].
  exists b. rewrite ztake_ge in Hc by lia. split_and!; [|done..].
  unfold send, put_into_send_buffer.
  rewrite simple_buffer_create_ok by zlia. cbn [mbind outcome_bind buf_ len_].
  rewrite (ztake_ge (zlen data)), <- Hf by lia. by rewrite E.
Qed.

Lemma conn_write_ok now c data :
  conn_wf c → 3 * (zlen (received c) + zlen data) < 2 ^ 63 →
  ∃ b, write junk now c data (zlen data) = Ok (set_buffer b c)
       ∧ cycle_buffer.wf b ∧ cycle_buffer.contents b = received c ++ data.
Proof.
  intros [H _ _] Hmax.
  destruct (cycle_buffer.write_ok junk now (buffer_ c) data (zlen data))
    as (b & E & Hb & Hc & _); [done|zlia|done|].
  exists b. rewrite ztake_ge in Hc by lia. split_and!; [|done..].
  unfold write. by rewrite E.
Qed.

Lemma dispatch_ok now c id data :
  conn_wf c → 3 * (zlen (ready c id) + zlen data) < 2 ^ 63 →
  ∃ m, dispatch junk now c id data = Ok (set_mapbuffer m c)
       ∧ map_Forall (λ _, cycle_buffer.wf) m
       ∧ ∀ id', ready (set_mapbuffer m c) id'
                = ready c id' ++ if decide (id' = id) then data else [].
Proof.
  intros [_ _ Hm] Hmax. unfold dispatch.
  set (m := match mapbuffer_ c !! id with None => _ | Some _ => _ end).
  assert (∃ b, m !! id = Some b ∧ cycle_buffer.contents b = ready c id) as (b & Hb & Hcont).
  { unfold m, ready. destruct (mapbuffer_ c !! id) as [b|] eqn:E; [by exists b|].
    rewrite lookup_insert_eq. eexists. split; [done|]. apply cycle_buffer.create_contents. }
  assert (map_Forall (λ _, cycle_buffer.wf) m) as Hwf.
  { unfold m. destruct (mapbuffer_ c !! id); [done|].
    apply map_Forall_insert_2; [by apply cycle_buffer.create_wf|done]. }
  assert (∀ id', ready (set_mapbuffer m c) id' = ready c id') as Hsame.
  { intros id'. unfold m. destruct (mapbuffer_ c !! id) as [b'|] eqn:E; [done|].
    rewrite ready_insert. case_decide as Eid; [|done]. subst.
    unfold ready. rewrite E. apply cycle_buffer.create_contents. }
  rewrite Hb.
  destruct (cycle_buffer.write_ok junk now b data (zlen data)) as (b' & -> & Hb' & Hc' & _);
    [by eapply Hwf|zlia|by rewrite Hcont|].
  rewrite ztake_ge in Hc' by lia. cbn [mbind outcome_bind].
  eexists. split; [done|]. split; [by apply map_Forall_insert_2|].
  intros id'. rewrite ready_insert. case_decide; subst.
  - by rewrite Hc', Hcont.
  - by rewrite app_nil_r.
Qed.

(** An iteration of [loop_recv] with a whole frame in front of the ring. *)
Lemma loop_recv_take_ok t c id data rest :
  conn_wf c → stop_requested c t = false → received c = frame id data ++ rest →
  sendable (id, data) = true →
  ∃ b, loop_recv_take junk t c = Ok (Some (id, data), set_buffer b c)
    ∧ cycle_buffer.wf b ∧ cycle_buffer.contents b = rest.
Proof.
  intros [Hr Hs Hm] Hstop Hc Hgood. unfold received in Hc. unfold sendable in Hgood. cbn in Hgood.
  pose proof (cycle_buffer.zlen_contents _ Hr) as Hz. rewrite Hc, zlen_app in Hz.
  pose proof (zlen_nonneg rest).
  pose proof (cycle_buffer.wf_n _ Hr). pose proof (cycle_buffer.wf_remain _ Hr).
  destruct (read_frame_short junk (buffer_ c) [] [] id data rest)
    as (b & Eb & Hb & Hcb & _); [done|done|lia..|].
  exists b. split_and!; try done. unfold loop_recv_take. rewrite Hstop.
  rewrite cycle_buffer.can_read_ok, Hc, frame_whole by (done || lia).
  cbn [mbind outcome_bind wait_until]. by rewrite Eb.
Qed.

Lemma loop_recv_take_sleeps t c :
  conn_wf c → stop_requested c t = false → cycle_buffer.whole_message (received c) = false →
  loop_recv_take junk t c = Sleep.
Proof.
  intros [Hr _ _] Hstop Hw. unfold loop_recv_take. rewrite Hstop.
  unfold received in Hw. by rewrite cycle_buffer.can_read_ok, Hw by done.
Qed.

Lemma loop_recv_once_ok now t c id data rest :
  conn_wf c → stop_requested c t = false → received c = frame id data ++ rest →
  sendable (id, data) = true → 3 * (zlen (ready c id) + zlen data) < 2 ^ 63 →
  ∃ c', loop_recv_once junk now t c = Ok (Again c') ∧ conn_wf c' ∧ received c' = rest
    ∧ stop_works_ c' = stop_works_ c
    ∧ ∀ id', ready c' id' = ready c id' ++ on [(id, data)] id'.
Proof.
  intros H Hstop Hc Hgood Hmax.
  destruct (loop_recv_take_ok t c id data rest H Hstop Hc Hgood) as (b & Eb & Hb & Hcb).
  assert (conn_wf (set_buffer b c)) as H' by (destruct H; by split).
  destruct (dispatch_ok now (set_buffer b c) id data H') as (m & Em & Hmwf & Hready); [done|].
  exists (set_mapbuffer m (set_buffer b c)). unfold loop_recv_once. rewrite Eb.
  cbn [mbind outcome_bind]. rewrite Em. split_and!; try done.
  - by destruct H'; split.
  - intros id'. by rewrite Hready, on_one.
Qed.

Lemma loop_recv_again fuel now t c c' :
  loop_recv_once junk now t c = Ok (Again c') →
  loop_recv junk (S fuel) now t c = loop_recv junk fuel now t c'.
Proof. intros E. cbn [loop_recv]. by rewrite E. Qed.

(** An iteration of [loop_recv] that finds the empty message in front. *)
Lemma loop_recv_once_stalls now t c rest :
  conn_wf c → stop_requested c t = false → received c = frame [] [] ++ rest → rest ≠ [] →
  3 * zlen (ready c []) < 2 ^ 63 →
  ∃ c', loop_recv_once junk now t c = Ok (Again c') ∧ conn_wf c' ∧ received c' = received c
    ∧ stop_works_ c' = stop_works_ c ∧ ∀ id, ready c' id = ready c id.
Proof.
  intros H Hstop Hc Hne Hmax. pose proof H as [Hr _ _].
  destruct (dispatch_ok now c [] [] H) as (m & Em & Hm & Hready).
  { change (zlen []) with 0. lia. }
  exists (set_mapbuffer m c). split_and!; [|by destruct H; split|done..|].
  2: { intros id. rewrite Hready. by case_decide; rewrite app_nil_r. }
  unfold loop_recv_once, loop_recv_take. rewrite Hstop, cycle_buffer.can_read_ok by done.
  fold (received c). rewrite Hc, empty_frame_whole by done. cbn [mbind outcome_bind wait_until].
  rewrite (cycle_buffer.read_message_empty junk (buffer_ c) [] [] _ rest Hr Hc).
  cbn [mbind outcome_bind]. replace (set_buffer (buffer_ c) c) with c by (by destruct c).
  cbn [mret outcome_ret mbind outcome_bind]. by rewrite Em.
Qed.

Lemma loop_send_take_ok now t c :
  conn_wf c → stop_requested c t = false → to_send c ≠ [] →
  ∃ b, loop_send_take junk now t c = Ok (Some (to_send c), set_send_buffer b c)
       ∧ cycle_buffer.wf b ∧ cycle_buffer.contents b = [].
Proof.
  intros [_ H _] Hstop Hne. unfold loop_send_take. rewrite Hstop.
  rewrite cycle_buffer.size_contents by done. fold (to_send c).
  assert (0 < zlen (to_send c)) as Hpos.
  { destruct (to_send c) as [|x l]; [done|]. rewrite zlen_cons. pose proof (zlen_nonneg l). lia. }
  rewrite (proj2 (Z.ltb_lt _ _)) by done. cbn [mbind outcome_bind wait_until].
  destruct (cycle_buffer.read_ok now (send_buffer_ c) (new_char junk (zlen (to_send c)))
              (zlen (to_send c))) as (b & -> & Hb & Hc & _); [done|split; [lia|done]|zlia|].
  exists b. fold (to_send c) in Hc |- *. rewrite ztake_ge, zdrop_ge, app_nil_r by zlia.
  by rewrite zdrop_ge in Hc by lia.
Qed.

Lemma recv_ok now elapsed s c id data length timeout :
  conn_wf c → s = state_ c → 0 ≤ elapsed ≤ (if timeout <? 0 then 1000 * 1000000 else timeout) →
  0 ≤ length ≤ zlen data → is_Some (mapbuffer_ c !! id) →
  if length <=? zlen (ready c id) then
    ∃ b, recv now elapsed s c id data length timeout
           = Ok (length, ztake length (ready c id) ++ zdrop length data,
                 set_mapbuffer (<[id := b]> (mapbuffer_ c)) c)
         ∧ cycle_buffer.wf b ∧ cycle_buffer.contents b = zdrop length (ready c id)
  else recv now elapsed s c id data length timeout = Sleep.
Proof.
  intros [_ _ Hm] -> Hel Hlen [b Eb]. pose proof (Hm _ _ Eb) as Hb. cbn in Hb.
  unfold recv. rewrite andb_negb_r, (proj2 (Z.ltb_ge _ elapsed)), Eb by lia.
  unfold ready. rewrite Eb. unfold cycle_buffer.can_read_n.
  change (cycle_buffer.n_ b -₆₄ cycle_buffer.remain_space_ b) with (cycle_buffer.size b).
  rewrite cycle_buffer.size_contents by done.
  destruct (Z.leb_spec length (zlen (cycle_buffer.contents b))); [|done].
  destruct (cycle_buffer.read_ok now b data length) as (b' & E' & ? & ? & _); [done|lia..|].
  exists b'. cbn [wait_until mbind outcome_bind]. by rewrite E'.
Qed.

Lemma recv_no_id now elapsed s c id data length timeout :
  s = state_ c → elapsed ≤ (if timeout <? 0 then 1000 * 1000000 else timeout) →
  mapbuffer_ c !! id = None → recv now elapsed s c id data length timeout = Sleep.
Proof.
  intros -> Hel E. unfold recv.
  by rewrite andb_negb_r, (proj2 (Z.ltb_ge _ elapsed)), E by lia.
Qed.
End lemmas.

(** * Properties *)

(** C10: [loop_recv] sorts every complete message and then waits: with frames in
    the ring followed by bytes that are no whole message, it takes one iteration
    per frame, appends the data of each to the queue of its id in order, keeps
    the rest in the ring, and sleeps. *)
Theorem loop_recv_sorts junk now t msgs : ∀ c rest,
  conn_wf c → stop_requested c t = false → received c = frames msgs ++ rest →
  forallb sendable msgs = true → cycle_buffer.whole_message rest = false →
  (∀ id, 3 * (zlen (ready c id) + volume msgs) < 2 ^ 63) →
  ∃ c', loop_recv junk (S (length msgs)) now t c = Ok (Waiting c')
    ∧ conn_wf c' ∧ received c' = rest ∧ ∀ id, ready c' id = ready c id ++ on msgs id.
Proof.
  induction msgs as [|[id data] msgs IH]; intros c rest H Hstop Hc Hgood Hw Hmax.
  - exists c. cbn [length loop_recv]. cbn [frames fmap list_fmap concat app] in Hc.
    unfold loop_recv_once. rewrite loop_recv_take_sleeps by (by rewrite ?Hc).
    split_and!; [done..|]. intros id. by rewrite app_nil_r.
  - cbn [forallb] in Hgood. apply andb_true_iff in Hgood as [Hg Hgood].
    rewrite frames_cons, <- app_assoc in Hc. cbn [fst snd] in Hc.
    pose proof (volume_nonneg msgs). pose proof (zlen_nonneg id). pose proof (zlen_nonneg data).
    assert (∀ i, 3 * (zlen (ready c i) + zlen (on [(id, data)] i) + volume msgs) < 2 ^ 63) as Hmax'.
    { intros i. specialize (Hmax i). rewrite volume_cons, zlen_frame in Hmax. cbn [fst snd] in Hmax.
      rewrite on_one. case_decide; [lia|]. change (zlen []) with 0. lia. }
    destruct (loop_recv_once_ok junk now t c id data _ H Hstop Hc Hg)
      as (c1 & E1 & Hwf1 & Hc1 & Hs1 & Hr1).
    { specialize (Hmax' id). rewrite on_one, decide_True in Hmax' by done. lia. }
    destruct (IH c1 rest) as (c' & E & Hwf' & Hc' & Hr'); [done| |done..| |].
    { unfold stop_requested in *. by rewrite Hs1. }
    { intros i. rewrite Hr1, zlen_app. specialize (Hmax' i). lia. }
    exists c'. change (length (_ :: msgs)) with (S (length msgs)).
    rewrite (loop_recv_again junk _ _ _ _ _ E1). split_and!; [exact E|done..|].
    intros i. rewrite Hr', Hr1, <- app_assoc, <- on_app. done.
Qed.

Definition small_conn (recv_bytes send_bytes : bytes) : Connection :=
  Conn Connected 7 1 true (str "P1") true (ring_of recv_bytes) ∅ (ring_of send_bytes) ∅.

Lemma small_conn_wf r w :
  zlen r + 8 < 2 ^ 63 → zlen w + 8 < 2 ^ 63 → conn_wf (small_conn r w).
Proof. split; [by apply ring_of_wf..|apply map_Forall_empty]. Qed.

Lemma loop_recv_sorts_witness :
  let msgs := [(str "a", str "hi"); (str "b", str "!"); (str "a", str "ho")] in
  ∃ c', loop_recv (λ _, x00) 4 0 [] (small_conn (frames msgs ++ str "x") []) = Ok (Waiting c')
    ∧ conn_wf c' ∧ received c' = str "x"
    ∧ ∀ id, ready c' id = ready (small_conn (frames msgs ++ str "x") []) id ++ on msgs id.
Proof.
  intros msgs.
  apply (loop_recv_sorts (λ _, x00) 0 [] msgs (small_conn (frames msgs ++ str "x") []) (str "x"));
    [by apply small_conn_wf|done|vm_compute; done|done|done|].
  intros id. change (ready _ id) with (@nil byte). vm_compute. done.
Defined.

(** A message with an empty id and no data, once anything follows it,
    makes [loop_recv] spin for ever without taking anything: after any number of
    iterations it is still running, with the same bytes in the ring and nothing
    new ready, so no later message is ever received. *)
Theorem empty_message_livelock junk now t rest : rest ≠ [] → ∀ fuel c,
  conn_wf c → stop_requested c t = false → received c = frame [] [] ++ rest →
  3 * zlen (ready c []) < 2 ^ 63 →
  ∃ c', loop_recv junk fuel now t c = Ok (Running c')
    ∧ received c' = received c ∧ ∀ id, ready c' id = ready c id.
Proof.
  intros Hne. induction fuel as [|fuel IH]; intros c H Hstop Hc Hmax; [by eexists|].
  destruct (loop_recv_once_stalls junk now t c rest) as (c1 & E & H1' & Hc1 & Hs1 & Hr1); [done..|].
  rewrite (loop_recv_again junk _ _ _ _ _ E).
  destruct (IH c1) as (c' & E' & Hc' & Hr'); [done| |congruence|by rewrite Hr1|].
  { unfold stop_requested in *. by rewrite Hs1. }
  exists c'. split_and!; [done|congruence|]. intros id. by rewrite Hr', Hr1.
Qed.

Lemma empty_message_livelock_witness :
  ∃ c', loop_recv (λ _, x00) 1000 0 [] (small_conn (frame [] [] ++ frame (str "k") (str "v")) [])
        = Ok (Running c')
    ∧ received c' = received (small_conn (frame [] [] ++ frame (str "k") (str "v")) [])
    ∧ ∀ id, ready c' id = ready (small_conn (frame [] [] ++ frame (str "k") (str "v")) []) id.
Proof.
  apply (empty_message_livelock (λ _, x00) 0 [] (frame (str "k") (str "v")));
    [done|by apply small_conn_wf|done|vm_compute; done|vm_compute; done].
Defined.

(** C19: [recv] returns exactly the oldest bytes of its id: with enough of them
    it fills the caller's buffer and takes them off the queue of that id only;
    with fewer it blocks, whatever the time-out, since the limit is only looked
    at before the wait. *)
Theorem recv_takes_or_blocks now c id data length timeout :
  conn_wf c → 0 ≤ length ≤ zlen data → 0 < length →
  if length <=? zlen (ready c id) then
    ∃ c', recv now 0 (state_ c) c id data length timeout
            = Ok (length, ztake length (ready c id) ++ zdrop length data, c')
      ∧ conn_wf c' ∧ received c' = received c ∧ to_send c' = to_send c
      ∧ ∀ id', ready c' id' = if decide (id' = id) then zdrop length (ready c id) else ready c id'
  else recv now 0 (state_ c) c id data length timeout = Sleep.
Proof.
  intros H Hlen Hpos.
  assert (0 ≤ 0 ≤ if timeout <? 0 then 1000 * 1000000 else timeout) as Ht by (zbool; lia).
  destruct (mapbuffer_ c !! id) as [b|] eqn:E.
  - pose proof (recv_ok now 0 (state_ c) c id data length timeout H eq_refl Ht Hlen) as Hok.
    rewrite E in Hok. specialize (Hok ltac:(eauto)). zbool; [|done].
    destruct Hok as (b' & -> & Hb' & Hc'). eexists. split; [done|]. split_and!; [|done..|].
    + destruct H. split; [done..|]. by apply map_Forall_insert_2.
    + intros id'. rewrite ready_insert. case_decide; [by rewrite Hc'|done].
  - unfold ready at 1. rewrite E. change (zlen []) with 0. zbool; [lia|].
    apply recv_no_id; [done|lia|done].
Qed.

Definition sorted_conn : Connection :=
  set_mapbuffer {[ str "a" := ring_of (str "hello") ]} (small_conn [] []).

Lemma sorted_conn_wf : conn_wf sorted_conn.
Proof. split; [by apply ring_of_wf..|]. by apply map_Forall_singleton, ring_of_wf. Qed.

Lemma recv_takes_or_blocks_witness :
  (∃ c', recv 0 0 (state_ sorted_conn) sorted_conn (str "a") (zeros 3) 3 (-1)
           = Ok (3, str "hel", c')
      ∧ conn_wf c' ∧ received c' = [] ∧ to_send c' = []
      ∧ ∀ id', ready c' id' = if decide (id' = str "a") then str "lo" else ready sorted_conn id')
  ∧ recv 0 0 (state_ sorted_conn) sorted_conn (str "a") (zeros 9) 9 1000 = Sleep.
Proof.
  split.
  - apply (recv_takes_or_blocks 0 sorted_conn (str "a") (zeros 3) 3 (-1));
      [apply sorted_conn_wf|vm_compute; intuition congruence|done].
  - apply (recv_takes_or_blocks 0 sorted_conn (str "a") (zeros 9) 9 1000);
      [apply sorted_conn_wf|vm_compute; intuition congruence|done].
Defined.

(** [close] drains [send_buffer_] into the transport, which gets a prefix of
    what was queued, and closes the descriptor once: a second call does nothing. *)
Theorem close_once junk now now2 c env c' sent fds env' :
  conn_wf c → writes_at_most (zlen (to_send c)) env → state_ c ≠ Closed →
  close junk now env c = Ok (c', sent, fds, env') →
  sent `prefix_of` to_send c ∧ fds = [fd_ c] ∧ to_send c' = [] ∧ state_ c' = Closed ∧ conn_wf c'
  ∧ ∀ env2, close junk now2 env2 c' = Ok (c', [], [], env2).
Proof.
  intros H Hat Hs E. unfold close in E. rewrite bool_decide_false in E by done.
  assert (∃ c1, flush_send_buffer junk now env (set_state Closing c) = Ok (c1, sent, env')
          ∧ c' = set_state Closed c1 ∧ fds = [fd_ c1]) as (c1 & Ef & -> & ->).
  { outcome_inv. eauto. }
  assert (sent `prefix_of` to_send c ∧ fd_ c1 = fd_ c ∧ to_send c1 = [] ∧ conn_wf c1) as (Hp & Hfd & Hts & Hw1).
  { pose proof H as [Hr Hw Hm]. unfold flush_send_buffer in Ef. cbn [send_buffer_ set_state] in Ef.
    rewrite cycle_buffer.size_contents in Ef by done. fold (to_send c) in Ef.
    destruct (Z.ltb_spec 0 (zlen (to_send c))) as [Hpos|Hz].
    - destruct (cycle_buffer.read_ok now (send_buffer_ c) (new_char junk (zlen (to_send c)))
        (zlen (to_send c))) as (b & Er & Hb & Hcb & _); [done|split; [lia|done]|zlia|].
      fold (to_send c) in Er, Hcb. rewrite Er, ztake_ge, zdrop_ge, app_nil_r in Ef by zlia.
      cbn [mbind outcome_bind] in Ef. apply bind_Ok in Ef as ([[z took] env1] & Ew & Ef).
      injection Ef as <- <- <-.
      destruct (writen_loop_ok _ _ _ _ _ _ _ Ew) as [? _]; [lia|done..|].
      split_and!; [done..| |by split]. unfold to_send at 1. cbn. by rewrite Hcb, zdrop_ge.
    - injection Ef as <- <- _. pose proof (zlen_nonneg (to_send c)).
      split_and!; [apply prefix_nil|done| |by split]. apply zlen_zero_nil. unfold to_send in *. cbn. lia. }
  rewrite Hfd. split_and!; [done..|by destruct Hw1|done].
Qed.

Lemma close_once_witness :
  ∃ c', close (λ _, x00) 0 [WR 2 (EOTHER 0); WR 1 (EOTHER 0)] (small_conn [] (str "end"))
        = Ok (c', str "end", [7], [])
  ∧ (str "end" `prefix_of` str "end" ∧ [7] = [7] ∧ to_send c' = [] ∧ state_ c' = Closed ∧ conn_wf c'
     ∧ ∀ env2, close (λ _, x00) 1 env2 c' = Ok (c', [], [], env2)).
Proof.
  eexists. split; [vm_compute; reflexivity|].
  apply (close_once (λ _, x00) 0 1 (small_conn [] (str "end")) [WR 2 (EOTHER 0); WR 1 (EOTHER 0)]
           _ (str "end") [7] []);
    [by apply small_conn_wf|vm_compute; intuition congruence|done|vm_compute; reflexivity].
Defined.
