(* ===== verification/Link.v ===== *)
(** One direction of a connection between two nodes as a transition system: the
    sending [Connection], the bytes in [loop_send]'s local buffer, the bytes the
    network carries, and the receiving [Connection].  A step is one critical
    section of the sending or receiving code or one move of the network, so the
    threads of both nodes interleave freely.  The invariant [in_transit] and the
    measure [pending] give delivery in order, without loss, and in bounded time. *)
From Stdlib Require Import Strings.Byte.
From S2P Require Import Prelude Timer CycleBuffer SimpleBuffer Transport Connection.
#[local] Open Scope Z_scope.

(** * The system *)

Record link := Link {
  tx : Connection;
  outbox : bytes;               (** [buffer] of [loop_send], what [writen] has not sent yet *)
  wire : bytes;
  rx : Connection;
  inbox : option msg;           (** [tmp_id] and [tmp_data] of [loop_recv], not yet sorted *)
  log_sent : list msg;          (** history: the [send] calls *)
  log_recv : list msg           (** history: what [recv] calls returned, by id *)
}.

(** Size of the server's [main_buffer_] reads. *)
Definition read_chunk : Z := 8192.

(** A connection works in both directions.  What the other direction does to an end
    keeps what this direction uses of it. *)
Definition same_tx (c c' : Connection) : Prop := conn_wf c' ∧ to_send c' = to_send c.
Definition same_rx (c c' : Connection) : Prop :=
  conn_wf c' ∧ received c' = received c ∧ ∀ id, ready c' id = ready c id.

Section system.
Context (junk : nat → byte).

(** Steps of the threads [loop_send], the server's [handle_read], [loop_recv] and
    of the network. *)
Inductive internal : link → link → Prop :=
  | step_take s now t buf tx' :
      outbox s = [] →
      loop_send_take junk now t (tx s) = Ok (Some buf, tx') →
      internal s (Link tx' buf (wire s) (rx s) (inbox s) (log_sent s) (log_recv s))
  | step_push s k :             (* one positive answer of [writeImpl] *)
      0 < k ≤ zlen (outbox s) →
      internal s (Link (tx s) (zdrop k (outbox s)) (wire s ++ ztake k (outbox s)) (rx s)
                       (inbox s) (log_sent s) (log_recv s))
  | step_net s now k rx' :      (* one positive answer of [readImpl] in [handle_read] *)
      0 < k ≤ zlen (wire s) → k ≤ read_chunk →
      write junk now (rx s) (ztake k (wire s)) k = Ok rx' →
      internal s (Link (tx s) (outbox s) (zdrop k (wire s)) rx' (inbox s) (log_sent s) (log_recv s))
  | step_fetch s t m rx' :
      inbox s = None →
      loop_recv_take junk t (rx s) = Ok (Some m, rx') →
      internal s (Link (tx s) (outbox s) (wire s) rx' (Some m) (log_sent s) (log_recv s))
  | step_dispatch s now id data rx' :
      inbox s = Some (id, data) →
      dispatch junk now (rx s) id data = Ok rx' →
      internal s (Link (tx s) (outbox s) (wire s) rx' None (log_sent s) (log_recv s)).

(** Calls of the two applications. *)
Inductive step : link → link → Prop :=
  | step_internal s s' : internal s s' → step s s'
  | step_send s now id data n tx' :
      sendable (id, data) = true →
      send junk now (tx s) id data (zlen data) = Ok (n, tx') →
      step s (Link tx' (outbox s) (wire s) (rx s) (inbox s) (log_sent s ++ [(id, data)]) (log_recv s))
  | step_other s tx' rx' :      (* either end works for the other direction *)
      same_tx (tx s) tx' → same_rx (rx s) rx' →
      step s (Link tx' (outbox s) (wire s) rx' (inbox s) (log_sent s) (log_recv s))
  | step_recv s now elapsed state_now timeout id len data rx' :
      0 ≤ len →                 (* not one of the error results *)
      recv now elapsed state_now (rx s) id (new_char junk len) len timeout = Ok (len, data, rx') →
      step s (Link (tx s) (outbox s) (wire s) rx' (inbox s) (log_sent s) (log_recv s ++ [(id, data)])).

(** Two connections that were just created. *)
Definition initial (s : link) : Prop :=
  ∃ now1 fd1 ev1 node1 now2 fd2 ev2 node2,
    s = Link (Connection_create junk now1 fd1 ev1 false node1) [] []
             (Connection_create junk now2 fd2 ev2 true node2) None [] [].

Definition reachable (s : link) : Prop := ∃ s0, initial s0 ∧ rtc step s0 s.
End system.

(** * Specification *)

(** What is left to do for the threads. *)
Definition pending (s : link) : Z :=
  4 * zlen (to_send (tx s)) + 3 * zlen (outbox s) + 2 * zlen (wire s) + zlen (received (rx s))
  + zlen (option_list (inbox s)).

(** The messages split into those sorted at the receiver and those whose frames
    are, in order, in the receiving ring, on the wire, in the local buffer and in
    the sending ring. *)
Record in_transit (s : link) (done_ todo : list msg) : Prop := {
  it_tx : conn_wf (tx s);
  it_rx : conn_wf (rx s);
  it_split : log_sent s = done_ ++ option_list (inbox s) ++ todo;
  it_good : forallb sendable (log_sent s) = true;
  it_bytes : received (rx s) ++ wire s ++ outbox s ++ to_send (tx s) = frames todo;
  it_ready : ∀ id, on (log_recv s) id ++ ready (rx s) id = on done_ id
}.

(** The same stop requests at both ends. *)
Definition same_stops (s s' : link) : Prop :=
  stop_works_ (tx s') = stop_works_ (tx s) ∧ stop_works_ (rx s') = stop_works_ (rx s).

(** Everything that was sent was received or is ready to be received. *)
Definition delivered (s : link) : Prop :=
  ∀ id, on (log_recv s) id ++ ready (rx s) id = on (log_sent s) id.

(** * Lemmas *)

(** A receiving ring with a whole message in front holds the whole next frame. *)
Lemma whole_frame bs rest id data more :
  bs ++ rest = frame id data ++ more → zlen (frame id data) < 2 ^ 64 →
  cycle_buffer.whole_message bs = true → ∃ tail, bs = frame id data ++ tail.
Proof.
  intros E Hmax Hw. unfold cycle_buffer.whole_message in Hw.
  apply andb_true_iff in Hw as [H9 Hlen].
  assert (ztake 8 bs = ztake 8 (frame id data ++ more)) as E8.
  { rewrite <- E, ztake_app. by rewrite (ztake_0 (8 - zlen bs)), app_nil_r by lia. }
  rewrite E8 in Hlen. unfold frame in Hlen at 1. rewrite zlen_frame in Hmax.
  rewrite cycle_buffer.message_length_field in Hlen by (rewrite zlen_app; lia).
  rewrite zlen_app in Hlen.
  exists (zdrop (zlen (frame id data)) bs).
  pose proof (zlen_frame id data) as Hf.
  rewrite <- (ztake_zdrop (zlen (frame id data)) bs) at 1. f_equal.
  transitivity (ztake (zlen (frame id data)) (bs ++ rest)).
  - rewrite ztake_app, (ztake_0 _ rest), app_nil_r by lia. done.
  - rewrite E. by apply ztake_app_eq.
Qed.

(** ** Steps of the threads *)

Section lemmas.
Context (junk : nat → byte).

Lemma loop_send_take_inv now t c buf c' :
  conn_wf c → loop_send_take junk now t c = Ok (Some buf, c') →
  to_send c ≠ [] ∧ buf = to_send c
  ∧ ∃ b, c' = set_send_buffer b c ∧ cycle_buffer.wf b ∧ cycle_buffer.contents b = [].
Proof.
  intros H E. destruct (stop_requested c t) eqn:Hstop.
  { unfold loop_send_take in E. by rewrite Hstop in E. }
  destruct (decide (to_send c = [])) as [E0|Hne].
  - unfold loop_send_take in E. rewrite Hstop, cycle_buffer.size_contents in E by apply H.
    fold (to_send c) in E. by rewrite E0 in E.
  - destruct (loop_send_take_ok junk now t c) as (b & E' & ? & ?); [done..|].
    rewrite E in E'. simplify_eq. eauto 10.
Qed.

Lemma loop_recv_take_inv t c m c' :
  conn_wf c → loop_recv_take junk t c = Ok (Some m, c') →
  stop_requested c t = false ∧ cycle_buffer.whole_message (received c) = true.
Proof.
  intros H E. destruct (stop_requested c t) eqn:Hstop.
  { unfold loop_recv_take in E. by rewrite Hstop in E. }
  split; [done|]. destruct (cycle_buffer.whole_message (received c)) eqn:Hw; [done|].
  by rewrite loop_recv_take_sleeps in E.
Qed.

(** A [recv] that returned a length took that many bytes of its id. *)
Lemma recv_inv now elapsed st c id len timeout data c' :
  conn_wf c → 0 ≤ len →
  recv now elapsed st c id (new_char junk len) len timeout = Ok (len, data, c') →
  len ≤ zlen (ready c id) ∧ data = ztake len (ready c id)
  ∧ ∃ b, c' = set_mapbuffer (<[id := b]> (mapbuffer_ c)) c
         ∧ cycle_buffer.wf b ∧ cycle_buffer.contents b = zdrop len (ready c id).
Proof.
  intros [_ _ Hm] Hlen E. unfold recv in E.
  destruct (_ && _); [injection E; unfold E_UNCONNECTED; lia|].
  destruct (_ <? elapsed); [injection E; unfold E_TIMEOUT; lia|].
  unfold ready. destruct (mapbuffer_ c !! id) as [b|] eqn:Eb; [|done].
  pose proof (Hm _ _ Eb) as Hb. cbn in Hb.
  apply bind_Ok in E as ([] & Hw & E). apply wait_until_Ok in Hw. unfold cycle_buffer.can_read_n in Hw.
  change (_ -₆₄ _) with (cycle_buffer.size b) in Hw. rewrite cycle_buffer.size_contents in Hw by done.
  destruct (cycle_buffer.read_ok now b (new_char junk len) len) as (b' & E' & ? & ? & _);
    [done|lia|zlia|].
  rewrite E' in E. cbn in E. injection E as <- <-. rewrite (zdrop_ge len), app_nil_r by zlia.
  split; [lia|]. eauto.
Qed.

(** A [recv] that returned an error result took nothing. *)
Lemma recv_fail_inv now elapsed st c id data len timeout ret data' c' :
  conn_wf c → 0 ≤ len ≤ zlen data → ret < 0 →
  recv now elapsed st c id data len timeout = Ok (ret, data', c') → c' = c.
Proof.
  intros [_ _ Hm] Hlen Hret E. unfold recv in E.
  destruct (_ && _); [by injection E|]. destruct (_ <? elapsed); [by injection E|].
  destruct (mapbuffer_ c !! id) as [b|] eqn:Eb; [|done].
  pose proof (Hm _ _ Eb) as Hb. cbn in Hb.
  apply bind_Ok in E as ([] & Hw & E). apply wait_until_Ok in Hw. unfold cycle_buffer.can_read_n in Hw.
  change (_ -₆₄ _) with (cycle_buffer.size b) in Hw. rewrite cycle_buffer.size_contents in Hw by done.
  destruct (cycle_buffer.read_ok now b data len) as (b' & E' & _); [done|lia..|].
  rewrite E' in E. cbn in E. injection E as <- _ _. lia.
Qed.

Lemma zlen_in_flight s l todo :
  in_transit s l todo →
  zlen (received (rx s)) + zlen (wire s) + zlen (outbox s) + zlen (to_send (tx s))
  = volume todo
  ∧ volume (log_sent s) = volume l + volume (option_list (inbox s)) + volume todo.
Proof.
  intros []. rewrite it_split0, !volume_app. split; [|lia].
  unfold volume. rewrite <- it_bytes0, !zlen_app. lia.
Qed.

Lemma ready_bounded s l todo id :
  in_transit s l todo → zlen (ready (rx s) id) ≤ volume l.
Proof.
  intros []. etrans; [|apply (zlen_on l id)]. rewrite <- it_ready0, zlen_app.
  pose proof (zlen_nonneg (on (log_recv s) id)). lia.
Qed.

(** A whole message at the receiver is the oldest message in flight. *)
Lemma oldest_whole s l todo :
  in_transit s l todo → 3 * volume (log_sent s) < 2 ^ 63 →
  cycle_buffer.whole_message (received (rx s)) = true →
  ∃ id data todo' tail, todo = (id, data) :: todo' ∧ received (rx s) = frame id data ++ tail
    ∧ sendable (id, data) = true.
Proof.
  intros H Hmax Hw. pose proof (zlen_in_flight _ _ _ H) as [Hz Hv].
  destruct H. destruct todo as [|[id data] todo'].
  { apply app_nil in it_bytes0 as [E _]. by rewrite E in Hw. }
  rewrite frames_cons in it_bytes0. cbn [fst snd] in it_bytes0.
  pose proof (volume_nonneg l). pose proof (volume_nonneg todo').
  pose proof (volume_nonneg (option_list (inbox s))).
  destruct (whole_frame _ _ _ _ _ it_bytes0) as [tail E]; [|done|].
  { rewrite volume_cons in Hv. cbn [fst snd] in Hv. lia. }
  exists id, data, todo', tail. rewrite it_split0 in it_good0.
  rewrite !forallb_app in it_good0. cbn in it_good0. split_and!; [done..|]. lia.
Qed.

(** ** The invariant *)

Lemma initial_in_transit s : initial junk s → in_transit s [] [].
Proof.
  intros (now1 & fd1 & ev1 & node1 & now2 & fd2 & ev2 & node2 & ->).
  destruct (Connection_create_wf junk now1 fd1 ev1 false node1) as (? & Es & _ & _).
  destruct (Connection_create_wf junk now2 fd2 ev2 true node2) as (? & _ & Er & Hid).
  split; cbn [tx rx outbox wire log_sent log_recv inbox]; [done..| |].
  - by rewrite Es, Er.
  - intros id. by rewrite Hid.
Qed.

(** What an internal step does: it keeps the invariant and leaves less to do. *)
Definition progress (s s' : link) : Prop :=
  log_sent s' = log_sent s ∧ same_stops s s' ∧ pending s' < pending s
  ∧ ∃ l' todo', in_transit s' l' todo'.

Lemma fetch_progress s l todo t m rx' :
  in_transit s l todo → 3 * volume (log_sent s) < 2 ^ 63 → inbox s = None →
  loop_recv_take junk t (rx s) = Ok (Some m, rx') →
  progress s (Link (tx s) (outbox s) (wire s) rx' (Some m) (log_sent s) (log_recv s)).
Proof.
  intros H Hmax Hin E. pose proof H as []. unfold progress, same_stops, pending.
  cbn [tx rx outbox wire log_sent log_recv inbox]. split; [done|].
  apply loop_recv_take_inv in E as E0; [|done]. destruct E0 as [Hstop Hw].
  destruct (oldest_whole _ _ _ H Hmax Hw) as (id & data & todo' & tail & -> & Hr & Hgood).
  destruct (loop_recv_take_ok junk t (rx s) id data tail) as (b & E' & Hb & Hcb); [done..|].
  rewrite E in E'. injection E' as -> ->.
  assert (received (set_buffer b (rx s)) = tail) as E0 by done.
  rewrite E0, Hr, Hin, zlen_app, zlen_frame. cbn [option_list option_rect].
  split; [done|]. split; [zlia|].
  exists l, todo'. split; cbn [tx rx outbox wire log_sent log_recv inbox]; try done.
  - destruct it_rx0. by split.
  - by rewrite Hin in it_split0.
  - rewrite E0. rewrite Hr, frames_cons, <- app_assoc in it_bytes0. by simplify_list_eq.
Qed.

Lemma dispatch_progress s l todo now id data rx' :
  in_transit s l todo → 3 * volume (log_sent s) < 2 ^ 63 → inbox s = Some (id, data) →
  dispatch junk now (rx s) id data = Ok rx' →
  progress s (Link (tx s) (outbox s) (wire s) rx' None (log_sent s) (log_recv s)).
Proof.
  intros H Hmax Hin E. pose proof (zlen_in_flight _ _ _ H) as [Hz Hv].
  pose proof (ready_bounded s l todo id H) as Hready. pose proof H as [].
  unfold progress, same_stops, pending. cbn [tx rx outbox wire log_sent log_recv inbox]. split; [done|].
  rewrite Hin in Hv, it_split0 |- *. cbn [option_list option_rect] in *.
  rewrite volume_cons, zlen_frame in Hv. cbn [fst snd] in Hv.
  pose proof (volume_nonneg []). pose proof (volume_nonneg todo). pose proof (zlen_nonneg id).
  destruct (dispatch_ok junk now (rx s) id data) as (m & E' & Hm & Hids); [done|lia|].
  rewrite E in E'. injection E' as ->.
  assert (received (set_mapbuffer m (rx s)) = received (rx s)) as E0 by done.
  rewrite E0. split; [done|]. rewrite zlen_cons. split; [lia|].
  exists (l ++ [(id, data)]), todo. split; cbn [tx rx outbox wire log_sent log_recv inbox]; try done.
  - destruct it_rx0. by split.
  - by rewrite <- app_assoc.
  - intros id'. by rewrite Hids, on_app, on_one, app_assoc, it_ready0.
Qed.

(** Each internal step keeps the invariant and leaves less to do. *)
Lemma internal_in_transit s s' l todo :
  in_transit s l todo → 3 * volume (log_sent s) < 2 ^ 63 → internal junk s s' →
  progress s s'.
Proof.
  intros H Hmax Hstep. pose proof (zlen_in_flight _ _ _ H) as [Hz Hv].
  pose proof (volume_nonneg l). pose proof (volume_nonneg todo).
  pose proof (volume_nonneg (option_list (inbox s))).
  pose proof (zlen_nonneg (received (rx s))). pose proof (zlen_nonneg (wire s)).
  pose proof (zlen_nonneg (outbox s)). pose proof (zlen_nonneg (to_send (tx s))).
  destruct Hstep as [s now t buf tx' Ho E|s k Hk|s now k rx' Hk Hc E|s t m rx' Hin E|s now id data rx' Hin E];
    [| | |by eapply fetch_progress|by eapply dispatch_progress];
    pose proof H as []; unfold progress, pending, same_stops;
    cbn [tx rx outbox wire log_sent log_recv inbox]; (split; [done|]).
  - apply loop_send_take_inv in E as (Hne & -> & b & -> & Hb & Hcb); [|done].
    assert (to_send (set_send_buffer b (tx s)) = []) as E0 by done.
    rewrite Ho, E0, (zlen_nil (A:=byte)). split; [done|]. split.
    { assert (zlen (to_send (tx s)) ≠ 0) by (intros ?%zlen_zero_nil; done). lia. }
    exists l, todo. split; cbn [tx rx outbox wire log_sent log_recv inbox]; try done.
    + destruct it_tx0. by split.
    + rewrite E0, app_nil_r. by rewrite Ho in it_bytes0.
  - split; [done|]. split; [zlia|]. exists l, todo. split; cbn [tx rx outbox wire log_sent log_recv inbox]; try done.
    rewrite <- it_bytes0, <- !app_assoc. f_equal. f_equal. by rewrite app_assoc, ztake_zdrop.
  - assert (zlen (ztake k (wire s)) = k) as Hk' by zlia.
    destruct (conn_write_ok junk now (rx s) (ztake k (wire s))) as (b & E' & Hb & Hcb); [done|zlia|].
    rewrite Hk', E in E'. injection E' as ->.
    assert (received (set_buffer b (rx s)) = received (rx s) ++ ztake k (wire s)) as E0 by done.
    rewrite E0. split; [done|]. split; [zlia|]. exists l, todo.
    split; cbn [tx rx outbox wire log_sent log_recv inbox]; try done.
    + destruct it_rx0. by split.
    + by rewrite E0, <- !app_assoc, (app_assoc (ztake k _)), ztake_zdrop.
Qed.

Lemma step_volume s s' : step junk s s' → volume (log_sent s) ≤ volume (log_sent s').
Proof.
  intros [? ? Hi|? ? ? ? ? ? ? ?| |]; cbn [log_sent]; [|rewrite volume_app; apply Z.le_sub_le_add_l|done..].
  - by inversion Hi.
  - rewrite Z.sub_diag. apply volume_nonneg.
Qed.

Lemma step_in_transit s s' l todo :
  in_transit s l todo → 3 * volume (log_sent s') < 2 ^ 63 → step junk s s' →
  ∃ l' todo', in_transit s' l' todo'.
Proof.
  intros H Hmax Hstep. pose proof (step_volume _ _ Hstep) as Hmono.
  pose proof (zlen_in_flight _ _ _ H) as [Hz Hv]. pose proof (volume_nonneg l).
  pose proof (volume_nonneg (option_list (inbox s))).
  pose proof (zlen_nonneg (received (rx s))). pose proof (zlen_nonneg (wire s)).
  pose proof (zlen_nonneg (outbox s)). pose proof H as [].
  destruct Hstep as [s s' Hi|s now id data n tx' Hg E|s tx' rx' [Htx Es] (Hrx & Er & Hid)
    |s now el st tmo id len data rx' Hlen E];
    cbn [tx rx outbox wire log_sent log_recv inbox] in *.
  - destruct (internal_in_transit s s' l todo) as (_ & _ & _ & ?); [done|lia|done..].
  - rewrite volume_app, volume_cons in Hmax. cbn [fst snd] in Hmax.
    pose proof (volume_nonneg []) as Hnil.
    destruct (send_ok junk now (tx s) id data) as (b & E' & Hb & Hcb); [done|lia|].
    rewrite E in E'. injection E' as _ ->. exists l, (todo ++ [(id, data)]).
    split; cbn [tx rx outbox wire log_sent log_recv inbox]; try done.
    + destruct it_tx0. by split.
    + by rewrite it_split0, <- !app_assoc.
    + rewrite forallb_app, it_good0. cbn. by rewrite Hg.
    + rewrite frames_app, frames_one, <- it_bytes0, <- !app_assoc. do 3 f_equal. exact Hcb.
  - exists l, todo. split; cbn [tx rx outbox wire log_sent log_recv inbox]; try done.
    + by rewrite Er, Es.
    + intros id. by rewrite Hid.
  - destruct (recv_inv now el st (rx s) id len tmo data rx') as (Hle & -> & b & -> & Hb & Hcb);
      [done..|].
    exists l, todo. split; cbn [tx rx outbox wire log_sent log_recv inbox]; try done.
    + destruct it_rx0. split; [done..|]. by apply map_Forall_insert_2.
    + intros id'. rewrite ready_insert, on_app, on_one, <- it_ready0, <- app_assoc.
      f_equal. case_decide as Eid; [subst id'|done]. by rewrite Hcb, ztake_zdrop.
Qed.

(** ** The other direction *)

Lemma same_tx_refl c : conn_wf c → same_tx c c.
Proof. by split. Qed.

Lemma same_rx_refl c : conn_wf c → same_rx c c.
Proof. by split. Qed.

Lemma send_other now c id data n c' :
  conn_wf c → 3 * (zlen (to_send c) + zlen (frame id data)) < 2 ^ 63 →
  send junk now c id data (zlen data) = Ok (n, c') → same_rx c c'.
Proof.
  intros H Hmax E. destruct (send_ok junk now c id data H Hmax) as (b & E' & Hb & _).
  rewrite E in E'. injection E' as _ ->. by destruct H.
Qed.

Lemma recv_other now elapsed st c id len timeout data c' :
  conn_wf c → 0 ≤ len →
  recv now elapsed st c id (new_char junk len) len timeout = Ok (len, data, c') → same_tx c c'.
Proof.
  intros H Hlen E. destruct (recv_inv _ _ _ _ _ _ _ _ _ H Hlen E) as (_ & _ & b & -> & Hb & _).
  destruct H. split; [|done]. split; [done..|]. by apply map_Forall_insert_2.
Qed.

(** What the threads do for one direction leaves the other alone. *)
Lemma internal_other s s' l todo :
  in_transit s l todo → 3 * volume (log_sent s) < 2 ^ 63 → internal junk s s' →
  same_rx (tx s) (tx s') ∧ same_tx (rx s) (rx s').
Proof.
  intros H Hmax Hstep.
  destruct (internal_in_transit _ _ _ _ H Hmax Hstep) as (_ & _ & _ & l' & todo' & H').
  pose proof (it_tx _ _ _ H'). pose proof (it_rx _ _ _ H').
  pose proof (it_tx _ _ _ H). pose proof (it_rx _ _ _ H).
  destruct Hstep as [s now t buf tx' Ho E| |s now k rx' Hk Hc E|s t m rx' Hin E|s now id data rx' Hin E];
    cbn [tx rx] in *; (split; [try (by apply same_rx_refl)|try (by apply same_tx_refl)]); split_and!; try done.
  - by apply loop_send_take_inv in E as (_ & _ & b & -> & _).
  - by apply loop_send_take_inv in E as (_ & _ & b & -> & _).
  - unfold write in E. by outcome_inv.
  - unfold loop_recv_take in E. destruct (stop_requested _ _); by outcome_inv.
  - unfold dispatch in E. by destruct (_ !! id); outcome_inv.
Qed.

(** As long as the link has carried less than the counters can count. *)
Definition intact (s : link) : Prop :=
  3 * volume (log_sent s) < 2 ^ 63 → ∃ l todo, in_transit s l todo.

#[export] Instance intact_invariant : Invariant (step junk) intact.
Proof.
  intros s1 s2 IH Hstep Hmax. pose proof (step_volume _ _ Hstep) as Hmono.
  destruct IH as (l & todo & H); [lia|]. by eapply step_in_transit.
Qed.

Lemma reachable_in_transit s : reachable junk s → intact s.
Proof.
  intros (s0 & H0 & Hrtc). apply (invariant_rtc (step junk) intact s0); [|done].
  intros _. eauto using initial_in_transit.
Qed.

(** While something is left, some thread can move. *)
Lemma in_transit_moves s l todo t1 t2 :
  in_transit s l todo → 3 * volume (log_sent s) < 2 ^ 63 →
  stop_requested (tx s) t1 = false → stop_requested (rx s) t2 = false →
  option_list (inbox s) ++ todo ≠ [] → ∃ s', internal junk s s'.
Proof.
  intros H Hmax Ht1 Ht2 Hne. pose proof (zlen_in_flight _ _ _ H) as [Hz Hv].
  pose proof (λ id, ready_bounded s l todo id H) as Hready.
  pose proof (volume_nonneg (option_list (inbox s))).
  pose proof (volume_nonneg l). pose proof (zlen_nonneg (received (rx s))).
  pose proof (zlen_nonneg (wire s)).
  pose proof (zlen_nonneg (outbox s)). pose proof (zlen_nonneg (to_send (tx s))).
  pose proof H as [].
  destruct (decide (outbox s = [])) as [Eo|Ho].
  2: { eexists. apply (step_push junk s (zlen (outbox s))).
       assert (zlen (outbox s) ≠ 0) by (intros ?%zlen_zero_nil; done). lia. }
  destruct (decide (to_send (tx s) = [])) as [Es|Hs].
  2: { destruct (loop_send_take_ok junk 0 t1 (tx s)) as (b & E & _); [done..|].
       eexists. by eapply step_take. }
  destruct (decide (wire s = [])) as [Ew|Hw].
  2: { assert (zlen (wire s) ≠ 0) by (intros ?%zlen_zero_nil; done).
       set (k := Z.min (zlen (wire s)) read_chunk).
       assert (0 < k ≤ zlen (wire s) ∧ k ≤ read_chunk) as [] by (unfold k, read_chunk; lia).
       assert (zlen (ztake k (wire s)) = k) as Hk by (rewrite zlen_ztake; lia).
       destruct (conn_write_ok junk 0 (rx s) (ztake k (wire s))) as (b & E & _); [done|lia|].
       rewrite Hk in E. eexists. by eapply (step_net junk s 0 k). }
  rewrite Eo, Es, Ew, !app_nil_r in it_bytes0.
  destruct (inbox s) as [[id data]|] eqn:Ei; cbn [option_list option_rect app] in *.
  - rewrite volume_cons, zlen_frame in Hv. cbn [fst snd] in Hv. specialize (Hready id).
    pose proof (volume_nonneg []). pose proof (volume_nonneg todo). pose proof (zlen_nonneg id).
    destruct (dispatch_ok junk 0 (rx s) id data) as (m & E & _); [done|lia|].
    eexists. by eapply step_dispatch.
  - destruct todo as [|[id data] todo]; [done|]. rewrite frames_cons in it_bytes0.
    rewrite it_split0, forallb_app in it_good0. cbn in it_good0.
    destruct (loop_recv_take_ok junk t2 (rx s) id data (frames todo)) as (b & E & _); [done..|lia|].
    eexists. by eapply step_fetch.
Qed.

Lemma run_in_transit n s s' l todo :
  in_transit s l todo → 3 * volume (log_sent s) < 2 ^ 63 → nsteps (internal junk) n s s' →
  log_sent s' = log_sent s ∧ same_stops s s' ∧ Z.of_nat n + pending s' ≤ pending s
  ∧ ∃ l' todo', in_transit s' l' todo'.
Proof.
  intros H Hmax Hrun. revert l todo H Hmax. induction Hrun as [|n s s1 s' Hstep _ IH]; intros l todo H Hmax.
  { split_and!; [done..|lia|eauto]. }
  destruct (internal_in_transit _ _ _ _ H Hmax Hstep) as (El & [Es1 Es2] & Hp & l1 & todo1 & H1).
  destruct (IH l1 todo1 H1) as (El' & [Es1' Es2'] & Hp' & H'); [by rewrite El|].
  split_and!; [congruence|split; congruence|lia|done].
Qed.

Lemma pending_nonneg s : 0 ≤ pending s.
Proof.
  unfold pending. pose proof (zlen_nonneg (received (rx s))). pose proof (zlen_nonneg (wire s)).
  pose proof (zlen_nonneg (outbox s)). pose proof (zlen_nonneg (to_send (tx s))).
  pose proof (zlen_nonneg (option_list (inbox s))). lia.
Qed.
End lemmas.

(** * Properties *)

(** In every state two connected nodes can reach, however the calls of the
    applications, the four threads and the network interleave, what [recv] has
    returned for an id followed by what is ready for it is a prefix of what was
    sent with that id: nothing is lost in between, duplicated, reordered or given
    to another id. *)
Theorem delivery_in_order junk s id :
  reachable junk s → 3 * volume (log_sent s) < 2 ^ 63 →
  on (log_recv s) id ++ ready (rx s) id `prefix_of` on (log_sent s) id.
Proof.
  intros Hr Hmax. destruct (reachable_in_transit junk s Hr Hmax) as (l & todo & []).
  rewrite it_ready0, it_split0, on_app. by apply prefix_app_r.
Qed.

(** C6: every run of the threads and the network delivers: from a reachable
    state in which the two worker loops have not been stopped, a run has at most
    [pending s] steps, and as long as not everything sent is received or ready,
    some thread can take a step. *)
Theorem every_run_delivers junk s t1 t2 :
  reachable junk s → 3 * volume (log_sent s) < 2 ^ 63 →
  stop_requested (tx s) t1 = false → stop_requested (rx s) t2 = false →
  ∀ n s', nsteps (internal junk) n s s' →
    Z.of_nat n ≤ pending s ∧ log_sent s' = log_sent s
    ∧ (delivered s' ∨ ∃ s'', internal junk s' s'').
Proof.
  intros Hr Hmax H1 H2 n s' Hrun. destruct (reachable_in_transit junk s Hr Hmax) as (l & todo & H).
  destruct (run_in_transit junk n s s' l todo H Hmax Hrun) as (El & [Es1 Es2] & Hn & l' & todo' & H').
  pose proof (pending_nonneg s'). split_and!; [lia|done|].
  destruct (decide (option_list (inbox s') ++ todo' = [])) as [E|Hne].
  - left. intros id. destruct H'. by rewrite it_ready0, it_split0, E, app_nil_r.
  - right. apply (in_transit_moves junk s' l' todo' t1 t2); [done|by rewrite El| | |done];
      unfold stop_requested in *; by rewrite ?Es1, ?Es2.
Qed.

(** While the worker loops run, what was sent can become ready. *)
Lemma run_to_delivery junk t1 t2 : ∀ n s l todo, pending s ≤ Z.of_nat n →
  in_transit s l todo → 3 * volume (log_sent s) < 2 ^ 63 →
  stop_requested (tx s) t1 = false → stop_requested (rx s) t2 = false →
  ∃ s', rtc (internal junk) s s' ∧ delivered s' ∧ ∃ l' todo', in_transit s' l' todo'.
Proof.
  induction n as [|n IH]; intros s l todo Hn H Hmax H1 H2;
    (destruct (decide (option_list (inbox s) ++ todo = [])) as [E|Hne];
      [exists s; split_and!; [done| |by exists l, todo];
       intros id; by rewrite (it_ready _ _ _ H), (it_split _ _ _ H), E, app_nil_r|]);
    destruct (in_transit_moves junk s l todo t1 t2 H Hmax H1 H2 Hne) as [s1 Hs];
    destruct (internal_in_transit junk _ _ _ _ H Hmax Hs) as (El & [Es1 Es2] & Hp & l1 & todo1 & Hit).
  - pose proof (pending_nonneg s1). lia.
  - destruct (IH s1 l1 todo1) as (s' & Hr & Hd & Hit');
      [lia|done|by rewrite El|unfold stop_requested in *; by rewrite ?Es1, ?Es2..|].
    exists s'. split; [by eapply rtc_l|done].
Qed.

(** A link on which one message was sent. *)
Lemma one_sent :
  ∃ s, reachable (λ _, x00) s ∧ log_sent s = [(str "ab", str "hi")]
       ∧ stop_requested (tx s) [] = false ∧ stop_requested (rx s) [] = false.
Proof.
  set (c := Connection_create (λ _, x00) 0 5 1 false (str "P0")).
  destruct (Connection_create_wf (λ _, x00) 0 5 1 false (str "P0")) as (H & Es & _).
  fold c in H, Es.
  destruct (send_ok (λ _, x00) 0 c (str "ab") (str "hi") H) as (b & E & _); [rewrite Es; vm_compute; done|].
  set (c' := Connection_create (λ _, x00) 0 6 1 true (str "P1")).
  exists (Link (set_send_buffer b c) [] [] c' None ([] ++ [(str "ab", str "hi")]) []).
  split; [|split_and!; done].
  exists (Link c [] [] c' None [] []). split.
  - by exists 0, 5, 1, (str "P0"), 0, 6, 1, (str "P1").
  - apply rtc_once. eapply (step_send _ (Link c [] [] c' None [] [])); [|exact E]. done.
Qed.

Lemma delivery_in_order_witness :
  ∃ s, log_sent s = [(str "ab", str "hi")] ∧
    on (log_recv s) (str "ab") ++ ready (rx s) (str "ab") `prefix_of` on (log_sent s) (str "ab").
Proof.
  destruct one_sent as (s & Hr & E & _). exists s. split; [done|].
  apply (delivery_in_order (λ _, x00) s (str "ab") Hr). by rewrite E.
Defined.

Lemma every_run_delivers_witness :
  ∃ s, log_sent s = [(str "ab", str "hi")] ∧
    ∀ n s', nsteps (internal (λ _, x00)) n s s' →
      Z.of_nat n ≤ pending s ∧ log_sent s' = log_sent s
      ∧ (delivered s' ∨ ∃ s'', internal (λ _, x00) s' s'').
Proof.
  destruct one_sent as (s & Hr & E & E1 & E2). exists s. split; [done|].
  apply (every_run_delivers (λ _, x00) s [] [] Hr); [by rewrite E|done|done].
Defined.
