(* ===== verification/Ssl.v ===== *)
(** The SSL layer: the context of [src/ssl_socket.cpp], the handshake and the
    reads and writes of [SSLConnection] ([src/connection.cpp]), and the lock
    callbacks of [src/ssl_lock.cpp].

    What OpenSSL answers is an argument; a context is the record of what was
    configured on it. *)
From Stdlib Require Import Strings.Byte.
From S2P Require Import Prelude Timer CycleBuffer Transport Connection.
#[local] Open Scope Z_scope.

Module SSL.

(** * The program *)

(** ** The context *)

Record ctx := Ctx {
  auto_retry : bool;                       (** [SSL_MODE_AUTO_RETRY] *)
  verify_peer : bool;                      (** [SSL_VERIFY_PEER] *)
  fail_if_no_peer_cert : bool;             (** [SSL_VERIFY_FAIL_IF_NO_PEER_CERT] *)
  passwd : option bytes;
  verify_locations : option bytes;         (** the root certificate *)
  certificate : option bytes;
  private_key : option bytes;
  enc_certificate : option bytes;
  enc_private_key : option bytes;
  cipher_list : option bytes;
  verify_depth : option Z
}.

Definition new_ctx : ctx := Ctx false false false None None None None None None None None.

(** What each fallible call answers: [true] for success. *)
Record ctx_env := CtxEnv {
  ce_new : bool;
  ce_mode : bool;
  ce_root : bool;
  ce_cert : bool;
  ce_key : bool;
  ce_check : bool;
  ce_enc_cert : bool;
  ce_enc_key : bool;
  ce_enc_check : bool;
  ce_cipher : bool
}.

Section context.
(** The build option [USE_GMTASSL]. *)
Context (USE_GMTASSL : bool).

(** The files a context loads, and the password of the keys. *)
Context (root cert prik enc_cert enc_prik pass : bytes).

(** [SSL_CTX_set_verify] and the password. *)
Definition set_verify (is_server : bool) (c : ctx) : ctx :=
  Ctx true true is_server (if bool_decide (pass = []) then passwd c else Some pass)
      (verify_locations c) (certificate c) (private_key c) (enc_certificate c) (enc_private_key c)
      (cipher_list c) (verify_depth c).
Definition load_root (c : ctx) : ctx :=
  Ctx (auto_retry c) (verify_peer c) (fail_if_no_peer_cert c) (passwd c) (Some root) (certificate c)
      (private_key c) (enc_certificate c) (enc_private_key c) (cipher_list c) (verify_depth c).
Definition use_certificate (c : ctx) : ctx :=
  Ctx (auto_retry c) (verify_peer c) (fail_if_no_peer_cert c) (passwd c) (verify_locations c) (Some cert)
      (private_key c) (enc_certificate c) (enc_private_key c) (cipher_list c) (verify_depth c).
Definition use_private_key (c : ctx) : ctx :=
  Ctx (auto_retry c) (verify_peer c) (fail_if_no_peer_cert c) (passwd c) (verify_locations c)
      (certificate c) (Some prik) (enc_certificate c) (enc_private_key c) (cipher_list c) (verify_depth c).
Definition use_enc_certificate (c : ctx) : ctx :=
  Ctx (auto_retry c) (verify_peer c) (fail_if_no_peer_cert c) (passwd c) (verify_locations c)
      (certificate c) (private_key c) (Some enc_cert) (enc_private_key c) (cipher_list c) (verify_depth c).
Definition use_enc_private_key (c : ctx) : ctx :=
  Ctx (auto_retry c) (verify_peer c) (fail_if_no_peer_cert c) (passwd c) (verify_locations c)
      (certificate c) (private_key c) (enc_certificate c) (Some enc_prik) (cipher_list c) (verify_depth c).
Definition set_cipher_list (c : ctx) : ctx :=
  Ctx (auto_retry c) (verify_peer c) (fail_if_no_peer_cert c) (passwd c) (verify_locations c)
      (certificate c) (private_key c) (enc_certificate c) (enc_private_key c) (Some (str "ECC-SM4-SM3"))
      (verify_depth c).
Definition set_verify_depth (c : ctx) : ctx :=
  Ctx (auto_retry c) (verify_peer c) (fail_if_no_peer_cert c) (passwd c) (verify_locations c)
      (certificate c) (private_key c) (enc_certificate c) (enc_private_key c) (cipher_list c) (Some 10).

(** [gmtassl_init_ssl_ctx]: the result and [*ctx]. *)
Definition gmtassl_init_ssl_ctx (is_server : bool) (env : ctx_env) : Z * option ctx :=
  if negb (ce_new env) then (-1, None)
  else
    let c := new_ctx in
    if negb (ce_mode env) then (-1, Some c)
    else
      let c := set_verify is_server c in
      if negb (ce_root env) then (-1, Some c)
      else
        let c := load_root c in
        if negb (ce_cert env) then (-1, Some c)
        else
          let c := use_certificate c in
          if negb (ce_key env) then (-1, Some c)
          else
            let c := use_private_key c in
            if negb (ce_check env) then (-1, Some c)
            else if USE_GMTASSL && negb (ce_enc_cert env) then (-1, Some c)
            else
              let c := if USE_GMTASSL then use_enc_certificate c else c in
              if USE_GMTASSL && negb (ce_enc_key env) then (-1, Some c)
              else
                let c := if USE_GMTASSL then use_enc_private_key c else c in
                if USE_GMTASSL && negb (ce_enc_check env) then (-1, Some c)
                else if USE_GMTASSL && negb is_server && negb (ce_cipher env) then (-1, Some c)
                else
                  let c := if USE_GMTASSL && negb is_server then set_cipher_list c else c in
                  (0, Some (set_verify_depth c)).
End context.

(** [openssl_init_ssl_ctx]. *)
Definition openssl_init_ssl_ctx (USE_GMTASSL is_server : bool) (root cert prik pass : bytes) (env : ctx_env)
    : Z * option ctx :=
  gmtassl_init_ssl_ctx USE_GMTASSL root cert prik [] [] pass is_server env.

(** [SSLServer::init_ssl], which exists without [USE_GMTASSL] only: the result and
    the member [ctx_]. *)
Definition SSLServer_init_ssl (env : ctx_env) : bool * option ctx :=
  let '(ret, c) := openssl_init_ssl_ctx false true (str "certs/Root.crt") (str "certs/Server.crt")
                     (str "certs/Server.key") (str "123456") env in
  if negb (ret =? 0) || bool_decide (c = None) then (false, c) else (true, c).

(** [SSLClient::init_ssl]. *)
Definition SSLClient_init_ssl (env : ctx_env) : bool * option ctx :=
  let '(ret, c) := openssl_init_ssl_ctx false false (str "certs/Root.crt") (str "certs/Client.crt")
                     (str "certs/Client.key") (str "123456") env in
  if negb (ret =? 0) || bool_decide (c = None) then (false, c) else (true, c).

(** The virtual member of a server or a client. *)
Definition init_ssl (is_server : bool) : ctx_env → bool * option ctx :=
  if is_server then SSLServer_init_ssl else SSLClient_init_ssl.

(** ** The handshake *)

Definition SSL_ERROR_WANT_READ : Z := 2.
Definition SSL_ERROR_WANT_WRITE : Z := 3.

(** The members of an [SSLConnection] the handshake uses: [state_], and whether
    [ssl_] is set. *)
Record ssl_conn := SSLConn { sc_state : State; sc_ssl : bool }.

(** What OpenSSL answers: [SSL_new]; for each [SSL_do_handshake] its result and
    [SSL_get_error]; [SSL_get_verify_result]; [SSL_is_init_finished]. *)
Record handshake_env := HandshakeEnv {
  he_new : bool;
  he_steps : list (Z * Z);
  he_verify_ok : bool;
  he_init_finished : bool
}.

(** [show_certs]: the code after the first [return true] is not reached. *)
Definition show_certs (verify_ok : bool) : bool := if verify_ok then true else false.

(** The [do ... while (true)] loop: the result and whether the handshake was done. *)
Fixpoint handshake_loop (fail_retries : Z) (verify_ok : bool) (steps : list (Z * Z))
    : outcome (bool * bool) :=
  match steps with
  | [] => Sleep
  | (r, err) :: steps =>
    if r =? 1 then mret (show_certs verify_ok, true)
    else if (err =? SSL_ERROR_WANT_WRITE) || (err =? SSL_ERROR_WANT_READ)
         then handshake_loop fail_retries verify_ok steps
    else if fail_retries <=? 0 then mret (false, false)
    else handshake_loop (fail_retries - 1) verify_ok steps
  end.

Definition handshake (env : handshake_env) (c : ssl_conn) : outcome (bool * ssl_conn) :=
  if bool_decide (sc_state c = Connected) then mret (true, c)
  else if negb (sc_ssl c) then
    if negb (he_new env) then mret (false, c)
    else
      '(ret, finished) ← handshake_loop 0 (he_verify_ok env) (he_steps env);
      mret (ret, SSLConn (if (finished : bool) then Connected else sc_state c) true)
  else mret (he_init_finished env, c).

(** [SSLConnection::readImpl] and [writeImpl]: the [int] of [SSL_read] or [SSL_write]
    returned through a [size_t]; the length is passed as an [int]. *)
Definition impl_result (ret : Z) : Z := if ret <? 0 then ret else s64 (u64 ret).
Definition impl_length (len : Z) : Z := (len + 2 ^ 31) `mod` 2 ^ 32 - 2 ^ 31.

(** What OpenSSL answers one [SSL_read] or [SSL_write]: its value, [SSL_get_error],
    [errno], and for a read the bytes it stored. *)
Record ssl_answer := SA { sa_ret : Z; sa_error : Z; sa_errno : errno_t; sa_data : bytes }.

(** The value returned to [readn] and [writen], which look at [errno] only: whether
    OpenSSL wants to be called again is not passed on. *)
Definition readImpl (a : ssl_answer) : read_result := RR (impl_result (sa_ret a)) (sa_errno a) (sa_data a).
Definition writeImpl (a : ssl_answer) : write_result := WR (impl_result (sa_ret a)) (sa_errno a).

(** ** The locks *)

(** The globals: [ssl_lock_inited] and the array [ssl_locks], each mutex with
    whether it is locked. *)
Record locks := Locks { ssl_lock_inited : bool; ssl_num_locks : Z; ssl_locks : option (list bool) }.

Definition locks_init : locks := Locks false 0 None.

Definition init_ssl_locking (crypto_num_locks : Z) (malloc_ok : bool) (g : locks) : Z * locks :=
  if ssl_lock_inited g then (0, g)
  else if negb malloc_ok then (-1, Locks true crypto_num_locks None)
  else (0, Locks true crypto_num_locks (Some (replicate (Z.to_nat crypto_num_locks) false))).

Definition CRYPTO_LOCK : Z := 1.

(** [thread_lock_cb]; unlocking a mutex that is not locked is undefined. *)
Definition thread_lock_cb (mode which : Z) (g : locks) : outcome locks :=
  if which <? ssl_num_locks g then
    l ← match ssl_locks g with Some l => mret l | None => UB NullPointer end;
    b ← (if which <? 0 then UB OutOfBounds
         else match l !! Z.to_nat which with Some b => mret b | None => UB OutOfBounds end);
    if negb (Z.land mode CRYPTO_LOCK =? 0) then
      _ ← wait_until (negb b);
      mret (Locks (ssl_lock_inited g) (ssl_num_locks g) (Some (<[Z.to_nat which := true]> l)))
    else if (b : bool)
    then mret (Locks (ssl_lock_inited g) (ssl_num_locks g) (Some (<[Z.to_nat which := false]> l)))
    else UB Dangling
  else mret g.

(** * Specification *)

(** The handshake waits for the transport, then succeeds. *)
Definition pending (step : Z * Z) : Prop :=
  step.1 ≠ 1 ∧ (step.2 = SSL_ERROR_WANT_READ ∨ step.2 = SSL_ERROR_WANT_WRITE).
Definition completes (steps : list (Z * Z)) : Prop :=
  ∃ waits err rest, steps = waits ++ (1, err) :: rest ∧ Forall pending waits.

(** The context a successful [init_ssl] leaves. *)
Definition verified_ctx (is_server : bool) : ctx :=
  Ctx true true is_server (Some (str "123456")) (Some (str "certs/Root.crt"))
      (Some (if is_server then str "certs/Server.crt" else str "certs/Client.crt"))
      (Some (if is_server then str "certs/Server.key" else str "certs/Client.key"))
      None None None (Some 10).

(** * Lemmas *)

Lemma handshake_loop_spec verify_ok steps ret finished :
  handshake_loop 0 verify_ok steps = Ok (ret, finished) →
  (finished = true ↔ completes steps) ∧ ret = finished && verify_ok.
Proof.
  induction steps as [|[r err] steps IH]; cbn; [done|]. intros E.
  assert (¬ pending (r, err) → r ≠ 1 → ¬ completes ((r, err) :: steps)) as Hstop.
  { intros Hp Hr (w & e & rest & Ew & Hw). destruct w; simplify_eq/=. by inversion Hw. }
  destruct (Z.eqb_spec r 1) as [->|Hr].
  - injection E as <- <-. split; [|by destruct verify_ok]. split; [|done]. intros _. by exists [], err, steps.
  - destruct ((err =? SSL_ERROR_WANT_WRITE) || (err =? SSL_ERROR_WANT_READ)) eqn:Ew; cbn in E.
    + assert (pending (r, err)) as Hp.
      { split; [done|]. rewrite orb_true_iff, !Z.eqb_eq in Ew. cbn. tauto. }
      apply IH in E as [-> ->]. split; [|done]. split.
      * intros (w & e & rest & -> & Hw). exists ((r, err) :: w), e, rest. split; [done|by constructor].
      * intros ([|x w] & e & rest & E & Hw); simplify_eq/=. inversion Hw. by exists w, e, rest.
    + injection E as <- <-. split; [|done]. split; [done|]. intros Hc. exfalso. revert Hc. apply Hstop; [|done].
      intros [_ Hp]. rewrite orb_false_iff, !Z.eqb_neq in Ew. cbn in Hp. tauto.
Qed.

(** The [size_t] in between changes nothing. *)
Lemma impl_result_id ret : - 2 ^ 31 ≤ ret < 2 ^ 31 → impl_result ret = ret.
Proof.
  intros H. unfold impl_result. destruct (Z.ltb_spec ret 0); [done|]. unfold s64, u64.
  rewrite (Z.mod_small ret) by lia. rewrite Z.mod_small; lia.
Qed.

(** [writen] over SSL sends all of a buffer an [int] can count, if OpenSSL takes it in
    parts and sets [errno] whenever it wants to be called again. *)
Lemma ssl_writen_completes answers data :
  Forall (λ a, - 2 ^ 31 ≤ sa_ret a < 2 ^ 31 ∧ (0 < sa_ret a ∨ again (sa_errno a) = true)) answers →
  writes_at_most (zlen data) (writeImpl <$> answers) → zlen data ≤ progress (writeImpl <$> answers) →
  ∃ env', writen (writeImpl <$> answers) data (zlen data) = Ok (zlen data, data, env').
Proof.
  intros Ha Hat Hp. apply writen_loop_complete; [|done..]. apply forallb_forall. intros r Hr%list_elem_of_In.
  apply list_elem_of_fmap in Hr as (a & -> & Hin). rewrite Forall_forall in Ha. destruct (Ha a Hin) as [Hb Hg].
  unfold goes_on, writeImpl. cbn [w_ret w_errno]. rewrite impl_result_id by done.
  destruct Hg as [Hg| ->]; [by rewrite (proj2 (Z.ltb_lt _ _)) by done|apply orb_true_r].
Qed.

(** A longer one becomes a negative length, and when OpenSSL refuses that, the buffer
    is lost: [loop_send] hands over all that is queued at once and only logs. *)
Lemma ssl_long_buffer_lost answers a data :
  2 ^ 31 ≤ zlen data < 2 ^ 32 → sa_ret a = -1 → again (sa_errno a) = false →
  impl_length (zlen data) < 0
  ∧ writen (writeImpl <$> a :: answers) data (zlen data) = Ok (-1, [], writeImpl <$> answers).
Proof.
  intros Hlen Hr He. split.
  - unfold impl_length. replace (zlen data + 2 ^ 31) with (zlen data - 2 ^ 31 + 1 * 2 ^ 32) by lia.
    rewrite Z.mod_add, Z.mod_small by lia. lia.
  - unfold writen. cbn [fmap list_fmap writen_loop writeImpl w_ret w_errno].
    rewrite (proj2 (Z.leb_gt _ _)) by lia. unfold writeImpl at 1. rewrite Hr, He. cbn. by rewrite andb_false_r.
Qed.

(** The locks are reported ready once even if they could not be allocated. *)
Lemma locks_not_allocated n :
  init_ssl_locking n false locks_init = (-1, Locks true n None)
  ∧ ∀ m ok, init_ssl_locking m ok (Locks true n None) = (0, Locks true n None).
Proof. done. Qed.

(** * Properties *)

(** [init_ssl] succeeds exactly when every OpenSSL call does, and then the
    context verifies the peer against the root certificate, has the role's
    certificate and key, and a server refuses a peer without certificate. *)
Theorem init_ssl_configures is_server env c :
  init_ssl is_server env = (true, c)
  ↔ c = Some (verified_ctx is_server) ∧ ce_new env = true ∧ ce_mode env = true ∧ ce_root env = true
    ∧ ce_cert env = true ∧ ce_key env = true ∧ ce_check env = true.
Proof.
  unfold init_ssl, SSLServer_init_ssl, SSLClient_init_ssl, openssl_init_ssl_ctx, gmtassl_init_ssl_ctx, verified_ctx.
  destruct is_server; destruct env as [[] [] [] [] [] [] ? ? ? ?]; cbn; naive_solver.
Qed.

(** C34: the first handshake of a connection accepts exactly the peers that complete
    the protocol and whose certificate verifies.  A peer that completes it and does
    not verify is refused, but the connection is [Connected] from then on and the
    next handshake, of the next event, accepts it. *)
Theorem handshake_decides env c ret c' :
  sc_state c ≠ Connected → sc_ssl c = false → handshake env c = Ok (ret, c') →
  (ret = true ↔ he_new env = true ∧ completes (he_steps env) ∧ he_verify_ok env = true)
  ∧ (he_new env = true → completes (he_steps env) → ∀ env2, handshake env2 c' = Ok (true, c')).
Proof.
  intros Hs Hn E. unfold handshake in E. rewrite bool_decide_false, Hn in E by done. cbn in E.
  destruct (he_new env); cbn in E.
  - apply bind_Ok in E as ([ret1 fin] & El & E). injection E as <- <-.
    apply handshake_loop_spec in El as [Hf ->]. split; [rewrite andb_true_iff, Hf; naive_solver|].
    intros _ Hc%Hf env2. subst fin. reflexivity.
  - injection E as <- <-. naive_solver.
Qed.

(** A peer that answers after one wait, with a certificate that does not verify. *)
Lemma handshake_decides_witness :
  let env := HandshakeEnv true [(-1, SSL_ERROR_WANT_READ); (1, 0)] false true in
  (false = true ↔ he_new env = true ∧ completes (he_steps env) ∧ he_verify_ok env = true)
  ∧ (he_new env = true → completes (he_steps env) →
     ∀ env2, handshake env2 (SSLConn Connected true) = Ok (true, SSLConn Connected true)).
Proof.
  apply (handshake_decides (HandshakeEnv true [(-1, SSL_ERROR_WANT_READ); (1, 0)] false true)
           (SSLConn Invalid false)); [done|reflexivity|reflexivity].
Defined.
End SSL.
