(* ===== verification/StdMap.v ===== *)
(** [std::map<std::string, V>]: an association list in increasing key order, the
    order its iterators visit.  Keys compare like [std::string::compare], as
    unsigned bytes, a proper prefix first. *)
From Stdlib Require Import Strings.Byte Sorting.Sorted.
From S2P Require Import Prelude.
#[local] Open Scope Z_scope.

(** * The order on keys *)

Fixpoint bytes_compare (a b : bytes) : comparison :=
  match a, b with
  | [], [] => Eq
  | [], _ :: _ => Lt
  | _ :: _, [] => Gt
  | x :: a, y :: b =>
    match N.compare (Byte.to_N x) (Byte.to_N y) with Eq => bytes_compare a b | c => c end
  end.

Definition bytes_lt (a b : bytes) : Prop := bytes_compare a b = Lt.

Lemma to_N_inj x y : Byte.to_N x = Byte.to_N y → x = y.
Proof. intros E. apply (f_equal Byte.of_N) in E. rewrite !Byte.of_to_N in E. by injection E. Qed.

Lemma bytes_compare_eq a b : bytes_compare a b = Eq ↔ a = b.
Proof.
  revert b. induction a as [|x a IH]; intros [|y b]; cbn; try done.
  destruct (N.compare_spec (Byte.to_N x) (Byte.to_N y)) as [E|E|E].
  - apply to_N_inj in E as ->. rewrite IH. clear IH. naive_solver.
  - split; [done|]. intros Eq. injection Eq as -> ->. lia.
  - split; [done|]. intros Eq. injection Eq as -> ->. lia.
Qed.

Lemma bytes_compare_antisym a b : bytes_compare b a = CompOpp (bytes_compare a b).
Proof.
  revert b. induction a as [|x a IH]; intros [|y b]; cbn; try done.
  rewrite N.compare_antisym. destruct (N.compare _ _); cbn; auto.
Qed.

#[export] Instance bytes_lt_irreflexive : Irreflexive bytes_lt.
Proof. intros a H. unfold bytes_lt in H. by rewrite (proj2 (bytes_compare_eq a a)) in H. Qed.

#[export] Instance bytes_lt_transitive : Transitive bytes_lt.
Proof.
  unfold bytes_lt. intros a. induction a as [|x a IH]; intros [|y b] [|z c]; cbn; try done.
  destruct (N.compare_spec (Byte.to_N x) (Byte.to_N y)) as [E1|E1|E1],
           (N.compare_spec (Byte.to_N y) (Byte.to_N z)) as [E2|E2|E2]; try done; intros H1 H2;
  destruct (N.compare_spec (Byte.to_N x) (Byte.to_N z)) as [E3|E3|E3]; try done; try lia.
  by eapply IH.
Qed.

Lemma bytes_compare_gt a b : bytes_compare a b = Gt ↔ bytes_lt b a.
Proof. unfold bytes_lt. rewrite (bytes_compare_antisym a b). by destruct (bytes_compare a b). Qed.

(** * Operations *)

Section smap.
Context {V : Type}.

Definition smap : Type := list (bytes * V).

(** [find]: the value, or [end()]. *)
Fixpoint map_find (k : bytes) (m : smap) : option V :=
  match m with
  | [] => None
  | (k', v) :: m => if decide (k = k') then Some v else map_find k m
  end.

(** [insert(pair(k, v))]: keeps the value of a key that is there. *)
Fixpoint map_insert (k : bytes) (v : V) (m : smap) : smap :=
  match m with
  | [] => [(k, v)]
  | (k', v') :: m' =>
    match bytes_compare k k' with
    | Lt => (k, v) :: m
    | Eq => m
    | Gt => (k', v') :: map_insert k v m'
    end
  end.

(** [m[k] = v]. *)
Fixpoint map_assign (k : bytes) (v : V) (m : smap) : smap :=
  match m with
  | [] => [(k, v)]
  | (k', v') :: m' =>
    match bytes_compare k k' with
    | Lt => (k, v) :: m
    | Eq => (k, v) :: m'
    | Gt => (k', v') :: map_assign k v m'
    end
  end.

(** [erase(k)]. *)
Fixpoint map_erase (k : bytes) (m : smap) : smap :=
  match m with
  | [] => []
  | (k', v) :: m => if decide (k = k') then m else (k', v) :: map_erase k m
  end.

Definition map_keys (m : smap) : list bytes := m.*1.

(** The order of the iterators. *)
Definition sorted (m : smap) : Prop := StronglySorted bytes_lt (map_keys m).

(** * Lemmas *)

Lemma sorted_nil : sorted [].
Proof. constructor. Qed.

Lemma sorted_inv k v (m : smap) :
  sorted ((k, v) :: m) → sorted m ∧ ∀ k', k' ∈ map_keys m → bytes_lt k k'.
Proof.
  intros H. change (StronglySorted bytes_lt (k :: map_keys m)) in H.
  apply StronglySorted_inv in H as [? Hk]. split; [done|]. by apply Forall_forall.
Qed.

Lemma map_find_None k m : map_find k m = None ↔ k ∉ map_keys m.
Proof.
  induction m as [|[k' v] m IH]; cbn; [set_solver|].
  case_decide; [split; [done|set_solver]|]. rewrite IH. set_solver.
Qed.

Lemma map_find_keys k m : is_Some (map_find k m) ↔ k ∈ map_keys m.
Proof.
  destruct (map_find k m) eqn:E.
  - split; [intros _|eauto]. apply dec_stable. rewrite <- map_find_None. by rewrite E.
  - apply map_find_None in E. split; [by intros []|done].
Qed.

Lemma map_find_elem k v m : map_find k m = Some v → (k, v) ∈ m.
Proof. induction m as [|[k' v'] m IH]; cbn; [done|]. case_decide; set_solver. Qed.

Lemma elem_map_find k v m : sorted m → (k, v) ∈ m → map_find k m = Some v.
Proof.
  induction m as [|[k' v'] m IH]; cbn; [set_solver|]. intros [H Hk]%sorted_inv [E|E]%elem_of_cons.
  - injection E as -> ->. by rewrite decide_True.
  - case_decide as Ek; [|auto]. subst k'. destruct (irreflexivity bytes_lt k).
    apply Hk, list_elem_of_fmap. by exists (k, v).
Qed.

Lemma map_insert_keys k v m k' : k' ∈ map_keys (map_insert k v m) ↔ k' = k ∨ k' ∈ map_keys m.
Proof.
  induction m as [|[k1 v1] m IH]; cbn; [set_solver|].
  destruct (bytes_compare k k1) eqn:E; [apply bytes_compare_eq in E as ->|..]; cbn; [set_solver..|].
  rewrite !elem_of_cons. cbn in IH. rewrite IH. tauto.
Qed.

Lemma map_insert_sorted k v m : sorted m → sorted (map_insert k v m).
Proof.
  induction m as [|[k1 v1] m IH]; intros H; cbn; [by repeat constructor|].
  pose proof (sorted_inv _ _ _ H) as [H' Hk].
  destruct (bytes_compare k k1) eqn:E; [done| |].
  - constructor; [done|]. apply Forall_forall. intros k' [->|Hk']%elem_of_cons; [done|].
    etrans; [exact E|]. by apply Hk.
  - apply bytes_compare_gt in E. constructor; [by apply IH|]. apply Forall_forall.
    intros k' [->|Hk']%map_insert_keys; [done|by apply Hk].
Qed.

Lemma map_find_insert k v m k' :
  sorted m → map_find k' (map_insert k v m)
             = if decide (k' = k) then Some (default v (map_find k m)) else map_find k' m.
Proof.
  induction m as [|[k1 v1] m IH]; intros H; cbn; [by case_decide|].
  pose proof (sorted_inv _ _ _ H) as [H' Hk].
  destruct (bytes_compare k k1) eqn:E; cbn.
  - apply bytes_compare_eq in E as ->. rewrite (decide_True (P := k1 = k1)) by done.
    by case_decide; subst.
  - assert (k ≠ k1) as Hne by (intros ->; by eapply (irreflexivity bytes_lt)).
    rewrite (decide_False (P := k = k1)) by done.
    assert (map_find k m = None) as ->.
    { apply map_find_None. intros Hin%Hk. apply (irreflexivity bytes_lt k). by trans k1. }
    done.
  - assert (k ≠ k1) as Hne by (intros ->; by rewrite (proj2 (bytes_compare_eq k1 k1)) in E).
    rewrite (decide_False (P := k = k1)), IH by done. repeat case_decide; by subst.
Qed.

Lemma map_assign_keys k v m k' : k' ∈ map_keys (map_assign k v m) ↔ k' = k ∨ k' ∈ map_keys m.
Proof.
  induction m as [|[k1 v1] m IH]; cbn; [set_solver|].
  destruct (bytes_compare k k1) eqn:E; [apply bytes_compare_eq in E as ->|..]; cbn; [set_solver..|].
  rewrite !elem_of_cons. cbn in IH. rewrite IH. tauto.
Qed.

Lemma map_assign_sorted k v m : sorted m → sorted (map_assign k v m).
Proof.
  induction m as [|[k1 v1] m IH]; intros H; cbn; [by repeat constructor|].
  pose proof (sorted_inv _ _ _ H) as [H' Hk].
  destruct (bytes_compare k k1) eqn:E; [by apply bytes_compare_eq in E as ->| |].
  - constructor; [done|]. apply Forall_forall. intros k' [->|Hk']%elem_of_cons; [done|].
    etrans; [exact E|]. by apply Hk.
  - apply bytes_compare_gt in E. constructor; [by apply IH|]. apply Forall_forall.
    intros k' [->|Hk']%map_assign_keys; [done|by apply Hk].
Qed.

Lemma map_find_assign k v m k' :
  map_find k' (map_assign k v m) = if decide (k' = k) then Some v else map_find k' m.
Proof.
  induction m as [|[k1 v1] m IH]; cbn; [done|].
  destruct (bytes_compare k k1) eqn:E; cbn.
  - apply bytes_compare_eq in E as ->. by case_decide.
  - done.
  - assert (k ≠ k1) by (intros ->; by rewrite (proj2 (bytes_compare_eq k1 k1)) in E).
    rewrite IH. repeat case_decide; by subst.
Qed.

Lemma map_erase_subset k m k' : k' ∈ map_keys (map_erase k m) → k' ∈ map_keys m.
Proof.
  induction m as [|[k0 v0] m IH]; cbn; [done|].
  case_decide; [by right|]. unfold map_keys in *. cbn. rewrite !elem_of_cons. naive_solver.
Qed.

Lemma map_erase_sorted k m : sorted m → sorted (map_erase k m).
Proof.
  induction m as [|[k0 v0] m IH]; cbn; [done|]. intros [H Hlt]%sorted_inv.
  case_decide; [done|]. constructor; [by apply IH|].
  apply Forall_forall. intros k' ?%map_erase_subset. auto.
Qed.

Lemma map_find_erase k m k' :
  sorted m → map_find k' (map_erase k m) = if decide (k' = k) then None else map_find k' m.
Proof.
  induction m as [|[k0 v0] m IH]; cbn; [by case_decide|]. intros [H Hlt]%sorted_inv.
  destruct (decide (k = k0)) as [<-|Hne].
  - destruct (decide (k' = k)) as [->|]; [|done].
    apply map_find_None. intros Hk%Hlt. by apply (irreflexivity bytes_lt) in Hk.
  - cbn. rewrite IH by done. repeat case_decide; by subst.
Qed.

Lemma map_insert_last k v m :
  (∀ k', k' ∈ map_keys m → bytes_lt k' k) → map_insert k v m = m ++ [(k, v)].
Proof.
  induction m as [|[k1 v1] m IH]; intros H; cbn; [done|].
  rewrite (proj2 (bytes_compare_gt k k1)) by (apply H; left). rewrite IH; [done|].
  intros k' Hk'. apply H. by right.
Qed.

Lemma sorted_app_inv (m1 m2 : smap) k1 k2 :
  sorted (m1 ++ m2) → k1 ∈ map_keys m1 → k2 ∈ map_keys m2 → bytes_lt k1 k2.
Proof.
  induction m1 as [|[k v] m1 IH]; cbn; intros H H1 H2; [set_solver|].
  apply sorted_inv in H as [H Hk]. apply elem_of_cons in H1 as [->|H1]; [|by apply IH].
  apply Hk. unfold map_keys. rewrite fmap_app. set_solver.
Qed.

Lemma sorted_NoDup m : sorted m → NoDup (map_keys m).
Proof.
  induction m as [|[k v] m IH]; intros H; [constructor|].
  apply sorted_inv in H as [H Hk]. constructor; [|auto].
  intros Hin%Hk. by apply (irreflexivity bytes_lt k).
Qed.
End smap.
Arguments smap : clear implicits.
