(* ===== verification/Json.v ===== *)
(** The rapidjson values the configuration is read from, with the accessors of
    [third_party/rapidjson/include/rapidjson/document.h] it calls.  A failed
    [RAPIDJSON_ASSERT] is [UB AssertFailed].  The parser is not modelled: the
    components that call it take it as an argument. *)
From Stdlib Require Import Strings.Byte.
From S2P Require Import Prelude.
#[local] Open Scope Z_scope.

(** * The program *)

(** A number of the document is an integer or not ([kInt64Flag]/[kUint64Flag], or
    a double, whose value nothing here reads). *)
#[warnings="-register-all"]
Inductive json :=
  | JNull
  | JBool (b : bool)
  | JInteger (z : Z)
  | JDouble
  | JString (s : bytes)
  | JArray (elems : list json)
  | JObject (members : list (bytes * json)).

Definition IsObject (v : json) : bool := match v with JObject _ => true | _ => false end.
Definition IsArray (v : json) : bool := match v with JArray _ => true | _ => false end.
Definition IsString (v : json) : bool := match v with JString _ => true | _ => false end.
Definition IsInt (v : json) : bool := match v with JInteger z => int_ok z | _ => false end.
Definition IsBool (v : json) : bool := match v with JBool _ => true | _ => false end.

Definition Members (v : json) : outcome (list (bytes * json)) :=
  match v with JObject ms => Ok ms | _ => UB AssertFailed end.
Definition Elements (v : json) : outcome (list json) :=
  match v with JArray l => Ok l | _ => UB AssertFailed end.

(** The search of [FindMember]: the first member of that name. *)
Fixpoint find_member (ms : list (bytes * json)) (name : bytes) : option json :=
  match ms with
  | [] => None
  | (n, v) :: ms => if decide (name = n) then Some v else find_member ms name
  end.

Definition FindMember (v : json) (name : bytes) : outcome (option json) :=
  ms ← Members v; mret (find_member ms name).

Definition HasMember (v : json) (name : bytes) : outcome bool :=
  r ← FindMember v name; mret (bool_decide (is_Some r)).

(** [v[name]]. *)
Definition member (v : json) (name : bytes) : outcome json :=
  r ← FindMember v name;
  match r with Some x => Ok x | None => UB AssertFailed end.

(** [GetString()], as the [std::string] made from the pointer it returns. *)
Definition value_GetString (v : json) : outcome bytes :=
  match v with JString s => Ok (c_str s) | _ => UB AssertFailed end.
Definition value_GetInt (v : json) : outcome Z :=
  match v with JInteger z => if int_ok z then Ok z else UB AssertFailed | _ => UB AssertFailed end.
Definition value_GetBool (v : json) : outcome bool :=
  match v with JBool b => Ok b | _ => UB AssertFailed end.

(** [v.HasMember(name) && p(v[name])]. *)
Definition has_member_such (v : json) (name : bytes) (p : json → bool) : outcome bool :=
  b ← HasMember v name;
  if (b : bool) then x ← member v name; mret (p x) else mret false.

(** * Lemmas *)

Lemma FindMember_object ms name : FindMember (JObject ms) name = Ok (find_member ms name).
Proof. done. Qed.

Lemma HasMember_object ms name :
  HasMember (JObject ms) name = Ok (bool_decide (is_Some (find_member ms name))).
Proof. done. Qed.

Lemma member_object ms name v :
  find_member ms name = Some v → member (JObject ms) name = Ok v.
Proof. intros E. unfold member. cbn. by rewrite E. Qed.

Lemma has_member_such_object ms name p :
  has_member_such (JObject ms) name p
  = Ok (match find_member ms name with Some v => p v | None => false end).
Proof.
  unfold has_member_such. rewrite HasMember_object. cbn [mbind outcome_bind].
  destruct (find_member ms name) eqn:E; [|done].
  rewrite bool_decide_true by eauto. by rewrite (member_object _ _ _ E).
Qed.

(** The pattern of every section: test a member, then read it. *)
Lemma with_member {A} ms name p v (f : json → outcome A) (g : outcome A) :
  find_member ms name = Some v → p v = true →
  (b ← has_member_such (JObject ms) name p;
   if (b : bool) then x ← member (JObject ms) name; f x else g) = f v.
Proof.
  intros E Ep. rewrite has_member_such_object, E. cbn [mbind outcome_bind].
  by rewrite Ep, (member_object _ _ _ E).
Qed.

Lemma has_member_such_inv v name p :
  has_member_such v name p = Ok true → ∃ x, member v name = Ok x ∧ p x = true.
Proof.
  unfold has_member_such. intros E. apply bind_Ok in E as ([] & Eb & E); [|done].
  apply bind_Ok in E as (x & Ex & E). injection E as E. eauto.
Qed.
