(* ===== verification/Config.v ===== *)
(** [ChannelConfig] of [include/io/internal/config.h] and
    [src/_internal/config.cpp]: the nodes of a network, read from a JSON document,
    and the role of each. *)
From Stdlib Require Import Strings.Byte.
From stdpp Require Import pretty.
From S2P Require Import Prelude StdMap Json.
#[local] Open Scope Z_scope.

(** * The program *)

Record Node := MkNode {
  DESC : bytes;
  NODE_ID : bytes;
  NAME : bytes;
  HOST : bytes;
  PORT : Z
}.

(** [operator==]: nodes are compared by their id. *)
Definition node_eqb (n m : Node) : bool := bool_decide (NODE_ID n = NODE_ID m).

Inductive NODE_TYPE := NODE_TYPE_INVALID | NODE_TYPE_DATA | NODE_TYPE_COMPUTE | NODE_TYPE_RESULT.

#[global] Instance NODE_TYPE_eq_dec : EqDecision NODE_TYPE.
Proof. solve_decision. Defined.

(** The lists [P] of the three [..NodeConfig] members are the three [.._config_]. *)
Record ChannelConfig := CC {
  node_info_config_ : smap Node;
  data_nodes_ : list bytes;
  pure_data_nodes_ : list bytes;
  compute_nodes_ : smap Z;
  result_nodes_ : list bytes;
  pure_result_nodes_ : list bytes;
  data_config_ : list Node;
  compute_config_ : list Node;
  result_config_ : list Node;
  connect_timeout_ : Z;              (** ms *)
  connect_retries_ : Z
}.

(** The default member initialisers. *)
Definition config_init : ChannelConfig := CC [] [] [] [] [] [] [] [] [] (10 * 1000) 5.

Definition set_node_info (m : smap Node) (c : ChannelConfig) : ChannelConfig :=
  CC m (data_nodes_ c) (pure_data_nodes_ c) (compute_nodes_ c) (result_nodes_ c)
     (pure_result_nodes_ c) (data_config_ c) (compute_config_ c) (result_config_ c)
     (connect_timeout_ c) (connect_retries_ c).
Definition set_data (nodes : list bytes) (P : list Node) (c : ChannelConfig) : ChannelConfig :=
  CC (node_info_config_ c) nodes (pure_data_nodes_ c) (compute_nodes_ c) (result_nodes_ c)
     (pure_result_nodes_ c) P (compute_config_ c) (result_config_ c)
     (connect_timeout_ c) (connect_retries_ c).
Definition set_compute (nodes : smap Z) (P : list Node) (c : ChannelConfig) : ChannelConfig :=
  CC (node_info_config_ c) (data_nodes_ c) (pure_data_nodes_ c) nodes (result_nodes_ c)
     (pure_result_nodes_ c) (data_config_ c) P (result_config_ c)
     (connect_timeout_ c) (connect_retries_ c).
Definition set_result (nodes : list bytes) (P : list Node) (c : ChannelConfig) : ChannelConfig :=
  CC (node_info_config_ c) (data_nodes_ c) (pure_data_nodes_ c) (compute_nodes_ c) nodes
     (pure_result_nodes_ c) (data_config_ c) (compute_config_ c) P
     (connect_timeout_ c) (connect_retries_ c).
Definition set_connect (timeout retries : Z) (c : ChannelConfig) : ChannelConfig :=
  CC (node_info_config_ c) (data_nodes_ c) (pure_data_nodes_ c) (compute_nodes_ c)
     (result_nodes_ c) (pure_result_nodes_ c) (data_config_ c) (compute_config_ c)
     (result_config_ c) timeout retries.

(** ** Reading one key *)

Definition if_key_not_exist_then_exit (must_exist : bool) (key : string) : outcome unit :=
  if must_exist then Throw (other_exp ("key[" +:+ key +:+ "] not exist!")) else mret ().

(** The pattern the four [Get..] helpers share. *)
Definition get_or {A} (read : json → outcome A) (v : json) (key : string) (default_value : A)
    (must_exist : bool) : outcome A :=
  b ← HasMember v (str key);
  if (b : bool) then x ← member v (str key); read x
  else _ ← if_key_not_exist_then_exit must_exist key; mret default_value.

Definition GetString (v : json) (key : string) (default_value : bytes) (must_exist : bool)
    : outcome bytes := get_or value_GetString v key (c_str default_value) must_exist.
Definition GetInt (v : json) (key : string) (default_value : Z) (must_exist : bool) : outcome Z :=
  get_or value_GetInt v key default_value must_exist.
Definition GetBool (v : json) (key : string) (default_value : bool) (must_exist : bool)
    : outcome bool := get_or value_GetBool v key default_value must_exist.

(** [std::to_string(int)]. *)
Definition to_string (z : Z) : bytes := str (pretty z).

(** ** The sections of the document *)

Definition parse_node (i : Z) (node : json) : outcome Node :=
  id ← GetString node "NODE_ID" [] false;
  name ← GetString node "NAME" (str "Node-" ++ to_string i) false;
  host ← GetString node "HOST" (str "127.0.0.1") false;
  port ← GetInt node "PORT" 0 false;
  mret (MkNode [] id name host port).

Definition parse_node_info (cfg : ChannelConfig) (doc : json) : outcome ChannelConfig :=
  b ← has_member_such doc (str "NODE_INFO") IsArray;
  if (b : bool) then
    nodes ← member doc (str "NODE_INFO");
    nodes ← Elements nodes;
    for_each (λ cfg '(i, node),
                n ← parse_node (Z.of_nat i) node;
                mret (set_node_info (map_insert (NODE_ID n) n (node_info_config_ cfg)) cfg))
             cfg (imap pair nodes)
  else mret cfg.

(** The loop of [parse_data] and [parse_result]: element [i] of the vector gets
    the string, and the node is pushed when there is information on it. *)
Definition node_list_step (info : smap Node) (acc : list bytes * list Node) (v : json)
    : outcome (list bytes * list Node) :=
  name ← value_GetString v;
  mret (acc.1 ++ [name],
        match map_find name info with Some n => acc.2 ++ [n] | None => acc.2 end).

Definition parse_data (cfg : ChannelConfig) (doc : json) : outcome ChannelConfig :=
  b ← has_member_such doc (str "DATA_NODES") IsArray;
  if (b : bool) then
    nodes ← member doc (str "DATA_NODES");
    nodes ← Elements nodes;
    '(names, P) ← for_each (node_list_step (node_info_config_ cfg)) ([], data_config_ cfg) nodes;
    mret (set_data names P cfg)
  else mret cfg.

Definition parse_compute (cfg : ChannelConfig) (doc : json) : outcome ChannelConfig :=
  b ← has_member_such doc (str "COMPUTATION_NODES") IsObject;
  if (b : bool) then
    nodes ← member doc (str "COMPUTATION_NODES");
    members ← Members nodes;
    compute ← for_each (λ m '(name, v), z ← value_GetInt v; mret (map_insert (c_str name) z m))
                       (compute_nodes_ cfg) members;
    mret (set_compute compute
            (compute_config_ cfg
             ++ omap (λ name, map_find name (node_info_config_ cfg)) (map_keys compute)) cfg)
  else mret cfg.

Definition parse_result (cfg : ChannelConfig) (doc : json) : outcome ChannelConfig :=
  b ← has_member_such doc (str "RESULT_NODES") IsArray;
  if (b : bool) then
    nodes ← member doc (str "RESULT_NODES");
    nodes ← Elements nodes;
    '(names, P) ← for_each (node_list_step (node_info_config_ cfg)) ([], result_config_ cfg) nodes;
    mret (set_result names P cfg)
  else mret cfg.

Definition parse_connect_params (cfg : ChannelConfig) (doc : json) : outcome ChannelConfig :=
  b ← has_member_such doc (str "CONNECT_PARAMS") IsObject;
  if (b : bool) then
    connect_param ← member doc (str "CONNECT_PARAMS");
    has_timeout ← has_member_such connect_param (str "TIMEOUT") IsInt;
    timeout_ms ← (if (has_timeout : bool) then
                    v ← member connect_param (str "TIMEOUT");
                    timeout ← value_GetInt v;
                    if 0 <? timeout then int32 (timeout * 1000) else mret (connect_timeout_ cfg)
                  else mret (connect_timeout_ cfg));
    has_retries ← has_member_such connect_param (str "RETRIES") IsInt;
    retries ← (if (has_retries : bool) then
                 v ← member connect_param (str "RETRIES");
                 retries ← value_GetInt v;
                 if 0 <? retries then mret retries else mret (connect_retries_ cfg)
               else mret (connect_retries_ cfg));
    mret (set_connect timeout_ms retries cfg)
  else mret cfg.

(** A loop that erases the elements a test selects. *)
Fixpoint erase_loop {A} (p : A → bool) (l : list A) : list A :=
  match l with
  | [] => []
  | x :: l => if p x then erase_loop p l else x :: erase_loop p l
  end.

Definition std_find_node (l : list Node) (n : Node) : bool := existsb (λ m, node_eqb m n) l.

Definition process_node_type (cfg : ChannelConfig) : ChannelConfig :=
  let in_compute id := bool_decide (is_Some (map_find id (compute_nodes_ cfg))) in
  let pure_data := erase_loop in_compute (data_nodes_ cfg) in
  let pure_result :=
    erase_loop (λ id, in_compute id || bool_decide (id ∈ pure_data)) (result_nodes_ cfg) in
  let data_P := erase_loop (std_find_node (compute_config_ cfg)) (data_config_ cfg) in
  let result_P :=
    erase_loop (λ n, std_find_node (compute_config_ cfg) n || std_find_node data_P n)
               (result_config_ cfg) in
  CC (node_info_config_ cfg) (data_nodes_ cfg) pure_data (compute_nodes_ cfg) (result_nodes_ cfg)
     pure_result data_P (compute_config_ cfg) result_P (connect_timeout_ cfg) (connect_retries_ cfg).

(** [parse]: each section returns true or throws. *)
Definition parse (cfg : ChannelConfig) (doc : json) : outcome ChannelConfig :=
  cfg ← parse_node_info cfg doc;
  cfg ← parse_data cfg doc;
  cfg ← parse_compute cfg doc;
  cfg ← parse_result cfg doc;
  cfg ← parse_connect_params cfg doc;
  mret (process_node_type cfg).

(** ** Loading and looking up *)

Section load.
(** The lines of a file, if it can be opened; and [Document::Parse], [None] on a
    parse error. *)
Context (read_lines : bytes → option (list bytes)) (Parse : bytes → option json).

Definition load (cfg : ChannelConfig) (config_file : bytes) : outcome (bool * ChannelConfig) :=
  let sjson := match read_lines config_file with
               | None => config_file
               | Some lines => concat lines
               end in
  match Parse (c_str sjson) with
  | None => mret (false, cfg)
  | Some doc => cfg ← parse cfg doc; mret (true, cfg)
  end.

(** The constructor. *)
Definition ChannelConfig_create (config_json : bytes) : outcome ChannelConfig :=
  '(ret, cfg) ← load config_init config_json;
  if (ret : bool) then mret cfg else Throw (other_exp "ChannelConfig load2 config json failed!").
End load.

Definition GetPrimaryNodeType (cfg : ChannelConfig) (node_id : bytes) : NODE_TYPE :=
  if existsb (λ id, bool_decide (node_id = id)) (pure_data_nodes_ cfg) then NODE_TYPE_DATA
  else if existsb (λ id, bool_decide (node_id = id)) (map_keys (compute_nodes_ cfg))
  then NODE_TYPE_COMPUTE
  else if existsb (λ id, bool_decide (node_id = id)) (pure_result_nodes_ cfg)
  then NODE_TYPE_RESULT
  else NODE_TYPE_INVALID.

Definition find_node (node_id : bytes) (P : list Node) : option Node :=
  List.find (λ n, bool_decide (node_id = NODE_ID n)) P.

Definition GetNode (cfg : ChannelConfig) (node_id : bytes) : outcome Node :=
  match find_node node_id (data_config_ cfg) with
  | Some n => mret n
  | None =>
    match find_node node_id (compute_config_ cfg) with
    | Some n => mret n
    | None =>
      match find_node node_id (result_config_ cfg) with
      | Some n => mret n
      | None => Throw (other_exp "can not find node in config!")
      end
    end
  end.

(** The [to_string] of the three node lists, which are the same text. *)
Definition nodes_to_string (P : list Node) : bytes :=
  concat (imap (λ i n,
    let p := str "
        P" ++ to_string (Z.of_nat i) in
    p ++ str " NAME: " ++ NAME n ++ p ++ str " HOST: " ++ HOST n
      ++ p ++ str " PORT: " ++ to_string (PORT n)) P) ++ str "
".

(** * Specification *)

(** Nodes known by [NODE_INFO] among the named ones, in order. *)
Definition known (info : smap Node) (names : list bytes) : list Node :=
  omap (λ name, map_find name info) names.

(** Each node is filed under its own id. *)
Definition info_ok (info : smap Node) : Prop :=
  sorted info ∧ ∀ id n, map_find id info = Some n → NODE_ID n = id.

(** The role of a node that is listed in several sections. *)
Definition role (cfg : ChannelConfig) (id : bytes) : NODE_TYPE :=
  if decide (id ∈ map_keys (compute_nodes_ cfg)) then NODE_TYPE_COMPUTE
  else if decide (id ∈ data_nodes_ cfg) then NODE_TYPE_DATA
  else if decide (id ∈ result_nodes_ cfg) then NODE_TYPE_RESULT
  else NODE_TYPE_INVALID.

(** What [parse] has established before [process_node_type]. *)
Record parsed (cfg : ChannelConfig) : Prop := {
  p_info : info_ok (node_info_config_ cfg);
  p_compute : sorted (compute_nodes_ cfg);
  p_data_P : data_config_ cfg = known (node_info_config_ cfg) (data_nodes_ cfg);
  p_compute_P : compute_config_ cfg
                = known (node_info_config_ cfg) (map_keys (compute_nodes_ cfg));
  p_result_P : result_config_ cfg = known (node_info_config_ cfg) (result_nodes_ cfg)
}.

(** * Lemmas *)

Lemma elem_of_erase_loop {A} (p : A → bool) l x : x ∈ erase_loop p l ↔ x ∈ l ∧ p x = false.
Proof.
  induction l as [|y l IH]; cbn; [set_solver|].
  rewrite elem_of_cons. destruct (p y) eqn:E; [|rewrite elem_of_cons]; rewrite IH; clear IH.
  - split; [tauto|]. intros [[->|?] ?]; [congruence|done].
  - split; [intros [->|?]; tauto|tauto].
Qed.

Lemma existsb_elem (id : bytes) l : existsb (λ x, bool_decide (id = x)) l = bool_decide (id ∈ l).
Proof.
  apply eq_true_iff_eq. rewrite existsb_exists, bool_decide_eq_true. setoid_rewrite bool_decide_eq_true.
  setoid_rewrite <- list_elem_of_In. naive_solver.
Qed.

Lemma std_find_node_spec l n : std_find_node l n = true ↔ NODE_ID n ∈ (NODE_ID <$> l).
Proof.
  unfold std_find_node, node_eqb. rewrite existsb_exists, list_elem_of_fmap.
  setoid_rewrite bool_decide_eq_true. setoid_rewrite <- list_elem_of_In. naive_solver.
Qed.

Lemma elem_of_known info names n :
  info_ok info → n ∈ known info names ↔ NODE_ID n ∈ names ∧ map_find (NODE_ID n) info = Some n.
Proof.
  intros [_ Hid]. unfold known. rewrite list_elem_of_omap. split.
  - intros (id & Hin & E). by rewrite (Hid _ _ E).
  - intros [Hin E]. eauto.
Qed.

Lemma known_ids info names id :
  info_ok info → id ∈ (NODE_ID <$> known info names) ↔ id ∈ names ∧ is_Some (map_find id info).
Proof.
  intros H. rewrite list_elem_of_fmap. split.
  - intros (n & -> & [? ?]%elem_of_known); eauto.
  - intros [Hin [n E]]. pose proof (proj2 H _ _ E) as <-. exists n. split; [done|].
    by apply elem_of_known.
Qed.

Lemma elem_of_pure_data cfg id :
  (id ∈ pure_data_nodes_ (process_node_type cfg))
  ↔ id ∈ data_nodes_ cfg ∧ id ∉ map_keys (compute_nodes_ cfg).
Proof.
  cbn [pure_data_nodes_ process_node_type]. rewrite elem_of_erase_loop, bool_decide_eq_false.
  by rewrite map_find_keys.
Qed.

Lemma elem_of_pure_result cfg id :
  (id ∈ pure_result_nodes_ (process_node_type cfg))
  ↔ id ∈ result_nodes_ cfg ∧ (id ∉ map_keys (compute_nodes_ cfg)) ∧ id ∉ data_nodes_ cfg.
Proof.
  pose proof (elem_of_pure_data cfg id) as Hd. cbn [pure_data_nodes_ process_node_type] in Hd.
  cbn [pure_result_nodes_ process_node_type]. rewrite elem_of_erase_loop, orb_false_iff.
  rewrite !bool_decide_eq_false, Hd, map_find_keys. tauto.
Qed.

Lemma GetPrimaryNodeType_role cfg id :
  GetPrimaryNodeType (process_node_type cfg) id = role cfg id.
Proof.
  unfold GetPrimaryNodeType, role. rewrite !existsb_elem.
  change (compute_nodes_ (process_node_type cfg)) with (compute_nodes_ cfg).
  rewrite (bool_decide_ext _ _ (elem_of_pure_data cfg id)).
  rewrite (bool_decide_ext _ _ (elem_of_pure_result cfg id)).
  repeat case_bool_decide; repeat case_decide; tauto.
Qed.

(** ** The sections *)

Lemma parse_node_info_ok cfg doc cfg' :
  parse_node_info cfg doc = Ok cfg' → info_ok (node_info_config_ cfg) →
  ∃ info, cfg' = set_node_info info cfg ∧ info_ok info.
Proof.
  unfold parse_node_info. intros E H. apply bind_Ok in E as ([] & _ & E).
  2: { injection E as <-. exists (node_info_config_ cfg). split; [by destruct cfg|done]. }
  apply bind_Ok in E as (v & _ & E). apply bind_Ok in E as (l & _ & E).
  eapply (for_each_inv _ (λ c, ∃ info, c = set_node_info info cfg ∧ info_ok info)); [|..|exact E].
  - intros ? [i node] c' _ (info & -> & Hs & Hid) Estep.
    apply bind_Ok in Estep as (n & _ & Estep). injection Estep as <-.
    eexists. split; [done|]. split; [by apply map_insert_sorted|].
    intros id m. cbn [node_info_config_ set_node_info]. rewrite map_find_insert by done.
    case_decide as Eid; [|by apply Hid]. destruct (map_find (NODE_ID n) info) eqn:Ef; cbn.
    + intros Em. injection Em as <-. rewrite (Hid _ _ Ef). done.
    + intros Em. by injection Em as <-.
  - exists (node_info_config_ cfg). split; [by destruct cfg|done].
Qed.

Lemma node_list_ok info l : ∀ names P names' P',
  for_each (node_list_step info) (names, P) l = Ok (names', P') →
  ∃ more, names' = names ++ more ∧ P' = P ++ known info more.
Proof.
  induction l as [|v l IH]; intros names P names' P' E; cbn in E.
  { injection E as <- <-. exists []. by rewrite !app_nil_r. }
  apply bind_Ok in E as (s & Es & E). apply bind_Ok in Es as (name & _ & Es).
  injection Es as <-. cbn [fst snd] in E. apply IH in E as (more & -> & ->).
  exists (name :: more). split; [by rewrite <- app_assoc|].
  unfold known. cbn. destruct (map_find name info); cbn; by rewrite <- ?app_assoc.
Qed.

Lemma parse_data_ok cfg doc cfg' :
  parse_data cfg doc = Ok cfg' → data_nodes_ cfg = [] → data_config_ cfg = [] →
  ∃ names, cfg' = set_data names (known (node_info_config_ cfg) names) cfg.
Proof.
  unfold parse_data. intros E H1 H2. apply bind_Ok in E as ([] & _ & E).
  2: { injection E as <-. exists []. destruct cfg; cbn in *; by subst. }
  apply bind_Ok in E as (v & _ & E). apply bind_Ok in E as (l & _ & E).
  apply bind_Ok in E as ([names P] & El & E). injection E as <-.
  apply node_list_ok in El as (more & -> & ->). rewrite H2. by exists more.
Qed.

Lemma parse_result_ok cfg doc cfg' :
  parse_result cfg doc = Ok cfg' → result_nodes_ cfg = [] → result_config_ cfg = [] →
  ∃ names, cfg' = set_result names (known (node_info_config_ cfg) names) cfg.
Proof.
  unfold parse_result. intros E H1 H2. apply bind_Ok in E as ([] & _ & E).
  2: { injection E as <-. exists []. destruct cfg; cbn in *; by subst. }
  apply bind_Ok in E as (v & _ & E). apply bind_Ok in E as (l & _ & E).
  apply bind_Ok in E as ([names P] & El & E). injection E as <-.
  apply node_list_ok in El as (more & -> & ->). rewrite H2. by exists more.
Qed.

Lemma parse_compute_ok cfg doc cfg' :
  parse_compute cfg doc = Ok cfg' → compute_nodes_ cfg = [] → compute_config_ cfg = [] →
  ∃ m, cfg' = set_compute m (known (node_info_config_ cfg) (map_keys m)) cfg ∧ sorted m.
Proof.
  unfold parse_compute. intros E H1 H2. apply bind_Ok in E as ([] & _ & E).
  2: { injection E as <-. exists []. split; [destruct cfg; cbn in *; by subst|constructor]. }
  apply bind_Ok in E as (v & _ & E). apply bind_Ok in E as (l & _ & E).
  apply bind_Ok in E as (m & El & E). injection E as <-. exists m. rewrite H2. split; [done|].
  eapply (for_each_inv _ sorted); [|..|exact El].
  - intros s [name v'] s' _ Hs Estep. apply bind_Ok in Estep as (z & _ & Estep).
    injection Estep as <-. by apply map_insert_sorted.
  - rewrite H1. constructor.
Qed.

Lemma parse_connect_params_ok cfg doc cfg' :
  parse_connect_params cfg doc = Ok cfg' → ∃ timeout retries, cfg' = set_connect timeout retries cfg.
Proof.
  unfold parse_connect_params. intros E. apply bind_Ok in E as ([] & _ & E).
  2: { injection E as <-. exists (connect_timeout_ cfg), (connect_retries_ cfg). by destruct cfg. }
  apply bind_Ok in E as (v & _ & E). apply bind_Ok in E as (? & _ & E).
  apply bind_Ok in E as (t & _ & E). apply bind_Ok in E as (? & _ & E).
  apply bind_Ok in E as (r & _ & E). injection E as <-. eauto.
Qed.

Lemma parse_parsed doc cfg :
  parse config_init doc = Ok cfg → ∃ cfg0, parsed cfg0 ∧ cfg = process_node_type cfg0.
Proof.
  unfold parse. intros E. apply bind_Ok in E as (c1 & E1 & E). apply bind_Ok in E as (c2 & E2 & E).
  apply bind_Ok in E as (c3 & E3 & E). apply bind_Ok in E as (c4 & E4 & E).
  apply bind_Ok in E as (c5 & E5 & E). injection E as <-. exists c5. split; [|done].
  apply parse_node_info_ok in E1 as (info & -> & Hinfo).
  2: { split; [constructor|done]. }
  apply parse_data_ok in E2 as (data & ->); [|done..].
  apply parse_compute_ok in E3 as (comp & -> & Hcomp); [|done..].
  apply parse_result_ok in E4 as (res & ->); [|done..].
  apply parse_connect_params_ok in E5 as (? & ? & ->). by split.
Qed.

(** ** The node lists *)

Lemma find_node_Some id P n :
  find_node id P = Some n → n ∈ P ∧ NODE_ID n = id.
Proof.
  intros E. apply find_some in E as [Hin E]. apply bool_decide_eq_true in E.
  split; [by apply list_elem_of_In|done].
Qed.

Lemma find_node_None id P n : find_node id P = None → n ∈ P → NODE_ID n ≠ id.
Proof.
  intros E Hin <-. apply list_elem_of_In in Hin. eapply find_none in E; [|done].
  by rewrite bool_decide_true in E.
Qed.

Lemma role_node_lists cfg n :
  parsed cfg →
  let listed P ty := n ∈ P ↔ role cfg (NODE_ID n) = ty
                             ∧ map_find (NODE_ID n) (node_info_config_ cfg) = Some n in
  listed (data_config_ (process_node_type cfg)) NODE_TYPE_DATA
  ∧ listed (compute_config_ (process_node_type cfg)) NODE_TYPE_COMPUTE
  ∧ listed (result_config_ (process_node_type cfg)) NODE_TYPE_RESULT.
Proof.
  intros [Hinfo Hsc Hd Hc Hr] listed.
  assert (∀ m, std_find_node (compute_config_ cfg) m = false
           ↔ ¬ (NODE_ID m ∈ map_keys (compute_nodes_ cfg)
                ∧ is_Some (map_find (NODE_ID m) (node_info_config_ cfg)))) as Hnc.
  { intros m. rewrite <- not_true_iff_false, std_find_node_spec, Hc, known_ids by done. done. }
  assert (n ∈ data_config_ (process_node_type cfg)
    ↔ (NODE_ID n ∈ data_nodes_ cfg ∧ NODE_ID n ∉ map_keys (compute_nodes_ cfg))
      ∧ map_find (NODE_ID n) (node_info_config_ cfg) = Some n) as Hdata.
  { cbn [data_config_ process_node_type]. rewrite elem_of_erase_loop, Hnc.
    rewrite Hd, elem_of_known by done. split; [|naive_solver].
    intros [[? E] Hno]. rewrite E in Hno. naive_solver. }
  unfold listed, role. split_and!.
  - rewrite Hdata. repeat case_decide; naive_solver.
  - cbn [compute_config_ process_node_type]. rewrite Hc, elem_of_known by done.
    repeat case_decide; naive_solver.
  - cbn [result_config_ process_node_type]. rewrite elem_of_erase_loop, orb_false_iff, Hnc.
    rewrite <- (not_true_iff_false (std_find_node _ n)), std_find_node_spec.
    rewrite Hr, elem_of_known by done.
    change (erase_loop _ (data_config_ cfg)) with (data_config_ (process_node_type cfg)).
    assert (map_find (NODE_ID n) (node_info_config_ cfg) = Some n →
      NODE_ID n ∈ (NODE_ID <$> data_config_ (process_node_type cfg))
      ↔ NODE_ID n ∈ data_nodes_ cfg ∧ NODE_ID n ∉ map_keys (compute_nodes_ cfg)) as Hids.
    { intros E. rewrite list_elem_of_fmap. split.
      - intros (m & Em & Hin). cbn [data_config_ process_node_type] in Hin.
        apply elem_of_erase_loop in Hin as [Hin Hno]. rewrite Hd, elem_of_known in Hin by done.
        apply Hnc in Hno. rewrite <- Em in *. rewrite E in *. naive_solver.
      - intros ?. exists n. by rewrite Hdata. }
    split.
    + intros ([Hin E] & Hno & Hnd). rewrite E in Hno. rewrite Hids in Hnd by done.
      repeat case_decide; naive_solver.
    + intros [Hrole E]. rewrite Hids, E by done. repeat case_decide; naive_solver.
Qed.

Lemma GetNode_parsed cfg0 id :
  parsed cfg0 →
  GetNode (process_node_type cfg0) id =
    match map_find id (node_info_config_ cfg0) with
    | Some n => if decide (role cfg0 id = NODE_TYPE_INVALID)
                then Throw (other_exp "can not find node in config!") else Ok n
    | None => Throw (other_exp "can not find node in config!")
    end.
Proof.
  intros H.
  pose proof (λ n, role_node_lists cfg0 n H) as Hlists. cbv zeta in Hlists.
  set (cfg := process_node_type cfg0) in *.
  assert (∀ n P, n ∈ P → P ∈ [data_config_ cfg; compute_config_ cfg; result_config_ cfg] →
    role cfg0 (NODE_ID n) ≠ NODE_TYPE_INVALID
    ∧ map_find (NODE_ID n) (node_info_config_ cfg0) = Some n) as Hfound.
  { intros n P Hn HP. destruct (Hlists n) as (Hd & Hc & Hr).
    rewrite !elem_of_cons, elem_of_nil in HP. destruct HP as [->|[->|[->|[]]]];
      [apply Hd in Hn as [-> ?]|apply Hc in Hn as [-> ?]|apply Hr in Hn as [-> ?]]; done. }
  assert (∀ P n, find_node id P = Some n →
      P ∈ [data_config_ cfg; compute_config_ cfg; result_config_ cfg] →
      Ok n = match map_find id (node_info_config_ cfg0) with
             | Some n => if decide (role cfg0 id = NODE_TYPE_INVALID)
                         then Throw (other_exp "can not find node in config!") else Ok n
             | None => Throw (other_exp "can not find node in config!")
             end) as Hcase.
  { intros P n E HP. apply find_node_Some in E as [Hin <-].
    destruct (Hfound n P Hin HP) as [Hrole ->]. by rewrite decide_False. }
  unfold GetNode.
  destruct (find_node id (data_config_ cfg)) as [n|] eqn:E1; [apply (Hcase _ _ E1); set_solver|].
  destruct (find_node id (compute_config_ cfg)) as [n|] eqn:E2; [apply (Hcase _ _ E2); set_solver|].
  destruct (find_node id (result_config_ cfg)) as [n|] eqn:E3; [apply (Hcase _ _ E3); set_solver|].
  destruct (map_find id (node_info_config_ cfg0)) as [n|] eqn:E; [|done].
  assert (NODE_ID n = id) as <- by exact (proj2 (p_info cfg0 H) id n E).
  destruct (Hlists n) as (Hd & Hc & Hr).
  destruct (role cfg0 (NODE_ID n)) eqn:Erole; [done|exfalso..].
  - eapply find_node_None; [exact E1| |done]. by apply Hd.
  - eapply find_node_None; [exact E2| |done]. by apply Hc.
  - eapply find_node_None; [exact E3| |done]. by apply Hr.
Qed.

(** ** Documents *)

Definition node_json (n : Node) : json :=
  JObject [(str "NODE_ID", JString (NODE_ID n)); (str "NAME", JString (NAME n));
           (str "HOST", JString (HOST n)); (str "PORT", JInteger (PORT n))].

(** A configuration file as the documentation describes it. *)
Definition document (infos : list Node) (data : list bytes) (compute : list (bytes * Z))
    (result : list bytes) (timeout retries : Z) : json :=
  JObject [(str "NODE_INFO", JArray (node_json <$> infos));
           (str "DATA_NODES", JArray (JString <$> data));
           (str "COMPUTATION_NODES", JObject (prod_map id JInteger <$> compute));
           (str "RESULT_NODES", JArray (JString <$> result));
           (str "CONNECT_PARAMS", JObject [(str "TIMEOUT", JInteger timeout);
                                           (str "RETRIES", JInteger retries)])].

Definition good_node (n : Node) : Prop :=
  DESC n = [] ∧ text (NODE_ID n) ∧ text (NAME n) ∧ text (HOST n) ∧ int_ok (PORT n) = true.

#[export] Instance good_node_dec n : Decision (good_node n).
Proof. unfold good_node, text. apply _. Defined.

Lemma get_or_found {A} (read : json → outcome A) ms key v d must :
  find_member ms (str key) = Some v → get_or read (JObject ms) key d must = read v.
Proof.
  intros E. unfold get_or. rewrite HasMember_object, E. cbn [mbind outcome_bind].
  rewrite bool_decide_true by eauto. by rewrite (member_object _ _ _ E).
Qed.

Lemma parse_node_json i n : good_node n → parse_node i (node_json n) = Ok n.
Proof.
  destruct n as [desc id name host port]. unfold good_node, text. cbn [DESC NODE_ID NAME HOST PORT].
  intros (-> & Hi & Hn & Hh & Hp). unfold parse_node, GetString, GetInt, node_json.
  cbn [NODE_ID NAME HOST PORT].
  repeat (erewrite get_or_found by reflexivity; cbn [value_GetString value_GetInt];
          rewrite ?Hi, ?Hn, ?Hh, ?Hp; cbn [mbind outcome_bind]).
  done.
Qed.

Lemma parse_nodes_json l : ∀ cfg (k : nat), Forall good_node l → info_ok (node_info_config_ cfg) →
  ∃ info,
    for_each (λ cfg '(i, node),
                n ← parse_node (Z.of_nat i) node;
                mret (set_node_info (map_insert (NODE_ID n) n (node_info_config_ cfg)) cfg))
             cfg (imap (λ i, pair (k + i)%nat) (node_json <$> l)) = Ok (set_node_info info cfg)
    ∧ info_ok info
    ∧ ∀ id, map_find id info = match map_find id (node_info_config_ cfg) with
                               | Some n => Some n | None => find_node id l end.
Proof.
  induction l as [|n l IH]; intros cfg k Hl H.
  { exists (node_info_config_ cfg). split; [by destruct cfg|]. split; [done|].
    intros id. by destruct (map_find _ _). }
  apply Forall_cons in Hl as [Hn Hl]. destruct H as [Hs Hid].
  set (cfg1 := set_node_info (map_insert (NODE_ID n) n (node_info_config_ cfg)) cfg).
  destruct (IH cfg1 (S k)) as (info & E & Hinfo & Hfind); [done| |].
  { split; [by apply map_insert_sorted|]. intros id m. cbn. rewrite map_find_insert by done.
    case_decide as Ei; [|by apply Hid]. destruct (map_find (NODE_ID n) _) eqn:Ef; cbn;
      intros Em; injection Em as <-; [|done]. by rewrite (Hid _ _ Ef). }
  exists info. split_and!; [|done|].
  - rewrite fmap_cons, imap_cons. cbn [for_each]. rewrite parse_node_json by done.
    cbn [mbind outcome_bind mret outcome_ret]. etrans; [|exact E]. f_equal.
    apply imap_ext. intros i x _. unfold compose. f_equal. lia.
  - intros id. rewrite Hfind. cbn [cfg1 node_info_config_ set_node_info]. rewrite map_find_insert by done.
    unfold find_node. cbn [List.find]. case_decide as Ei; [subst id|].
    + rewrite bool_decide_true by done. by destruct (map_find (NODE_ID n) _).
    + by rewrite bool_decide_false by done.
Qed.

Lemma node_list_json info l : ∀ names P, Forall text l →
  for_each (node_list_step info) (names, P) (JString <$> l) = Ok (names ++ l, P ++ known info l).
Proof.
  induction l as [|s l IH]; intros names P Hl; [by rewrite !app_nil_r|].
  apply Forall_cons in Hl as [Hs Hl]. rewrite fmap_cons. cbn [for_each].
  assert (node_list_step info (names, P) (JString s)
          = Ok (names ++ [s], match map_find s info with Some n => P ++ [n] | None => P end)) as ->.
  { unfold node_list_step. cbn. by rewrite Hs. }
  cbn [mbind outcome_bind]. rewrite IH, <- app_assoc by done. unfold known. cbn [omap list_omap].
  by destruct (map_find s info); rewrite <- ?app_assoc.
Qed.

Lemma compute_json l : ∀ m : smap Z,
  Forall (λ p, text p.1 ∧ int_ok p.2 = true) l → sorted m →
  ∃ m', for_each (λ m '(name, v), z ← value_GetInt v; mret (map_insert (c_str name) z m))
                 m (prod_map id JInteger <$> l) = Ok m'
    ∧ sorted m'
    ∧ ∀ k, map_find k m' = match map_find k m with Some v => Some v | None => map_find k l end.
Proof.
  induction l as [|[name z] l IH]; intros m Hl Hm.
  { exists m. split_and!; [done..|]. intros k. by destruct (map_find k m). }
  apply Forall_cons in Hl as [[Ht Hz] Hl]. cbn [fst snd] in *.
  destruct (IH (map_insert name z m)) as (m' & E & Hm' & Hfind); [done|by apply map_insert_sorted|].
  exists m'. split_and!; [|done|].
  - rewrite fmap_cons. cbn [for_each prod_map fst snd id value_GetInt].
    rewrite Hz. cbn [mbind outcome_bind mret outcome_ret]. by rewrite Ht.
  - intros k. rewrite Hfind, map_find_insert by done. cbn [map_find].
    case_decide; [subst k|done]. by destruct (map_find name m).
Qed.

(** ** Connection parameters *)

Lemma connect_params_found cfg ms ps timeout retries :
  find_member ms (str "CONNECT_PARAMS") = Some (JObject ps) →
  find_member ps (str "TIMEOUT") = Some (JInteger timeout) →
  find_member ps (str "RETRIES") = Some (JInteger retries) →
  int_ok timeout = true → int_ok retries = true →
  timeout * 1000 < 2 ^ 31 → 0 < timeout → 0 < retries →
  parse_connect_params cfg (JObject ms) = Ok (set_connect (timeout * 1000) retries cfg).
Proof.
  intros E1 E2 E3 Ht Hr Hmax ??. unfold parse_connect_params.
  rewrite (with_member _ _ _ _ _ _ E1) by done.
  rewrite !has_member_such_object, E2, E3. cbn [IsInt mbind outcome_bind]. rewrite Ht, Hr.
  rewrite (member_object _ _ _ E2), (member_object _ _ _ E3). cbn [value_GetInt mbind outcome_bind].
  rewrite Ht, Hr. cbn [mbind outcome_bind]. rewrite (proj2 (Z.ltb_lt 0 timeout)) by lia. unfold int32.
  assert (int_ok (timeout * 1000) = true) as -> by (unfold int_ok; lia).
  cbn [mbind outcome_bind mret outcome_ret]. by rewrite (proj2 (Z.ltb_lt 0 retries)) by lia.
Qed.

(** * Properties *)

(** after [parse], each node has one role, whatever sections list it: a
    computation node is a computation node even if it also provides data or takes
    results, a data node is never a result node, and a node no section lists has
    no role. *)
Theorem parse_gives_roles doc cfg id :
  parse config_init doc = Ok cfg → GetPrimaryNodeType cfg id = role cfg id.
Proof. intros (cfg0 & _ & ->)%parse_parsed. exact (GetPrimaryNodeType_role cfg0 id). Qed.

(** C32: after [parse], the three node lists partition the nodes [NODE_INFO]
    describes by their role. *)
Theorem parse_partitions_nodes doc cfg n :
  parse config_init doc = Ok cfg →
  let described := map_find (NODE_ID n) (node_info_config_ cfg) = Some n in
  (n ∈ data_config_ cfg ↔ role cfg (NODE_ID n) = NODE_TYPE_DATA ∧ described)
  ∧ (n ∈ compute_config_ cfg ↔ role cfg (NODE_ID n) = NODE_TYPE_COMPUTE ∧ described)
  ∧ (n ∈ result_config_ cfg ↔ role cfg (NODE_ID n) = NODE_TYPE_RESULT ∧ described).
Proof. intros (cfg0 & H & ->)%parse_parsed. exact (role_node_lists cfg0 n H). Qed.

(** After [parse], [GetNode] finds exactly the nodes that have a role and are
    described in [NODE_INFO], with the description filed under their id, and
    throws for every other id. *)
Theorem GetNode_finds doc cfg id :
  parse config_init doc = Ok cfg →
  GetNode cfg id =
    match map_find id (node_info_config_ cfg) with
    | Some n => if decide (role cfg id = NODE_TYPE_INVALID)
                then Throw (other_exp "can not find node in config!") else Ok n
    | None => Throw (other_exp "can not find node in config!")
    end.
Proof. intros (cfg0 & H & ->)%parse_parsed. exact (GetNode_parsed cfg0 id H). Qed.

(** C33: a configuration document is read back: for node descriptions without NUL
    bytes, ports and values that fit an [int] and a time-out of at most 2147483
    seconds, [parse] succeeds, gives the data and result nodes in order, the first
    description of each node and the first value of each computation node, and
    the connection parameters, the time-out in milliseconds. *)
Theorem document_read_back infos data compute result timeout retries :
  Forall good_node infos → Forall text data → Forall text result →
  Forall (λ p, text p.1 ∧ int_ok p.2 = true) compute →
  0 < timeout ≤ 2147483 → 0 < retries < 2 ^ 31 →
  ∃ cfg, parse config_init (document infos data compute result timeout retries) = Ok cfg
    ∧ data_nodes_ cfg = data ∧ result_nodes_ cfg = result
    ∧ (∀ id, map_find id (node_info_config_ cfg) = find_node id infos)
    ∧ sorted (compute_nodes_ cfg) ∧ (∀ id, map_find id (compute_nodes_ cfg) = map_find id compute)
    ∧ connect_timeout_ cfg = timeout * 1000 ∧ connect_retries_ cfg = retries.
Proof.
  intros Hi Hd Hr Hc Ht Hrt.
  destruct (parse_nodes_json infos config_init 0 Hi) as (info & Ei & Hinfo & Hfi).
  { split; [constructor|done]. }
  destruct (compute_json compute [] Hc sorted_nil) as (m & Em & Hm & Hfm).
  eexists. split; [|split_and!; cycle -1].
  - unfold parse, document. set (ms := [_; _; _; _; _]).
    assert (parse_node_info config_init (JObject ms) = Ok (set_node_info info config_init)) as ->.
    { unfold parse_node_info. by erewrite with_member by reflexivity. }
    cbn [mbind outcome_bind]. unfold parse_data. erewrite with_member by reflexivity.
    cbn [Elements mbind outcome_bind]. rewrite node_list_json by done.
    cbn [mret outcome_ret mbind outcome_bind]. unfold parse_compute.
    erewrite with_member by reflexivity. cbn [Members mbind outcome_bind].
    change (compute_nodes_ (set_data _ _ _)) with (@nil (bytes * Z)). rewrite Em.
    cbn [mret outcome_ret mbind outcome_bind]. unfold parse_result.
    erewrite with_member by reflexivity. cbn [Elements mbind outcome_bind].
    rewrite node_list_json by done. cbn [mret outcome_ret mbind outcome_bind].
    rewrite (connect_params_found _ ms [(str "TIMEOUT", JInteger timeout); (str "RETRIES", JInteger retries)]
               timeout retries) by (reflexivity || (unfold int_ok; lia)).
    cbn [mbind outcome_bind mret outcome_ret]. reflexivity.
  - done.
  - done.
  - done.
  - exact Hfi.
  - exact Hm.
  - exact Hfm.
  - done.
Qed.

(** Nodes P0 and P1 compute, P1 and P2 have data, P2 and P3 take results; there is
    no description of P9. *)
Definition sample_infos : list Node :=
  [MkNode [] (str "P0") (str "Alice") (str "10.0.0.1") 8000;
   MkNode [] (str "P1") (str "Bob") (str "10.0.0.2") 8001;
   MkNode [] (str "P2") (str "Carol") (str "10.0.0.3") 0;
   MkNode [] (str "P3") (str "Dave") (str "10.0.0.4") 0].

Definition sample_document : json :=
  document sample_infos [str "P1"; str "P2"; str "P9"] [(str "P1", 1); (str "P0", 0)]
           [str "P2"; str "P3"] 20 3.

Definition sample_config : ChannelConfig :=
  match parse config_init sample_document with Ok cfg => cfg | _ => config_init end.

Lemma document_read_back_witness :
  ∃ cfg, parse config_init sample_document = Ok cfg
    ∧ data_nodes_ cfg = [str "P1"; str "P2"; str "P9"]
    ∧ result_nodes_ cfg = [str "P2"; str "P3"]
    ∧ (∀ id, map_find id (node_info_config_ cfg) = find_node id sample_infos)
    ∧ sorted (compute_nodes_ cfg)
    ∧ (∀ id, map_find id (compute_nodes_ cfg) = map_find id [(str "P1", 1); (str "P0", 0)])
    ∧ connect_timeout_ cfg = 20000 ∧ connect_retries_ cfg = 3.
Proof.
  apply (document_read_back sample_infos [str "P1"; str "P2"; str "P9"]
           [(str "P1", 1); (str "P0", 0)] [str "P2"; str "P3"] 20 3);
    [repeat constructor..|lia|lia].
Defined.

Lemma parse_gives_roles_witness :
  (λ id, GetPrimaryNodeType sample_config (str id)) <$> ["P0"; "P1"; "P2"; "P3"; "P4"; "P9"]%string
  = [NODE_TYPE_COMPUTE; NODE_TYPE_COMPUTE; NODE_TYPE_DATA; NODE_TYPE_RESULT; NODE_TYPE_INVALID;
     NODE_TYPE_DATA]
  ∧ GetPrimaryNodeType sample_config (str "P2") = role sample_config (str "P2").
Proof.
  split; [vm_compute; reflexivity|].
  apply (parse_gives_roles sample_document). vm_compute. reflexivity.
Defined.

Lemma parse_partitions_nodes_witness :
  let n := MkNode [] (str "P2") (str "Carol") (str "10.0.0.3") 0 in
  let described := map_find (NODE_ID n) (node_info_config_ sample_config) = Some n in
  (n ∈ data_config_ sample_config ↔ role sample_config (NODE_ID n) = NODE_TYPE_DATA ∧ described)
  ∧ (n ∈ compute_config_ sample_config ↔ role sample_config (NODE_ID n) = NODE_TYPE_COMPUTE ∧ described)
  ∧ (n ∈ result_config_ sample_config ↔ role sample_config (NODE_ID n) = NODE_TYPE_RESULT ∧ described).
Proof. apply (parse_partitions_nodes sample_document). vm_compute. reflexivity. Defined.

Lemma GetNode_finds_witness :
  GetNode sample_config (str "P2") = Ok (MkNode [] (str "P2") (str "Carol") (str "10.0.0.3") 0)
  ∧ GetNode sample_config (str "P9") = Throw (other_exp "can not find node in config!").
Proof.
  assert (parse config_init sample_document = Ok sample_config) as E by (vm_compute; reflexivity).
  split; [rewrite (GetNode_finds _ _ (str "P2") E)|rewrite (GetNode_finds _ _ (str "P9") E)];
    vm_compute; reflexivity.
Defined.

(** C40: a positive [TIMEOUT], which is in seconds, is stored in milliseconds; from
    2147484 seconds on, an [int] as any other, the multiplication overflows. *)
Theorem timeout_to_ms cfg ms ps timeout retries :
  find_member ms (str "CONNECT_PARAMS") = Some (JObject ps) →
  find_member ps (str "TIMEOUT") = Some (JInteger timeout) →
  find_member ps (str "RETRIES") = Some (JInteger retries) →
  0 < timeout < 2 ^ 31 → 0 < retries < 2 ^ 31 →
  parse_connect_params cfg (JObject ms) =
    if timeout <=? 2147483 then Ok (set_connect (timeout * 1000) retries cfg) else UB SignedOverflow.
Proof.
  intros E1 E2 E3 Ht Hr. zbool.
  - apply (connect_params_found cfg ms ps timeout retries); (done || unfold int_ok; lia).
  - unfold parse_connect_params. rewrite (with_member _ _ _ _ _ _ E1) by done.
    rewrite !has_member_such_object, E2. cbn [IsInt mbind outcome_bind].
    assert (int_ok timeout = true) as Hok by (unfold int_ok; lia). rewrite Hok.
    rewrite (member_object _ _ _ E2). cbn [value_GetInt mbind outcome_bind]. rewrite Hok.
    cbn [mbind outcome_bind]. rewrite (proj2 (Z.ltb_lt 0 timeout)) by lia. unfold int32.
    assert (int_ok (timeout * 1000) = false) as -> by (unfold int_ok; lia). done.
Qed.

Lemma timeout_to_ms_witness :
  parse_connect_params config_init
    (JObject [(str "CONNECT_PARAMS",
               JObject [(str "TIMEOUT", JInteger 2147484); (str "RETRIES", JInteger 1)])])
  = UB SignedOverflow.
Proof.
  apply (timeout_to_ms config_init _ [(str "TIMEOUT", JInteger 2147484); (str "RETRIES", JInteger 1)]
           2147484 1); [reflexivity..|lia|lia].
Defined.
