(* ===== verification/Socket.v ===== *)
(** [Socket] of [src/socket.cpp]: the resolution of a host name, with the regular
    expression that recognises an IPv4 address, and the socket options.  The answers
    of the resolver and of the kernel are arguments. *)
From Stdlib Require Import Strings.Byte.
From S2P Require Import Prelude.
#[local] Open Scope Z_scope.

(** * Regular expressions

    What [std::regex_match] decides about the operators the source uses: the whole
    string is in the language of the expression. *)

Inductive regex :=
  | Never
  | Eps
  | Class (lo hi : byte)                   (** [[lo-hi]] *)
  | Cat (r1 r2 : regex)
  | Alt (r1 r2 : regex).

Definition in_class (lo hi b : byte) : bool :=
  (Z_of_byte lo <=? Z_of_byte b) && (Z_of_byte b <=? Z_of_byte hi).

(** [r?] and [r{n}]. *)
Definition Opt (r : regex) : regex := Alt r Eps.
Fixpoint Rep (n : nat) (r : regex) : regex :=
  match n with O => Eps | S n => Cat r (Rep n r) end.

Fixpoint nullable (r : regex) : bool :=
  match r with
  | Eps => true
  | Never | Class _ _ => false
  | Cat r1 r2 => nullable r1 && nullable r2
  | Alt r1 r2 => nullable r1 || nullable r2
  end.

(** What may follow the byte [b]. *)
Fixpoint deriv (b : byte) (r : regex) : regex :=
  match r with
  | Never | Eps => Never
  | Class lo hi => if in_class lo hi b then Eps else Never
  | Cat r1 r2 =>
    if nullable r1 then Alt (Cat (deriv b r1) r2) (deriv b r2) else Cat (deriv b r1) r2
  | Alt r1 r2 => Alt (deriv b r1) (deriv b r2)
  end.

Fixpoint regex_match (r : regex) (s : bytes) : bool :=
  match s with [] => nullable r | b :: s => regex_match (deriv b r) s end.

(** * The program *)

(** The digits of the expression. *)
Definition d0 : byte := "0".
Definition d1 : byte := "1".
Definition d2 : byte := "2".
Definition d4 : byte := "4".
Definition d5 : byte := "5".
Definition d9 : byte := "9".
Definition dot : byte := ".".

(** [(2(5[0-5]|[0-4]\d))|[0-1]?\d{1,2}] *)
Definition octet : regex :=
  Alt (Cat (Class d2 d2) (Alt (Cat (Class d5 d5) (Class d0 d5)) (Cat (Class d0 d4) (Class d0 d9))))
      (Cat (Opt (Class d0 d1)) (Cat (Class d0 d9) (Opt (Class d0 d9)))).

(** [ip4pattern]: [^octet(\.octet){3}$]. *)
Definition ip4pattern : regex := Cat octet (Rep 3 (Cat (Class dot dot) octet)).

Inductive ai_family := AF_INET | AF_INET6 | AF_OTHER.

(** The loop over [cur_info]; [buf] is what [inet_ntop] writes. *)
Fixpoint first_address (ipaddr : bytes) (infos : list (ai_family * bytes)) : bytes :=
  match infos with
  | [] => ipaddr
  | (family, buf) :: infos =>
    if negb (bool_decide (ipaddr = [])) then ipaddr
    else first_address (match family with AF_INET => buf | _ => ipaddr end) infos
  end.

(** [gethostip]: [getaddrinfo] is the list the resolver returns, if it succeeds. *)
Definition gethostip (getaddrinfo : bytes → option (list (ai_family * bytes))) (hostname : bytes) : bytes :=
  let ipaddr := match getaddrinfo hostname with Some infos => first_address [] infos | None => [] end in
  if bool_decide (ipaddr = []) then
    if regex_match ip4pattern hostname then hostname
    else if bool_decide (hostname = str "localhost") then str "127.0.0.1" else ipaddr
  else ipaddr.

(** The [timeval] of [set_send_timeout] and [set_recv_timeout]: seconds and
    microseconds of a time in milliseconds. *)
Definition timeval (timeout : Z) : Z * Z := (Z.quot timeout 1000, Z.rem timeout 1000 * 1000).

(** [gettv]. *)
Definition gettv (ms : Z) : Z * Z := timeval ms.

(** ** Socket options

    [setsockopt] is what the kernel answers to a descriptor, a level, an option and
    the bytes of its value. *)

Definition SOL_SOCKET : Z := 1.
Definition SO_REUSEADDR : Z := 2.
Definition SO_SNDBUF : Z := 7.
Definition SO_RCVBUF : Z := 8.
Definition SO_LINGER : Z := 13.
Definition SO_REUSEPORT : Z := 15.
Definition SO_RCVTIMEO : Z := 20.
Definition SO_SNDTIMEO : Z := 21.
Definition IPPROTO_TCP : Z := 6.
Definition TCP_NODELAY : Z := 1.
Definition O_NONBLOCK : Z := 2048.

(** [default_buffer_size_]. *)
Definition default_buffer_size : Z := 1024 * 1024 * 10.

(** The [linger] of [set_linger]: [l_onoff] is 1 and [l_linger] 0. *)
Definition linger_option : bytes := int_bytes 1 ++ int_bytes 0.

Definition timeval_bytes (tv : Z * Z) : bytes := le_bytes 8 (u64 tv.1) ++ le_bytes 8 (u64 tv.2).

Section options.
Context (setsockopt : Z → Z → Z → bytes → Z).

Definition set_reuseaddr (fd optval : Z) : Z := setsockopt fd SOL_SOCKET SO_REUSEADDR (int_bytes optval).
Definition set_reuseport (fd optval : Z) : Z := setsockopt fd SOL_SOCKET SO_REUSEPORT (int_bytes optval).
Definition set_sendbuf (fd size : Z) : Z := setsockopt fd SOL_SOCKET SO_SNDBUF (int_bytes size).
Definition set_recvbuf (fd size : Z) : Z := setsockopt fd SOL_SOCKET SO_RCVBUF (int_bytes size).
Definition set_send_timeout (fd timeout : Z) : Z :=
  setsockopt fd SOL_SOCKET SO_SNDTIMEO (timeval_bytes (timeval timeout)).
Definition set_recv_timeout (fd timeout : Z) : Z :=
  setsockopt fd SOL_SOCKET SO_RCVTIMEO (timeval_bytes (timeval timeout)).

Definition set_linger (fd : Z) : Z := setsockopt fd SOL_SOCKET SO_LINGER linger_option.
Definition set_nodelay (fd optval : Z) : Z := setsockopt fd IPPROTO_TCP TCP_NODELAY (int_bytes optval).
End options.

(** [set_nonblocking]: [flags] is what [fcntl(fd, F_GETFL, 0)] answers, with [errno]
    if that fails, and [setfl] what it answers to the new flags. *)
Definition set_nonblocking (flags errno : Z) (setfl : Z → Z) (value : bool) : Z :=
  if flags <? 0 then errno
  else if value then setfl (Z.lor flags O_NONBLOCK) else setfl (Z.land flags (Z.lnot O_NONBLOCK)).

(** * Specification *)

(** The language of an expression. *)
Inductive matches : regex → bytes → Prop :=
  | m_eps : matches Eps []
  | m_class lo hi b : in_class lo hi b = true → matches (Class lo hi) [b]
  | m_cat r1 r2 s1 s2 : matches r1 s1 → matches r2 s2 → matches (Cat r1 r2) (s1 ++ s2)
  | m_left r1 r2 s : matches r1 s → matches (Alt r1 r2) s
  | m_right r1 r2 s : matches r2 s → matches (Alt r1 r2) s.

Definition is_digit (b : byte) : bool := in_class d0 d9 b.

(** The number a string of digits stands for. *)
Definition decimal (s : bytes) : Z := foldl (λ n b, 10 * n + (Z_of_byte b - Z_of_byte d0)) 0 s.

(** One to three digits that stand for at most 255. *)
Definition is_octet (s : bytes) : Prop :=
  s ≠ [] ∧ (length s ≤ 3)%nat ∧ Forall (λ b, is_digit b = true) s ∧ decimal s ≤ 255.

(** * Lemmas *)

Lemma matches_cat r1 r2 s :
  matches (Cat r1 r2) s ↔ ∃ s1 s2, s = s1 ++ s2 ∧ matches r1 s1 ∧ matches r2 s2.
Proof. split; [inversion 1; eauto|intros (?&?&->&?&?); by constructor]. Qed.

Lemma matches_alt r1 r2 s : matches (Alt r1 r2) s ↔ matches r1 s ∨ matches r2 s.
Proof. split; [inversion 1; eauto|intros [|]; [by apply m_left|by apply m_right]]. Qed.

Lemma matches_class lo hi s : matches (Class lo hi) s ↔ ∃ b, s = [b] ∧ in_class lo hi b = true.
Proof. split; [inversion 1; eauto|intros (?&->&?); by constructor]. Qed.

Lemma matches_eps s : matches Eps s ↔ s = [].
Proof. split; [by inversion 1|intros ->; constructor]. Qed.

Lemma matches_never s : ¬ matches Never s.
Proof. by inversion 1. Qed.

Lemma nullable_spec r : nullable r = true ↔ matches r [].
Proof.
  induction r; cbn; rewrite ?matches_eps, ?matches_cat, ?matches_alt, ?matches_class,
    ?andb_true_iff, ?orb_true_iff, ?IHr1, ?IHr2; try naive_solver.
  - split; [done|intros []%matches_never].
  - split; [intros []; by exists [], []|]. intros (s1 & s2 & E & ? & ?). symmetry in E. by apply app_nil in E as [-> ->].
Qed.

Lemma deriv_spec r : ∀ b s, matches (deriv b r) s ↔ matches r (b :: s).
Proof.
  induction r as [| |lo hi|r1 IH1 r2 IH2|r1 IH1 r2 IH2]; intros b s; cbn.
  - split; intros []%matches_never.
  - rewrite matches_eps. split; [intros []%matches_never|done].
  - rewrite matches_class. destruct (in_class lo hi b) eqn:E.
    + rewrite matches_eps. naive_solver.
    + split; [intros []%matches_never|]. naive_solver congruence.
  - assert (matches (Cat (deriv b r1) r2) s
            ↔ ∃ s1 s2, s = s1 ++ s2 ∧ matches r1 (b :: s1) ∧ matches r2 s2) as Hd.
    { rewrite matches_cat. by setoid_rewrite IH1. }
    pose proof (nullable_spec r1) as Hn.
    destruct (nullable r1); rewrite ?matches_alt, Hd, ?IH2, matches_cat; split.
    + intros [(s1 & s2 & -> & ? & ?)|H]; [by exists (b :: s1), s2|]. exists [], (b :: s). naive_solver.
    + intros ([|b' s1] & s2 & E & ? & ?); [right; cbn in E; by subst|left]. simplify_eq/=. eauto.
    + intros (s1 & s2 & -> & ? & ?). by exists (b :: s1), s2.
    + intros ([|b' s1] & s2 & E & H1 & ?); [by apply Hn in H1|]. simplify_eq/=. eauto.
  - by rewrite !matches_alt, IH1, IH2.
Qed.

Lemma regex_match_spec r s : regex_match r s = true ↔ matches r s.
Proof.
  revert r. induction s as [|b s IH]; intros r; cbn; [apply nullable_spec|].
  by rewrite IH, deriv_spec.
Qed.

Definition digits : list byte := byte_of_Z <$> seqZ 48 10.

Lemma digit_cases b : is_digit b = bool_decide (b ∈ digits).
Proof. destruct b; vm_compute; reflexivity. Qed.

(** A class within the digits. *)
Lemma class_digits lo hi s :
  Z_of_byte d0 ≤ Z_of_byte lo → Z_of_byte hi ≤ Z_of_byte d9 →
  matches (Class lo hi) s → length s = 1%nat ∧ Forall (λ b, is_digit b = true) s.
Proof.
  intros Hlo Hhi (b & -> & Hb)%matches_class. split; [done|]. constructor; [|done].
  unfold is_digit, in_class in *. rewrite andb_true_iff, !Z.leb_le in *. lia.
Qed.

Lemma octet_digits s :
  matches octet s → (1 ≤ length s ≤ 3)%nat ∧ Forall (λ b, is_digit b = true) s.
Proof.
  unfold octet, Opt. intros H.
  repeat match goal with
    | H : matches (Alt _ _) _ |- _ => apply matches_alt in H as [H|H]
    | H : matches (Cat _ _) _ |- _ => apply matches_cat in H as (? & ? & -> & ? & H)
    | H : matches Eps _ |- _ => apply matches_eps in H as ->
    | H : matches (Class _ _) _ |- _ => apply class_digits in H as [? ?]; [|by vm_compute..]
    end; rewrite ?app_nil_r, ?app_nil_l, ?length_app, ?Forall_app; split_and?; try done; lia.
Qed.

(** The strings of [n] digits. *)
Fixpoint digit_strings (n : nat) : list bytes :=
  match n with O => [[]] | S n => d ← digits; s ← digit_strings n; mret (d :: s) end.

Lemma digit_strings_all s :
  Forall (λ b, is_digit b = true) s → s ∈ digit_strings (length s).
Proof.
  induction 1 as [|b s Hb Hs IH]; cbn; [by apply list_elem_of_singleton|].
  apply list_elem_of_bind. exists b. split.
  - apply list_elem_of_bind. exists s. split; [by apply list_elem_of_singleton|done].
  - rewrite digit_cases in Hb. by apply bool_decide_eq_true in Hb.
Qed.

(** The expression decides the bound on every string of one to three digits. *)
Lemma octet_table :
  forallb (λ s, eqb (regex_match octet s) (decimal s <=? 255))
          (digit_strings 1 ++ digit_strings 2 ++ digit_strings 3) = true.
Proof. vm_compute. reflexivity. Qed.

Lemma octet_spec s : matches octet s ↔ is_octet s.
Proof.
  assert ((1 ≤ length s ≤ 3)%nat → Forall (λ b, is_digit b = true) s →
          matches octet s ↔ decimal s ≤ 255) as Ht.
  { intros Hlen Hd. rewrite <- regex_match_spec, <- Z.leb_le.
    pose proof (proj1 (forallb_forall _ _) octet_table s) as E. rewrite eqb_true_iff in E.
    rewrite E; [done|]. apply list_elem_of_In. rewrite !elem_of_app.
    pose proof (digit_strings_all s Hd) as Hin. destruct (length s) as [|[|[|[|]]]]; auto; lia. }
  unfold is_octet. split.
  - intros H. pose proof (octet_digits s H) as [Hlen Hd]. split_and!; [|lia|done|by apply Ht].
    intros ->. cbn in Hlen. lia.
  - intros (Hne & Hlen & Hd & Hmax). apply Ht; [|done..]. destruct s; [done|cbn in *; lia].
Qed.

Lemma class_dot s : matches (Class dot dot) s ↔ s = [dot].
Proof.
  rewrite matches_class. split; [|intros ->; by exists dot].
  intros (b & -> & Hb). f_equal. destruct b; (discriminate Hb || reflexivity).
Qed.

Lemma ip4_language s :
  matches ip4pattern s
  ↔ ∃ a b c d, s = a ++ [dot] ++ b ++ [dot] ++ c ++ [dot] ++ d
      ∧ is_octet a ∧ is_octet b ∧ is_octet c ∧ is_octet d.
Proof.
  assert (∀ n r s, matches (Rep (S n) (Cat (Class dot dot) r)) s
          ↔ ∃ s1 s2, s = [dot] ++ s1 ++ s2 ∧ matches r s1 ∧ matches (Rep n (Cat (Class dot dot) r)) s2) as Hr.
  { intros n r t. cbn [Rep]. rewrite matches_cat. setoid_rewrite matches_cat at 1. setoid_rewrite class_dot.
    split.
    - intros (? & s2 & -> & (? & s1 & -> & -> & ?) & ?). exists s1, s2. by rewrite <- app_assoc.
    - intros (s1 & s2 & -> & ? & ?). exists ([dot] ++ s1), s2. rewrite <- app_assoc. split_and!; eauto. }
  unfold ip4pattern. rewrite matches_cat. setoid_rewrite Hr. setoid_rewrite Hr. setoid_rewrite Hr.
  cbn [Rep]. setoid_rewrite matches_eps. setoid_rewrite octet_spec. split.
  - intros (a & ? & -> & ? & b & ? & -> & ? & c & ? & -> & ? & d & ? & -> & ? & ->).
    exists a, b, c, d. rewrite app_nil_r. done.
  - intros (a & b & c & d & -> & ? & ? & ? & ?). exists a. eexists. split_and!; [done..|].
    exists b. eexists. split_and!; [done..|]. exists c. eexists. split_and!; [done..|].
    exists d, []. by rewrite app_nil_r.
Qed.

(** [set_send_timeout] passes the kernel a normalised time. *)
Lemma timeval_normal timeout :
  0 ≤ timeout →
  let '(sec, usec) := timeval timeout in
  0 ≤ sec ∧ 0 ≤ usec < 1000000 ∧ sec * 1000000 + usec = timeout * 1000.
Proof.
  intros H. cbn. pose proof (Z.quot_rem' timeout 1000). pose proof (Z.rem_bound_pos timeout 1000).
  pose proof (Z.quot_pos timeout 1000). lia.
Qed.

(** [set_nonblocking] sets or clears the one flag and keeps the others. *)
Lemma nonblocking_flag flags errno value n :
  0 ≤ flags → 0 ≤ n →
  ∃ flags', (∀ setfl, set_nonblocking flags errno setfl value = setfl flags')
    ∧ Z.testbit flags' n = if n =? 11 then value else Z.testbit flags n.
Proof.
  intros Hf Hn. unfold set_nonblocking. rewrite (proj2 (Z.ltb_ge _ _)) by done.
  assert (Z.testbit O_NONBLOCK n = (n =? 11)) as Hb.
  { change O_NONBLOCK with (2 ^ 11). rewrite Z.pow2_bits_eqb by lia. apply Z.eqb_sym. }
  destruct value; eexists; (split; [done|]).
  - rewrite Z.lor_spec, Hb. destruct (n =? 11); [apply orb_true_r|apply orb_false_r].
  - rewrite Z.land_spec, Z.lnot_spec, Hb by done. destruct (n =? 11); [apply andb_false_r|apply andb_true_r].
Qed.

(** * Properties *)

(** C35: without an answer of the resolver, a name is taken for its own address
    exactly when it is four decimal numbers of at most three digits and at most
    255, separated by dots; other names but [localhost] have no address. *)
Theorem gethostip_literal resolver hostname :
  (resolver hostname = None ∨ resolver hostname = Some []) →
  ((∃ a b c d, hostname = a ++ [dot] ++ b ++ [dot] ++ c ++ [dot] ++ d
      ∧ is_octet a ∧ is_octet b ∧ is_octet c ∧ is_octet d)
   ↔ gethostip resolver hostname = hostname ∧ hostname ≠ [])
  ∧ (gethostip resolver hostname = hostname ∨ hostname = str "localhost"
     ∨ gethostip resolver hostname = []).
Proof.
  intros Hr. rewrite <- ip4_language, <- regex_match_spec.
  assert (gethostip resolver hostname
          = if regex_match ip4pattern hostname then hostname
            else if bool_decide (hostname = str "localhost") then str "127.0.0.1" else []) as ->.
  { unfold gethostip. destruct Hr as [-> | ->]; done. }
  destruct (regex_match ip4pattern hostname) eqn:E.
  - split; [|by left]. split; [|done]. intros _. split; [done|]. intros ->. done.
  - split; [|case_bool_decide; auto]. split; [done|]. case_bool_decide as El; [|naive_solver].
    rewrite El. intros [[=] _].
Qed.

Lemma gethostip_literal_witness :
  ((∃ a b c d, str "192.168.0.255" = a ++ [dot] ++ b ++ [dot] ++ c ++ [dot] ++ d
      ∧ is_octet a ∧ is_octet b ∧ is_octet c ∧ is_octet d)
   ↔ gethostip (λ _, None) (str "192.168.0.255") = str "192.168.0.255" ∧ str "192.168.0.255" ≠ [])
  ∧ (gethostip (λ _, None) (str "192.168.0.255") = str "192.168.0.255"
     ∨ str "192.168.0.255" = str "localhost" ∨ gethostip (λ _, None) (str "192.168.0.255") = []).
Proof. apply (gethostip_literal (λ _, None) (str "192.168.0.255")). by left. Defined.
