(* ===== verification/Shutdown.v ===== *)
(** Closing one end of a connection ([Connection::close] in [src/connection.cpp]) while
    the network of [Link] still carries bytes.  [close] writes out the sending ring and
    closes the descriptor, whose [SO_LINGER] was set by [set_linger]
    ([src/socket.cpp]); what the peer had not read by then the kernel may drop. *)
From Stdlib Require Import Strings.Byte.
From S2P Require Import Prelude Timer CycleBuffer SimpleBuffer Transport Connection Link Socket.
#[local] Open Scope Z_scope.

Module Shutdown.

(** * The system *)

(** A link; after the sender closed, the bytes that were dropped (a history). *)
Record state := State { net : link; lost : option bytes }.

Section system.
Context (junk : nat → byte).

(** Whether closing a socket with this value of [SO_LINGER] may drop bytes. *)
Context (drops : bytes → bool).

(** The link moves; the sender closes when its loops have returned; afterwards the
    receiver and the network go on. *)
Inductive step : relation state :=
  | d_link s s' : Link.step junk s s' → step (State s None) (State s' None)
  | d_close s now env c sent fds env' k :
      outbox s = [] → state_ (tx s) ≠ Closed → writes_at_most (zlen (to_send (tx s))) env →
      Connection.close junk now env (tx s) = Ok (c, sent, fds, env') →
      0 ≤ k ≤ zlen (wire s ++ sent) → k = zlen (wire s ++ sent) ∨ drops linger_option = true →
      step (State s None)
           (State (Link c [] (ztake k (wire s ++ sent)) (rx s) (inbox s) (log_sent s) (log_recv s))
                  (Some (zdrop k (wire s ++ sent) ++ zdrop (zlen sent) (to_send (tx s)))))
  | d_after s s' l :
      Link.step junk s s' → tx s' = tx s → log_sent s' = log_sent s →
      step (State s (Some l)) (State s' (Some l)).

Definition reachable (st : state) : Prop :=
  ∃ s0, initial junk s0 ∧ rtc step (State s0 None) st.
End system.

(** The link as if what was lost were still to be written. *)
Definition with_lost (l : bytes) (s : link) : link :=
  Link (tx s) l (wire s) (rx s) (inbox s) (log_sent s) (log_recv s).

(** The messages sent fit the counters. *)
Definition bounded (s : link) : Prop := 3 * volume (log_sent s) < 2 ^ 63.

Record closed_wf (s : link) (l : bytes) : Prop := {
  cw_outbox : outbox s = [];
  cw_ring : to_send (tx s) = [];
  cw_transit : ∃ done_ todo, in_transit (with_lost l s) done_ todo
}.

Definition wf (junk : nat → byte) (st : state) : Prop :=
  match lost st with
  | None => Link.reachable junk (net st)
  | Some l => bounded (net st) → closed_wf (net st) l
  end.

(** * Lemmas *)

Section lemmas.
Context (junk : nat → byte) (drops : bytes → bool).

Lemma in_transit_of_reachable s : Link.reachable junk s → bounded s → ∃ done_ todo, in_transit s done_ todo.
Proof. intros Hr. by apply (reachable_in_transit junk). Qed.

(** What moves after the close moves as well if the lost bytes were still there. *)
Lemma with_lost_step s s' l :
  conn_wf (tx s) → to_send (tx s) = [] → outbox s = [] →
  Link.step junk s s' → tx s' = tx s → log_sent s' = log_sent s →
  outbox s' = [] ∧ Link.step junk (with_lost l s) (with_lost l s').
Proof.
  intros Hw Hring Ho Hs Etx Elog. destruct Hs as [s s' Hi|s now id data n tx' Hg E|s tx' rx' Htx Hrx
    |s now el st tmo id len data rx' Hlen E]; cbn in *.
  - destruct Hi as [s now t buf tx' _ E|s k Hk|s now k rx' Hk Hc E|s t m rx' Hin E|s now id data rx' Hin E]; cbn in *.
    + by apply loop_send_take_inv in E as (? & _).
    + rewrite Ho in Hk. change (zlen []) with 0 in Hk. lia.
    + split; [done|]. apply step_internal. exact (step_net junk (with_lost l s) now k rx' Hk Hc E).
    + split; [done|]. apply step_internal. exact (step_fetch junk (with_lost l s) t m rx' Hin E).
    + split; [done|]. apply step_internal. exact (step_dispatch junk (with_lost l s) now id data rx' Hin E).
  - apply (f_equal length) in Elog. rewrite length_app in Elog. cbn in Elog. lia.
  - split; [done|]. exact (step_other junk (with_lost l s) tx' rx' Htx Hrx).
  - split; [done|]. exact (step_recv junk (with_lost l s) now el st tmo id len data rx' Hlen E).
Qed.

Lemma close_wf_state s now env c sent fds env' k :
  Link.reachable junk s → bounded s →
  outbox s = [] → state_ (tx s) ≠ Closed → writes_at_most (zlen (to_send (tx s))) env →
  Connection.close junk now env (tx s) = Ok (c, sent, fds, env') →
  closed_wf (Link c [] (ztake k (wire s ++ sent)) (rx s) (inbox s) (log_sent s) (log_recv s))
            (zdrop k (wire s ++ sent) ++ zdrop (zlen sent) (to_send (tx s))).
Proof.
  intros Hr Hb Ho Hst Hat E. destruct (in_transit_of_reachable s Hr Hb) as (done_ & todo & []).
  destruct (close_once junk now now _ _ _ _ _ _ it_tx Hat Hst E) as ([rest Hp] & _ & Hring & _ & Hw & _).
  split; [done|done|]. exists done_, todo. split; cbn; try done.
  rewrite Hring, app_nil_r, <- it_bytes, Ho. cbn [app]. f_equal.
  rewrite app_assoc, ztake_zdrop, Hp, zdrop_app_eq, <- app_assoc by done. done.
Qed.

#[export] Instance wf_invariant : Invariant (step junk drops) (wf junk).
Proof.
  intros st st' H Hs. destruct Hs as [s s' Hs|s now env c sent fds env' k Ho Hst Hat E Hk _|s s' l Hs Etx Elog];
    unfold wf in *; cbn in *.
  - destruct H as (s0 & H0 & Hr). exists s0. split; [done|]. by eapply rtc_r.
  - intros Hb. by eapply close_wf_state.
  - intros Hb. assert (bounded s) as Hbs by (unfold bounded in *; by rewrite <- Elog).
    destruct (H Hbs) as [Ho Hring (done_ & todo & Hit)].
    destruct (with_lost_step s s' l (it_tx _ _ _ Hit) Hring Ho Hs Etx Elog) as [Ho' Hs'].
    split; [done|by rewrite Etx|]. by eapply (step_in_transit junk (with_lost l s)).
Qed.

Lemma shutdown_reachable_wf st : reachable junk drops st → wf junk st.
Proof.
  intros (s0 & H0 & Hr). apply (invariant_rtc (step junk drops) (wf junk) (State s0 None)); [|done].
  exists s0. by split.
Qed.

(** ** What is left when the kernel dropped everything *)

(** Nothing arrives any more. *)
Record dead (got : bytes → bytes) (st : state) : Prop := {
  dead_lost : is_Some (lost st);
  dead_outbox : outbox (net st) = [];
  dead_ring : conn_wf (tx (net st)) ∧ to_send (tx (net st)) = [];
  dead_wire : wire (net st) = [];
  dead_rx : conn_wf (rx (net st)) ∧ received (rx (net st)) = [];
  dead_inbox : inbox (net st) = None;
  dead_got id : on (log_recv (net st)) id ++ ready (rx (net st)) id = got id
}.

#[export] Instance dead_invariant got : Invariant (step junk drops) (dead got).
Proof.
  intros st st' [[l Hl] Ho [Htx Hring] Hw [Hrx Hrec] Hin Hgot] Hs.
  destruct Hs as [|?????????? |s s' l' Hs Etx Elog]; [done..|]. cbn in *. clear Hl.
  destruct Hs as [s s' Hi|s now id data n tx' Hg E|s tx' rx' _ (Hrx' & Er & Hid)
    |s now el st tmo id len data rx' Hlen E]; cbn in *.
  - destruct Hi as [s now t buf tx' _ E|s k Hk|s now k rx' Hk Hc E|s t m rx' Hin' E|s now id data rx' Hin' E]; cbn in *.
    + by apply loop_send_take_inv in E as (? & _).
    + rewrite Ho in Hk. change (zlen []) with 0 in Hk. lia.
    + rewrite Hw in Hk. change (zlen []) with 0 in Hk. lia.
    + apply loop_recv_take_inv in E as [_ E]; [|done]. by rewrite Hrec in E.
    + congruence.
  - apply (f_equal length) in Elog. rewrite length_app in Elog. cbn in Elog. lia.
  - subst tx'. split; cbn [net lost tx rx outbox wire inbox log_sent log_recv]; try done; [split; [done|congruence]|]. intros id. by rewrite Hid.
  - apply recv_inv in E as (Hle & -> & b & -> & Hb & Hcb); [|done..].
    split; cbn [net lost tx rx outbox wire inbox log_sent log_recv]; try done.
    + split; [|done]. destruct Hrx. split; [done..|]. by apply map_Forall_insert_2.
    + intros id'. rewrite ready_insert, on_app, on_one, <- Hgot, <- app_assoc.
      f_equal. case_decide as Eid; [subst id'|done]. by rewrite Hcb, ztake_zdrop.
Qed.

(** Some task id without a stop request. *)
Lemma not_stopped c : ∃ t, stop_requested c t = false.
Proof.
  exists (fresh (dom (stop_works_ c))). unfold stop_requested. rewrite (proj1 (not_elem_of_dom _ _)); [done|].
  apply is_fresh.
Qed.
End lemmas.

(** * Properties *)

(** C7: whatever the kernel drops when the sender closes, the receiver gets whole
    messages in order: in every state, what [recv] has returned for each id followed
    by what is ready is exactly what the first so many messages sent carry for that
    id; a message that was cut off is never given to anybody. *)
Theorem closing_cuts junk drops st :
  reachable junk drops st → bounded (net st) →
  ∃ arrived rest, log_sent (net st) = arrived ++ rest
    ∧ ∀ id, on (log_recv (net st)) id ++ ready (rx (net st)) id = on arrived id.
Proof.
  intros Hr%shutdown_reachable_wf Hb. destruct st as [s [l|]]; unfold wf in Hr; cbn in *.
  - destruct (Hr Hb) as [_ _ (done_ & todo & [])]. exists done_, (option_list (inbox s) ++ todo). by split.
  - destruct (in_transit_of_reachable junk s Hr Hb) as (done_ & todo & []).
    exists done_, (option_list (inbox s) ++ todo). by split.
Qed.

(** When nothing was dropped the close loses nothing: while the receiving loop
    runs, every run of the receiver and the network has at most [pending] steps, and
    it can go on until everything that was sent is received or ready. *)
Theorem close_delivers junk drops st t :
  reachable junk drops st → bounded (net st) → lost st = Some [] →
  stop_requested (rx (net st)) t = false →
  ∀ n s', nsteps (internal junk) n (net st) s' →
    Z.of_nat n ≤ pending (net st) ∧ (delivered s' ∨ ∃ s'', internal junk s' s'').
Proof.
  intros Hr%shutdown_reachable_wf Hb El Ht n s' Hrun. unfold wf in Hr. rewrite El in Hr.
  destruct (Hr Hb) as [Ho _ (done_ & todo & H)].
  assert (with_lost [] (net st) = net st) as Enet by (destruct (net st); cbn in *; by rewrite Ho).
  rewrite Enet in H. destruct (not_stopped (tx (net st))) as [t1 Ht1].
  destruct (run_in_transit junk n _ _ _ _ H Hb Hrun) as (Elog & [Es1 Es2] & Hn & done' & todo' & H').
  pose proof (pending_nonneg s'). split; [lia|].
  destruct (decide (option_list (inbox s') ++ todo' = [])) as [E|Hne].
  - left. intros id. destruct H'. by rewrite it_ready, it_split, E, app_nil_r.
  - right. apply (in_transit_moves junk s' done' todo' t1 t); [done|by rewrite Elog| | |done];
      unfold stop_requested in *; by rewrite ?Es1, ?Es2.
Qed.

(** With the linger option the code sets, closing may lose what was sent: if the
    kernel may drop bytes on such a socket, then from every state in which the sender
    can close while the receiver has nothing left to sort, the close can lead to a
    state from which, whatever happens, nobody ever receives more than what was ready
    before. *)
Theorem close_loses junk drops s now env c sent fds env' :
  drops linger_option = true → Link.reachable junk s → bounded s →
  outbox s = [] → state_ (tx s) ≠ Closed → writes_at_most (zlen (to_send (tx s))) env →
  Connection.close junk now env (tx s) = Ok (c, sent, fds, env') →
  inbox s = None → received (rx s) = [] →
  ∃ st, step junk drops (State s None) st ∧ log_sent (net st) = log_sent s
    ∧ ∀ st', rtc (step junk drops) st st' →
        ∀ id, on (log_recv (net st')) id ++ ready (rx (net st')) id = on (log_recv s) id ++ ready (rx s) id.
Proof.
  intros Hd Hr Hb Ho Hst Hat E Hin Hrec.
  eexists. split; [|split].
  - apply (d_close junk drops s now env c sent fds env' 0); [done..| |by right].
    pose proof (zlen_nonneg (wire s ++ sent)). lia.
  - done.
  - intros st' Hrun. refine (λ id, dead_got _ _ (invariant_rtc (step junk drops)
      (dead (λ id, on (log_recv s) id ++ ready (rx s) id)) _ _ _ Hrun) id).
    destruct (in_transit_of_reachable junk s Hr Hb) as (done_ & todo & []).
    destruct (close_once junk now now _ _ _ _ _ _ it_tx Hat Hst E) as (_ & _ & Hring & _ & Hw & _).
    split; cbn [net lost tx rx outbox wire inbox log_sent log_recv]; try done.
Qed.

(** * Witnesses *)

(** One message was sent and nobody has taken it yet; the rings are small, as the other
    direction may leave them. *)
Definition one_queued : link :=
  Link (small_conn [] (frame (str "ab") (str "hi"))) [] [] (small_conn [] []) None [(str "ab", str "hi")] [].

Lemma one_queued_reachable : Link.reachable (λ _, x00) one_queued.
Proof.
  set (c := Connection_create (λ _, x00) 0 5 1 false (str "P0")).
  destruct (Connection_create_wf (λ _, x00) 0 5 1 false (str "P0")) as (H & Es & _). fold c in H, Es.
  destruct (send_ok (λ _, x00) 0 c (str "ab") (str "hi") H) as (b & E & _ & Eb); [rewrite Es; vm_compute; done|].
  set (c' := Connection_create (λ _, x00) 0 6 1 true (str "P1")).
  destruct (Connection_create_wf (λ _, x00) 0 6 1 true (str "P1")) as (_ & _ & Er & Eid). fold c' in Er, Eid.
  exists (Link c [] [] c' None [] []). split; [by exists 0, 5, 1, (str "P0"), 0, 6, 1, (str "P1")|].
  eapply rtc_l; [eapply (step_send _ (Link c [] [] c' None [] [])); [|exact E]; done|].
  apply rtc_once.
  refine (step_other _ (Link (set_send_buffer b c) [] [] c' None [(str "ab", str "hi")] []) _ _ _ _).
  - split; [by apply small_conn_wf|]. transitivity (cycle_buffer.contents b); [|done]. rewrite Eb, Es. reflexivity.
  - split; [by apply small_conn_wf|]. cbn [rx]. split; [by rewrite Er|]. intros id. by rewrite Eid.
Qed.

Definition sent_all : list write_result := [WR 13 (EOTHER 0)].
Definition closed_sender : Connection :=
  match Connection.close (λ _, x00) 0 sent_all (tx one_queued) with Ok (c, _, _, _) => c | _ => tx one_queued end.

Lemma sender_closes :
  Connection.close (λ _, x00) 0 sent_all (tx one_queued) = Ok (closed_sender, frame (str "ab") (str "hi"), [7], []).
Proof. vm_compute. reflexivity. Qed.

(** The sender has closed and the kernel kept the first [k] bytes. *)
Definition after_close (k : Z) : state :=
  State (Link closed_sender [] (ztake k (frame (str "ab") (str "hi"))) (small_conn [] []) None [(str "ab", str "hi")] [])
        (Some (zdrop k (frame (str "ab") (str "hi")))).

Lemma after_close_reachable k drops :
  0 ≤ k ≤ 13 → k = 13 ∨ drops linger_option = true → reachable (λ _, x00) drops (after_close k).
Proof.
  intros Hk Hd. destruct one_queued_reachable as (s0 & H0 & Hr). exists s0. split; [done|].
  apply rtc_r with (y := State one_queued None).
  { revert Hr. apply (rtc_congruence (λ s, State s None)). intros s1 s2. apply d_link. }
  unfold after_close. rewrite <- (app_nil_r (zdrop k _)).
  refine (d_close (λ _, x00) drops one_queued 0 sent_all closed_sender (frame (str "ab") (str "hi")) [7] [] k
            _ _ _ sender_closes Hk Hd); [done|done|vm_compute; intuition congruence].
Qed.

Lemma closing_cuts_witness :
  (∃ arrived rest, log_sent (net (after_close 5)) = arrived ++ rest
     ∧ ∀ id, on (log_recv (net (after_close 5))) id ++ ready (rx (net (after_close 5))) id = on arrived id)
  ∧ lost (after_close 5) = Some (zdrop 5 (frame (str "ab") (str "hi"))).
Proof.
  split; [|done]. apply (closing_cuts (λ _, x00) (λ _, true)); [|done]. apply after_close_reachable; [lia|by right].
Defined.

Lemma close_delivers_witness :
  ∀ n s', nsteps (internal (λ _, x00)) n (net (after_close 13)) s' →
    Z.of_nat n ≤ pending (net (after_close 13)) ∧ (delivered s' ∨ ∃ s'', internal (λ _, x00) s' s'').
Proof.
  apply (close_delivers (λ _, x00) (λ _, false) (after_close 13) []); [|done..].
  apply after_close_reachable; [lia|by left].
Defined.

Lemma close_loses_witness :
  ∃ st, step (λ _, x00) (λ _, true) (State one_queued None) st ∧ log_sent (net st) = [(str "ab", str "hi")]
    ∧ ∀ st', rtc (step (λ _, x00) (λ _, true)) st st' →
        ∀ id, on (log_recv (net st')) id ++ ready (rx (net st')) id = on (log_recv one_queued) id ++ ready (rx one_queued) id.
Proof.
  apply (close_loses (λ _, x00) (λ _, true) one_queued 0 sent_all closed_sender (frame (str "ab") (str "hi")) [7] []);
    [done|apply one_queued_reachable|done|done|done|vm_compute; intuition congruence|exact sender_closes|done|done].
Defined.
End Shutdown.
