(* ===== verification/Codec.v ===== *)
(** The small codecs: message ids in hexadecimal ([get_hex_buffer] of
    [include/io/internal/helper.h], [get_binary_string] of
    [src/io_channel_impl.cpp]) and the C structures node ids are handed out in
    ([include/io/channel_encode.h], [include/io/channel_decode.h]). *)
From Stdlib Require Import Strings.Byte.
From S2P Require Import Prelude StdMap.
#[local] Open Scope Z_scope.

(** * The program *)

(** ** Message ids *)

Definition char (z : Z) : byte := byte_of_Z z.
(** [char] is signed: its value as an [int]. *)
Definition char_value (c : byte) : Z := let z := Z_of_byte c in if z <? 128 then z else z - 256.

Definition get_hex_index (c : byte) : Z :=
  let c := char_value c in
  if (48 <=? c) && (c <=? 57) then c - 48                 (* '0'..'9' *)
  else if (65 <=? c) && (c <=? 90) then 10 + c - 65       (* 'A'..'Z' *)
  else if (97 <=? c) && (c <=? 122) then 10 + c - 97      (* 'a'..'z' *)
  else 0.

Definition get_char (c1 c2 : byte) : byte :=
  char (Z.lor (Z.shiftl (get_hex_index c1) 4) (get_hex_index c2)).

(** The loop of [get_binary_string] from an even index on.  [str[str.size()]] is
    NUL; writing any other byte to [ret[ret.size()]] is undefined. *)
Fixpoint binary_loop (s : bytes) : outcome bytes :=
  match s with
  | [] => mret []
  | [c] => _ ← require (bool_decide (get_char c x00 = x00)) OutOfBounds; mret []
  | c1 :: c2 :: s => ret ← binary_loop s; mret (get_char c1 c2 :: ret)
  end.

Definition get_binary_string (s : bytes) : outcome bytes := binary_loop s.

(** [get_string(const char* )], with [DEBUG_MSG_ID] 0. *)
Definition get_string (s : bytes) : outcome bytes := get_binary_string (c_str s).

Definition get_hex_char (p : Z) : byte :=
  if (0 <=? p) && (p <=? 9) then char (48 + p) else char (97 + (p - 10)).

Definition PRINT_HEX_SIZE : Z := 128.

(** [s.append(tmp)] for the two characters of one byte, which are never NUL. *)
Definition hex_byte (b : byte) : bytes :=
  [get_hex_char (Z.shiftr (Z_of_byte b) 4); get_hex_char (Z.land (char_value b) 15)].

Definition get_hex_buffer (buf : bytes) (size : Z) : bytes :=
  let min_size := if size <? PRINT_HEX_SIZE then size else PRINT_HEX_SIZE in
  concat (hex_byte <$> ztake min_size buf) ++ (if min_size <? size then str "..." else []).

(** ** Node ids *)

(** [NodeIDVec], [NodeIDPair] and [NodeIDMap]; each [char*] is the block it points
    to. *)
Record NodeIDVec := MkNodeIDVec { vec_count : Z; node_ids : list bytes }.
Record NodeIDPair := MkNodeIDPair { pair_id : bytes; party_id : Z }.
Record NodeIDMap := MkNodeIDMap { map_count : Z; pairs : list NodeIDPair }.

(** A block one longer than the string: zeroed, then the string copied in. *)
Definition encode_string (s : bytes) : outcome bytes :=
  memcpy (zeros (zlen s + 1)) 0 s 0 (zlen s).

Definition encode_vector (vec : list bytes) : outcome NodeIDVec :=
  ids ← for_each (λ acc s, p ← encode_string s; mret (acc ++ [p])) [] vec;
  mret (MkNodeIDVec (zlen vec) ids).

Definition encode_map (m : smap Z) : outcome NodeIDMap :=
  ps ← for_each (λ acc '(k, v), p ← encode_string k; mret (acc ++ [MkNodeIDPair p v])) [] m;
  mret (MkNodeIDMap (zlen m) ps).

(** [strlen]: undefined when the block holds no NUL. *)
Definition strlen (p : bytes) : outcome Z :=
  if bool_decide (x00 ∈ p) then Ok (zlen (c_str p)) else UB OutOfBounds.

Definition decode_string (pointer : bytes) : outcome bytes :=
  n ← strlen pointer; mret (ztake n pointer).

(** The first [count] pointers of an array of them. *)
Definition elements {A} (count : Z) (p : list A) : outcome (list A) :=
  if count <=? zlen p then Ok (ztake count p) else UB OutOfBounds.

Definition decode_vector (v : NodeIDVec) : outcome (list bytes) :=
  ids ← elements (vec_count v) (node_ids v);
  for_each (λ acc p, s ← decode_string p; mret (acc ++ [s])) [] ids.

Definition decode_map (m : NodeIDMap) : outcome (smap Z) :=
  ps ← elements (map_count m) (pairs m);
  for_each (λ acc p, s ← decode_string (pair_id p); mret (map_insert s (party_id p) acc)) [] ps.

(** * Lemmas *)

Definition all_bytes : list byte := byte_of_Z ∘ Z.of_nat <$> seq 0 256.

Lemma elem_of_all_bytes b : b ∈ all_bytes.
Proof.
  unfold all_bytes. apply list_elem_of_fmap. exists (Z.to_nat (Z_of_byte b)).
  pose proof (Z_of_byte_range b). unfold compose. rewrite Z2Nat.id by lia.
  split; [by rewrite byte_of_Z_of_byte|]. apply elem_of_seq. lia.
Qed.

(** Decides a property of one byte by trying all. *)
Lemma for_all_bytes (P : byte → bool) : forallb P all_bytes = true → ∀ b, P b = true.
Proof. intros H b. rewrite forallb_forall in H. apply H, list_elem_of_In, elem_of_all_bytes. Qed.

Lemma get_char_hex b :
  get_char (get_hex_char (Z.shiftr (Z_of_byte b) 4)) (get_hex_char (Z.land (char_value b) 15)) = b.
Proof.
  apply (bool_decide_eq_true_1 (get_char _ _ = b)).
  revert b. refine (for_all_bytes (λ b, bool_decide (get_char _ _ = b)) _). vm_compute. reflexivity.
Qed.

Lemma binary_loop_hex s : binary_loop (concat (hex_byte <$> s)) = Ok s.
Proof.
  induction s as [|b s IH]; [done|]. rewrite fmap_cons. cbn [concat hex_byte app binary_loop].
  rewrite IH. cbn [mbind outcome_bind]. by rewrite get_char_hex.
Qed.

Lemma hex_byte_no_nul b : forallb (λ c, negb (bool_decide (c = x00))) (hex_byte b) = true.
Proof.
  revert b. refine (for_all_bytes (λ b, forallb _ (hex_byte b)) _). vm_compute. reflexivity.
Qed.

Lemma c_str_no_nul s : forallb (λ c, negb (bool_decide (c = x00))) s = true → c_str s = s.
Proof.
  induction s as [|b s IH]; [done|]. cbn. intros [Hb Hs]%andb_true_iff.
  apply negb_true_iff, bool_decide_eq_false in Hb. rewrite decide_False by done. by rewrite IH.
Qed.

Lemma c_str_hex s : c_str (concat (hex_byte <$> s)) = concat (hex_byte <$> s).
Proof.
  apply c_str_no_nul. induction s as [|b s IH]; [done|]. rewrite fmap_cons. cbn [concat].
  by rewrite forallb_app, hex_byte_no_nul, IH.
Qed.

Lemma zlen_two (c1 c2 : byte) s : zlen (c1 :: c2 :: s) = zlen s + 2 * 1.
Proof. rewrite !zlen_cons. lia. Qed.

Lemma binary_loop_odd s :
  Z.odd (zlen s) = true → ∃ init c, s = init ++ [c]
    ∧ binary_loop s = if bool_decide (get_char c x00 = x00) then binary_loop init
                      else UB OutOfBounds.
Proof.
  remember (length s) as n eqn:En. revert s En.
  induction (lt_wf n) as [n _ IH]. intros s -> Hodd.
  destruct s as [|c1 [|c2 s]]; [done| |].
  { exists [], c1. split; [done|]. cbn. by case_bool_decide. }
  destruct (IH (length s)) with (s := s) as (init & c & -> & E); [cbn; lia|done| |].
  { by rewrite zlen_two, Z.odd_add_mul_2 in Hodd. }
  exists (c1 :: c2 :: init), c. split; [done|]. cbn [app binary_loop]. rewrite E.
  case_bool_decide; done.
Qed.

(** ** Node ids *)

Lemma encode_string_ok s : encode_string s = Ok (s ++ [x00]).
Proof.
  unfold encode_string. pose proof (zlen_nonneg s).
  rewrite memcpy_ok, zdrop_0, ztake_0, ztake_ge by (rewrite ?zlen_zeros; lia). cbn [app].
  do 2 f_equal. unfold zeros, zdrop, zlen.
  replace (Z.to_nat (Z.of_nat (length s) + 1)) with (length s + 1)%nat by lia.
  rewrite replicate_add, drop_app_length'; [done|]. rewrite length_replicate. lia.
Qed.

Lemma c_str_app_nul s : c_str (s ++ [x00]) = c_str s.
Proof. induction s as [|b s IH]; cbn; [done|]. case_decide; [done|]. by rewrite IH. Qed.

Lemma ztake_c_str s : ztake (zlen (c_str s)) s = c_str s.
Proof.
  induction s as [|b s IH]; cbn; [done|]. case_decide; [done|].
  rewrite zlen_cons. unfold ztake in *. pose proof (zlen_nonneg (c_str s)).
  replace (Z.to_nat (1 + zlen (c_str s))) with (S (Z.to_nat (zlen (c_str s)))) by lia.
  cbn. by rewrite IH.
Qed.

Lemma decode_encoded s : decode_string (s ++ [x00]) = Ok (c_str s).
Proof.
  unfold decode_string, strlen. rewrite bool_decide_true by set_solver.
  cbn [mbind outcome_bind mret outcome_ret]. by rewrite ztake_c_str, c_str_app_nul.
Qed.

(** Appending one result per element. *)
Lemma for_each_fmap {A B} (f : A → outcome B) (g : A → B) l acc :
  (∀ a, f a = Ok (g a)) →
  for_each (λ acc a, b ← f a; mret (acc ++ [b])) acc l = Ok (acc ++ (g <$> l)).
Proof.
  intros Hf. revert acc. induction l as [|a l IH]; intros acc; cbn; [by rewrite app_nil_r|].
  rewrite Hf. cbn. by rewrite IH, <- app_assoc.
Qed.

Lemma encode_vector_ok vec :
  encode_vector vec = Ok (MkNodeIDVec (zlen vec) ((λ s, s ++ [x00]) <$> vec)).
Proof.
  unfold encode_vector. rewrite (for_each_fmap _ (λ s, s ++ [x00])); [done|].
  apply encode_string_ok.
Qed.

Lemma encode_map_ok m :
  encode_map m = Ok (MkNodeIDMap (zlen m) ((λ p, MkNodeIDPair (p.1 ++ [x00]) p.2) <$> m)).
Proof.
  unfold encode_map.
  assert (∀ acc, for_each (λ acc '(k, v), p ← encode_string k; mret (acc ++ [MkNodeIDPair p v])) acc m
          = Ok (acc ++ ((λ p : bytes * Z, MkNodeIDPair (p.1 ++ [x00]) p.2) <$> m))) as E.
  { induction m as [|[k v] m IH]; intros acc; cbn; [by rewrite app_nil_r|].
    rewrite encode_string_ok. cbn. by rewrite IH, <- app_assoc. }
  by rewrite E.
Qed.

Lemma elements_all {A} (l : list A) n : n = zlen l → elements n l = Ok l.
Proof. intros ->. unfold elements. by rewrite Z.leb_refl, ztake_ge by lia. Qed.

Lemma decode_map_loop m : ∀ acc,
  sorted (acc ++ m) → Forall (λ p, text p.1) m →
  for_each (λ acc p, s ← decode_string (pair_id p); mret (map_insert s (party_id p) acc)) acc
    ((λ p : bytes * Z, MkNodeIDPair (p.1 ++ [x00]) p.2) <$> m) = Ok (acc ++ m).
Proof.
  induction m as [|[k v] m IH]; intros acc Hs Hm; cbn; [by rewrite app_nil_r|].
  apply Forall_cons in Hm as [Hk Hm]. cbn in Hk. rewrite decode_encoded, Hk. cbn [mbind outcome_bind].
  rewrite map_insert_last.
  - cbn [mbind outcome_bind mret outcome_ret]. rewrite IH, <- app_assoc; [done| |done].
    by rewrite <- app_assoc.
  - intros k' Hk'. eapply sorted_app_inv; [exact Hs|done|]. left.
Qed.

(** A pair of lower-case digits is read back as the digits. *)
Definition lower_hex (c : byte) : bool :=
  let c := char_value c in ((48 <=? c) && (c <=? 57)) || ((97 <=? c) && (c <=? 102)).

Lemma hex_of_char c1 c2 :
  lower_hex c1 = true → lower_hex c2 = true → hex_byte (get_char c1 c2) = [c1; c2].
Proof.
  assert (implb (lower_hex c1 && lower_hex c2) (bool_decide (hex_byte (get_char c1 c2) = [c1; c2]))
          = true) as H.
  { revert c2. refine (for_all_bytes (λ c2, implb (lower_hex c1 && lower_hex c2)
                          (bool_decide (hex_byte (get_char c1 c2) = [c1; c2]))) _).
    revert c1. refine (for_all_bytes (λ c1, forallb (λ c2, implb (lower_hex c1 && lower_hex c2)
                          (bool_decide (hex_byte (get_char c1 c2) = [c1; c2]))) all_bytes) _).
    vm_compute. reflexivity. }
  intros H1 H2. rewrite H1, H2 in H. by apply bool_decide_eq_true in H.
Qed.

Lemma hex_of_binary n : ∀ s ret, (length s ≤ n)%nat →
  forallb lower_hex s = true → Z.even (zlen s) = true →
  binary_loop s = Ok ret → concat (hex_byte <$> ret) = s.
Proof.
  induction n as [|n IH]; intros s ret Hn Hs He E.
  { destruct s; [|cbn in Hn; lia]. by injection E as <-. }
  destruct s as [|c1 [|c2 s]]; [by injection E as <-|done|].
  cbn [forallb] in Hs. apply andb_true_iff in Hs as [H1 [H2 Hs]%andb_true_iff].
  cbn [binary_loop] in E. apply bind_Ok in E as (r & Er & E). injection E as <-.
  rewrite fmap_cons. cbn [concat]. rewrite hex_of_char by done.
  rewrite (IH s r); [done|cbn in Hn; lia|done| |done].
  by rewrite zlen_two, Z.even_add_mul_2 in He.
Qed.

Lemma binary_loop_even n : ∀ s, (length s ≤ n)%nat → Z.even (zlen s) = true →
  ∃ ret, binary_loop s = Ok ret ∧ 2 * zlen ret = zlen s.
Proof.
  induction n as [|n IH]; intros s Hn He.
  { destruct s; [|cbn in Hn; lia]. by exists []. }
  destruct s as [|c1 [|c2 s]]; [by exists []|done|].
  destruct (IH s) as (ret & E & Hz); [cbn in Hn; lia| |].
  { by rewrite zlen_two, Z.even_add_mul_2 in He. }
  exists (get_char c1 c2 :: ret). cbn [binary_loop]. rewrite E. split; [done|]. rewrite !zlen_cons. lia.
Qed.

(** * Properties *)

(** Round trip of message ids: an id of at most 128 bytes printed in
    hexadecimal is read back as the same bytes. *)
Theorem hex_roundtrip id :
  zlen id ≤ PRINT_HEX_SIZE → get_string (get_hex_buffer id (zlen id)) = Ok id.
Proof.
  unfold PRINT_HEX_SIZE. intros H. unfold get_hex_buffer, PRINT_HEX_SIZE, get_string, get_binary_string.
  replace (if zlen id <? 128 then zlen id else 128) with (zlen id) by (zbool; lia).
  rewrite Z.ltb_irrefl, app_nil_r, ztake_ge, c_str_hex by lia. apply binary_loop_hex.
Qed.

Lemma hex_roundtrip_witness :
  get_hex_buffer [x00; xff; x3a] 3 = str "00ff3a"
  ∧ get_string (get_hex_buffer [x00; xff; x3a] (zlen [x00; xff; x3a])) = Ok [x00; xff; x3a].
Proof. split; [vm_compute; reflexivity|]. apply hex_roundtrip. vm_compute. congruence. Defined.

(** The binary form of a message id is safe and unambiguous for ids in the
    documented form, an even number of digits [0-9a-f]: it exists, has half the
    length, and different ids have different binary forms, so they cannot take
    each other's data. *)
Theorem hex_ids_distinct s1 s2 :
  forallb lower_hex s1 = true → forallb lower_hex s2 = true →
  Z.even (zlen s1) = true → Z.even (zlen s2) = true →
  ∃ b1 b2, get_binary_string s1 = Ok b1 ∧ get_binary_string s2 = Ok b2
    ∧ 2 * zlen b1 = zlen s1 ∧ 2 * zlen b2 = zlen s2 ∧ (b1 = b2 → s1 = s2).
Proof.
  intros H1 H2 He1 He2. unfold get_binary_string.
  destruct (binary_loop_even (length s1) s1) as (b1 & E1 & ?); [lia|done|].
  destruct (binary_loop_even (length s2) s2) as (b2 & E2 & ?); [lia|done|].
  exists b1, b2. split_and!; try done. intros ->.
  rewrite <- (hex_of_binary (length s1) s1 b2) by (done || lia).
  by rewrite <- (hex_of_binary (length s2) s2 b2) by (done || lia).
Qed.

Lemma hex_ids_distinct_witness :
  ∃ b1 b2, get_binary_string (str "0a1b") = Ok b1 ∧ get_binary_string (str "0a1c") = Ok b2
    ∧ 2 * zlen b1 = zlen (str "0a1b") ∧ 2 * zlen b2 = zlen (str "0a1c")
    ∧ (b1 = b2 → str "0a1b" = str "0a1c").
Proof. apply (hex_ids_distinct (str "0a1b") (str "0a1c")); vm_compute; reflexivity. Defined.

(** an id of odd length is outside what the conversion can handle: unless
    its last character is the digit zero (or reads as one), the last step writes
    a byte behind the end of the result. *)
Theorem odd_id_undefined s c :
  Z.odd (zlen (s ++ [c])) = true → get_char c x00 ≠ x00 →
  get_binary_string (s ++ [c]) = UB OutOfBounds.
Proof.
  intros Ho Hc. unfold get_binary_string.
  destruct (binary_loop_odd _ Ho) as (init & c' & E & ->).
  apply app_inj_2 in E as [_ E]; [|done]. injection E as <-. by rewrite bool_decide_false.
Qed.

Lemma odd_id_undefined_witness : get_binary_string (str "task1" ++ str "-" ++ [x31]) = UB OutOfBounds.
Proof. apply (odd_id_undefined (str "task1" ++ str "-") x31); vm_compute; [reflexivity|congruence]. Defined.

(** a vector of node ids survives [encode_vector] and [decode_vector], up to
    the first NUL of each id. *)
Theorem vector_roundtrip vec :
  (encode_vector vec ≫= decode_vector) = Ok (c_str <$> vec).
Proof.
  rewrite encode_vector_ok. cbn [mbind outcome_bind]. unfold decode_vector. cbn [vec_count node_ids].
  rewrite elements_all by (by rewrite zlen_fmap). cbn [mbind outcome_bind].
  assert (∀ acc, for_each (λ acc p, s ← decode_string p; mret (acc ++ [s])) acc ((λ s, s ++ [x00]) <$> vec)
          = Ok (acc ++ (c_str <$> vec))) as E; [|by rewrite E].
  induction vec as [|s vec IH]; intros acc; cbn; [by rewrite app_nil_r|].
  rewrite decode_encoded. cbn. by rewrite IH, <- app_assoc.
Qed.

(** A map of node ids to party ids survives [encode_map] and [decode_map]
    when no id contains NUL. *)
Theorem map_roundtrip m :
  sorted m → Forall (λ p, text p.1) m → (encode_map m ≫= decode_map) = Ok m.
Proof.
  intros Hs Hm. rewrite encode_map_ok. cbn [mbind outcome_bind]. unfold decode_map.
  cbn [map_count pairs]. rewrite elements_all by (by rewrite zlen_fmap). cbn [mbind outcome_bind].
  exact (decode_map_loop m [] Hs Hm).
Qed.

Lemma map_roundtrip_witness :
  let m := map_insert (str "P1") 1 (map_insert (str "P0") 0 (map_insert (str "P10") 2 [])) in
  (encode_map m ≫= decode_map) = Ok m.
Proof.
  apply (map_roundtrip (map_insert (str "P1") 1 (map_insert (str "P0") 0 (map_insert (str "P10") 2 []))));
    repeat constructor.
Defined.
