(* ===== verification/Topology.v ===== *)
(** The part of [CreateInternalChannel] of [src/channel.cpp] that decides which
    peers a node has, and which of them it connects to ([serverInfos]) or is
    connected to by ([clientInfos]). *)
From Stdlib Require Import Strings.Byte.
From S2P Require Import Prelude StdMap Json Config.
#[local] Open Scope Z_scope.

(** * The program *)

Record NodeInfo := MkNodeInfo { info_id : bytes; address : bytes; port : Z }.

#[global] Instance NodeInfo_eq_dec : EqDecision NodeInfo.
Proof. solve_decision. Defined.

Definition CopyNodeInfo (src : Node) : NodeInfo := MkNodeInfo (NODE_ID src) (HOST src) (PORT src).

Definition bytes_ltb (a b : bytes) : bool := bool_decide (bytes_compare a b = Lt).

(** [clientInfos] and [serverInfos]. *)
Record infos := Infos { clientInfos : list NodeInfo; serverInfos : list NodeInfo }.

(** The body of the four loops. *)
Definition add_peer (node : Node) (node_id : bytes) (acc : infos) (peer : Node) : infos :=
  let nid := NODE_ID peer in
  let tmp := CopyNodeInfo peer in
  if (PORT node <=? 0) || ((0 <? port tmp) && bytes_ltb node_id nid)
  then Infos (clientInfos acc) (serverInfos acc ++ [tmp])
  else Infos (clientInfos acc ++ [tmp]) (serverInfos acc).

Definition add_peers (node : Node) (node_id : bytes) (peers : list Node) (acc : infos) : infos :=
  foldl (add_peer node node_id) acc peers.

(** [CreateInternalChannel] up to the call of [CreateChannel]. *)
Definition create_infos (cfg : ChannelConfig) (node_id : bytes) : outcome (NodeInfo * infos) :=
  node ← GetNode cfg node_id;
  let node_info := CopyNodeInfo node in
  let add := add_peers node node_id in
  let acc := Infos [] [] in
  match GetPrimaryNodeType cfg node_id with
  | NODE_TYPE_DATA => mret (node_info, add (compute_config_ cfg) acc)
  | NODE_TYPE_COMPUTE =>
    let acc := add (data_config_ cfg) acc in
    let acc := add (erase_loop (λ n, bool_decide (node_id = NODE_ID n)) (compute_config_ cfg)) acc in
    mret (node_info, add (result_config_ cfg) acc)
  | NODE_TYPE_RESULT => mret (node_info, add (compute_config_ cfg) acc)
  | NODE_TYPE_INVALID => Throw (other_exp "can not find node in config file!")
  end.

(** * Specification *)

(** Roles that exchange messages: only computation nodes talk to any node. *)
Definition talks (a b : NODE_TYPE) : bool :=
  match a, b with
  | NODE_TYPE_INVALID, _ | _, NODE_TYPE_INVALID => false
  | NODE_TYPE_COMPUTE, _ | _, NODE_TYPE_COMPUTE => true
  | _, _ => false
  end.

(** Who opens the connection: the end without a port of its own, or the end with
    the smaller id when both have one. *)
Definition initiates (n m : Node) : Prop :=
  PORT n ≤ 0 ∨ (0 < PORT m ∧ bytes_lt (NODE_ID n) (NODE_ID m)).

#[export] Instance initiates_dec n m : Decision (initiates n m).
Proof. unfold initiates, bytes_lt. apply _. Defined.

Definition is_peer (cfg : ChannelConfig) (n m : Node) : Prop :=
  NODE_ID n ≠ NODE_ID m ∧ GetNode cfg (NODE_ID m) = Ok m
  ∧ talks (role cfg (NODE_ID n)) (role cfg (NODE_ID m)) = true.

(** * Lemmas *)

Lemma talks_sym a b : talks a b = talks b a.
Proof. by destruct a, b. Qed.

Lemma add_peers_ok node peers : ∀ acc,
  add_peers node (NODE_ID node) peers acc
  = Infos (clientInfos acc ++ (CopyNodeInfo <$> filter (λ m, ¬ initiates node m) peers))
          (serverInfos acc ++ (CopyNodeInfo <$> filter (initiates node) peers)).
Proof.
  induction peers as [|m peers IH]; intros acc.
  { cbn. rewrite !app_nil_r. by destruct acc. }
  change (add_peers node (NODE_ID node) (m :: peers) acc)
    with (add_peers node (NODE_ID node) peers (add_peer node (NODE_ID node) acc m)).
  rewrite IH, !filter_cons. unfold add_peer.
  destruct (decide (initiates node m)) as [H|H].
  - rewrite decide_False by tauto.
    assert ((PORT node <=? 0) || ((0 <? port (CopyNodeInfo m)) && bytes_ltb (NODE_ID node) (NODE_ID m))
            = true) as ->.
    { unfold bytes_ltb. destruct H as [H|[H1 H2]]; [by rewrite (proj2 (Z.leb_le _ _))|].
      cbn. rewrite (proj2 (Z.ltb_lt _ _)), bool_decide_true by done. by rewrite orb_true_r. }
    cbn [clientInfos serverInfos]. by rewrite fmap_cons, <- app_assoc.
  - rewrite decide_True by done.
    assert ((PORT node <=? 0) || ((0 <? port (CopyNodeInfo m)) && bytes_ltb (NODE_ID node) (NODE_ID m))
            = false) as ->.
    { apply not_true_iff_false. intros [Hb|[Hb1 Hb2]%andb_true_iff]%orb_true_iff; apply H.
      - left. lia.
      - right. split; [cbn in Hb1; lia|]. by apply bool_decide_eq_true in Hb2. }
    cbn [clientInfos serverInfos]. by rewrite fmap_cons, <- app_assoc.
Qed.

Lemma GetNode_id doc cfg id n :
  parse config_init doc = Ok cfg → GetNode cfg id = Ok n →
  NODE_ID n = id ∧ map_find id (node_info_config_ cfg) = Some n ∧ role cfg id ≠ NODE_TYPE_INVALID.
Proof.
  intros (cfg0 & H & ->)%parse_parsed E. rewrite GetNode_parsed in E by done.
  change (role (process_node_type cfg0) id) with (role cfg0 id).
  destruct (map_find id (node_info_config_ cfg0)) as [m|] eqn:Ef; [|done].
  case_decide; [done|]. injection E as ->.
  split_and!; [exact (proj2 (p_info cfg0 H) id n Ef)|done..].
Qed.

Lemma GetNode_Ok cfg0 m :
  parsed cfg0 →
  GetNode (process_node_type cfg0) (NODE_ID m) = Ok m
  ↔ map_find (NODE_ID m) (node_info_config_ cfg0) = Some m ∧ role cfg0 (NODE_ID m) ≠ NODE_TYPE_INVALID.
Proof.
  intros H. rewrite GetNode_parsed by done. destruct (map_find _ _) as [m'|]; [|naive_solver].
  case_decide; [naive_solver|]. split; [intros E; by injection E as ->|intros [E _]; by injection E as ->].
Qed.

(** The nodes the loops of [create_infos] go over. *)
Definition peers (cfg : ChannelConfig) (node_id : bytes) : list Node :=
  match GetPrimaryNodeType cfg node_id with
  | NODE_TYPE_DATA | NODE_TYPE_RESULT => compute_config_ cfg
  | NODE_TYPE_COMPUTE =>
    data_config_ cfg
    ++ erase_loop (λ n, bool_decide (node_id = NODE_ID n)) (compute_config_ cfg)
    ++ result_config_ cfg
  | NODE_TYPE_INVALID => []
  end.

Lemma create_infos_add cfg node_id ni acc :
  create_infos cfg node_id = Ok (ni, acc) →
  ∃ node, GetNode cfg node_id = Ok node ∧ ni = CopyNodeInfo node
    ∧ GetPrimaryNodeType cfg node_id ≠ NODE_TYPE_INVALID
    ∧ acc = add_peers node node_id (peers cfg node_id) (Infos [] []).
Proof.
  intros E. unfold create_infos in E. apply bind_Ok in E as (node & En & E).
  exists node. split; [done|]. unfold peers, add_peers in *.
  destruct (GetPrimaryNodeType cfg node_id) eqn:Et; [done|..]; injection E as <- <-; try done.
  by rewrite !foldl_app.
Qed.

Lemma elem_of_peers cfg0 node m :
  parsed cfg0 → role cfg0 (NODE_ID node) ≠ NODE_TYPE_INVALID →
  m ∈ peers (process_node_type cfg0) (NODE_ID node) ↔ is_peer (process_node_type cfg0) node m.
Proof.
  intros H Hn. unfold is_peer, peers. rewrite GetPrimaryNodeType_role, GetNode_Ok by done.
  change (role (process_node_type cfg0)) with (role cfg0).
  destruct (role_node_lists cfg0 m H) as (Hd & Hc & Hr).
  assert (role cfg0 (NODE_ID node) ≠ role cfg0 (NODE_ID m) → NODE_ID node ≠ NODE_ID m) as Hne
    by congruence.
  revert Hn Hne Hd Hc Hr. generalize (role cfg0 (NODE_ID node)) as ra.
  generalize (role cfg0 (NODE_ID m)) as rb. cbv zeta.
  generalize (map_find (NODE_ID m) (node_info_config_ cfg0) = Some m) as described.
  intros described rb ra Hn Hne Hd Hc Hr.
  destruct ra; [done|..];
    rewrite ?elem_of_app, ?elem_of_erase_loop, ?bool_decide_eq_false, ?Hd, ?Hc, ?Hr;
    clear Hd Hc Hr; destruct rb; cbn [talks]; intuition congruence.
Qed.

Lemma create_infos_peers doc cfg node_id ni acc :
  parse config_init doc = Ok cfg → create_infos cfg node_id = Ok (ni, acc) →
  ∃ node, GetNode cfg node_id = Ok node ∧ NODE_ID node = node_id ∧ ni = CopyNodeInfo node
    ∧ (∀ i, i ∈ serverInfos acc ↔ ∃ m, i = CopyNodeInfo m ∧ is_peer cfg node m ∧ initiates node m)
    ∧ (∀ i, i ∈ clientInfos acc ↔ ∃ m, i = CopyNodeInfo m ∧ is_peer cfg node m ∧ ¬ initiates node m).
Proof.
  intros Ep E. apply create_infos_add in E as (node & En & -> & Ht & ->).
  destruct (GetNode_id doc cfg node_id node Ep En) as (<- & _ & Hrole).
  exists node. split_and!; [done..| |]; intros i; rewrite add_peers_ok; cbn [clientInfos serverInfos app];
    rewrite list_elem_of_fmap; setoid_rewrite list_elem_of_filter;
    destruct (parse_parsed doc cfg Ep) as (cfg0 & H & ->);
    setoid_rewrite (elem_of_peers cfg0 node _ H Hrole); naive_solver.
Qed.

Lemma is_peer_sym cfg n m :
  GetNode cfg (NODE_ID n) = Ok n → is_peer cfg n m → is_peer cfg m n.
Proof. intros E (? & _ & Ht). unfold is_peer. rewrite talks_sym. split_and!; congruence. Qed.

(** Of two nodes, at least one of which has a port, exactly one initiates. *)
Lemma initiates_one n m :
  NODE_ID n ≠ NODE_ID m → 0 < PORT n ∨ 0 < PORT m → initiates n m ↔ ¬ initiates m n.
Proof.
  intros Hne Hport. unfold initiates. destruct (bytes_compare (NODE_ID n) (NODE_ID m)) eqn:E.
  - by apply bytes_compare_eq in E.
  - assert (¬ bytes_lt (NODE_ID m) (NODE_ID n)) by (rewrite <- bytes_compare_gt; congruence).
    assert (bytes_lt (NODE_ID n) (NODE_ID m)) by done.
    destruct (Z.lt_ge_cases 0 (PORT n)), (Z.lt_ge_cases 0 (PORT m)); intuition lia.
  - apply bytes_compare_gt in E as E'.
    assert (¬ bytes_lt (NODE_ID n) (NODE_ID m)) by (unfold bytes_lt; congruence).
    destruct (Z.lt_ge_cases 0 (PORT n)), (Z.lt_ge_cases 0 (PORT m)); intuition lia.
Qed.

(** * Properties *)

(** [CreateInternalChannel] gives a node exactly its peers: the described
    nodes with a role such that one of the two is a computation node.  It connects
    to those for which it initiates, with their address and port, and waits for
    the others. *)
Theorem infos_are_the_peers doc cfg node_id ni acc :
  parse config_init doc = Ok cfg → create_infos cfg node_id = Ok (ni, acc) →
  ∃ node, GetNode cfg node_id = Ok node ∧ ni = CopyNodeInfo node
    ∧ (∀ i, i ∈ serverInfos acc ↔ ∃ m, i = CopyNodeInfo m ∧ is_peer cfg node m ∧ initiates node m)
    ∧ (∀ i, i ∈ clientInfos acc ↔ ∃ m, i = CopyNodeInfo m ∧ is_peer cfg node m ∧ ¬ initiates node m).
Proof. intros Ep E. destruct (create_infos_peers doc cfg node_id ni acc Ep E) as (node & ? & _ & ?). eauto. Qed.

(** C18: two nodes that read the same configuration agree on their connection: if
    either has the other as a peer, both do, and when at least one has a port,
    exactly one of them connects and the other waits for exactly that one.  When
    neither has a port, both connect and neither waits. *)
Theorem both_ends_agree doc cfg a b ia ib acc_a acc_b :
  parse config_init doc = Ok cfg → a ≠ b →
  create_infos cfg a = Ok (ia, acc_a) → create_infos cfg b = Ok (ib, acc_b) →
  (0 < port ia ∨ 0 < port ib →
     (ib ∈ serverInfos acc_a ↔ ia ∈ clientInfos acc_b)
     ∧ (ib ∈ clientInfos acc_a ↔ ia ∈ serverInfos acc_b)
     ∧ ¬ (ib ∈ serverInfos acc_a ∧ ib ∈ clientInfos acc_a))
  ∧ (port ia ≤ 0 → port ib ≤ 0 →
     (ib ∈ serverInfos acc_a ↔ ia ∈ serverInfos acc_b)
     ∧ (ib ∉ clientInfos acc_a) ∧ ia ∉ clientInfos acc_b).
Proof.
  intros Ep Hne Ea Eb.
  destruct (create_infos_peers doc cfg a ia acc_a Ep Ea) as (na & Ena & Hida & -> & Hsa & Hca).
  destruct (create_infos_peers doc cfg b ib acc_b Ep Eb) as (nb & Enb & Hidb & -> & Hsb & Hcb).
  subst a b. cbn [port CopyNodeInfo].
  assert (∀ n m P, GetNode cfg (NODE_ID m) = Ok m →
    (∃ m', CopyNodeInfo m = CopyNodeInfo m' ∧ is_peer cfg n m' ∧ P m') ↔ is_peer cfg n m ∧ P m) as Hone.
  { intros n m P Em. split; [|eauto]. intros (m' & E & Hp & HP). injection E as Eid _ _.
    assert (m' = m) as -> by (destruct Hp as (_ & Em' & _); rewrite <- Eid, Em in Em'; by injection Em').
    done. }
  rewrite Hsa, Hca, Hsb, Hcb, !Hone by done.
  assert (is_peer cfg na nb ↔ is_peer cfg nb na) as Hsym by (split; by apply is_peer_sym).
  pose proof (initiates_one na nb Hne) as H1.
  split; [intros Hport; specialize (H1 Hport)|intros ??; assert (initiates na nb ∧ initiates nb na) as []
            by (split; by left)];
    destruct (decide (initiates na nb)), (decide (initiates nb na)); tauto.
Qed.

(** The plan of a node of [sample_document]. *)
Definition sample_plan (id : string) : NodeInfo * infos :=
  match create_infos sample_config (str id) with
  | Ok r => r
  | _ => (MkNodeInfo [] [] 0, Infos [] [])
  end.

Lemma infos_are_the_peers_witness :
  (info_id <$> serverInfos (sample_plan "P0").2) = [str "P1"]
  ∧ (info_id <$> clientInfos (sample_plan "P0").2) = [str "P2"; str "P3"]
  ∧ ∃ node, GetNode sample_config (str "P0") = Ok node ∧ (sample_plan "P0").1 = CopyNodeInfo node
    ∧ (∀ i, i ∈ serverInfos (sample_plan "P0").2
            ↔ ∃ m, i = CopyNodeInfo m ∧ is_peer sample_config node m ∧ initiates node m)
    ∧ (∀ i, i ∈ clientInfos (sample_plan "P0").2
            ↔ ∃ m, i = CopyNodeInfo m ∧ is_peer sample_config node m ∧ ¬ initiates node m).
Proof.
  split; [vm_compute; reflexivity|]. split; [vm_compute; reflexivity|].
  apply (infos_are_the_peers sample_document sample_config (str "P0")); vm_compute; reflexivity.
Defined.

Lemma both_ends_agree_witness :
  let a := sample_plan "P1" in
  let b := sample_plan "P2" in
  (0 < port a.1 ∨ 0 < port b.1 →
     (b.1 ∈ serverInfos a.2 ↔ a.1 ∈ clientInfos b.2)
     ∧ (b.1 ∈ clientInfos a.2 ↔ a.1 ∈ serverInfos b.2)
     ∧ ¬ (b.1 ∈ serverInfos a.2 ∧ b.1 ∈ clientInfos a.2))
  ∧ (port a.1 ≤ 0 → port b.1 ≤ 0 →
     (b.1 ∈ serverInfos a.2 ↔ a.1 ∈ serverInfos b.2)
     ∧ (b.1 ∉ clientInfos a.2) ∧ a.1 ∉ clientInfos b.2).
Proof.
  intros a b.
  apply (both_ends_agree sample_document sample_config (str "P1") (str "P2"));
    [vm_compute; reflexivity|vm_compute; congruence|vm_compute; reflexivity..].
Defined.
