(* ===== verification/EmpIO.v ===== *)
(** The channel built with [USE_EMP_IO] ([src/io_channel_impl.cpp],
    [src/channel.cpp]): the two ends of a task are joined by one [emp::NetIO], an
    ordered stream of bytes; every message id gets a connection of its own on a port
    that the listening end chooses and announces over that stream.  [emp::NetIO]
    itself is a library: an object is known here by the port it was made for, and
    [send_data] and [recv_data] append to and take from the stream. *)
From Stdlib Require Import Strings.Byte.
From S2P Require Import Prelude StdMap Json Config Topology.
#[local] Open Scope Z_scope.

Module EmpIO.

(** * The program *)

(** ** Creating the channel *)

Definition clone_tag : bytes := str "#clone#".

(** [s.find(pattern)]. *)
Fixpoint find_string (pattern s : bytes) (pos : nat) : option nat :=
  if bool_decide (pattern `prefix_of` s) then Some pos
  else match s with [] => None | _ :: s => find_string pattern s (S pos) end.

(** [atoi] of the C library: white space, a sign, digits; a value that is no [int] is
    undefined. *)
Fixpoint skip_space (s : bytes) : bytes :=
  match s with
  | b :: s' => let z := Z_of_byte b in
               if (z =? 32) || ((9 <=? z) && (z <=? 13)) then skip_space s' else s
  | [] => []
  end.
Fixpoint digits_value (acc : Z) (s : bytes) : Z :=
  match s with
  | b :: s => let z := Z_of_byte b in
              if (48 <=? z) && (z <=? 57) then digits_value (acc * 10 + (z - 48)) s else acc
  | [] => acc
  end.
Definition atoi (s : bytes) : outcome Z :=
  match skip_space s with
  | b :: s' =>
    if bool_decide (b = x2d) then int32 (- digits_value 0 s')
    else if bool_decide (b = x2b) then int32 (digits_value 0 s')
    else int32 (digits_value 0 (b :: s'))
  | [] => mret 0
  end.

Definition is_clone (task_id : bytes) : bool := bool_decide (is_Some (find_string clone_tag task_id 0)).

(** [CreateChannel]: the address to dial, if the node is the client, and the port. *)
Definition emp_endpoint (task_id : bytes) (nodeInfo : NodeInfo) (peers : infos)
    : outcome (option bytes * Z) :=
  '(ip, p) ← match serverInfos peers with
              | [] => mret (None, port nodeInfo)
              | [s] => mret (Some (c_str (address s)), port s)
              | _ => UB AssertFailed
              end;
  match find_string clone_tag task_id 0 with
  | None => mret (ip, p)
  | Some pos =>
    task_id_index ← atoi (c_str (drop (pos + length clone_tag) task_id));
    p ← int32 (p + task_id_index);
    mret (ip, p)
  end.

(** The members of [TCPChannel] that only this variant has. *)
Record channel := Channel {
  ip_ : bytes;
  port_ : Z;
  port_offset : Z;
  msgid2port_ : gmap bytes Z;
  msgid2io_ : gmap bytes Z                 (** the port of the object *)
}.

Definition TCPChannel_create (ip : option bytes) (port : Z) : channel :=
  Channel (default [] ip) port 100 ∅ ∅.

(** ** Ports *)

(** What the listening end sends for a new id. *)
Definition mapping (id : bytes) (new_port : Z) : bytes :=
  int_bytes (zlen id) ++ id ++ int_bytes new_port.

(** [recv_data(p, n)] returns when there are [n] bytes. *)
Definition recv_data (n : Z) (wire : bytes) : outcome (bytes * bytes) :=
  _ ← wait_until (n <=? zlen wire);
  mret (ztake n wire, zdrop n wire).

(** A turn of the loop of the dialling end. *)
Definition recv_mapping (wire : bytes) : outcome (bytes * Z * bytes) :=
  '(id_len, wire) ← recv_data 4 wire;
  let id_len := to_int (le_value id_len) in
  if id_len <? 0 then Throw length_error                    (* recv_id.resize(id_len) *)
  else
    '(recv_id, wire) ← recv_data id_len wire;
    '(recv_port, wire) ← recv_data 4 wire;
    mret (recv_id, to_int (le_value recv_port), wire).

(** [while (new_port == 0)].  A turn takes at least eight bytes off the stream. *)
Fixpoint port_loop (fuel : nat) (id : bytes) (new_port : Z) (msgid2port : gmap bytes Z) (wire : bytes)
    : outcome (Z * gmap bytes Z * bytes) :=
  if new_port =? 0 then
    match fuel with
    | O => Sleep
    | S fuel =>
      '(recv_id, recv_port, wire) ← recv_mapping wire;
      if bool_decide (id = recv_id) then port_loop fuel id recv_port msgid2port wire
      else port_loop fuel id new_port (<[recv_id := recv_port]> msgid2port) wire
    end
  else mret (new_port, msgid2port, wire).

Inductive sub_io := Existing (io : Z) | NewPort (new_port : Z).

(** First critical section of [GetSubIO]: a listening end puts on the stream what it
    sends, a dialling end takes from it. *)
Definition GetSubIO_begin (c : channel) (wire id : bytes) : outcome (sub_io * channel * bytes) :=
  match msgid2io_ c !! id with
  | Some io => mret (Existing io, c, wire)
  | None =>
    if bool_decide (ip_ c = []) then
      new_port ← int32 (port_ c + port_offset c);
      offset ← int32 (port_offset c + 1);
      let id_len := to_int (zlen id) in
      _ ← require (0 <=? id_len) OutOfBounds;
      mret (NewPort new_port,
            Channel (ip_ c) (port_ c) offset (msgid2port_ c) (msgid2io_ c),
            wire ++ int_bytes id_len ++ ztake id_len id ++ int_bytes new_port)
    else
      '(new_port, m, wire) ← port_loop (length wire) id (default 0 (msgid2port_ c !! id)) (msgid2port_ c) wire;
      mret (NewPort new_port, Channel (ip_ c) (port_ c) (port_offset c) m (msgid2io_ c), wire)
  end.

(** Second critical section, after the [emp::NetIO] for the port was made. *)
Definition GetSubIO_end (c : channel) (id : bytes) (new_io : Z) : channel :=
  Channel (ip_ c) (port_ c) (port_offset c) (msgid2port_ c) (<[id := new_io]> (msgid2io_ c)).

(** The whole call, when no other thread is in it. *)
Definition GetSubIO (c : channel) (wire id : bytes) : outcome (Z * channel * bytes) :=
  '(r, c, wire) ← GetSubIO_begin c wire id;
  match r with
  | Existing io => mret (io, c, wire)
  | NewPort new_port => mret (new_port, GetSubIO_end c id new_port, wire)
  end.

(** [Send] and [Recv]: what the data goes over.  A clone has one connection for all
    ids. *)
Inductive route := MainIO | SubIO (io : Z).

Definition route_of (task_id : bytes) (c : channel) (wire id : bytes) : outcome (route * channel * bytes) :=
  if is_clone task_id then mret (MainIO, c, wire)
  else '(io, c, wire) ← GetSubIO c wire id; mret (SubIO io, c, wire).

(** ** The two ends *)

(** [open] are the calls between their two sections: the id and the port. *)
Record ends := Ends {
  srv : channel;
  cli : channel;
  stream : bytes;                          (** from the listening to the dialling end *)
  srv_open : gmap bytes Z;
  cli_open : gmap bytes Z
}.

(** Steps of the threads; at each end the calls for one id come one after the other. *)
Inductive step : ends → ends → Prop :=
  | srv_begin s id p c w :
      srv_open s !! id = None → zlen id < 2 ^ 31 →
      GetSubIO_begin (srv s) (stream s) id = Ok (NewPort p, c, w) →
      step s (Ends c (cli s) w (<[id := p]> (srv_open s)) (cli_open s))
  | srv_end s id p :
      srv_open s !! id = Some p →
      step s (Ends (GetSubIO_end (srv s) id p) (cli s) (stream s) (delete id (srv_open s)) (cli_open s))
  | cli_begin s id p c w :
      cli_open s !! id = None →
      GetSubIO_begin (cli s) (stream s) id = Ok (NewPort p, c, w) →
      step s (Ends (srv s) c w (srv_open s) (<[id := p]> (cli_open s)))
  | cli_end s id p :
      cli_open s !! id = Some p →
      step s (Ends (srv s) (GetSubIO_end (cli s) id p) (stream s) (srv_open s) (delete id (cli_open s))).

(** Two channels that were just created. *)
Definition initial (s : ends) : Prop :=
  ∃ ip port, ip ≠ [] ∧ 0 ≤ port
    ∧ s = Ends (TCPChannel_create None port) (TCPChannel_create (Some ip) port) [] ∅ ∅.

Definition reachable (s : ends) : Prop := ∃ s0, initial s0 ∧ rtc step s0 s.

(** The port an end has or is about to have for an id. *)
Definition srv_port (s : ends) (id : bytes) (p : Z) : Prop :=
  srv_open s !! id = Some p ∨ msgid2io_ (srv s) !! id = Some p.
Definition cli_port (s : ends) (id : bytes) (p : Z) : Prop :=
  cli_open s !! id = Some p ∨ msgid2io_ (cli s) !! id = Some p.

(** * What both ends know *)

(** [ann] are the mappings announced so far, [n] of them taken by the dialling end. *)
Record agreed (s : ends) (ann : list (bytes * Z)) (n : nat) : Prop := {
  a_srv : ip_ (srv s) = [];
  a_cli : ip_ (cli s) ≠ [];
  a_base : 0 ≤ port_ (srv s);
  a_next : port_offset (srv s) = 100 + zlen ann;
  a_read : (n ≤ length ann)%nat;
  a_stream : stream s = concat ((λ m, mapping m.1 m.2) <$> drop n ann);
  a_ids : NoDup ann.*1;
  a_short : Forall (λ m : bytes * Z, zlen m.1 < 2 ^ 31) ann;
  a_ports (i : nat) id p : ann !! i = Some (id, p) → p = port_ (srv s) + 100 + Z.of_nat i ∧ p < 2 ^ 31;
  a_srv_port id p : srv_port s id p ↔ (id, p) ∈ ann;
  a_cli_port id p : cli_port s id p ∨ msgid2port_ (cli s) !! id = Some p → (id, p) ∈ take n ann;
  a_known id p : (id, p) ∈ take n ann → cli_port s id p ∨ msgid2port_ (cli s) !! id = Some p
}.

(** * Lemmas *)

Abbreviation announcements l := (concat ((λ m : bytes * Z, mapping m.1 m.2) <$> l)).

Lemma elem_of_take_in {A} (x : A) n l : x ∈ take n l → x ∈ l.
Proof. intros (i & E & _)%elem_of_take. by eapply list_elem_of_lookup_2. Qed.

(** What can be announced. *)
Definition valid (m : bytes * Z) : Prop := zlen m.1 < 2 ^ 31 ∧ 0 < m.2 < 2 ^ 31.

Lemma recv_data_app n l rest : zlen l = n → recv_data n (l ++ rest) = Ok (l, rest).
Proof.
  intros H. unfold recv_data. rewrite (proj2 (Z.leb_le _ _)) by zlia. cbn [wait_until mbind outcome_bind].
  by rewrite ztake_app_eq, zdrop_app_eq.
Qed.

(** A mapping is read back from the stream. *)
Lemma recv_mapping_ok id p rest :
  valid (id, p) → recv_mapping (mapping id p ++ rest) = Ok (id, p, rest).
Proof.
  intros [Hid Hp]. cbn in Hid, Hp. unfold recv_mapping, mapping. rewrite <- !app_assoc.
  rewrite recv_data_app by apply zlen_int_bytes. cbn [mbind outcome_bind].
  pose proof (zlen_nonneg id). rewrite int_bytes_value, (proj2 (Z.ltb_ge _ _)), recv_data_app by (done || lia).
  cbn [mbind outcome_bind]. rewrite recv_data_app by apply zlen_int_bytes. cbn [mbind outcome_bind].
  by rewrite int_bytes_value by lia.
Qed.

Lemma recv_mapping_empty : recv_mapping [] = Sleep.
Proof. done. Qed.

Lemma port_loop_sleeps fuel id m l :
  Forall valid l → id ∉ l.*1 → port_loop fuel id 0 m (announcements l) = Sleep.
Proof.
  revert m l. induction fuel as [|fuel IH]; intros m l Hv Hid; [done|].
  destruct l as [|[x q] l]; [done|]. apply Forall_cons in Hv as [Hx Hv].
  apply not_elem_of_cons in Hid as [Hne Hid]. cbn [fmap list_fmap concat fst snd].
  cbn [port_loop Z.eqb]. rewrite recv_mapping_ok by done. cbn [mbind outcome_bind].
  rewrite bool_decide_false by done. by apply IH.
Qed.

Lemma port_loop_found fuel id p l : ∀ m,
  Forall valid l → (length l ≤ fuel)%nat → NoDup l.*1 → (id, p) ∈ l →
  ∃ k m', l !! k = Some (id, p)
    ∧ port_loop fuel id 0 m (announcements l) = Ok (p, m', announcements (drop (S k) l))
    ∧ ∀ x q, m' !! x = Some q ↔ (x, q) ∈ take k l ∨ ((x ∉ (take k l).*1) ∧ m !! x = Some q).
Proof.
  revert l. induction fuel as [|fuel IH]; intros l m Hv Hf Hnd Hin.
  { destruct l; [by apply elem_of_nil in Hin|cbn in Hf; lia]. }
  destruct l as [|[x q] l]; [by apply elem_of_nil in Hin|]. apply Forall_cons in Hv as [Hx Hv].
  cbn [fmap list_fmap fst] in Hnd. apply NoDup_cons in Hnd as [Hnin Hnd].
  cbn [fmap list_fmap concat fst snd port_loop Z.eqb]. rewrite recv_mapping_ok by done. cbn [mbind outcome_bind].
  apply elem_of_cons in Hin as [[= <- <-]|Hin].
  - rewrite bool_decide_true by done. exists O, m. split; [done|]. split.
    + destruct Hx as [_ Hp]. cbn in Hp.
      destruct fuel; cbn [port_loop]; by rewrite (proj2 (Z.eqb_neq _ _)) by lia.
    + intros y r. cbn. set_solver.
  - assert (id ≠ x) as Hne.
    { intros ->. apply Hnin. apply list_elem_of_fmap. by exists (x, p). }
    rewrite bool_decide_false by done.
    destruct (IH l (<[x := q]> m) Hv ltac:(cbn in Hf; lia) Hnd Hin) as (k & m' & Hk & -> & Hm').
    exists (S k), m'. split; [done|]. split; [done|].
    intros y r. rewrite Hm'. cbn [take fmap list_fmap fst]. rewrite elem_of_cons, not_elem_of_cons.
    assert (x ∉ (take k l).*1) as Hxk.
    { intros (z & -> & Hz%elem_of_take_in)%list_elem_of_fmap. apply Hnin, list_elem_of_fmap. eauto. }
    destruct (decide (y = x)) as [->|Hy].
    + rewrite lookup_insert_eq. split.
      * intros [Hz|[_ [= ->]]]; [by left; right|by left; left].
      * intros [[[= ->]|Hz]|[[Hz _] _]]; [by right|by left|done].
    + rewrite lookup_insert_ne by done. split.
      * intros [Hz|[Hz Hm]]; [by left; right|by right].
      * intros [[[= -> _]|Hz]|[[_ Hz] Hm]]; [done|by left|by right].
Qed.

(** ** The invariant *)

Lemma unique_port (ann : list (bytes * Z)) id p q :
  NoDup ann.*1 → (id, p) ∈ ann → (id, q) ∈ ann → p = q.
Proof.
  intros Hnd (i & Hi)%list_elem_of_lookup (j & Hj)%list_elem_of_lookup.
  assert (i = j) as ->; [|congruence].
  apply (NoDup_lookup _ _ _ id Hnd); rewrite list_lookup_fmap.
  - by rewrite Hi.
  - by rewrite Hj.
Qed.

Lemma agreed_valid s ann n : agreed s ann n → Forall valid ann.
Proof.
  intros H. apply Forall_lookup. intros i [id p] E. pose proof (a_ports _ _ _ H i id p E).
  pose proof (a_base _ _ _ H). pose proof (a_short _ _ _ H) as Hs. rewrite Forall_lookup in Hs.
  split; [by apply (Hs i _ E)|cbn; lia].
Qed.

Lemma cli_port_announced s ann n id p : agreed s ann n → cli_port s id p → (id, p) ∈ ann.
Proof.
  intros H Hc. apply (elem_of_take_in _ n), (a_cli_port _ _ _ H). by left.
Qed.

Lemma initial_agreed s : initial s → agreed s [] 0.
Proof.
  intros (ip & p & Hip & Hp & ->).
  split; unfold srv_port, cli_port; cbn; try done; [apply NoDup_nil_2|..]; intros id q; rewrite ?lookup_empty.
  - split; [by intros [|]|by intros ?%elem_of_nil].
  - by intros [[|]|].
  - by intros ?%elem_of_nil.
Qed.

(** What the first section does at each end. *)
Lemma srv_begin_inv s ann n id p c w :
  agreed s ann n → zlen id < 2 ^ 31 → GetSubIO_begin (srv s) (stream s) id = Ok (NewPort p, c, w) →
  msgid2io_ (srv s) !! id = None ∧ p = port_ (srv s) + 100 + zlen ann ∧ p < 2 ^ 31
  ∧ c = Channel (ip_ (srv s)) (port_ (srv s)) (100 + zlen (ann ++ [(id, p)])) (msgid2port_ (srv s)) (msgid2io_ (srv s))
  ∧ w = stream s ++ mapping id p.
Proof.
  intros H Hid E. unfold GetSubIO_begin in E. destruct (msgid2io_ (srv s) !! id); [done|].
  rewrite bool_decide_true in E by apply (a_srv _ _ _ H). unfold int32 in E.
  rewrite (a_next _ _ _ H) in E. destruct (int_ok (port_ (srv s) + _)) eqn:Ep; [|done].
  destruct (int_ok (100 + zlen ann + 1)); [|done]. cbn [mbind outcome_bind] in E.
  apply bind_Ok in E as ([] & El & E). apply require_Ok in El. injection E as <- <- <-.
  rewrite to_int_small by zlia. rewrite ztake_ge by lia. unfold int_ok in Ep.
  split_and!; [done|lia|lia|f_equal; rewrite zlen_app, zlen_cons; change (zlen []) with 0; lia|done].
Qed.

Lemma announcements_length l : (length l ≤ length (announcements l))%nat.
Proof.
  induction l as [|[id p] l IH]; [done|]. cbn [fmap list_fmap concat fst snd].
  assert (1 ≤ length (mapping id p))%nat.
  { unfold mapping, int_bytes. rewrite !length_app, !length_le_bytes. lia. }
  rewrite length_app. cbn [length]. lia.
Qed.

Lemma drop_elem {A} (l : list A) n x : x ∈ l → x ∉ take n l → x ∈ drop n l.
Proof. intros H Hn. rewrite <- (take_drop n l) in H. by apply elem_of_app in H as [|]. Qed.

(** The dialling end finds every announced id, and no other. *)
(** The loop over the announcements finds a port that is not known yet. *)
Lemma cli_reads s ann n id :
  agreed s ann n → msgid2port_ (cli s) !! id = None → (∀ q, ¬ cli_port s id q) →
  match port_loop (length (stream s)) id 0 (msgid2port_ (cli s)) (stream s) with
  | Ok (p, m, w) => ∃ n', (id, p) ∈ take n' ann ∧ (n ≤ n' ≤ length ann)%nat ∧ w = announcements (drop n' ann)
      ∧ ∀ x q, (x = id ∧ q = p ∨ m !! x = Some q ∨ cli_port s x q) ↔ (x, q) ∈ take n' ann
  | Sleep => id ∉ ann.*1
  | _ => False
  end.
Proof.
  intros H Em Hno. pose proof (agreed_valid _ _ _ H) as Hv.
  assert (∀ x q, cli_port s x q ∨ msgid2port_ (cli s) !! x = Some q ↔ (x, q) ∈ take n ann) as Hknown.
  { intros x q. split; [apply (a_cli_port _ _ _ H)|apply (a_known _ _ _ H)]. }
  assert (id ∉ (take n ann).*1) as Hnin.
  { intros ([x q] & -> & Hin)%list_elem_of_fmap. apply Hknown in Hin as [Hc|Hc]; [by apply (Hno q)|].
    cbn in Em. congruence. }
  rewrite (a_stream _ _ _ H).
  assert (Forall valid (drop n ann)) as Hvd by (by apply Forall_drop).
  destruct (decide (id ∈ ann.*1)) as [Hin|Hnin2].
  2: { rewrite port_loop_sleeps; [done|done|]. rewrite fmap_drop.
       intros (i & E)%list_elem_of_lookup. rewrite lookup_drop in E. apply Hnin2. by eapply list_elem_of_lookup_2. }
  apply list_elem_of_fmap in Hin as ([id' p] & Eid & Hin). cbn in Eid. subst id'.
  assert ((id, p) ∈ drop n ann) as Hd.
  { apply drop_elem; [done|]. intros Ht. apply Hnin, list_elem_of_fmap. by exists (id, p). }
  assert (NoDup (drop n ann).*1) as Hnd.
  { rewrite fmap_drop. pose proof (a_ids _ _ _ H) as Ha. rewrite <- (take_drop n ann.*1) in Ha.
    by apply NoDup_app in Ha as (_ & _ & ?). }
  destruct (port_loop_found (length (announcements (drop n ann))) id p (drop n ann) (msgid2port_ (cli s)) Hvd
    (announcements_length _) Hnd Hd) as (k & m' & Hk & -> & Hm').
  assert (take (n + S k) ann = take n ann ++ take k (drop n ann) ++ [(id, p)]) as Etake.
  { rewrite <- take_take_drop. by rewrite (take_S_r _ _ _ Hk). }
  exists (n + S k)%nat. rewrite Etake, drop_drop.
  split_and!; [set_solver|lia| |done|].
  { rewrite lookup_drop in Hk. apply lookup_lt_Some in Hk. lia. }
  intros x q. rewrite Hm', !elem_of_app, list_elem_of_singleton, <- Hknown.
  split.
  + intros [[-> ->]|[[Hx|[Hx Hm]]|Hc]]; auto.
  + intros [[Hc|Hm]|[Hx|[= -> ->]]]; auto.
    destruct (decide (x ∈ (take k (drop n ann)).*1)) as [Hx|Hx]; [|by auto].
    exfalso. assert ((x, q) ∈ take n ann) as Hx1 by (apply Hknown; auto).
    apply list_elem_of_fmap in Hx as ([x' q'] & E & Hx2). cbn in E. subst x'.
    pose proof (a_ids _ _ _ H) as Ha. rewrite <- (take_drop n ann), fmap_app in Ha.
    apply NoDup_app in Ha as (_ & Ha & _). apply (Ha x).
    * apply list_elem_of_fmap. by exists (x, q).
    * apply list_elem_of_fmap. exists (x, q'). split; [done|]. by eapply elem_of_take_in.
Qed.

Lemma cli_begin_ok s ann n id :
  agreed s ann n → msgid2io_ (cli s) !! id = None → cli_open s !! id = None →
  match GetSubIO_begin (cli s) (stream s) id with
  | Ok (r, c, w) => ∃ p n', r = NewPort p ∧ (id, p) ∈ take n' ann ∧ (n ≤ n' ≤ length ann)%nat
      ∧ w = announcements (drop n' ann)
      ∧ ip_ c = ip_ (cli s) ∧ msgid2io_ c = msgid2io_ (cli s)
      ∧ ∀ x q, (x = id ∧ q = p ∨ msgid2port_ c !! x = Some q ∨ cli_port s x q) ↔ (x, q) ∈ take n' ann
  | Sleep => id ∉ ann.*1
  | _ => False
  end.
Proof.
  intros H Hio Hopen. unfold GetSubIO_begin. rewrite Hio, bool_decide_false by apply (a_cli _ _ _ H).
  pose proof (agreed_valid _ _ _ H) as Hv.
  assert (∀ x q, cli_port s x q ∨ msgid2port_ (cli s) !! x = Some q ↔ (x, q) ∈ take n ann) as Hknown.
  { intros x q. split; [apply (a_cli_port _ _ _ H)|apply (a_known _ _ _ H)]. }
  assert (∀ q, ¬ cli_port s id q) as Hno.
  { intros q [E|E]; congruence. }
  destruct (msgid2port_ (cli s) !! id) as [p|] eqn:Em.
  - change (default 0 (Some p)) with p. assert ((id, p) ∈ take n ann) as Hin by (apply Hknown; by right).
    assert (0 < p) as Hp.
    { apply elem_of_take_in in Hin. rewrite Forall_forall in Hv. by destruct (Hv _ Hin) as [_ [? _]]. }
    destruct (length (stream s)) eqn:El; cbn [port_loop]; rewrite (proj2 (Z.eqb_neq _ _)) by lia;
      cbn [mbind outcome_bind mret outcome_ret ip_ msgid2io_ msgid2port_];
      exists p, n; (split_and!; [done|done|done|apply (a_read _ _ _ H)|apply (a_stream _ _ _ H)|done|done|]);
      intros x q; rewrite <- Hknown; naive_solver.
  - change (default 0 None) with 0. pose proof (cli_reads s ann n id H Em Hno) as Hr.
    destruct (port_loop (length (stream s)) id 0 (msgid2port_ (cli s)) (stream s)) as [[[p m] w]| | |];
      cbn [mbind outcome_bind mret outcome_ret ip_ msgid2io_ msgid2port_]; [|exact Hr..].
    destruct Hr as (n' & Hin & Hn & -> & Hm). exists p, n'. split_and!; [done|exact Hin|lia|lia|done|done|done|exact Hm].
Qed.

Lemma open_not_known s ann n id :
  agreed s ann n → srv_open s !! id = None → msgid2io_ (srv s) !! id = None → id ∉ ann.*1.
Proof.
  intros H Ho Hio ([x q] & -> & Hin)%list_elem_of_fmap. apply (a_srv_port _ _ _ H) in Hin as [E|E];
    cbn in *; congruence.
Qed.

Definition some_agreed (s : ends) : Prop := ∃ ann n, agreed s ann n.

Lemma agreed_srv_begin s ann n id p c w :
  agreed s ann n → srv_open s !! id = None → zlen id < 2 ^ 31 →
  GetSubIO_begin (srv s) (stream s) id = Ok (NewPort p, c, w) →
  some_agreed (Ends c (cli s) w (<[id := p]> (srv_open s)) (cli_open s)).
Proof.
  intros H Ho Hid E.
  destruct (srv_begin_inv s ann n id p c w H Hid E) as (Hio & Ep & Hmax & -> & ->).
  pose proof (open_not_known _ _ _ _ H Ho Hio) as Hnin.
  exists (ann ++ [(id, p)]), n. destruct H.
  split; unfold srv_port, cli_port in *; cbn [srv cli stream srv_open cli_open ip_ port_ port_offset msgid2port_ msgid2io_]; try done;
    rewrite ?take_app_le, ?drop_app_le by done; try done.
  + rewrite length_app. lia.
  + rewrite fmap_app, concat_app, a_stream0. cbn. by rewrite app_nil_r.
  + rewrite fmap_app. apply NoDup_app. split_and!; [done|set_solver|apply NoDup_singleton].
  + apply Forall_app_2; [done|]. by apply Forall_singleton.
  + intros i x q [Hi|[Hi Hi']]%lookup_app_Some; [by eapply a_ports0|].
    destruct (i - length ann)%nat eqn:Ei; [|done]. injection Hi' as <- <-. unfold zlen in Ep. lia.
  + intros x q. rewrite elem_of_app, list_elem_of_singleton, <- a_srv_port0.
    destruct (decide (x = id)) as [->|].
    * rewrite lookup_insert_eq. naive_solver congruence.
    * rewrite lookup_insert_ne by done. naive_solver.
Qed.

Lemma agreed_srv_end s ann n id p :
  agreed s ann n → srv_open s !! id = Some p →
  some_agreed (Ends (GetSubIO_end (srv s) id p) (cli s) (stream s) (delete id (srv_open s)) (cli_open s)).
Proof.
  intros H Ho.
  exists ann, n. assert ((id, p) ∈ ann) as Hin by (apply (a_srv_port _ _ _ H); by left).
  destruct H.
  split; unfold srv_port, cli_port in *; cbn [srv cli stream srv_open cli_open GetSubIO_end ip_ port_ port_offset msgid2port_ msgid2io_]; try done.
  intros x q. destruct (decide (x = id)) as [->|].
  + rewrite lookup_delete_eq, lookup_insert_eq. split; [intros [|[= <-]]; done|].
    intros Hq. right. f_equal. by eapply unique_port.
  + by rewrite lookup_delete_ne, lookup_insert_ne.
Qed.

Lemma agreed_cli_begin s ann n id p c w :
  agreed s ann n → cli_open s !! id = None → GetSubIO_begin (cli s) (stream s) id = Ok (NewPort p, c, w) →
  some_agreed (Ends (srv s) c w (srv_open s) (<[id := p]> (cli_open s))).
Proof.
  intros H Ho E.
  assert (msgid2io_ (cli s) !! id = None) as Hio.
  { unfold GetSubIO_begin in E. by destruct (msgid2io_ (cli s) !! id). }
  pose proof (cli_begin_ok s ann n id H Hio Ho) as Hok. rewrite E in Hok.
  destruct Hok as (p' & n' & [= <-] & Hin & Hn & -> & Eip & Eio & Hk).
  assert (∀ x q, ((<[id := p]> (cli_open s) !! x = Some q ∨ msgid2io_ c !! x = Some q)
    ∨ msgid2port_ c !! x = Some q) ↔ (x, q) ∈ take n' ann) as Hk'.
  { intros x q. rewrite <- Hk, Eio. unfold cli_port. destruct (decide (x = id)) as [->|].
    - rewrite lookup_insert_eq, Ho, Hio. naive_solver congruence.
    - rewrite lookup_insert_ne by done. naive_solver. }
  exists ann, n'. destruct H.
  split; unfold srv_port, cli_port in *; cbn [srv cli stream srv_open cli_open]; try done; [by rewrite Eip|lia|..];
    intros x q; apply Hk'.
Qed.

Lemma agreed_cli_end s ann n id p :
  agreed s ann n → cli_open s !! id = Some p →
  some_agreed (Ends (srv s) (GetSubIO_end (cli s) id p) (stream s) (srv_open s) (delete id (cli_open s))).
Proof.
  intros H Ho.
  exists ann, n. assert ((id, p) ∈ take n ann) as Hin by (apply (a_cli_port _ _ _ H); left; by left).
  pose proof (λ q, unique_port ann id p q (a_ids _ _ _ H) (elem_of_take_in _ _ _ Hin)) as Huniq.
  assert (∀ x q, ((delete id (cli_open s) !! x = Some q ∨ <[id := p]> (msgid2io_ (cli s)) !! x = Some q)
    ∨ msgid2port_ (cli s) !! x = Some q) ↔ (x, q) ∈ take n ann) as Hk.
  { intros x q. destruct (decide (x = id)) as [->|].
    - rewrite lookup_delete_eq, lookup_insert_eq. split.
      + intros [[|[= <-]]|Hm]; [done|done|]. apply (a_cli_port _ _ _ H). by right.
      + intros Hq. left. right. f_equal. apply Huniq. by eapply elem_of_take_in.
    - rewrite lookup_delete_ne, lookup_insert_ne by done.
      split; [apply (a_cli_port _ _ _ H)|apply (a_known _ _ _ H)]. }
  destruct H.
  split; unfold srv_port, cli_port in *; cbn [srv cli stream srv_open cli_open GetSubIO_end ip_ port_ port_offset msgid2port_ msgid2io_];
    try done; intros x q; apply Hk.
Qed.

#[export] Instance agreed_invariant : Invariant step some_agreed.
Proof.
  intros s s' (ann & n & H) Hs. destruct Hs;
    [by eapply agreed_srv_begin|by eapply agreed_srv_end|by eapply agreed_cli_begin|by eapply agreed_cli_end].
Qed.

Lemma reachable_agreed s : reachable s → some_agreed s.
Proof.
  intros (s0 & H0 & Hr). apply (invariant_rtc step some_agreed s0); [|done].
  exists [], O. by apply initial_agreed.
Qed.

(** * Properties *)

(** C31: however the threads of the two ends interleave, as long as each end makes its
    calls for one id one after the other, both ends use the same port for an id, and
    two ids never share a port. *)
Theorem sub_ports_agree s id p :
  reachable s → cli_port s id p →
  srv_port s id p
  ∧ (∀ q, srv_port s id q → q = p)
  ∧ ∀ id', srv_port s id' p → id' = id.
Proof.
  intros (ann & n & H)%reachable_agreed Hc. pose proof (cli_port_announced s ann n id p H Hc) as Hin.
  split_and!; [by apply (a_srv_port _ _ _ H)| |].
  - intros q Hq%(a_srv_port _ _ _ H). by eapply unique_port; [apply (a_ids _ _ _ H)|..].
  - intros id' Hp%(a_srv_port _ _ _ H).
    apply list_elem_of_lookup in Hin as [i Hi], Hp as [j Hj].
    destruct (a_ports _ _ _ H i id p Hi) as [Ei _], (a_ports _ _ _ H j id' p Hj) as [Ej _].
    assert (i = j) as -> by lia. rewrite Hi in Hj. by injection Hj as ->.
Qed.

(** The dialling end learns every port it asks for: once the listening end has
    chosen a port for an id, [GetSubIO] for that id takes exactly that port off the
    stream or out of the ports it kept, and until then it waits. *)
Theorem announced_port_found s id :
  reachable s → cli_open s !! id = None → msgid2io_ (cli s) !! id = None →
  (∀ p, srv_port s id p → ∃ c w, GetSubIO_begin (cli s) (stream s) id = Ok (NewPort p, c, w))
  ∧ ((∀ p, ¬ srv_port s id p) → GetSubIO_begin (cli s) (stream s) id = Sleep).
Proof.
  intros (ann & n & H)%reachable_agreed Ho Hio. pose proof (cli_begin_ok s ann n id H Hio Ho) as Hok.
  destruct (GetSubIO_begin (cli s) (stream s) id) as [[[r c] w]| | |]; [| |done..].
  - destruct Hok as (p & n' & -> & Hin%elem_of_take_in & _). split.
    + intros q Hq%(a_srv_port _ _ _ H). exists c, w. repeat f_equal.
      by eapply unique_port; [apply (a_ids _ _ _ H)|..].
    + intros Hno. by destruct (Hno p); apply (a_srv_port _ _ _ H).
  - split; [|done]. intros p Hp%(a_srv_port _ _ _ H). destruct Hok. apply list_elem_of_fmap. by exists (id, p).
Qed.

(** Two threads of an end that ask for the same new id at the same time are both told
    that there is no connection yet: two ports are announced for it, and the ends may
    keep different ones. *)
Lemma same_id_race :
  let id := str "x" in
  let s0 := TCPChannel_create None 9000 in
  let c0 := TCPChannel_create (Some (str "host")) 9000 in
  ∃ s1 w1 s2 w2 c1 v1 c2 v2,
    GetSubIO_begin s0 [] id = Ok (NewPort 9100, s1, w1)
    ∧ GetSubIO_begin s1 w1 id = Ok (NewPort 9101, s2, w2)
    ∧ GetSubIO_begin c0 w2 id = Ok (NewPort 9100, c1, v1)
    ∧ GetSubIO_begin c1 v1 id = Ok (NewPort 9101, c2, v2)
    ∧ msgid2io_ (GetSubIO_end (GetSubIO_end s2 id 9100) id 9101) !! id = Some 9101
    ∧ msgid2io_ (GetSubIO_end (GetSubIO_end c2 id 9101) id 9100) !! id = Some 9100.
Proof.
  intros id s0 c0. do 8 eexists. do 5 (split; [vm_compute; reflexivity|]). vm_compute. reflexivity.
Qed.

(** The task whose clone index is 100 listens on the port of the first sub-connection
    of the task it is a clone of. *)
Lemma clone_takes_sub_port :
  let info := MkNodeInfo (str "P1") (str "host") 9000 in
  emp_endpoint (str "task#clone#100") info (Infos [] []) = Ok (None, 9100)
  ∧ ∃ c w, GetSubIO (TCPChannel_create None 9000) [] (str "x") = Ok (9100, c, w).
Proof. split; [vm_compute; reflexivity|]. do 2 eexists. vm_compute. reflexivity. Qed.

(** * Witnesses *)

(** The listening end announced [x] and [y]; the dialling end asked for [y]. *)
Definition sample_ends : ends :=
  let s := TCPChannel_create None 9000 in
  let c := TCPChannel_create (Some (str "host")) 9000 in
  match GetSubIO_begin s [] (str "x") with
  | Ok (_, s, w) =>
    match GetSubIO_begin s w (str "y") with
    | Ok (_, s, w) =>
      match GetSubIO_begin c w (str "y") with
      | Ok (_, c, w) => Ends s c w {[ str "y" := 9101; str "x" := 9100 ]} {[ str "y" := 9101 ]}
      | _ => Ends s c w ∅ ∅
      end
    | _ => Ends s c w ∅ ∅
    end
  | _ => Ends s c [] ∅ ∅
  end.

Lemma sample_ends_reachable : reachable sample_ends.
Proof.
  eexists. split; [exists (str "host"), 9000; by split_and!|].
  eapply rtc_l; [apply (srv_begin _ (str "x")); [reflexivity|done|vm_compute; reflexivity]|].
  eapply rtc_l; [apply (srv_begin _ (str "y")); [reflexivity|done|vm_compute; reflexivity]|].
  eapply rtc_l; [apply (cli_begin _ (str "y")); [reflexivity|vm_compute; reflexivity]|].
  vm_compute. reflexivity.
Qed.

Lemma sub_ports_agree_witness :
  srv_port sample_ends (str "y") 9101
  ∧ (∀ q, srv_port sample_ends (str "y") q → q = 9101)
  ∧ ∀ id', srv_port sample_ends id' 9101 → id' = str "y".
Proof.
  apply (sub_ports_agree sample_ends (str "y") 9101 sample_ends_reachable). left. vm_compute. reflexivity.
Defined.

Lemma announced_port_found_witness :
  (∀ p, srv_port sample_ends (str "x") p →
     ∃ c w, GetSubIO_begin (cli sample_ends) (stream sample_ends) (str "x") = Ok (NewPort p, c, w))
  ∧ ((∀ p, ¬ srv_port sample_ends (str "x") p) →
     GetSubIO_begin (cli sample_ends) (stream sample_ends) (str "x") = Sleep).
Proof.
  apply (announced_port_found sample_ends (str "x") sample_ends_reachable); vm_compute; reflexivity.
Defined.
End EmpIO.
