(* ===== verification/ChannelPool.v ===== *)
(** The channels of a process ([src/channel.cpp]): [CreateChannel] and
    [DestroyInternalChannel] with the pool [g_channel2task] / [g_creating_task],
    and the [Get..NodeIDs] caches.

    The parts of [CreateChannel] under [g_channel2task_mtx] are the steps of a
    transition system; the connections are opened between them, without the lock,
    with a result the model leaves open. *)
From Stdlib Require Import Strings.Byte.
From S2P Require Import Prelude StdMap Json Config Codec Topology.
#[local] Open Scope Z_scope.

(** * The program *)

(** [TCPChannel], without the network object behind it. *)
Record TCPChannel := MkTCPChannel {
  task_id_ : bytes;
  node_id_ : bytes;
  config_ : ChannelConfig;
  connected_nodes_ : list bytes
}.

Definition SetConnectedNodeIDs (connected_nodes : list bytes) (c : TCPChannel) : TCPChannel :=
  MkTCPChannel (task_id_ c) (node_id_ c) (config_ c) connected_nodes.

Definition getDataNodeIDs (c : TCPChannel) : list bytes := data_nodes_ (config_ c).
Definition getComputationNodeIDs (c : TCPChannel) : smap Z := compute_nodes_ (config_ c).
Definition getResultNodeIDs (c : TCPChannel) : list bytes := result_nodes_ (config_ c).
Definition getCurrentNodeID (c : TCPChannel) : bytes := node_id_ c.
Definition getConnectedNodeIDs (c : TCPChannel) : list bytes := connected_nodes_ c.

(** What the caches point to. *)
Inductive blob := BString (p : bytes) | BVec (v : NodeIDVec) | BMap (m : NodeIDMap).

(** The five global caches: [g_current_node_map], [g_data_node_map],
    [g_computation_node_map], [g_result_node_map], [g_connected_node_map]. *)
Inductive cache := CurrentNode | DataNodes | ComputationNodes | ResultNodes | ConnectedNodes.

#[global] Instance cache_eq_dec : EqDecision cache.
Proof. solve_decision. Defined.
#[global] Instance cache_countable : Countable cache.
Proof.
  refine (inj_countable'
    (λ k, match k with CurrentNode => 0%N | DataNodes => 1%N | ComputationNodes => 2%N
                     | ResultNodes => 3%N | ConnectedNodes => 4%N end)
    (λ n, match n with 0%N => CurrentNode | 1%N => DataNodes | 2%N => ComputationNodes
                     | 3%N => ResultNodes | _ => ConnectedNodes end) _).
  by intros [].
Defined.

(** The globals of the file and the heap they point into.  Addresses are numbers,
    new ones come from [fresh_]. *)
Record pool := Pool {
  channel2task : gmap Z bytes;
  creating_task : gset bytes;
  caches : gmap (cache * Z) Z;            (** cache, channel -> what it hands out *)
  channels : gmap Z TCPChannel;           (** the live channel objects *)
  blobs : gmap Z blob;                    (** the live encoded objects *)
  fresh_ : Z
}.

Definition pool_init : pool := Pool ∅ ∅ ∅ ∅ ∅ 1.

(** ** Creating *)

(** The search of the pool for a channel of the task. *)
Definition find_task (task_id : bytes) (m : gmap Z bytes) : option Z :=
  fst <$> List.find (λ p, bool_decide (p.2 = task_id)) (map_to_list m).

Inductive lookup_result := Found (channel : Z) | Started (p : pool).

(** First critical section of [CreateChannel]. *)
Definition create_begin (p : pool) (task_id : bytes) : outcome lookup_result :=
  _ ← wait_until (bool_decide (task_id ∉ creating_task p));
  match find_task task_id (channel2task p) with
  | Some channel => mret (Found channel)
  | None => mret (Started (Pool (channel2task p) ({[task_id]} ∪ creating_task p) (caches p)
                                (channels p) (blobs p) (fresh_ p)))
  end.

(** After a successful [init]: the channel object, and the second critical
    section. *)
Definition create_end (p : pool) (task_id : bytes) (nodeInfo : NodeInfo) (peers : infos)
    (config : ChannelConfig) : outcome (Z * pool) :=
  let tcp_channel := fresh_ p in
  let connected_nodes := (info_id <$> clientInfos peers) ++ (info_id <$> serverInfos peers) in
  let object := SetConnectedNodeIDs connected_nodes (MkTCPChannel task_id (info_id nodeInfo) config []) in
  _ ← require (bool_decide (task_id ∈ creating_task p)) BadIterator;   (* erase(find(task_id)) *)
  mret (tcp_channel,
        Pool (<[tcp_channel := task_id]> (channel2task p)) (creating_task p ∖ {[task_id]}) (caches p)
             (<[tcp_channel := object]> (channels p)) (blobs p) (fresh_ p + 1)).

(** The whole call, when no other thread runs; [init_ok] is the result of
    [net_io->init()]. *)
Definition CreateChannel (p : pool) (task_id : bytes) (nodeInfo : NodeInfo) (peers : infos)
    (config : ChannelConfig) (init_ok : bool) : outcome (option Z * pool) :=
  r ← create_begin p task_id;
  match r with
  | Found channel => mret (Some channel, p)
  | Started p =>
    if init_ok then
      '(channel, p) ← create_end p task_id nodeInfo peers config;
      mret (Some channel, p)
    else mret (None, p)
  end.

(** [CreateInternalChannel]. *)
Definition CreateInternalChannel (read_lines : bytes → option (list bytes))
    (Parse : bytes → option json) (p : pool) (task_id node_id config_str : bytes) (init_ok : bool)
    : outcome (option Z * pool) :=
  config ← ChannelConfig_create read_lines Parse config_str;
  '(node_info, peers) ← create_infos config node_id;
  CreateChannel p task_id node_info peers config init_ok.

(** ** Destroying *)

(** [DestroyCurrentNode] to [DestroyConnectedNodes]: frees what the cache holds
    for the channel. *)
Definition destroy_cached (k : cache) (p : pool) (channel : Z) : outcome pool :=
  match caches p !! (k, channel) with
  | None => mret p
  | Some ptr =>
    _ ← require (bool_decide (is_Some (blobs p !! ptr))) DoubleFree;
    mret (Pool (channel2task p) (creating_task p) (delete (k, channel) (caches p))
               (channels p) (delete ptr (blobs p)) (fresh_ p))
  end.

Definition DestroyCurrentNode := destroy_cached CurrentNode.
Definition DestroyDataNodes := destroy_cached DataNodes.
Definition DestroyComputationNodes := destroy_cached ComputationNodes.
Definition DestroyResultNodes := destroy_cached ResultNodes.
Definition DestroyConnectedNodes := destroy_cached ConnectedNodes.

Definition delete_channel (p : pool) (channel : Z) : outcome pool :=
  _ ← require (bool_decide (is_Some (channels p !! channel))) DoubleFree;
  mret (Pool (channel2task p) (creating_task p) (caches p) (delete channel (channels p))
             (blobs p) (fresh_ p)).

(** A channel that is not in the pool is only logged before [iter->second]. *)
Definition DestroyInternalChannel (p : pool) (channel : Z) : outcome pool :=
  match channel2task p !! channel with
  | None => UB BadIterator
  | Some _ =>
    let p := Pool (delete channel (channel2task p)) (creating_task p) (caches p) (channels p)
                  (blobs p) (fresh_ p) in
    p ← DestroyCurrentNode p channel;
    p ← DestroyDataNodes p channel;
    p ← DestroyComputationNodes p channel;
    p ← DestroyResultNodes p channel;
    p ← DestroyConnectedNodes p channel;
    delete_channel p channel
  end.

(** ** The caches *)

(** What a cache hands out for a channel. *)
Definition encode (k : cache) (c : TCPChannel) : outcome blob :=
  match k with
  | CurrentNode => BString <$> encode_string (getCurrentNodeID c)
  | DataNodes => BVec <$> encode_vector (getDataNodeIDs c)
  | ComputationNodes => BMap <$> encode_map (getComputationNodeIDs c)
  | ResultNodes => BVec <$> encode_vector (getResultNodeIDs c)
  | ConnectedNodes => BVec <$> encode_vector (getConnectedNodeIDs c)
  end.

(** [TCPChannel::Get..]: the pointer in the cache, or a new object. *)
Definition get_cached (k : cache) (p : pool) (channel : Z) : outcome (Z * pool) :=
  match caches p !! (k, channel) with
  | Some ptr => mret (ptr, p)
  | None =>
    match channels p !! channel with
    | None => UB NullPointer
    | Some c =>
      b ← encode k c;
      mret (fresh_ p,
            Pool (channel2task p) (creating_task p) (<[(k, channel) := fresh_ p]> (caches p))
                 (channels p) (<[fresh_ p := b]> (blobs p)) (fresh_ p + 1))
    end
  end.

Definition GetDataNodeIDs := get_cached DataNodes.
Definition GetComputationNodeIDs := get_cached ComputationNodes.
Definition GetResultNodeIDs := get_cached ResultNodes.
Definition GetCurrentNodeID := get_cached CurrentNode.
Definition GetConnectedNodeIDs := get_cached ConnectedNodes.

(** ** Threads *)

(** The pool and the tasks whose creation is between its two critical sections. *)
Record world := World { the_pool : pool; opening : gset bytes }.

Inductive step : world → world → Prop :=
  | step_begin p o task p' :
      create_begin p task = Ok (Started p') →
      step (World p o) (World p' ({[task]} ∪ o))
  | step_end p o task ni peers cfg ch p' :
      task ∈ o → create_end p task ni peers cfg = Ok (ch, p') →
      step (World p o) (World p' (o ∖ {[task]}))
  | step_fail p o task :             (* init() returned false *)
      task ∈ o → step (World p o) (World p (o ∖ {[task]}))
  | step_destroy p o ch p' :
      DestroyInternalChannel p ch = Ok p' → step (World p o) (World p' o)
  | step_get p o k ch ptr p' :
      get_cached k p ch = Ok (ptr, p') → step (World p o) (World p' o).

Definition reachable (w : world) : Prop := rtc step (World pool_init ∅) w.

(** * Invariants *)

(** The caches own the encoded objects: each live object has exactly one entry. *)
Record cache_wf (p : pool) : Prop := {
  w_live : ∀ x ptr, caches p !! x = Some ptr → is_Some (blobs p !! ptr);
  w_owner : ∀ x y ptr, caches p !! x = Some ptr → caches p !! y = Some ptr → x = y;
  w_leak : ∀ ptr, is_Some (blobs p !! ptr) → ∃ x, caches p !! x = Some ptr
}.

Record pool_wf (p : pool) : Prop := {
  w_caches : cache_wf p;
  w_objects : ∀ ch, is_Some (channels p !! ch) ↔ is_Some (channel2task p !! ch);
  w_cached : ∀ x ptr, caches p !! x = Some ptr → is_Some (channels p !! x.2);
  w_contents : ∀ k ch ptr c b, caches p !! (k, ch) = Some ptr → channels p !! ch = Some c →
                 blobs p !! ptr = Some b → encode k c = Ok b;
  w_task : ∀ ch1 ch2 t, channel2task p !! ch1 = Some t → channel2task p !! ch2 = Some t → ch1 = ch2;
  w_creating : ∀ ch t, channel2task p !! ch = Some t → t ∉ creating_task p;
  w_fresh_ch : ∀ ch, is_Some (channels p !! ch) → ch < fresh_ p;
  w_fresh_ptr : ∀ ptr, is_Some (blobs p !! ptr) → ptr < fresh_ p
}.

Definition world_wf (w : world) : Prop :=
  pool_wf (the_pool w) ∧ opening w ⊆ creating_task (the_pool w).

(** * Lemmas *)

Lemma find_task_Some t m ch : find_task t m = Some ch → m !! ch = Some t.
Proof.
  unfold find_task. intros (q & E & ->)%fmap_Some. apply find_some in E as [Hin E].
  apply bool_decide_eq_true in E. apply list_elem_of_In, elem_of_map_to_list' in Hin.
  by rewrite E in Hin.
Qed.

Lemma find_task_None t m ch : find_task t m = None → m !! ch ≠ Some t.
Proof.
  unfold find_task. intros E%fmap_None Hm. apply elem_of_map_to_list, list_elem_of_In in Hm.
  eapply find_none in E; [|exact Hm]. by rewrite bool_decide_true in E.
Qed.

Lemma encode_total k c : ∃ b, encode k c = Ok b.
Proof.
  destruct k; unfold encode; rewrite ?encode_string_ok, ?encode_vector_ok, ?encode_map_ok; by eexists.
Qed.

Lemma pool_init_wf : pool_wf pool_init.
Proof.
  split; [split|..]; cbn; intros *; rewrite ?lookup_empty; try done; by intros [].
Qed.

Lemma create_begin_ok p t p' :
  create_begin p t = Ok (Started p') →
  (t ∉ creating_task p) ∧ (∀ ch, channel2task p !! ch ≠ Some t)
  ∧ p' = Pool (channel2task p) ({[t]} ∪ creating_task p) (caches p) (channels p) (blobs p) (fresh_ p).
Proof.
  unfold create_begin. intros E. apply bind_Ok in E as ([] & Hw & E).
  apply wait_until_Ok, bool_decide_eq_true in Hw.
  destruct (find_task t (channel2task p)) eqn:Ef; [done|]. injection E as <-.
  split_and!; [done| |done]. intros ch. by apply find_task_None.
Qed.

Lemma create_begin_wf p t p' :
  pool_wf p → create_begin p t = Ok (Started p') → pool_wf p'.
Proof.
  intros [[] ] (Hc & Hno & ->)%create_begin_ok. split; [split|..]; cbn; try done.
  intros ch t' E. pose proof (w_creating0 _ _ E). assert (t' ≠ t) by (intros ->; by apply (Hno ch)).
  set_solver.
Qed.

Lemma create_end_wf p t ni peers cfg ch p' :
  pool_wf p → create_end p t ni peers cfg = Ok (ch, p') →
  (∀ ch, channel2task p !! ch ≠ Some t) → pool_wf p'.
Proof.
  intros [[] ] E Hno. unfold create_end in E. apply bind_Ok in E as ([] & _ & E). injection E as <- <-.
  assert (channels p !! fresh_ p = None) as Hf.
  { apply eq_None_not_Some. intros H. apply w_fresh_ch0 in H. lia. }
  split; [split|..]; cbn; try done.
  - intros ch. rewrite !lookup_insert_is_Some, w_objects0. done.
  - intros x ptr E. apply w_cached0 in E. rewrite lookup_insert_ne; [done|]. intros Ef.
    rewrite <- Ef in E. rewrite Hf in E. by destruct E.
  - intros k ch ptr c b E. rewrite lookup_insert_ne.
    + by eapply w_contents0.
    + intros Ef. apply w_cached0 in E. cbn in E. rewrite <- Ef, Hf in E. by destruct E.
  - intros ch1 ch2 t' E1 E2. rewrite lookup_insert_Some in E1, E2. naive_solver.
  - intros ch t' E. apply lookup_insert_Some in E as [[_ <-]|[_ E]]; [set_solver|].
    apply w_creating0 in E. set_solver.
  - intros ch E. apply lookup_insert_is_Some in E as [<-|[_ E]]; [lia|]. apply w_fresh_ch0 in E. lia.
  - intros ptr E. apply w_fresh_ptr0 in E. lia.
Qed.

(** Freeing what one cache holds for a channel. *)
Lemma destroy_cached_ok k p ch :
  cache_wf p →
  ∃ bs, destroy_cached k p ch = Ok (Pool (channel2task p) (creating_task p)
                                        (delete (k, ch) (caches p)) (channels p) bs (fresh_ p))
    ∧ bs ⊆ blobs p
    ∧ cache_wf (Pool (channel2task p) (creating_task p) (delete (k, ch) (caches p)) (channels p)
                     bs (fresh_ p)).
Proof.
  intros H. pose proof H as [Hl Ho Hk]. unfold destroy_cached.
  destruct (caches p !! (k, ch)) as [ptr|] eqn:E.
  - rewrite bool_decide_true by eauto. exists (delete ptr (blobs p)).
    split_and!; [done|apply delete_subseteq|]. split; cbn.
    + intros x q (Hx & Eq)%lookup_delete_Some. rewrite lookup_delete_ne; [eauto|].
      intros <-. apply Hx. by eapply Ho.
    + intros x y q (_ & Ex)%lookup_delete_Some (_ & Ey)%lookup_delete_Some. by eapply Ho.
    + intros q [b (Hq & Eq)%lookup_delete_Some]. destruct (Hk q) as [x Ex]; [eauto|].
      exists x. rewrite lookup_delete_ne; [done|]. intros <-. rewrite E in Ex. by injection Ex.
  - exists (blobs p). rewrite delete_id by done. split_and!; [by destruct p|done|]. by split.
Qed.

(** The five caches hold nothing for a channel any more. *)
Definition forget (ch : Z) (m : gmap (cache * Z) Z) : gmap (cache * Z) Z :=
  delete (ConnectedNodes, ch) (delete (ResultNodes, ch) (delete (ComputationNodes, ch)
    (delete (DataNodes, ch) (delete (CurrentNode, ch) m)))).

Lemma lookup_forget ch m x : forget ch m !! x = if decide (x.2 = ch) then None else m !! x.
Proof.
  destruct x as [k c]. unfold forget. cbn. case_decide as E.
  - subst. destruct k; by simplify_map_eq.
  - rewrite !lookup_delete_ne; [done|congruence..].
Qed.

Lemma destroy_caches_ok p ch :
  cache_wf p →
  ∃ bs, (p ← DestroyCurrentNode p ch; p ← DestroyDataNodes p ch; p ← DestroyComputationNodes p ch;
         p ← DestroyResultNodes p ch; DestroyConnectedNodes p ch)
        = Ok (Pool (channel2task p) (creating_task p) (forget ch (caches p)) (channels p) bs (fresh_ p))
    ∧ bs ⊆ blobs p
    ∧ cache_wf (Pool (channel2task p) (creating_task p) (forget ch (caches p)) (channels p) bs (fresh_ p)).
Proof.
  intros H.
  destruct (destroy_cached_ok CurrentNode p ch H) as (b1 & E1 & S1 & H1).
  destruct (destroy_cached_ok DataNodes _ ch H1) as (b2 & E2 & S2 & H2).
  destruct (destroy_cached_ok ComputationNodes _ ch H2) as (b3 & E3 & S3 & H3).
  destruct (destroy_cached_ok ResultNodes _ ch H3) as (b4 & E4 & S4 & H4).
  destruct (destroy_cached_ok ConnectedNodes _ ch H4) as (b5 & E5 & S5 & H5).
  cbn in *. exists b5. split_and!; [|by rewrite S5, S4, S3, S2|done].
  unfold DestroyCurrentNode, DestroyDataNodes, DestroyComputationNodes, DestroyResultNodes,
    DestroyConnectedNodes.
  rewrite E1. cbn [mbind outcome_bind]. rewrite E2. cbn [mbind outcome_bind]. rewrite E3.
  cbn [mbind outcome_bind]. rewrite E4. cbn [mbind outcome_bind]. by rewrite E5.
Qed.

Lemma destroy_ok p ch t :
  pool_wf p → channel2task p !! ch = Some t →
  ∃ bs, let p' := Pool (delete ch (channel2task p)) (creating_task p) (forget ch (caches p))
                       (delete ch (channels p)) bs (fresh_ p) in
    DestroyInternalChannel p ch = Ok p' ∧ pool_wf p'.
Proof.
  intros H Et. unfold DestroyInternalChannel. rewrite Et.
  set (p1 := Pool (delete ch (channel2task p)) (creating_task p) (caches p) (channels p) (blobs p) (fresh_ p)).
  assert (cache_wf p1) as H1 by (destruct H as [[]]; by split).
  destruct (destroy_caches_ok p1 ch H1) as (bs & E & Sub & Hc). exists bs.
  unfold p1 in *. cbn in E, Sub, Hc.
  destruct H as [_ Hobj Hcd Hcont Htask Hcr Hfc Hfp]. split.
  - revert E. intros E.
    repeat (let E' := fresh "E" in apply bind_Ok in E as (? & E' & E); rewrite E'; cbn [mbind outcome_bind]).
    rewrite E. cbn [mbind outcome_bind]. unfold delete_channel. cbn [channels].
    rewrite bool_decide_true; [done|]. apply Hobj. eauto.
  - split; [by destruct Hc; split|..]; cbn.
    + intros c. rewrite !lookup_delete_is_Some, Hobj. done.
    + intros x ptr. rewrite lookup_forget. case_decide as Ex; [done|]. intros Ep.
      rewrite lookup_delete_ne by done. by eapply Hcd.
    + intros k c ptr o b. rewrite lookup_forget. case_decide as Ex; [done|]. cbn in Ex.
      rewrite lookup_delete_ne by done. intros Ep Eo Eb. eapply Hcont; [done..|].
      by eapply lookup_weaken.
    + intros c1 c2 u (_ & E1)%lookup_delete_Some (_ & E2)%lookup_delete_Some. by eapply Htask.
    + intros c u (_ & E1)%lookup_delete_Some. by eapply Hcr.
    + intros c (_ & Hi)%lookup_delete_is_Some. by apply Hfc.
    + intros ptr [b Eb]. apply Hfp. exists b. by eapply lookup_weaken.
Qed.

Lemma get_cached_ok k p ch c :
  pool_wf p → channels p !! ch = Some c →
  ∃ ptr b p', get_cached k p ch = Ok (ptr, p') ∧ pool_wf p'
    ∧ caches p' !! (k, ch) = Some ptr ∧ blobs p' !! ptr = Some b ∧ encode k c = Ok b
    ∧ channel2task p' = channel2task p ∧ creating_task p' = creating_task p
    ∧ channels p' = channels p.
Proof.
  intros H Ec. destruct (encode_total k c) as [b Eb]. unfold get_cached.
  destruct (caches p !! (k, ch)) as [ptr|] eqn:E.
  - destruct (w_live _ (w_caches _ H) _ _ E) as [b' Eb']. exists ptr, b', p.
    split_and!; try done. by eapply w_contents.
  - rewrite Ec, Eb. cbn [mbind outcome_bind]. eexists _, b, _. split; [done|].
    destruct H as [[Hl Ho Hk] Hobj Hcd Hcont Htask Hcr Hfc Hfp].
    assert (blobs p !! fresh_ p = None) as Hf.
    { apply eq_None_not_Some. intros Hs%Hfp. lia. }
    assert (∀ x, caches p !! x ≠ Some (fresh_ p)) as Hnew.
    { intros x Ex%Hl. rewrite Hf in Ex. by destruct Ex. }
    split_and!; try done; cbn; [|by rewrite lookup_insert_eq..].
    split; [split|..]; cbn; try done.
    + intros x ptr [[_ <-]|[_ Ex]]%lookup_insert_Some; [by rewrite lookup_insert_eq|].
      rewrite lookup_insert_is_Some. destruct (decide (fresh_ p = ptr)); [by left|right; eauto].
    + intros x y ptr [[<- <-]|[? Ex]]%lookup_insert_Some [[<- Ey]|[? Ey]]%lookup_insert_Some;
        try done; [by apply Hnew in Ey|subst; by apply Hnew in Ex|by eapply Ho].
    + intros ptr [b' [[<- _]|[_ Ep]]%lookup_insert_Some]; [eexists; apply lookup_insert_eq|].
      destruct (Hk ptr) as [x Ex]; [eauto|]. exists x. rewrite lookup_insert_ne; [done|].
      intros <-. by rewrite E in Ex.
    + intros x ptr [[<- _]|[_ Ex]]%lookup_insert_Some; [cbn; eauto|by eapply Hcd].
    + intros k' ch' ptr c' b' [[Ek <-]|[_ Ex]]%lookup_insert_Some Ec'.
      * injection Ek as <- <-. rewrite lookup_insert_eq. intros Eb'. injection Eb' as <-.
        rewrite Ec in Ec'. by injection Ec' as <-.
      * rewrite lookup_insert_ne; [by eapply Hcont|]. intros <-. by apply Hnew in Ex.
    + intros ch' Hs%Hfc. lia.
    + intros ptr [<-|[_ Hs%Hfp]]%lookup_insert_is_Some; lia.
Qed.

Lemma step_wf w w' : world_wf w → step w w' → world_wf w'.
Proof.
  intros [H Ho] Hstep. destruct Hstep as [p o t p' E|p o t ni ps cfg ch p' Ht E|p o t Ht|p o ch p' E|p o k ch ptr p' E];
    cbn in *.
  - split; [by eapply create_begin_wf|]. cbn. apply create_begin_ok in E as (_ & _ & ->). cbn. set_solver.
  - split; cbn.
    + eapply create_end_wf; [done..|]. intros ch' E'. apply (w_creating _ H) in E'. set_solver.
    + unfold create_end in E. apply bind_Ok in E as (? & _ & E). injection E as <- <-. cbn. set_solver.
  - split; cbn; [done|set_solver].
  - destruct (channel2task p !! ch) as [t|] eqn:Et; [|by unfold DestroyInternalChannel in E; rewrite Et in E].
    destruct (destroy_ok p ch t H Et) as (bs & E' & H'). rewrite E in E'. injection E' as ->. by split.
  - destruct (channels p !! ch) as [c|] eqn:Ec.
    + destruct (get_cached_ok k p ch c H Ec) as (q & b & p2 & E' & H' & _ & _ & _ & _ & Ecr & _).
      rewrite E in E'. injection E' as -> ->. split; [done|]. cbn. by rewrite Ecr.
    + unfold get_cached in E. rewrite Ec in E. destruct (caches p !! (k, ch)) eqn:Ek; [|done].
      injection E as <- <-. by split.
Qed.

#[export] Instance pool_wf_invariant : Invariant step world_wf.
Proof. intros w w' H Hs. by eapply step_wf. Qed.

Lemma pool_reachable_wf w : reachable w → world_wf w.
Proof. apply (invariant_rtc step world_wf). split; [apply pool_init_wf|done]. Qed.

(** A task that is marked as being created while nobody creates it stays so. *)
Definition abandoned (t : bytes) (w : world) : Prop :=
  t ∈ creating_task (the_pool w) ∧ t ∉ opening w.

#[export] Instance abandoned_invariant t : Invariant step (abandoned t).
Proof.
  unfold abandoned. intros w w' [Hc Ho] Hstep.
  destruct Hstep as [p o u p' E|p o u ni ps cfg ch p' Hu E|p o u Hu|p o ch p' E|p o k ch ptr p' E]; cbn in *.
  - apply create_begin_ok in E as (Hu & _ & ->). cbn. set_solver.
  - unfold create_end in E. apply bind_Ok in E as (? & _ & E). injection E as <- <-. cbn. set_solver.
  - set_solver.
  - split; [|done]. unfold DestroyInternalChannel in E. destruct (channel2task p !! ch); [|done].
    revert E. unfold DestroyCurrentNode, DestroyDataNodes, DestroyComputationNodes,
      DestroyResultNodes, DestroyConnectedNodes, delete_channel.
    assert (∀ k q q', destroy_cached k q ch = Ok q' → creating_task q' = creating_task q) as Hd.
    { intros k q q' E. unfold destroy_cached in E. destruct (caches q !! (k, ch)); [|by injection E as <-].
      apply bind_Ok in E as (? & _ & E). by injection E as <-. }
    intros E. repeat (let Es := fresh "Es" in apply bind_Ok in E as (? & Es & E); try apply Hd in Es).
    injection E as <-. cbn in *. congruence.
  - split; [|done]. unfold get_cached in E.
    destruct (caches p !! (k, ch)); [by injection E as <- <-|]. destruct (channels p !! ch); [|done].
    apply bind_Ok in E as (? & _ & E). by injection E as <- <-.
Qed.

(** * Properties *)

(** C17: whatever calls of [CreateInternalChannel], [DestroyInternalChannel] and
    the getters run on any threads, no two channels have the same task id, no
    channel exists for a task that is still being created, two threads never
    create the same task at once, and the thread that finishes a creation finds
    its mark. *)
Theorem one_channel_per_task w :
  reachable w →
  (∀ ch1 ch2 t, channel2task (the_pool w) !! ch1 = Some t →
                channel2task (the_pool w) !! ch2 = Some t → ch1 = ch2)
  ∧ (∀ ch t, channel2task (the_pool w) !! ch = Some t → t ∉ opening w)
  ∧ (∀ t p', create_begin (the_pool w) t = Ok (Started p') → t ∉ opening w)
  ∧ (∀ t ni peers cfg, t ∈ opening w →
       ∃ ch p', create_end (the_pool w) t ni peers cfg = Ok (ch, p')
                ∧ channel2task (the_pool w) !! ch = None).
Proof.
  intros [H Ho]%pool_reachable_wf. split_and!.
  - exact (w_task _ H).
  - intros ch t E. apply (w_creating _ H) in E. set_solver.
  - intros t p' (Ht & _ & _)%create_begin_ok. set_solver.
  - intros t ni ps cfg Ht. unfold create_end. rewrite bool_decide_true by set_solver.
    eexists _, _. split; [done|]. apply eq_None_not_Some. rewrite <- (w_objects _ H).
    intros E%(w_fresh_ch _ H). lia.
Qed.

(** Destroying a channel of the pool works in every reachable state: each
    object its caches hold is freed exactly once and nothing else is, the entries
    of the other channels stay, no encoded object is leaked, and a new channel can
    be created for the task. *)
Theorem destroy_releases w ch t :
  reachable w → channel2task (the_pool w) !! ch = Some t →
  ∃ p', DestroyInternalChannel (the_pool w) ch = Ok p'
    ∧ channels p' = delete ch (channels (the_pool w))
    ∧ (∀ x, caches p' !! x = if decide (x.2 = ch) then None else caches (the_pool w) !! x)
    ∧ (∀ ptr, is_Some (blobs p' !! ptr) ↔ ∃ x, caches p' !! x = Some ptr)
    ∧ ∃ p'', create_begin p' t = Ok (Started p'').
Proof.
  intros [H _]%pool_reachable_wf Et. destruct (destroy_ok _ _ _ H Et) as (bs & E & H').
  eexists. split; [exact E|]. split; [done|]. split; [intros x; apply lookup_forget|]. split.
  - intros ptr. split; [apply (w_leak _ (w_caches _ H'))|].
    intros [x Ex]. by eapply (w_live _ (w_caches _ H')).
  - unfold create_begin. cbn [creating_task channel2task].
    rewrite bool_decide_true by (eapply (w_creating _ H), Et). cbn [mbind outcome_bind wait_until].
    destruct (find_task t _) as [c|] eqn:Ef; [|by eexists].
    apply find_task_Some, lookup_delete_Some in Ef as [Hne Ef]. by destruct Hne; eapply (w_task _ H).
Qed.

(** A getter hands out the encoding of the channel's data, and every later
    call the same pointer, without another allocation. *)
Theorem getters_cache w k ch c :
  reachable w → channels (the_pool w) !! ch = Some c →
  ∃ ptr b p', get_cached k (the_pool w) ch = Ok (ptr, p') ∧ blobs p' !! ptr = Some b
    ∧ encode k c = Ok b ∧ get_cached k p' ch = Ok (ptr, p').
Proof.
  intros [H _]%pool_reachable_wf Ec.
  destruct (get_cached_ok k _ ch c H Ec) as (ptr & b & p' & E & _ & Ep & Eb & Een & _).
  exists ptr, b, p'. split_and!; try done. unfold get_cached. by rewrite Ep.
Qed.

(** A creation that fails is never forgotten: the task id stays marked, so
    however the process goes on, every later [CreateChannel] for it sleeps for
    ever. *)
Theorem failed_creation_blocks p t ni peers cfg p' o w :
  CreateChannel p t ni peers cfg false = Ok (None, p') → t ∉ o →
  rtc step (World p' o) w → ∀ ni peers cfg init_ok, CreateChannel (the_pool w) t ni peers cfg init_ok = Sleep.
Proof.
  intros E Ho Hrun. unfold CreateChannel in E. apply bind_Ok in E as ([ch|p1] & E1 & E); [done|].
  injection E as <-. apply create_begin_ok in E1 as (_ & _ & ->).
  assert (abandoned t w) as [Hc _].
  { refine (invariant_rtc step (abandoned t) _ _ _ Hrun). split; cbn; [set_solver|done]. }
  intros *. unfold CreateChannel, create_begin. by rewrite bool_decide_false by (intros ?; set_solver).
Qed.

(** ** Witnesses *)

Definition sample_infos_P0 : infos := (sample_plan "P0").2.
Definition sample_node : NodeInfo := (sample_plan "P0").1.

Definition sample_started : pool :=
  match create_begin pool_init (str "t") with Ok (Started p) => p | _ => pool_init end.
Definition sample_pool : pool :=
  match create_end sample_started (str "t") sample_node sample_infos_P0 sample_config with
  | Ok (_, p) => p | _ => pool_init
  end.
Definition sample_channel : TCPChannel :=
  MkTCPChannel (str "t") (str "P0") sample_config [str "P2"; str "P3"; str "P1"].

Lemma sample_begin : create_begin pool_init (str "t") = Ok (Started sample_started).
Proof. reflexivity. Qed.
Lemma sample_end :
  create_end sample_started (str "t") sample_node sample_infos_P0 sample_config = Ok (1, sample_pool).
Proof. reflexivity. Qed.

(** Channel 1 exists for task "t"; task "u" is being created. *)
Lemma sample_reachable :
  ∃ p o, reachable (World p o) ∧ channel2task p !! 1 = Some (str "t")
    ∧ channels p !! 1 = Some sample_channel ∧ str "u" ∈ o.
Proof.
  assert (∃ p, create_begin sample_pool (str "u") = Ok (Started p)) as [p Ep].
  { eexists. vm_compute. reflexivity. }
  assert (str "t" ∈ ({[str "t"]} ∪ ∅ : gset bytes)) as Hin by set_solver.
  set (o := ({[str "t"]} ∪ ∅ : gset bytes)) in *.
  exists p, ({[str "u"]} ∪ (o ∖ {[str "t"]})).
  pose proof (step_begin _ ∅ _ _ sample_begin) as S1.
  pose proof (step_end _ o _ _ _ _ _ _ Hin sample_end) as S2.
  pose proof (step_begin _ (o ∖ {[str "t"]}) _ _ Ep) as S3.
  destruct (create_begin_ok _ _ _ Ep) as (_ & _ & Ep'). split_and!.
  - exact (rtc_l _ _ _ _ S1 (rtc_l _ _ _ _ S2 (rtc_once _ _ S3))).
  - rewrite Ep'. vm_compute. reflexivity.
  - rewrite Ep'. vm_compute. reflexivity.
  - set_solver.
Qed.

Lemma one_channel_per_task_witness :
  ∃ w, channel2task (the_pool w) !! 1 = Some (str "t") ∧ str "u" ∈ opening w
  ∧ (∀ ch1 ch2 t, channel2task (the_pool w) !! ch1 = Some t →
                  channel2task (the_pool w) !! ch2 = Some t → ch1 = ch2)
  ∧ (∀ ch t, channel2task (the_pool w) !! ch = Some t → t ∉ opening w)
  ∧ (∀ t p', create_begin (the_pool w) t = Ok (Started p') → t ∉ opening w)
  ∧ (∀ t ni peers cfg, t ∈ opening w →
       ∃ ch p', create_end (the_pool w) t ni peers cfg = Ok (ch, p')
                ∧ channel2task (the_pool w) !! ch = None).
Proof.
  destruct sample_reachable as (p & o & Hr & Et & _ & Ho). exists (World p o).
  split; [done|]. split; [done|]. exact (one_channel_per_task (World p o) Hr).
Defined.

Lemma destroy_releases_witness :
  ∃ w p', channel2task (the_pool w) !! 1 = Some (str "t")
    ∧ DestroyInternalChannel (the_pool w) 1 = Ok p'
    ∧ ∃ p'', create_begin p' (str "t") = Ok (Started p'').
Proof.
  destruct sample_reachable as (p & o & Hr & Et & _). exists (World p o).
  destruct (destroy_releases (World p o) 1 (str "t") Hr Et) as (p' & E & _ & _ & _ & Hp).
  exists p'. split; [done|]. by split.
Defined.

Lemma getters_cache_witness :
  ∃ w ptr b p', get_cached ConnectedNodes (the_pool w) 1 = Ok (ptr, p') ∧ blobs p' !! ptr = Some b
    ∧ encode ConnectedNodes sample_channel = Ok b ∧ get_cached ConnectedNodes p' 1 = Ok (ptr, p').
Proof.
  destruct sample_reachable as (p & o & Hr & _ & Ec & _). exists (World p o).
  exact (getters_cache (World p o) ConnectedNodes 1 sample_channel Hr Ec).
Defined.

Lemma failed_creation_blocks_witness :
  ∃ p', CreateChannel pool_init (str "t") sample_node sample_infos_P0 sample_config false = Ok (None, p')
    ∧ ∀ ni peers cfg init_ok, CreateChannel p' (str "t") ni peers cfg init_ok = Sleep.
Proof.
  exists sample_started. split; [reflexivity|].
  apply (failed_creation_blocks pool_init (str "t") sample_node sample_infos_P0 sample_config
           sample_started ∅ (World sample_started ∅));
    [reflexivity|set_solver|apply rtc_refl].
Defined.
