(* ===== verification/Work.v ===== *)
(** The tasks of a [Connection] ([src/connection.cpp]): [start] and [stop] and the
    threads [do_start] they create and join, which run the worker loops of one
    task at a time.  A step is one critical section; a wait on a condition
    variable is a step that is enabled when its predicate holds (every section
    that can make a predicate true notifies the variable). *)
From Stdlib Require Import Strings.Byte.
From S2P Require Import Prelude Timer CycleBuffer SimpleBuffer Transport Connection.
#[local] Open Scope Z_scope.

(** * The program *)

Record works := Works {
  w_stop_works_ : gmap bytes bool;         (** the member [stop_works_] *)
  work_count_ : Z;
  work_task_id_ : bytes;
  threads_ : gset bytes;                   (** the tasks with a [std::thread] *)
  task_count_ : Z
}.

Definition works_init : works := Works ∅ 0 [] ∅ 0.

(** ** [start] *)

(** The message both ends exchange before a task stops. *)
Definition lock_id (task_id : bytes) : bytes := str "lock:" ++ task_id.

(** First section of [start]: counts the task and sends the peer its lock. *)
Definition start_lock (junk : nat → byte) (now : Z) (task_id : bytes) (w : works) (c : Connection)
    : outcome (works * Connection) :=
  '(_, c) ← send junk now c (lock_id task_id) (str "1") 1;
  mret (Works (w_stop_works_ w) (work_count_ w) (work_task_id_ w) (threads_ w) (task_count_ w + 1), c).

(** [threads_.insert]. *)
Definition start_register (task_id : bytes) (w : works) : works :=
  Works (w_stop_works_ w) (work_count_ w) (work_task_id_ w) ({[task_id]} ∪ threads_ w) (task_count_ w).

(** The last wait of [start]. *)
Definition start_wait (task_id : bytes) (w : works) : outcome unit :=
  wait_until (bool_decide (w_stop_works_ w !! task_id = Some false)).

(** ** [do_start] *)

(** [stop_works_.insert(pair(task_id, false))]. *)
Definition do_start_enter (task_id : bytes) (w : works) : works :=
  match w_stop_works_ w !! task_id with
  | Some _ => w
  | None => Works (<[task_id := false]> (w_stop_works_ w)) (work_count_ w) (work_task_id_ w)
                  (threads_ w) (task_count_ w)
  end.

Definition flagged (task_id : bytes) (w : works) : bool :=
  bool_decide (w_stop_works_ w !! task_id = Some true).

(** The section on [work_mtx_]: waits for the turn of the task; [false] when the
    task was stopped before. *)
Definition do_start_wait (task_id : bytes) (w : works) : outcome (bool * works) :=
  let stop_work := negb (work_count_ w =? 0) && flagged task_id w in
  _ ← wait_until ((work_count_ w =? 0) || flagged task_id w);
  if stop_work then mret (false, w)
  else mret (true, Works (w_stop_works_ w) (work_count_ w + 1) task_id (threads_ w) (task_count_ w)).

(** After the two loops were joined. *)
Definition do_start_finish (w : works) : works :=
  Works (w_stop_works_ w) (work_count_ w - 1) (work_task_id_ w) (threads_ w) (task_count_ w).

(** ** [stop] *)

(** [task_count_--]. *)
Definition stop_enter (w : works) : works :=
  Works (w_stop_works_ w) (work_count_ w) (work_task_id_ w) (threads_ w) (task_count_ w - 1).

(** First section of [stop]: waits for the lock of the peer. *)
Definition stop_lock (now elapsed : Z) (state_now : State) (task_id : bytes) (w : works) (c : Connection)
    : outcome (works * Connection) :=
  '(_, _, c) ← recv now elapsed state_now c (lock_id task_id) (str "1") 1 (-1);
  mret (stop_enter w, c).

(** [do_stop]: raises the flag of the task. *)
Definition do_stop_flag (task_id : bytes) (w : works) : works :=
  match w_stop_works_ w !! task_id with
  | Some false => Works (<[task_id := true]> (w_stop_works_ w)) (work_count_ w) (work_task_id_ w)
                        (threads_ w) (task_count_ w)
  | _ => w
  end.

(** [do_stop]: takes the thread out of [threads_]; joining no thread is a call on
    the null pointer. *)
Definition do_stop_take (task_id : bytes) (w : works) : outcome works :=
  if bool_decide (task_id ∈ threads_ w)
  then mret (Works (w_stop_works_ w) (work_count_ w) (work_task_id_ w) (threads_ w ∖ {[task_id]})
                   (task_count_ w))
  else UB NullPointer.

(** [do_stop]: [stop_works_.erase]. *)
Definition do_stop_erase (task_id : bytes) (w : works) : works :=
  Works (delete task_id (w_stop_works_ w)) (work_count_ w) (work_task_id_ w) (threads_ w) (task_count_ w).

(** ** Whole calls *)

(** A connection with its tasks. *)
Record conn_obj := Obj { conn : Connection; tasks : works }.

(** Both parts show the member [stop_works_]. *)
Definition make_obj (c : Connection) (w : works) : conn_obj :=
  Obj (Conn (state_ c) (fd_ c) (events_ c) (is_server_ c) (node_id_ c) (reuseable_ c) (buffer_ c)
            (mapbuffer_ c) (send_buffer_ c) (w_stop_works_ w)) w.

(** [start] when the new thread reaches its wait before [start] does: the order
    its last wait enforces. *)
Definition conn_start (junk : nat → byte) (now : Z) (task_id : bytes) (o : conn_obj)
    : outcome conn_obj :=
  '(w, c) ← start_lock junk now task_id (tasks o) (conn o);
  let w := start_register task_id (do_start_enter task_id w) in
  _ ← start_wait task_id w;
  mret (make_obj c w).

(** [stop] when the thread of the task has finished by the time it is joined. *)
Definition conn_stop (now elapsed : Z) (task_id : bytes) (o : conn_obj) : outcome conn_obj :=
  '(w, c) ← stop_lock now elapsed (state_ (conn o)) task_id (tasks o) (conn o);
  w ← do_stop_take task_id (do_stop_flag task_id w);
  mret (make_obj c (do_stop_erase task_id w)).

(** [stop] when other threads move in between: before it has [task_mtx_]; with the
    mutex, waiting for the lock of the peer; before [do_stop] raises the flag and
    notifies; before it takes the thread out; before the [join] returns and it erases
    the flag. *)
Inductive stop_at := AtMutex | AtLock | AtFlag | AtTake | AtErase.

#[global] Instance stop_at_eq_dec : EqDecision stop_at.
Proof. solve_decision. Defined.

(** One section of [stop], and where it is then. *)
Definition stop_section (now elapsed : Z) (task_id : bytes) (a : stop_at) (o : conn_obj)
    : outcome (option stop_at * conn_obj) :=
  match a with
  | AtMutex => mret (Some AtLock, Obj (conn o) (stop_enter (tasks o)))
  | AtLock =>
    '(_, _, c) ← recv now elapsed (state_ (conn o)) (conn o) (lock_id task_id) (str "1") 1 (-1);
    mret (Some AtFlag, Obj c (tasks o))
  | AtFlag => mret (Some AtTake, make_obj (conn o) (do_stop_flag task_id (tasks o)))
  | AtTake => w ← do_stop_take task_id (tasks o); mret (Some AtErase, Obj (conn o) w)
  | AtErase => mret (None, make_obj (conn o) (do_stop_erase task_id (tasks o)))
  end.

(** ** The threads *)

(** Where the thread [do_start] of a task is; [Running] with the two loops that
    are still alive. *)
Inductive phase := Entering | Waiting | Running (receiving sending : bool) | Finished.

(** Where the calls of a task are: [start] created the thread, registered it,
    returned; [stop] raised the flag, took the thread and joins it, joined it. *)
Inductive calls := Spawned | Registered | Active | Flagged | Joining | Joined.

#[global] Instance phase_eq_dec : EqDecision phase.
Proof. solve_decision. Defined.
#[global] Instance calls_eq_dec : EqDecision calls.
Proof. solve_decision. Defined.

Record sys := Sys { w_ : works; thread_of : gmap bytes phase; calls_of : gmap bytes calls }.

Definition initial : sys := Sys works_init ∅ ∅.

(** Steps of the thread of task [t]. *)
Inductive thread_step (t : bytes) : sys → sys → Prop :=
  | t_enter w ph cs :
      ph !! t = Some Entering →
      thread_step t (Sys w ph cs) (Sys (do_start_enter t w) (<[t := Waiting]> ph) cs)
  | t_work w ph cs w' :
      ph !! t = Some Waiting → do_start_wait t w = Ok (true, w') →
      thread_step t (Sys w ph cs) (Sys w' (<[t := Running true true]> ph) cs)
  | t_skip w ph cs w' :
      ph !! t = Some Waiting → do_start_wait t w = Ok (false, w') →
      thread_step t (Sys w ph cs) (Sys w' (<[t := Finished]> ph) cs)
  | t_recv_exit w ph cs b :            (* [stop_requested] in [loop_recv] *)
      ph !! t = Some (Running true b) → flagged t w = true →
      thread_step t (Sys w ph cs) (Sys w (<[t := Running false b]> ph) cs)
  | t_send_exit w ph cs b :            (* [stop_requested] in [loop_send] *)
      ph !! t = Some (Running b true) → flagged t w = true →
      thread_step t (Sys w ph cs) (Sys w (<[t := Running b false]> ph) cs)
  | t_finish w ph cs :
      ph !! t = Some (Running false false) →
      thread_step t (Sys w ph cs) (Sys (do_start_finish w) (<[t := Finished]> ph) cs).

(** Steps of the callers of [start] and [stop] for task [t]: a task is started
    again only after it was stopped, and stopped only after it was started. *)
Inductive call_step (t : bytes) : sys → sys → Prop :=
  | c_spawn w ph cs :
      cs !! t = None →
      call_step t (Sys w ph cs) (Sys w (<[t := Entering]> ph) (<[t := Spawned]> cs))
  | c_register w ph cs :
      cs !! t = Some Spawned →
      call_step t (Sys w ph cs) (Sys (start_register t w) ph (<[t := Registered]> cs))
  | c_started w ph cs :
      cs !! t = Some Registered → start_wait t w = Ok () →
      call_step t (Sys w ph cs) (Sys w ph (<[t := Active]> cs))
  | c_flag w ph cs :
      cs !! t = Some Active →
      call_step t (Sys w ph cs) (Sys (do_stop_flag t w) ph (<[t := Flagged]> cs))
  | c_take w ph cs w' :
      cs !! t = Some Flagged → do_stop_take t w = Ok w' →
      call_step t (Sys w ph cs) (Sys w' ph (<[t := Joining]> cs))
  | c_join w ph cs :
      cs !! t = Some Joining → ph !! t = Some Finished →
      call_step t (Sys w ph cs) (Sys w (delete t ph) (<[t := Joined]> cs))
  | c_erase w ph cs :
      cs !! t = Some Joined →
      call_step t (Sys w ph cs) (Sys (do_stop_erase t w) ph (delete t cs)).

Definition step (s s' : sys) : Prop := ∃ t, thread_step t s s' ∨ call_step t s s'.

Definition reachable (s : sys) : Prop := rtc step initial s.

(** * Specification *)

Definition running (ph : gmap bytes phase) (t : bytes) : Prop :=
  ∃ r s, ph !! t = Some (Running r s).

(** What the calls of a task say about its thread and its entries. *)
Definition task_ok (w : works) (c : option calls) (p : option phase) (t : bytes) : Prop :=
  match c with
  | None => p = None ∧ w_stop_works_ w !! t = None ∧ t ∉ threads_ w
  | Some Spawned | Some Registered =>
    (c = Some Registered ↔ t ∈ threads_ w)
    ∧ match p with
      | Some Entering => w_stop_works_ w !! t = None
      | Some (Waiting | Running true true) => w_stop_works_ w !! t = Some false
      | _ => False
      end
  | Some Active => t ∈ threads_ w ∧ w_stop_works_ w !! t = Some false
                   ∧ (p = Some Waiting ∨ p = Some (Running true true))
  | Some Flagged => t ∈ threads_ w ∧ w_stop_works_ w !! t = Some true ∧ is_Some p ∧ p ≠ Some Entering
  | Some Joining => (t ∉ threads_ w) ∧ w_stop_works_ w !! t = Some true ∧ is_Some p ∧ p ≠ Some Entering
  | Some Joined => (t ∉ threads_ w) ∧ w_stop_works_ w !! t = Some true ∧ p = None
  end.

Record sys_wf (s : sys) : Prop := {
  wf_task : ∀ t, task_ok (w_ s) (calls_of s !! t) (thread_of s !! t) t;
  wf_count : (work_count_ (w_ s) = 0 ∧ ∀ t, ¬ running (thread_of s) t)
             ∨ (work_count_ (w_ s) = 1
                ∧ ∀ t, running (thread_of s) t ↔ t = work_task_id_ (w_ s))
}.

(** Steps the thread still has to take once its flag is up. *)
Definition rank (p : option phase) : nat :=
  match p with
  | Some Entering => 5
  | Some Waiting => 4
  | Some (Running true true) => 3
  | Some (Running false false) => 1
  | Some (Running _ _) => 2
  | _ => 0
  end%nat.

(** * Lemmas *)

Lemma flagged_true t w : flagged t w = true ↔ w_stop_works_ w !! t = Some true.
Proof. apply bool_decide_eq_true. Qed.

Lemma do_start_enter_None t w :
  w_stop_works_ w !! t = None →
  do_start_enter t w = Works (<[t := false]> (w_stop_works_ w)) (work_count_ w) (work_task_id_ w)
                             (threads_ w) (task_count_ w).
Proof. intros E. unfold do_start_enter. by rewrite E. Qed.

Lemma do_start_wait_inv t w b w' :
  do_start_wait t w = Ok (b, w') →
  if b then w' = Works (w_stop_works_ w) (work_count_ w + 1) t (threads_ w) (task_count_ w)
            ∧ (work_count_ w = 0 ∨ flagged t w = true) ∧ (work_count_ w = 0 ∨ flagged t w = false)
  else w' = w ∧ work_count_ w ≠ 0 ∧ flagged t w = true.
Proof.
  unfold do_start_wait. intros E. apply bind_Ok in E as ([] & Hw & E). apply wait_until_Ok in Hw.
  destruct (Z.eqb_spec (work_count_ w) 0), (flagged t w); cbn in *; try done;
    injection E as <- <-; split_and?; auto.
Qed.

Lemma do_stop_take_inv t w w' :
  do_stop_take t w = Ok w' →
  t ∈ threads_ w ∧ w' = Works (w_stop_works_ w) (work_count_ w) (work_task_id_ w) (threads_ w ∖ {[t]})
                             (task_count_ w).
Proof. unfold do_stop_take. case_bool_decide; [|done]. intros E. by injection E as <-. Qed.

(** Another task's entries do not matter to a task. *)
Lemma task_ok_frame w w' c p t :
  task_ok w c p t → w_stop_works_ w' !! t = w_stop_works_ w !! t →
  (t ∈ threads_ w' ↔ t ∈ threads_ w) → task_ok w' c p t.
Proof.
  intros H Hs Ht. unfold task_ok in *.
  destruct c as [[]|]; try (destruct p as [[| | [] []|]|]); rewrite ?Hs, ?Ht; naive_solver.
Qed.

Lemma running_insert ph t p u :
  running (<[t := p]> ph) u ↔ (u = t ∧ ∃ r s, p = Running r s) ∨ (u ≠ t ∧ running ph u).
Proof.
  unfold running. destruct (decide (u = t)) as [->|].
  - rewrite lookup_insert_eq. naive_solver.
  - rewrite lookup_insert_ne by done. naive_solver.
Qed.

Lemma running_delete ph t u : running (delete t ph) u ↔ u ≠ t ∧ running ph u.
Proof.
  unfold running. destruct (decide (u = t)) as [->|].
  - rewrite lookup_delete_eq. naive_solver.
  - rewrite lookup_delete_ne by done. naive_solver.
Qed.

Lemma not_running ph t p : ph !! t = Some p → (∀ r s, p ≠ Running r s) → ¬ running ph t.
Proof. intros E H (r & s & Er). rewrite E in Er. injection Er as ->. by eapply H. Qed.

(** Replacing the entries of one task in a well-formed system. *)
Lemma wf_task_update (w w' : works) (ph ph' : gmap bytes phase) (cs cs' : gmap bytes calls) t :
  (∀ u, task_ok w (cs !! u) (ph !! u) u) →
  (∀ u, u ≠ t → ph' !! u = ph !! u ∧ cs' !! u = cs !! u
                ∧ w_stop_works_ w' !! u = w_stop_works_ w !! u ∧ (u ∈ threads_ w' ↔ u ∈ threads_ w)) →
  task_ok w' (cs' !! t) (ph' !! t) t →
  ∀ u, task_ok w' (cs' !! u) (ph' !! u) u.
Proof.
  intros H Hne Ht u. destruct (decide (u = t)) as [->|Hu]; [done|].
  destruct (Hne u Hu) as (-> & -> & ? & ?). by eapply task_ok_frame.
Qed.

Ltac update t :=
  eapply (wf_task_update _ _ _ _ _ _ t); [eassumption| |];
  [intros u Hu; cbn; rewrite ?lookup_insert_ne, ?lookup_delete_ne by done; split_and!; set_solver|
   cbn; rewrite ?lookup_insert_eq, ?lookup_delete_eq].

(** Closes the claim on the one task a step is about. *)
Ltac this_task t cs :=
  match goal with
  | Hok : task_ok _ (cs !! t) _ _ |- _ => revert Hok
  | Hok : task_ok _ _ _ _ |- _ => revert Hok
  end;
  repeat match goal with H : ∀ _ : bytes, _ |- _ => clear H | H : _ ∨ _ |- _ => clear H end;
  unfold task_ok; cbn; rewrite ?lookup_insert_eq; destruct (cs !! t) as [[]|];
  repeat match goal with b : bool |- _ => destruct b end; naive_solver.

Lemma thread_step_wf t s s' : sys_wf s → thread_step t s s' → sys_wf s'.
Proof.
  intros [Ht Hc] Hstep.
  destruct Hstep as [w ph cs E|w ph cs w' E Ew|w ph cs w' E Ew|w ph cs b E Ef|w ph cs b E Ef|w ph cs E];
    cbn in *; pose proof (Ht t) as Hok; rewrite E in Hok.
  - assert (w_stop_works_ w !! t = None) as En.
    { clear Ht Hc. unfold task_ok in Hok. destruct (cs !! t) as [[]|]; naive_solver. }
    rewrite do_start_enter_None by done. split; cbn.
    + update t. this_task t cs.
    + assert (∀ u, running (<[t:=Waiting]> ph) u ↔ running ph u) as Hr; [|by setoid_rewrite Hr].
      intros u. rewrite running_insert. pose proof (not_running _ _ _ E).
      destruct (decide (u = t)); naive_solver.
  - apply do_start_wait_inv in Ew as (-> & H1 & H2). split; cbn.
    + update t. this_task t cs.
    + assert (work_count_ w = 0) as H0 by (destruct H1, H2; congruence).
      destruct Hc as [[_ Hno]|[? _]]; [|lia]. right. split; [lia|].
      intros u. rewrite running_insert. naive_solver.
  - apply do_start_wait_inv in Ew as (-> & H1 & H2). apply flagged_true in H2. split; cbn.
    + update t. this_task t cs.
    + assert (∀ u, running (<[t:=Finished]> ph) u ↔ running ph u) as Hr; [|by setoid_rewrite Hr].
      intros u. rewrite running_insert. pose proof (not_running _ _ _ E).
      destruct (decide (u = t)); naive_solver.
  - apply flagged_true in Ef. split; cbn.
    + update t. this_task t cs.
    + assert (∀ u, running (<[t:=Running false b]> ph) u ↔ running ph u) as Hr; [|by setoid_rewrite Hr].
      intros u. rewrite running_insert. unfold running. destruct (decide (u = t)); naive_solver.
  - apply flagged_true in Ef. split; cbn.
    + update t. this_task t cs.
    + assert (∀ u, running (<[t:=Running b false]> ph) u ↔ running ph u) as Hr; [|by setoid_rewrite Hr].
      intros u. rewrite running_insert. unfold running. destruct (decide (u = t)); naive_solver.
  - split; cbn.
    + update t. this_task t cs.
    + left. assert (running ph t) as Hrt by (by do 2 eexists).
      destruct Hc as [[_ Hno]|[-> Hr]]; [by destruct (Hno t)|]. split; [done|].
      intros u. rewrite running_insert, Hr. apply Hr in Hrt. naive_solver.
Qed.

Lemma call_step_wf t s s' : sys_wf s → call_step t s s' → sys_wf s'.
Proof.
  intros [Ht Hc] Hstep.
  destruct Hstep as [w ph cs E|w ph cs E|w ph cs E Ew|w ph cs E|w ph cs w' E Ew|w ph cs E Ep|w ph cs E];
    cbn in *; pose proof (Ht t) as Hok; rewrite E in Hok; cbn in Hok.
  - destruct Hok as (Ep & Es & Hth). split; cbn.
    + update t. cbn. naive_solver.
    + assert (∀ u, running (<[t:=Entering]> ph) u ↔ running ph u) as Hr; [|by setoid_rewrite Hr].
      intros u. rewrite running_insert. unfold running. destruct (decide (u = t)); naive_solver.
  - split; cbn; [|done]. update t. cbn. destruct (ph !! t) as [[| |[] []|]|]; set_solver.
  - apply wait_until_Ok, bool_decide_eq_true in Ew. split; cbn; [|done]. update t. cbn.
    destruct (ph !! t) as [[| |[] []|]|]; naive_solver.
  - destruct Hok as (Hth & Es & Hp). unfold do_stop_flag. rewrite Es. split; cbn; [|done].
    update t. cbn. rewrite lookup_insert_eq. naive_solver.
  - apply do_stop_take_inv in Ew as [_ ->]. split; cbn; [|done]. update t. cbn. set_solver.
  - split; cbn.
    + update t. cbn. naive_solver.
    + assert (∀ u, running (delete t ph) u ↔ running ph u) as Hr; [|by setoid_rewrite Hr].
      intros u. rewrite running_delete. pose proof (not_running _ _ _ Ep).
      destruct (decide (u = t)); naive_solver.
  - split; cbn; [|done]. update t. cbn. rewrite lookup_delete_eq. naive_solver.
Qed.

#[export] Instance sys_wf_invariant : Invariant step sys_wf.
Proof. intros s s' H [t [?|?]]; eauto using thread_step_wf, call_step_wf. Qed.

Lemma reachable_wf s : reachable s → sys_wf s.
Proof.
  apply (invariant_rtc step sys_wf). split; cbn.
  - intros t. by rewrite !lookup_empty.
  - left. split; [done|]. intros t (r & u & E). by rewrite lookup_empty in E.
Qed.

Lemma thread_step_rank t s s' :
  thread_step t s s' → (rank (thread_of s' !! t) < rank (thread_of s !! t))%nat.
Proof.
  destruct 1 as [w ph cs E|w ph cs w' E Ew|w ph cs w' E Ew|w ph cs b E Ef|w ph cs b E Ef|w ph cs E];
    cbn; rewrite E, lookup_insert_eq; try destruct b; cbn; lia.
Qed.

Lemma other_step_frame t u s s' :
  t ≠ u → thread_step u s s' ∨ call_step u s s' →
  thread_of s' !! t = thread_of s !! t ∧ calls_of s' !! t = calls_of s !! t.
Proof.
  intros Hne [Hs|Hs]; destruct Hs; cbn; by rewrite ?lookup_insert_ne, ?lookup_delete_ne by done.
Qed.

(** A thread whose flag is up can always take its next step. *)
Lemma flagged_moves t s p :
  w_stop_works_ (w_ s) !! t = Some true → thread_of s !! t = Some p →
  p ≠ Entering → p ≠ Finished → ∃ s', thread_step t s s'.
Proof.
  destruct s as [w ph cs]. cbn. intros Hf E H1 H2. apply flagged_true in Hf as Hf'.
  destruct p as [| |r b|]; try done.
  - destruct (do_start_wait t w) as [[[] w']| | |] eqn:Ew;
      [eexists; by eapply t_work|eexists; by eapply t_skip|exfalso..];
      unfold do_start_wait in Ew; rewrite Hf', orb_true_r, andb_true_r in Ew;
      cbn in Ew; by destruct (negb _).
  - destruct r; [eexists; by eapply t_recv_exit|].
    destruct b; [eexists; by eapply t_send_exit|eexists; by eapply t_finish].
Qed.

(** The sections one after the other are [conn_stop]. *)
Lemma conn_stop_sections now elapsed t o o' :
  conn_stop now elapsed t o = Ok o' →
  ∃ o1 o2 o3 o4, stop_section now elapsed t AtMutex o = Ok (Some AtLock, o1)
    ∧ stop_section now elapsed t AtLock o1 = Ok (Some AtFlag, o2)
    ∧ stop_section now elapsed t AtFlag o2 = Ok (Some AtTake, o3)
    ∧ stop_section now elapsed t AtTake o3 = Ok (Some AtErase, o4)
    ∧ stop_section now elapsed t AtErase o4 = Ok (None, o').
Proof.
  unfold conn_stop, stop_lock. intros E. apply bind_Ok in E as ([w c] & E1 & E).
  apply bind_Ok in E1 as ([[ret d] c1] & E1 & E2). injection E2 as <- <-.
  apply bind_Ok in E as (w2 & E2 & E). injection E as <-.
  set (w1 := do_stop_flag t (stop_enter (tasks o))) in *.
  exists (Obj (conn o) (stop_enter (tasks o))), (Obj c1 (stop_enter (tasks o))), (make_obj c1 w1), (Obj (conn (make_obj c1 w1)) w2).
  split_and!; [reflexivity| |reflexivity| |reflexivity]; cbn [stop_section conn tasks make_obj].
  - rewrite E1. reflexivity.
  - rewrite E2. reflexivity.
Qed.

(** * Properties *)

(** C11: the worker loops of a connection run for at most one task at a time,
    however [start] and [stop] of any tasks interleave: [work_count_] is 0 or 1, it
    is 1 exactly while the loops of [work_task_id_] run, and [stop] always finds
    the thread it joins. *)
Theorem one_task_works s :
  reachable s →
  (∀ t u, running (thread_of s) t → running (thread_of s) u → t = u)
  ∧ 0 ≤ work_count_ (w_ s) ≤ 1
  ∧ (∀ t, running (thread_of s) t → work_count_ (w_ s) = 1 ∧ work_task_id_ (w_ s) = t)
  ∧ (∀ t, calls_of s !! t = Some Flagged → ∃ w', do_stop_take t (w_ s) = Ok w').
Proof.
  intros [Ht Hc]%reachable_wf. split_and!.
  - intros t u Hrt Hru. destruct Hc as [[_ Hno]|[_ Hr]]; [by destruct (Hno t)|].
    apply Hr in Hrt, Hru. congruence.
  - destruct Hc as [[-> _]|[-> _]]; lia.
  - destruct Hc as [[-> _]|[-> _]]; lia.
  - intros t Hrt. destruct Hc as [[_ Hno]|[? Hr]]; [by destruct (Hno t)|]. apply Hr in Hrt. done.
  - intros t E. specialize (Ht t). rewrite E in Ht. destruct Ht as (Hth & _).
    unfold do_stop_take. rewrite bool_decide_true by done. by eexists.
Qed.

(** [stop] terminates: once the flag of a task is up, its thread is finished
    or can take a step, whatever the other tasks do; each of its steps brings it
    nearer to the end, at most four in all, and no step of another task takes it
    back, so the [join] of [do_stop] returns. *)
Theorem stop_terminates s t :
  reachable s → calls_of s !! t = Some Flagged ∨ calls_of s !! t = Some Joining →
  (thread_of s !! t = Some Finished ∨ ∃ s', thread_step t s s')
  ∧ (rank (thread_of s !! t) ≤ 4)%nat
  ∧ (∀ s', thread_step t s s' → (rank (thread_of s' !! t) < rank (thread_of s !! t))%nat)
  ∧ (∀ u s', u ≠ t → thread_step u s s' ∨ call_step u s s' → thread_of s' !! t = thread_of s !! t).
Proof.
  intros [Ht _]%reachable_wf Hcs. specialize (Ht t).
  assert (w_stop_works_ (w_ s) !! t = Some true ∧ is_Some (thread_of s !! t)
          ∧ thread_of s !! t ≠ Some Entering) as (Hf & [p Ep] & Hne).
  { destruct Hcs as [E|E]; rewrite E in Ht; cbn in Ht; naive_solver. }
  split_and!.
  - destruct (decide (p = Finished)) as [->|]; [by left|right].
    eapply flagged_moves; [done..|congruence|done].
  - rewrite Ep in Hne |- *. destruct p as [| |[] []|]; cbn; (done || lia).
  - apply thread_step_rank.
  - intros u s' Hu Hs. by apply (other_step_frame t u s s').
Qed.

(** [stop] is a barrier: it waits until the lock message the peer sends when
    it starts the same task has arrived, and takes exactly that byte. *)
Theorem stop_waits_for_peer now t w c :
  conn_wf c →
  if decide (ready c (lock_id t) = []) then stop_lock now 0 (state_ c) t w c = Sleep
  else ∃ c', stop_lock now 0 (state_ c) t w c
             = Ok (Works (w_stop_works_ w) (work_count_ w) (work_task_id_ w) (threads_ w)
                         (task_count_ w - 1), c')
       ∧ conn_wf c' ∧ ∀ id, ready c' id = if decide (id = lock_id t) then zdrop 1 (ready c id)
                                          else ready c id.
Proof.
  intros H. unfold stop_lock.
  assert (0 ≤ 0 ≤ if -1 <? 0 then 1000 * 1000000 else -1) as Ht by (vm_compute; intuition congruence).
  destruct (mapbuffer_ c !! lock_id t) as [b|] eqn:E.
  - assert (0 ≤ 1 ≤ zlen (str "1")) as H1 by (vm_compute; intuition congruence).
    pose proof (recv_ok now 0 (state_ c) c (lock_id t) (str "1") 1 (-1) H eq_refl Ht H1) as Hr.
    rewrite E in Hr. specialize (Hr ltac:(eauto)).
    case_decide as Er.
    + rewrite Er in Hr. by rewrite Hr.
    + destruct (ready c (lock_id t)) as [|x l] eqn:El; [done|].
      replace (1 <=? zlen (x :: l)) with true in Hr
        by (rewrite zlen_cons; pose proof (zlen_nonneg l); lia).
      destruct Hr as (b' & -> & Hb & Hcb). eexists. split; [done|]. split.
      * destruct H. split; [done..|]. by apply map_Forall_insert_2.
      * intros id. rewrite ready_insert. case_decide; [subst id; by rewrite El|done].
  - assert (ready c (lock_id t) = []) as Er by (unfold ready; by rewrite E).
    rewrite decide_True by done. by rewrite recv_no_id by (done || apply Ht).
Qed.

(** A system where "a" works, "b" waits for its turn and "a" is being stopped. *)
Definition works_ab : works :=
  Works {[ str "a" := true; str "b" := false ]} 1 (str "a") {[ str "a"; str "b" ]} 2.

Lemma busy_reachable :
  ∃ s, reachable s ∧ running (thread_of s) (str "a") ∧ calls_of s !! str "a" = Some Flagged.
Proof.
  eexists. split; [|split].
  - unfold reachable.
    eapply rtc_l; [exists (str "a"); right; by apply c_spawn|].
    eapply rtc_l; [exists (str "a"); right; apply c_register; by rewrite lookup_insert_eq|].
    eapply rtc_l; [exists (str "a"); left; apply t_enter; by rewrite lookup_insert_eq|].
    eapply rtc_l; [exists (str "a"); right; apply c_started; [by rewrite lookup_insert_eq|reflexivity]|].
    eapply rtc_l; [exists (str "a"); left; eapply t_work; [by rewrite lookup_insert_eq|reflexivity]|].
    eapply rtc_l; [exists (str "a"); right; apply c_flag; by rewrite lookup_insert_eq|].
    apply rtc_refl.
  - do 2 eexists. cbn. apply lookup_insert_eq.
  - cbn. apply lookup_insert_eq.
Qed.

Lemma one_task_works_witness :
  ∃ s, running (thread_of s) (str "a")
  ∧ (∀ t u, running (thread_of s) t → running (thread_of s) u → t = u)
  ∧ 0 ≤ work_count_ (w_ s) ≤ 1
  ∧ (∀ t, running (thread_of s) t → work_count_ (w_ s) = 1 ∧ work_task_id_ (w_ s) = t)
  ∧ (∀ t, calls_of s !! t = Some Flagged → ∃ w', do_stop_take t (w_ s) = Ok w').
Proof.
  destruct busy_reachable as (s & Hr & Hrun & _). exists s. split; [done|].
  exact (one_task_works s Hr).
Defined.

Lemma stop_terminates_witness :
  ∃ s, (thread_of s !! str "a" = Some Finished ∨ ∃ s', thread_step (str "a") s s')
  ∧ (rank (thread_of s !! str "a") ≤ 4)%nat
  ∧ (∀ s', thread_step (str "a") s s' →
       (rank (thread_of s' !! str "a") < rank (thread_of s !! str "a"))%nat)
  ∧ (∀ u s', u ≠ str "a" → thread_step u s s' ∨ call_step u s s' →
       thread_of s' !! str "a" = thread_of s !! str "a").
Proof.
  destruct busy_reachable as (s & Hr & _ & Hc). exists s.
  exact (stop_terminates s (str "a") Hr (or_introl Hc)).
Defined.

Lemma stop_waits_for_peer_witness :
  let c := set_mapbuffer {[ lock_id (str "t") := ring_of (str "1") ]} (small_conn [] []) in
  (if decide (ready c (lock_id (str "t")) = []) then stop_lock 0 0 (state_ c) (str "t") works_ab c = Sleep
   else ∃ c', stop_lock 0 0 (state_ c) (str "t") works_ab c
             = Ok (Works (w_stop_works_ works_ab) (work_count_ works_ab) (work_task_id_ works_ab)
                         (threads_ works_ab) (task_count_ works_ab - 1), c')
       ∧ conn_wf c' ∧ ∀ id, ready c' id = if decide (id = lock_id (str "t")) then zdrop 1 (ready c id)
                                          else ready c id)
  ∧ ready c (lock_id (str "t")) ≠ [].
Proof.
  intros c. split; [|vm_compute; congruence].
  apply (stop_waits_for_peer 0 (str "t") works_ab c).
  split; [by apply ring_of_wf..|]. by apply map_Forall_singleton, ring_of_wf.
Defined.
