(* ===== verification/Wakeup.v ===== *)
(** The condition variables of a [Connection] ([src/connection.cpp],
    [include/io/internal/connection.h]).  [Work] lets a waiting thread go on as soon
    as its predicate holds; here a thread that found its predicate false is asleep
    until another one notifies its condition variable (or it wakes up for no
    reason), and notifying is a step of its own where the code does it in a critical
    section of its own.  No wake-up is ever lost, so the threads of [Work] can take
    the steps its theorems promise. *)
From Stdlib Require Import Strings.Byte.
From S2P Require Import Prelude Timer CycleBuffer SimpleBuffer Transport Connection Work.
#[local] Open Scope Z_scope.

(** * The program *)

Inductive cv := stop_work_cv_ | work_cv_ | buffer_cv_ | send_buffer_cv_ | mapbuffer_cv_.

(** Who waits: the [start] of a task, its [do_start], its two loops, and a call of
    [recv]. *)
Inductive waiter :=
  | Starter (task_id : bytes)
  | Turn (task_id : bytes)
  | Receiver (task_id : bytes)
  | Sender (task_id : bytes)
  | Reader (call : nat).

#[global] Instance cv_eq_dec : EqDecision cv.
Proof. solve_decision. Defined.
#[global] Instance waiter_eq_dec : EqDecision waiter.
Proof. solve_decision. Defined.

Definition cv_of (x : waiter) : cv :=
  match x with
  | Starter _ => stop_work_cv_
  | Turn _ => work_cv_
  | Receiver _ => buffer_cv_
  | Sender _ => send_buffer_cv_
  | Reader _ => mapbuffer_cv_
  end.

(** The threads that sleep on a condition variable. *)
Definition sleepers : Type := waiter → bool.

Definition notify_all (v : cv) (z : sleepers) : sleepers :=
  λ x, z x && negb (bool_decide (cv_of x = v)).
Definition falls_asleep (x : waiter) (z : sleepers) : sleepers := λ y, bool_decide (y = x) || z y.
Definition wakes_up (x : waiter) (z : sleepers) : sleepers := λ y, negb (bool_decide (y = x)) && z y.

(** [do_stop], after the flag is up: the section on [work_mtx_]. *)
Definition do_stop_notify (task_id : bytes) (w : works) (z : sleepers) : sleepers :=
  if bool_decide (work_task_id_ w = task_id)
  then notify_all buffer_cv_ (notify_all send_buffer_cv_ z)
  else notify_all work_cv_ z.

(** The tasks of a connection with its rings; the calls of [recv] that wait; who
    sleeps; the stopped tasks whose [do_stop] has notified; the calls of
    [Connection::write] that have written and not yet notified; and what the loops have
    taken: the message [loop_recv] is about to sort, the buffer [loop_send] has given to
    [writen]. *)
Record state := State {
  base : sys;
  c_ : Connection;
  reading : gmap nat (bytes * Z);
  asleep : sleepers;
  notified : gset bytes;
  writers : nat;
  sorting : gmap bytes (bytes * bytes);
  sending : gmap bytes bytes
}.

(** The connection as the loops see it, with the flags of the tasks. *)
Definition view (s : state) : Connection := conn (make_obj (c_ s) (w_ (base s))).

Definition set_base (b : sys) (s : state) : state :=
  State b (c_ s) (reading s) (asleep s) (notified s) (writers s) (sorting s) (sending s).
Definition set_conn (c : Connection) (s : state) : state :=
  State (base s) c (reading s) (asleep s) (notified s) (writers s) (sorting s) (sending s).
Definition set_asleep (z : sleepers) (s : state) : state :=
  State (base s) (c_ s) (reading s) z (notified s) (writers s) (sorting s) (sending s).

Definition set_sorting (m : gmap bytes (bytes * bytes)) (s : state) : state :=
  State (base s) (c_ s) (reading s) (asleep s) (notified s) (writers s) m (sending s).
Definition set_sending (m : gmap bytes bytes) (s : state) : state :=
  State (base s) (c_ s) (reading s) (asleep s) (notified s) (writers s) (sorting s) m.

(** A loop is between its wait and its next turn. *)
Definition busy (x : waiter) (s : state) : Prop :=
  match x with
  | Receiver t => is_Some (sorting s !! t)
  | Sender t => is_Some (sending s !! t)
  | _ => False
  end.

(** Is the thread at its wait? *)
Definition at_wait (x : waiter) (s : state) : Prop :=
  match x with
  | Starter t => calls_of (base s) !! t = Some Registered
  | Turn t => thread_of (base s) !! t = Some Waiting
  | Receiver t => ∃ b, thread_of (base s) !! t = Some (Running true b)
  | Sender t => ∃ b, thread_of (base s) !! t = Some (Running b true)
  | Reader n => is_Some (reading s !! n)
  end.

Section program.
Context (junk : nat → byte).

(** The wait of a call of [recv], which comes after the tests of the state and the
    time-out. *)
Definition recv_wait (now : Z) (c : Connection) (id : bytes) (len : Z)
    : outcome (Z * bytes * Connection) :=
  recv now 0 (state_ c) c id (new_char junk len) len (-1).

(** The predicates of the waits of [start] and [do_start], of [loop_recv] and
    [loop_send], and of [recv]. *)
Definition start_predicate (task_id : bytes) (w : works) : bool :=
  bool_decide (w_stop_works_ w !! task_id = Some false).
Definition do_start_predicate (task_id : bytes) (w : works) : bool :=
  (work_count_ w =? 0) || flagged task_id w.
Definition loop_recv_predicate (task_id : bytes) (w : works) (c : Connection) : outcome bool :=
  if flagged task_id w then mret true else cycle_buffer.can_read junk (buffer_ c).
Definition loop_send_predicate (task_id : bytes) (w : works) (c : Connection) : bool :=
  flagged task_id w || (0 <? cycle_buffer.size (send_buffer_ c)).
Definition recv_predicate (id : bytes) (length : Z) (c : Connection) : bool :=
  match mapbuffer_ c !! id with
  | Some buffer => cycle_buffer.can_read_n buffer length
  | None => false
  end.

Definition predicate (x : waiter) (s : state) : outcome bool :=
  let w := w_ (base s) in
  match x with
  | Starter t => mret (start_predicate t w)
  | Turn t => mret (do_start_predicate t w)
  | Receiver t => loop_recv_predicate t w (c_ s)
  | Sender t => mret (loop_send_predicate t w (c_ s))
  | Reader n =>
    match reading s !! n with
    | Some (id, len) => mret (recv_predicate id len (c_ s))
    | None => mret true
    end
  end.

Inductive step : relation state :=
  (* [do_start] *)
  | s_enter s t b' :
      thread_of (base s) !! t = Some Entering → thread_step t (base s) b' →
      step s (set_asleep (notify_all stop_work_cv_ (asleep s)) (set_base b' s))
  | s_turn s t b' :
      thread_of (base s) !! t = Some Waiting → asleep s (Turn t) = false →
      thread_step t (base s) b' → step s (set_base b' s)
  | s_finish s t b' :
      thread_of (base s) !! t = Some (Running false false) → thread_step t (base s) b' →
      step s (set_asleep (notify_all work_cv_ (asleep s)) (set_base b' s))
  (* the loops: they take something, or find the flag of their task; [loop_recv] sorts
     what it took, the [writen] of [loop_send] returns when the kernel has taken the
     bytes or it failed *)
  | s_recv s t r m c' :
      thread_of (base s) !! t = Some (Running true r) → asleep s (Receiver t) = false → sorting s !! t = None →
      loop_recv_take junk t (view s) = Ok (Some m, c') → step s (set_sorting (<[t := m]> (sorting s)) (set_conn c' s))
  | s_dispatch s now t id data c' :
      sorting s !! t = Some (id, data) → dispatch junk now (c_ s) id data = Ok c' →
      step s (set_sorting (delete t (sorting s))
                (set_asleep (notify_all mapbuffer_cv_ (asleep s)) (set_conn c' s)))
  | s_recv_exit s t r b' :
      thread_of (base s) !! t = Some (Running true r) → asleep s (Receiver t) = false → sorting s !! t = None →
      thread_of b' !! t = Some (Running false r) → thread_step t (base s) b' →
      step s (set_base b' s)
  | s_send s now t r m c' :
      thread_of (base s) !! t = Some (Running r true) → asleep s (Sender t) = false → sending s !! t = None →
      loop_send_take junk now t (view s) = Ok (Some m, c') → step s (set_sending (<[t := m]> (sending s)) (set_conn c' s))
  | s_sent s t m :
      sending s !! t = Some m → step s (set_sending (delete t (sending s)) s)
  | s_send_exit s t r b' :
      thread_of (base s) !! t = Some (Running r true) → asleep s (Sender t) = false → sending s !! t = None →
      thread_of b' !! t = Some (Running r false) → thread_step t (base s) b' →
      step s (set_base b' s)
  (* [start] and [stop] *)
  | s_call s t b' :
      calls_of (base s) !! t ≠ Some Registered → calls_of (base s) !! t ≠ Some Flagged →
      call_step t (base s) b' → step s (set_base b' s)
  | s_started s t b' :
      calls_of (base s) !! t = Some Registered → asleep s (Starter t) = false →
      call_step t (base s) b' → step s (set_base b' s)
  | s_notify s t :
      calls_of (base s) !! t = Some Flagged → t ∉ notified s →
      step s (State (base s) (c_ s) (reading s) (do_stop_notify t (w_ (base s)) (asleep s))
                    ({[t]} ∪ notified s) (writers s) (sorting s) (sending s))
  | s_take s t b' :
      calls_of (base s) !! t = Some Flagged → t ∈ notified s → call_step t (base s) b' →
      step s (State b' (c_ s) (reading s) (asleep s) (notified s ∖ {[t]}) (writers s) (sorting s) (sending s))
  (* the server thread: [write] fills the ring before it takes the mutex and notifies *)
  | s_write s now data len c' :
      Connection.write junk now (c_ s) data len = Ok c' →
      step s (State (base s) c' (reading s) (asleep s) (notified s) (S (writers s)) (sorting s) (sending s))
  | s_written s n :
      writers s = S n →
      step s (State (base s) (c_ s) (reading s) (notify_all buffer_cv_ (asleep s)) (notified s) n (sorting s) (sending s))
  (* [put_into_send_buffer], [recv], [close] *)
  | s_put s now data len ret c' :
      put_into_send_buffer junk now (c_ s) data len = Ok (ret, c') →
      step s (set_asleep (notify_all send_buffer_cv_ (asleep s)) (set_conn c' s))
  | s_read s n id len :
      reading s !! n = None →
      step s (State (base s) (c_ s) (<[n := (id, len)]> (reading s)) (asleep s) (notified s) (writers s) (sorting s) (sending s))
  | s_read_done s now n id len ret data c' :
      reading s !! n = Some (id, len) → asleep s (Reader n) = false →
      recv_wait now (c_ s) id len = Ok (ret, data, c') →
      step s (State (base s) c' (delete n (reading s)) (notify_all mapbuffer_cv_ (asleep s))
                    (notified s) (writers s) (sorting s) (sending s))
  | s_close s now env c' sent fds env' :
      Connection.close junk now env (c_ s) = Ok (c', sent, fds, env') → step s (set_conn c' s)
  (* a thread whose predicate is false sleeps; any thread can wake up *)
  | s_sleep s x : at_wait x s → ¬ busy x s → predicate x s = Ok false → step s (set_asleep (falls_asleep x (asleep s)) s)
  | s_wake s x : step s (set_asleep (wakes_up x (asleep s)) s).

(** A new connection. *)
Definition fresh (s : state) : Prop :=
  base s = initial ∧ reading s = ∅ ∧ (∀ x, asleep s x = false) ∧ notified s = ∅ ∧ writers s = 0%nat
  ∧ sorting s = ∅ ∧ sending s = ∅.

Definition reachable (s : state) : Prop := ∃ s0, fresh s0 ∧ rtc step s0 s.
End program.

(** * Specification *)

(** A notification of the thread is still to come. *)
Definition to_be_notified (x : waiter) (s : state) : Prop :=
  match x with
  | Turn t | Sender t => calls_of (base s) !! t = Some Flagged ∧ t ∉ notified s
  | Receiver t => calls_of (base s) !! t = Some Flagged ∧ t ∉ notified s
                  ∨ flagged t (w_ (base s)) = false ∧ (0 < writers s)%nat
  | Starter _ | Reader _ => False
  end.

(** What holds of a thread that sleeps. *)
Record sleeps_well (junk : nat → byte) (x : waiter) (s : state) : Prop := {
  sl_at : at_wait x s;
  sl_turn : cv_of x = work_cv_ → work_count_ (w_ (base s)) ≠ 0;
  sl_reason : predicate junk x s = Ok false ∨ to_be_notified x s
}.

Record cv_wf (junk : nat → byte) (s : state) : Prop := {
  cv_base : Work.reachable (base s);
  cv_notified t : t ∈ notified s → calls_of (base s) !! t = Some Flagged;
  cv_asleep x : asleep s x = true → sleeps_well junk x s
}.

(** The turns that the threads of a stopped task have left: those of [do_start], the
    message that is being sorted, the bytes that are being sent. *)
Definition left_to_do (t : bytes) (s : state) : nat :=
  rank (thread_of (base s) !! t)
  + (if decide (is_Some (sorting s !! t)) then 1 else 0)
  + (if decide (is_Some (sending s !! t)) then 1 else 0).

(** * Lemmas *)

Lemma flagged_view t s : stop_requested (view s) t = flagged t (w_ (base s)).
Proof.
  unfold stop_requested, flagged. cbn. destruct (_ !! t) as [[]|]; by case_bool_decide.
Qed.

Ltac unfold_predicates :=
  cbn [predicate] in *;
  unfold start_predicate, do_start_predicate, loop_recv_predicate, loop_send_predicate,
    recv_predicate in *.

(** A wait whose predicate is false sleeps. *)
Lemma unready_sleeps junk x s :
  at_wait x s → predicate junk x s = Ok false →
  match x with
  | Starter t => start_wait t (w_ (base s)) = Sleep
  | Turn t => do_start_wait t (w_ (base s)) = Sleep
  | Receiver t => loop_recv_take junk t (view s) = Sleep
  | Sender t => ∀ now, loop_send_take junk now t (view s) = Sleep
  | Reader n => ∀ now id len, reading s !! n = Some (id, len) → recv_wait junk now (c_ s) id len = Sleep
  end.
Proof.
  intros Hw. destruct x as [t|t|t|t|n]; unfold_predicates; unfold loop_recv_take, loop_send_take;
    rewrite ?flagged_view.
  - unfold start_wait. by case_bool_decide.
  - unfold do_start_wait. intros [= ->]. done.
  - destruct (flagged _ _); [done|]. change (buffer_ (view s)) with (buffer_ (c_ s)). by intros ->.
  - destruct (flagged _ _); [done|]. change (send_buffer_ (view s)) with (send_buffer_ (c_ s)).
    cbn. by intros [= ->] now.
  - intros E now id len En. rewrite En in E. unfold recv_wait, recv.
    destruct (bool_decide _); cbn; (destruct (mapbuffer_ (c_ s) !! id); cbn in *; [by injection E as ->|done]).
Qed.

(** ** What the sections change *)

Section sections.
Context (junk : nat → byte).

(** What the loops and the calls of [recv] do not look at. *)
Definition same_but (rings : list cv) (c c' : Connection) : Prop :=
  (buffer_cv_ ∉ rings → buffer_ c' = buffer_ c)
  ∧ (send_buffer_cv_ ∉ rings → send_buffer_ c' = send_buffer_ c)
  ∧ (mapbuffer_cv_ ∉ rings → mapbuffer_ c' = mapbuffer_ c).

Lemma write_frame now c data len c' :
  Connection.write junk now c data len = Ok c' → same_but [buffer_cv_] c c'.
Proof. unfold Connection.write. intros E. outcome_inv. by split_and!; [set_solver|..]. Qed.

Lemma put_frame now c data len ret c' :
  put_into_send_buffer junk now c data len = Ok (ret, c') → same_but [send_buffer_cv_] c c'.
Proof. unfold put_into_send_buffer. intros E. outcome_inv. by split_and!; [|set_solver|]. Qed.

Lemma dispatch_frame now c id data c' :
  dispatch junk now c id data = Ok c' → same_but [mapbuffer_cv_] c c'.
Proof.
  unfold dispatch. intros E. destruct (_ !! id); outcome_inv. by split_and!; [| |set_solver].
Qed.

Lemma recv_take_frame t c m c' :
  loop_recv_take junk t c = Ok (Some m, c') → same_but [buffer_cv_] c c'.
Proof. unfold loop_recv_take. intros E. destruct (stop_requested _ _); outcome_inv. by split_and!; [set_solver|..]. Qed.

Lemma send_take_frame now t c m c' :
  loop_send_take junk now t c = Ok (Some m, c') → same_but [send_buffer_cv_] c c'.
Proof. unfold loop_send_take. intros E. destruct (stop_requested _ _); outcome_inv. by split_and!; [|set_solver|]. Qed.

Lemma recv_wait_frame now c id len ret data c' :
  recv_wait junk now c id len = Ok (ret, data, c') → same_but [mapbuffer_cv_] c c'.
Proof.
  unfold recv_wait, recv. intros E. repeat case_match; outcome_inv; by split_and!; [..|set_solver].
Qed.

Lemma close_frame now env c c' sent fds env' :
  Connection.close junk now env c = Ok (c', sent, fds, env') →
  same_but [send_buffer_cv_] c c'
  ∧ ((0 <? cycle_buffer.size (send_buffer_ c)) = false → send_buffer_ c' = send_buffer_ c).
Proof.
  unfold Connection.close, flush_send_buffer. intros E. case_bool_decide; [by outcome_inv|].
  change (send_buffer_ (set_state Closing c)) with (send_buffer_ c) in E.
  destruct (0 <? _) eqn:Es; outcome_inv; (split; [by split_and!; [|set_solver|]|done]).
Qed.
End sections.

(** ** The base system *)

(** Another task's entry in [stop_works_], and the counter. *)
Lemma thread_step_works t b b' :
  thread_step t b b' →
  calls_of b' = calls_of b
  ∧ (∀ u, u ≠ t → thread_of b' !! u = thread_of b !! u)
  ∧ (∀ u, u ≠ t ∨ thread_of b !! t ≠ Some Entering →
       w_stop_works_ (w_ b') !! u = w_stop_works_ (w_ b) !! u)
  ∧ (thread_of b !! t ≠ Some (Running false false) → work_count_ (w_ b) ≠ 0 →
       work_count_ (w_ b') = work_count_ (w_ b)).
Proof.
  destruct 1 as [w ph cs E|w ph cs w' E Ew|w ph cs w' E Ew|w ph cs c E Ef|w ph cs c E Ef|w ph cs E];
    cbn in *; (split_and!; [done|intros u Hu; by rewrite lookup_insert_ne|..]); try done.
  - intros u Hu. unfold do_start_enter. destruct (w_stop_works_ w !! t); [done|]. cbn.
    rewrite lookup_insert_ne; naive_solver.
  - intros _ _. unfold do_start_enter. by destruct (w_stop_works_ w !! t).
  - by apply do_start_wait_inv in Ew as (-> & _).
  - intros _ H0. apply do_start_wait_inv in Ew as (-> & H1 & H2). destruct H1, H2; congruence.
  - by apply do_start_wait_inv in Ew as (-> & _).
  - by apply do_start_wait_inv in Ew as (-> & _).
Qed.

Lemma call_step_works t b b' :
  call_step t b b' →
  (∀ u, u ≠ t → thread_of b' !! u = thread_of b !! u ∧ calls_of b' !! u = calls_of b !! u
       ∧ w_stop_works_ (w_ b') !! u = w_stop_works_ (w_ b) !! u)
  ∧ work_count_ (w_ b') = work_count_ (w_ b)
  ∧ match calls_of b !! t with
    | Some Spawned | Some Registered =>
      calls_of b' !! t ≠ Some Flagged
      ∧ thread_of b' !! t = thread_of b !! t ∧ w_stop_works_ (w_ b') !! t = w_stop_works_ (w_ b) !! t
    | Some Active => calls_of b' !! t = Some Flagged ∧ thread_of b' !! t = thread_of b !! t
    | Some Flagged => calls_of b' !! t = Some Joining ∧ thread_of b' !! t = thread_of b !! t
                      ∧ w_stop_works_ (w_ b') !! t = w_stop_works_ (w_ b) !! t
    | _ => calls_of b' !! t ≠ Some Registered ∧ calls_of b' !! t ≠ Some Flagged
           ∧ (calls_of b !! t = Some Joining → thread_of b !! t = Some Finished)
    end.
Proof.
  destruct 1 as [w ph cs E|w ph cs E|w ph cs E Ew|w ph cs E|w ph cs w' E Ew|w ph cs E Ep|w ph cs E];
    try (apply do_stop_take_inv in Ew as [_ ->]); cbn in *; rewrite E; unfold do_stop_flag;
    (split_and!; [intros u Hu; rewrite ?lookup_insert_ne, ?lookup_delete_ne by done;
       repeat case_match; cbn; rewrite ?lookup_insert_ne, ?lookup_delete_ne by done; done|..]);
    rewrite ?lookup_insert_eq, ?lookup_delete_eq; repeat case_match; done.
Qed.

(** Every step is one of [Work] or leaves its state alone. *)
Lemma step_base junk s s' : step junk s s' → base s' = base s ∨ Work.step (base s) (base s').
Proof. destruct 1; cbn; try (by left); right; by eexists; eauto. Qed.

(** ** The invariant *)

Definition task_of (x : waiter) : option bytes :=
  match x with Starter t | Turn t | Receiver t | Sender t => Some t | Reader _ => None end.

(** The reasons of a sleeper look the same in two states. *)
Record sees_same (x : waiter) (s s' : state) : Prop := {
  ss_task t : task_of x = Some t →
    (calls_of (base s') !! t = Some Flagged ↔ calls_of (base s) !! t = Some Flagged)
    ∧ w_stop_works_ (w_ (base s')) !! t = w_stop_works_ (w_ (base s)) !! t
    ∧ (t ∈ notified s' ↔ t ∈ notified s);
  ss_count : cv_of x = work_cv_ → work_count_ (w_ (base s)) ≠ 0 →
    work_count_ (w_ (base s')) = work_count_ (w_ (base s));
  ss_reading n : x = Reader n → reading s' !! n = reading s !! n;
  ss_writers : cv_of x = buffer_cv_ → writers s' = writers s;
  ss_rings : same_but (filter (λ v, v ≠ cv_of x) [buffer_cv_; send_buffer_cv_; mapbuffer_cv_]) (c_ s) (c_ s')
}.

Lemma flagged_same t w w' : w_stop_works_ w' !! t = w_stop_works_ w !! t → flagged t w' = flagged t w.
Proof. unfold flagged. by intros ->. Qed.

Lemma sees_same_ok junk x s s' :
  sees_same x s s' → at_wait x s' → sleeps_well junk x s → sleeps_well junk x s'.
Proof.
  intros [Ht Hc Hr Hw (Hb & Hsb & Hm)] Hat [_ Hturn Hreason]. split; [done|..].
  { intros Ex. specialize (Hturn Ex). by rewrite Hc. }
  destruct x as [t|t|t|t|n]; unfold_predicates; cbn in *;
    try (destruct (Ht t eq_refl) as (Ec & Es & En); apply flagged_same in Es as Ef);
    rewrite ?Ec, ?Es, ?Ef, ?En; try rewrite Hw by done; try done.
  - by rewrite Hc by auto.
  - rewrite Hb; [done|set_solver].
  - rewrite Hsb; [done|set_solver].
  - rewrite Hr by done. rewrite Hm; [done|set_solver].
Qed.

(** A step of a thread, for the sleepers of all tasks. *)
Lemma thread_step_sleeps junk t s s' x :
  thread_step t (base s) (base s') → c_ s' = c_ s → reading s' = reading s →
  notified s' = notified s → writers s' = writers s →
  (thread_of (base s) !! t = Some (Running false false) → cv_of x ≠ work_cv_) →
  (task_of x = Some t → thread_of (base s) !! t ≠ Some Entering ∧ at_wait x s') →
  sleeps_well junk x s → sleeps_well junk x s'.
Proof.
  intros Hs Ec Er En Ew Hfin Hx H. pose proof (thread_step_works _ _ _ Hs) as (Hcalls & Hth & Hst & Hcnt).
  apply (sees_same_ok junk x s s'); [| |done].
  - split; rewrite ?Ec, ?Er, ?En, ?Ew, ?Hcalls; try done.
    + intros u Eu. split_and!; [done| |done]. apply Hst.
      destruct (decide (u = t)) as [->|]; [right; by apply Hx|by left].
    + intros Ex. apply Hcnt. naive_solver.
  - destruct (decide (task_of x = Some t)) as [Et|Et]; [by apply Hx|]. apply sl_at in H.
    destruct x as [u|u|u|u|n]; cbn in *; rewrite ?Hcalls, ?Er, ?Hth by congruence; done.
Qed.

Lemma asleep_notify v z x : notify_all v z x = true → z x = true ∧ cv_of x ≠ v.
Proof. unfold notify_all. rewrite andb_true_iff, negb_true_iff, bool_decide_eq_false. done. Qed.

(** What a sleeper says about the phase of its task. *)
Lemma sleeper_phase x t s p :
  at_wait x s → task_of x = Some t → thread_of (base s) !! t = Some p →
  x = Starter t ∨ x = Turn t ∧ p = Waiting ∨ x = Receiver t ∧ (∃ b, p = Running true b)
  ∨ x = Sender t ∧ ∃ b, p = Running b true.
Proof. destruct x as [u|u|u|u|n]; cbn; intros H [= ->] E; rewrite ?E in H; naive_solver. Qed.

Lemma thread_step_wakeups junk s s' t :
  cv_wf junk s → thread_step t (base s) (base s') → c_ s' = c_ s → reading s' = reading s →
  notified s' = notified s → writers s' = writers s →
  (∀ x, asleep s' x = true → asleep s x = true
     ∧ (thread_of (base s) !! t = Some (Running false false) → cv_of x ≠ work_cv_)
     ∧ (task_of x = Some t → thread_of (base s) !! t ≠ Some Entering ∧ at_wait x s')) →
  cv_wf junk s'.
Proof.
  intros [Hb Hn Hz] Hs Ec Er En Ew Hx. split.
  - unfold Work.reachable in *. eapply rtc_r; [done|]. by exists t; left.
  - destruct (thread_step_works _ _ _ Hs) as (-> & _). by rewrite En.
  - intros x (Hzx & H1 & H2)%Hx. by eapply thread_step_sleeps; [..|apply Hz].
Qed.

Lemma starter_stays t s s' :
  thread_step t (base s) (base s') → at_wait (Starter t) s → at_wait (Starter t) s'.
Proof. intros (Hc & _)%thread_step_works. cbn. by rewrite Hc. Qed.

(** Another thread moves while this one sleeps. *)
Ltac sleeper Hwf x Hx t Et Hs :=
  pose proof (sl_at _ _ _ (cv_asleep _ _ Hwf x Hx)) as Hat;
  destruct (sleeper_phase x t _ _ Hat Et ltac:(eassumption)) as
    [->|[[-> ?]|[[-> [? ?]]|[-> [? ?]]]]]; simplify_eq;
  try (split; [congruence|by eapply starter_stays]).

Lemma cv_enter junk s t b' :
  cv_wf junk s → thread_of (base s) !! t = Some Entering → thread_step t (base s) b' →
  cv_wf junk (set_asleep (notify_all stop_work_cv_ (asleep s)) (set_base b' s)).
Proof.
  intros Hwf E Hs. eapply (thread_step_wakeups junk s); [done..|]. intros x [Hx Hv]%asleep_notify.
  split_and!; [done|congruence|]. intros Et. sleeper Hwf x Hx t Et Hs.
Qed.

Lemma cv_turn junk s t b' :
  cv_wf junk s → thread_of (base s) !! t = Some Waiting → asleep s (Turn t) = false →
  thread_step t (base s) b' → cv_wf junk (set_base b' s).
Proof.
  intros Hwf E Ha Hs. eapply (thread_step_wakeups junk s); [done..|]. intros x Hx.
  split_and!; [done|congruence|]. intros Et. sleeper Hwf x Hx t Et Hs. cbn in Hx. congruence.
Qed.

Lemma cv_finish junk s t b' :
  cv_wf junk s → thread_of (base s) !! t = Some (Running false false) → thread_step t (base s) b' →
  cv_wf junk (set_asleep (notify_all work_cv_ (asleep s)) (set_base b' s)).
Proof.
  intros Hwf E Hs. eapply (thread_step_wakeups junk s); [done..|]. intros x [Hx Hv]%asleep_notify.
  split_and!; [done|done|]. intros Et. sleeper Hwf x Hx t Et Hs.
Qed.

Lemma cv_recv_exit junk s t r b' :
  cv_wf junk s → thread_of (base s) !! t = Some (Running true r) → asleep s (Receiver t) = false →
  thread_of b' !! t = Some (Running false r) → thread_step t (base s) b' → cv_wf junk (set_base b' s).
Proof.
  intros Hwf E Ha E' Hs. eapply (thread_step_wakeups junk s); [done..|]. intros x Hx.
  split_and!; [done|congruence|]. intros Et. sleeper Hwf x Hx t Et Hs; cbn in Hx; [congruence|].
  split; [congruence|]. by eexists.
Qed.

Lemma cv_send_exit junk s t r b' :
  cv_wf junk s → thread_of (base s) !! t = Some (Running r true) → asleep s (Sender t) = false →
  thread_of b' !! t = Some (Running r false) → thread_step t (base s) b' → cv_wf junk (set_base b' s).
Proof.
  intros Hwf E Ha E' Hs. eapply (thread_step_wakeups junk s); [done..|]. intros x Hx.
  split_and!; [done|congruence|]. intros Et. sleeper Hwf x Hx t Et Hs; cbn in Hx; [|congruence].
  split; [congruence|]. by eexists.
Qed.

Lemma call_step_other junk t s s' x :
  call_step t (base s) (base s') → c_ s' = c_ s → reading s' = reading s → writers s' = writers s →
  (∀ u, u ≠ t → (u ∈ notified s' ↔ u ∈ notified s)) → task_of x ≠ Some t →
  sleeps_well junk x s → sleeps_well junk x s'.
Proof.
  intros Hs Ec Er Ew Hn Hx H. pose proof (call_step_works _ _ _ Hs) as (Ho & Hcnt & _).
  apply (sees_same_ok junk x s s'); [| |done].
  - split; rewrite ?Ec, ?Er, ?Ew, ?Hcnt; try done. intros u Eu.
    destruct (Ho u) as (_ & -> & ->); [congruence|]. split_and!; [done..|]. apply Hn. congruence.
  - apply sl_at in H. destruct x as [u|u|u|u|n]; cbn in *;
      try (destruct (Ho u) as (Et & E & _); [congruence|]); rewrite ?Et, ?E, ?Er; done.
Qed.

(** A step of a caller, given what becomes of the sleepers of its task. *)
Lemma call_step_wakeups junk t s s' :
  cv_wf junk s → call_step t (base s) (base s') → c_ s' = c_ s → reading s' = reading s →
  writers s' = writers s → asleep s' = asleep s →
  (∀ u, u ≠ t → (u ∈ notified s' ↔ u ∈ notified s)) →
  (t ∈ notified s' → calls_of (base s') !! t = Some Flagged) →
  (∀ x, task_of x = Some t → asleep s x = true → sleeps_well junk x s → sleeps_well junk x s') →
  cv_wf junk s'.
Proof.
  intros [Hb Hn Hz] Hs Ec Er Ew Ez Hne Ht Hx. split.
  - unfold Work.reachable in *. eapply rtc_r; [done|]. by exists t; right.
  - intros u Hu. destruct (decide (u = t)) as [->|Hut]; [by apply Ht|].
    destruct (call_step_works _ _ _ Hs) as (Ho & _). destruct (Ho u Hut) as (_ & -> & _).
    by apply Hn, Hne.
  - intros x Ha. rewrite Ez in Ha. destruct (decide (task_of x = Some t)) as [Et|Et]; [by apply Hx, Hz|].
    by eapply call_step_other; [..|apply Hz].
Qed.

(** The phase of the task's thread, as [sys_wf] says. *)
Lemma task_phase s t : Work.reachable (base s) →
  task_ok (w_ (base s)) (calls_of (base s) !! t) (thread_of (base s) !! t) t.
Proof. intros H. by apply wf_task, reachable_wf. Qed.

(** Nothing but its calls changes for a task. *)
Lemma same_task_sleeps junk t s s' x :
  task_of x = Some t → at_wait x s' →
  calls_of (base s) !! t ≠ Some Flagged → calls_of (base s') !! t ≠ Some Flagged →
  w_stop_works_ (w_ (base s')) !! t = w_stop_works_ (w_ (base s)) !! t →
  work_count_ (w_ (base s')) = work_count_ (w_ (base s)) →
  c_ s' = c_ s → reading s' = reading s → writers s' = writers s → notified s' = notified s →
  sleeps_well junk x s → sleeps_well junk x s'.
Proof.
  intros Et Hat H1 H2 Es Ecnt Ec Er Ew En H. apply (sees_same_ok junk x s s'); [|done..].
  split; rewrite ?Ec, ?Er, ?Ew, ?Ecnt, ?En; try done.
  intros u Eu. assert (u = t) as -> by congruence. done.
Qed.

Ltac of_task x Et := destruct x as [u|u|u|u|n]; [injection Et as ->..|discriminate Et].

Lemma cv_call junk s t b' :
  cv_wf junk s → calls_of (base s) !! t ≠ Some Registered → calls_of (base s) !! t ≠ Some Flagged →
  call_step t (base s) b' → cv_wf junk (set_base b' s).
Proof.
  intros Hwf H1 H2 Hs. pose proof (call_step_works _ _ _ Hs) as (_ & Hcnt & Ht).
  pose proof (task_phase s t (cv_base _ _ Hwf)) as Hok.
  eapply (call_step_wakeups junk t s); [done..| |].
  { intros Hn. by apply (cv_notified _ _ Hwf) in Hn. }
  intros x Et Ha Hx. pose proof (sl_at _ _ _ Hx) as Hat.
  destruct (calls_of (base s) !! t) as [[]|] eqn:Ecs; try done; cbn in Hok.
  - destruct Ht as (Hc & Eth & Est). eapply (same_task_sleeps junk t s); try done; [|congruence].
    of_task x Et; cbn in Hat |- *; [congruence|by rewrite Eth..].
  - destruct Ht as (Hc & Eth). split.
    + of_task x Et; cbn in Hat |- *; [congruence|by rewrite Eth..].
    + intros Ex. cbn. rewrite Hcnt. by eapply sl_turn.
    + right. assert (t ∉ notified s) by (intros Hn%(cv_notified _ _ Hwf); congruence).
      of_task x Et; cbn in *; [congruence|naive_solver..].
  - destruct Ht as (_ & _ & Ep). specialize (Ep eq_refl).
    of_task x Et; cbn in Hat; rewrite ?Ep in Hat; naive_solver.
  - destruct Hok as (_ & _ & Ep).
    of_task x Et; cbn in Hat; rewrite ?Ep in Hat; naive_solver.
  - destruct Hok as (Ep & _ & _).
    of_task x Et; cbn in Hat; rewrite ?Ep in Hat; naive_solver.
Qed.

Lemma cv_started junk s t b' :
  cv_wf junk s → calls_of (base s) !! t = Some Registered → asleep s (Starter t) = false →
  call_step t (base s) b' → cv_wf junk (set_base b' s).
Proof.
  intros Hwf H1 Haw Hs. pose proof (call_step_works _ _ _ Hs) as (_ & Hcnt & Ht). rewrite H1 in Ht.
  destruct Ht as (Hc & Eth & Est). eapply (call_step_wakeups junk t s); [done..| |].
  { intros Hn. apply (cv_notified _ _ Hwf) in Hn. congruence. }
  intros x Et Ha Hx. pose proof (sl_at _ _ _ Hx) as Hat.
  eapply (same_task_sleeps junk t s); try done; [|congruence].
  of_task x Et; cbn in Hat |- *; [congruence|by rewrite Eth..].
Qed.

(** A sleeper whose flag is up has not been notified yet. *)
Lemma flagged_sleeper junk s x t :
  cv_wf junk s → asleep s x = true → task_of x = Some t → x ≠ Starter t →
  flagged t (w_ (base s)) = true → calls_of (base s) !! t = Some Flagged ∧ t ∉ notified s.
Proof.
  intros Hwf Ha Et Hx Hf. destruct (cv_asleep _ _ Hwf x Ha) as [_ _ Hr].
  of_task x Et; unfold_predicates; cbn in *; rewrite ?Hf, ?orb_true_r in Hr; naive_solver.
Qed.

Lemma cv_take junk s t b' :
  cv_wf junk s → calls_of (base s) !! t = Some Flagged → t ∈ notified s → call_step t (base s) b' →
  cv_wf junk (State b' (c_ s) (reading s) (asleep s) (notified s ∖ {[t]}) (writers s) (sorting s) (sending s)).
Proof.
  intros Hwf H1 Hn Hs. pose proof (call_step_works _ _ _ Hs) as (_ & _ & Ht). rewrite H1 in Ht.
  pose proof (task_phase s t (cv_base _ _ Hwf)) as Hok. rewrite H1 in Hok. destruct Hok as (_ & Hf & _).
  apply flagged_true in Hf.
  eapply (call_step_wakeups junk t s); [done..|cbn; set_solver|cbn; set_solver|].
  intros x Et Ha Hx. destruct (decide (x = Starter t)) as [->|Hne].
  - pose proof (sl_at _ _ _ Hx) as Hat. cbn in Hat. congruence.
  - by destruct (flagged_sleeper junk s x t) as [_ ?].
Qed.

(** The thread of a running task is the one [do_stop] finds in [work_task_id_]; a
    task that waits for its turn is not. *)
Lemma running_is_worker s t r u :
  Work.reachable (base s) → thread_of (base s) !! t = Some (Running r u) → work_task_id_ (w_ (base s)) = t.
Proof.
  intros [_ [[_ H]|[_ H]]]%reachable_wf E; [destruct (H t); by do 2 eexists|].
  symmetry. apply H. by do 2 eexists.
Qed.

Lemma waiting_is_no_worker s t :
  Work.reachable (base s) → thread_of (base s) !! t = Some Waiting → work_count_ (w_ (base s)) ≠ 0 →
  work_task_id_ (w_ (base s)) ≠ t.
Proof.
  intros [_ [[? _]|[_ H]]]%reachable_wf E Hc ?; [done|].
  destruct (proj2 (H t)) as (r & u & E'); [done|]. congruence.
Qed.

Lemma asleep_stop_notify t w z x :
  do_stop_notify t w z x = true →
  z x = true ∧ if decide (work_task_id_ w = t) then cv_of x ≠ buffer_cv_ ∧ cv_of x ≠ send_buffer_cv_
               else cv_of x ≠ work_cv_.
Proof.
  unfold do_stop_notify. case_bool_decide; case_decide; try done.
  - intros [[? ?]%asleep_notify ?]%asleep_notify. done.
  - by intros ?%asleep_notify.
Qed.

(** After the section of [do_stop] on [work_mtx_] none of the waits of its task is
    asleep. *)
Lemma stop_notifies junk s t x :
  cv_wf junk s → calls_of (base s) !! t = Some Flagged → task_of x = Some t →
  do_stop_notify t (w_ (base s)) (asleep s) x = false.
Proof.
  intros Hwf E Et. apply not_true_iff_false. intros [Hx Hcv]%asleep_stop_notify.
  destruct (cv_asleep _ _ Hwf x Hx) as [Hat Hturn _]. pose proof (cv_base _ _ Hwf) as Hb.
  of_task x Et; cbn in *; [congruence|..].
  - pose proof (waiting_is_no_worker s t Hb Hat (Hturn eq_refl)). by case_decide.
  - destruct Hat as [b Hat]. rewrite decide_True in Hcv by (by eapply running_is_worker). naive_solver.
  - destruct Hat as [b Hat]. rewrite decide_True in Hcv by (by eapply running_is_worker). naive_solver.
Qed.

Lemma cv_notify junk s t :
  cv_wf junk s → calls_of (base s) !! t = Some Flagged →
  cv_wf junk (State (base s) (c_ s) (reading s) (do_stop_notify t (w_ (base s)) (asleep s))
                    ({[t]} ∪ notified s) (writers s) (sorting s) (sending s)).
Proof.
  intros Hwf E. split; cbn; [apply Hwf|..].
  - intros u [->%elem_of_singleton|Hu]%elem_of_union; [done|by apply (cv_notified _ _ Hwf)].
  - intros x Hx. assert (task_of x ≠ Some t) as Hne.
    { intros Et. by rewrite (stop_notifies junk) in Hx. }
    apply asleep_stop_notify in Hx as [Hx _]. pose proof (cv_asleep _ _ Hwf x Hx) as H.
    apply (sees_same_ok junk x s); [|apply (sl_at _ _ _ H)|done]. split; cbn; try done.
    intros u Eu. split_and!; [done..|]. rewrite elem_of_union, elem_of_singleton. naive_solver.
Qed.

(** A step on the rings: the sleepers of the changed ring apart, nothing changes. *)
Lemma ring_step_wakeups junk v s s' :
  cv_wf junk s → base s' = base s → reading s' = reading s → notified s' = notified s →
  same_but [v] (c_ s) (c_ s') →
  (∀ x, asleep s' x = true → asleep s x = true) →
  (∀ x, asleep s' x = true → cv_of x = v → sleeps_well junk x s → sleeps_well junk x s') →
  (v ≠ buffer_cv_ → writers s' = writers s) →
  cv_wf junk s'.
Proof.
  intros Hwf Eb Er En (Hb & Hsb & Hm) Hz Hv Hw. split; rewrite ?Eb, ?En; [apply Hwf..|].
  intros x Hx. pose proof (cv_asleep _ _ Hwf x (Hz x Hx)) as H.
  destruct (decide (cv_of x = v)) as [|Hne]; [by apply Hv|].
  apply (sees_same_ok junk x s); [|destruct x; cbn; rewrite ?Eb, ?Er; apply (sl_at _ _ _ H)|done].
  split; rewrite ?Eb, ?Er, ?En; try done.
  - intros Ex. apply Hw. congruence.
  - split_and!; intros Hin; [apply Hb|apply Hsb|apply Hm]; intros <-%list_elem_of_singleton;
      apply Hin, list_elem_of_filter; (split; [done|set_solver]).
Qed.

Lemma cv_write junk s now data len c' :
  cv_wf junk s → Connection.write junk now (c_ s) data len = Ok c' →
  cv_wf junk (State (base s) c' (reading s) (asleep s) (notified s) (S (writers s)) (sorting s) (sending s)).
Proof.
  intros Hwf E%write_frame. eapply (ring_step_wakeups junk _ s); [done..| |done].
  intros x _ Hx [Hat Hturn Hr]. destruct x as [t|t|t|t|n]; try done. split; [done..|]. unfold_predicates. cbn in *.
  destruct (flagged t (w_ (base s))); [|right; right; split; [done|lia]].
  destruct Hr as [?|[?|[? _]]]; [done|by right; left|done].
Qed.

Lemma cv_written junk s n :
  cv_wf junk s →
  cv_wf junk (State (base s) (c_ s) (reading s) (notify_all buffer_cv_ (asleep s)) (notified s) n (sorting s) (sending s)).
Proof.
  intros Hwf. eapply (ring_step_wakeups junk buffer_cv_ s); [done|done|done|done|by split_and!|..].
  - by intros x [? _]%asleep_notify.
  - by intros x [_ ?]%asleep_notify.
  - done.
Qed.

(** A section that notifies the ring it changes. *)
Lemma cv_ring junk v s c' :
  cv_wf junk s → same_but [v] (c_ s) c' →
  cv_wf junk (set_asleep (notify_all v (asleep s)) (set_conn c' s)).
Proof.
  intros Hwf E. eapply (ring_step_wakeups junk v s); [done..| | |done].
  - by intros x [? _]%asleep_notify.
  - by intros x [_ ?]%asleep_notify.
Qed.

(** Only one loop of each kind runs: who takes is the only one who could sleep. *)
Lemma cv_recv junk s t r m c' :
  cv_wf junk s → thread_of (base s) !! t = Some (Running true r) → asleep s (Receiver t) = false →
  loop_recv_take junk t (view s) = Ok (Some m, c') → cv_wf junk (set_conn c' s).
Proof.
  intros Hwf Et Ha E%recv_take_frame. eapply (ring_step_wakeups junk buffer_cv_ s); [done..| |done].
  intros x Hx Ex. destruct x as [u|u|u|u|n]; try done. pose proof (cv_base _ _ Hwf) as Hb.
  destruct (sl_at _ _ _ (cv_asleep _ _ Hwf _ Hx)) as [b Eu].
  pose proof (running_is_worker _ _ _ _ Hb Et). pose proof (running_is_worker _ _ _ _ Hb Eu). cbn in *. congruence.
Qed.

Lemma cv_send junk s now t r m c' :
  cv_wf junk s → thread_of (base s) !! t = Some (Running r true) → asleep s (Sender t) = false →
  loop_send_take junk now t (view s) = Ok (Some m, c') → cv_wf junk (set_conn c' s).
Proof.
  intros Hwf Et Ha E%send_take_frame. eapply (ring_step_wakeups junk send_buffer_cv_ s); [done..| |done].
  intros x Hx Ex. destruct x as [u|u|u|u|n]; try done. pose proof (cv_base _ _ Hwf) as Hb.
  destruct (sl_at _ _ _ (cv_asleep _ _ Hwf _ Hx)) as [b Eu].
  pose proof (running_is_worker _ _ _ _ Hb Et). pose proof (running_is_worker _ _ _ _ Hb Eu). cbn in *. congruence.
Qed.

Lemma cv_close junk s now env c' sent fds env' :
  cv_wf junk s → Connection.close junk now env (c_ s) = Ok (c', sent, fds, env') →
  cv_wf junk (set_conn c' s).
Proof.
  intros Hwf [E1 E2]%close_frame. eapply (ring_step_wakeups junk send_buffer_cv_ s); [done..| |done].
  intros x _ Hx [Hat Hturn Hr]. destruct x as [t|t|t|t|n]; try done. split; [done..|]. cbn in *.
  unfold_predicates. destruct Hr as [[= Hr]|]; [left|by right]. apply orb_false_iff in Hr as [Hf Hs].
  by rewrite E2, Hf, Hs.
Qed.

Lemma cv_read junk s n q :
  cv_wf junk s → reading s !! n = None →
  cv_wf junk (State (base s) (c_ s) (<[n := q]> (reading s)) (asleep s) (notified s) (writers s) (sorting s) (sending s)).
Proof.
  intros Hwf En. split; [apply Hwf..|]. intros x Hx. pose proof (cv_asleep _ _ Hwf x Hx) as H.
  assert (x ≠ Reader n) as Hne.
  { intros ->. destruct (sl_at _ _ _ H). congruence. }
  apply (sees_same_ok junk x s); [| |done].
  - split; cbn; try done. intros m ->. rewrite lookup_insert_ne; [done|congruence].
  - apply sl_at in H. destruct x as [u|u|u|u|m]; cbn in *; [done..|].
    rewrite lookup_insert_ne; [done|congruence].
Qed.

Lemma cv_read_done junk s n now id len ret data c' :
  cv_wf junk s → recv_wait junk now (c_ s) id len = Ok (ret, data, c') →
  cv_wf junk (State (base s) c' (delete n (reading s)) (notify_all mapbuffer_cv_ (asleep s))
                    (notified s) (writers s) (sorting s) (sending s)).
Proof.
  intros Hwf (Hb & Hsb & _)%recv_wait_frame. split; [apply Hwf..|]. intros x [Hx Hcv]%asleep_notify.
  pose proof (cv_asleep _ _ Hwf x Hx) as H. destruct x as [u|u|u|u|m]; [| | | |done];
    (eapply (sees_same_ok junk _ s); [|apply (sl_at _ _ _ H)|done]); split; cbn; try done;
    split_and!; intros Hin; (apply Hb || apply Hsb || idtac); set_solver.
Qed.

Lemma cv_sleep junk s x :
  cv_wf junk s → at_wait x s → predicate junk x s = Ok false →
  cv_wf junk (set_asleep (falls_asleep x (asleep s)) s).
Proof.
  intros Hwf Hat Hp. split; [apply Hwf..|]. intros y [Ey%bool_decide_eq_true|Hy]%orb_true_iff.
  - subst y. split; [by destruct x| |by left; destruct x].
    intros Ex. destruct x; try done. unfold_predicates. injection Hp as [Hp _]%orb_false_iff. cbn. lia.
  - destruct (cv_asleep _ _ Hwf y Hy). by split; destruct y.
Qed.

Lemma cv_wake junk s x : cv_wf junk s → cv_wf junk (set_asleep (wakes_up x (asleep s)) s).
Proof.
  intros Hwf. split; [apply Hwf..|]. intros y [_ Hy]%andb_true_iff.
  destruct (cv_asleep _ _ Hwf y Hy). by split; destruct y.
Qed.

Lemma cv_busy junk s m b : cv_wf junk s → cv_wf junk (set_sending b (set_sorting m s)).
Proof.
  intros [Hb Hn Hz]. split; [done..|]. intros x Hx. destruct (Hz x Hx) as [Hat Hturn Hr]. by split; destruct x.
Qed.

Lemma cv_sorting junk s m : cv_wf junk s → cv_wf junk (set_sorting m s).
Proof. exact (cv_busy junk s m (sending s)). Qed.

Lemma cv_sending junk s b : cv_wf junk s → cv_wf junk (set_sending b s).
Proof. intros H. apply (cv_busy junk s (sorting s) b) in H. by destruct s. Qed.

#[export] Instance cv_wf_invariant junk : Invariant (step junk) (cv_wf junk).
Proof.
  intros s s' Hwf Hs.
  destruct Hs; eauto using cv_sorting, cv_sending, cv_enter, cv_turn, cv_finish, cv_recv, cv_recv_exit, cv_send, cv_send_exit,
    cv_call, cv_started, cv_notify, cv_take, cv_write, cv_written, cv_read, cv_read_done, cv_close,
    cv_sleep, cv_wake.
  - apply cv_sorting. eapply cv_ring; [done|by eapply dispatch_frame].
  - eapply cv_ring; [done|by eapply put_frame].
Qed.

Lemma reachable_cv_wf junk s : reachable junk s → cv_wf junk s.
Proof.
  intros (s0 & (Eb & _ & Ez & En & _) & Hr). apply (invariant_rtc (step junk) (cv_wf junk) s0); [|done].
  split.
  - rewrite Eb. unfold Work.reachable. reflexivity.
  - intros t Ht. rewrite En in Ht. set_solver.
  - intros x Hx. by rewrite Ez in Hx.
Qed.

(** ** Progress *)

(** The thread of a task whose flag is up moves as soon as it is not asleep. *)
Lemma awake_moves junk s t p :
  flagged t (w_ (base s)) = true → thread_of (base s) !! t = Some p → p ≠ Entering → p ≠ Finished →
  (∀ x, task_of x = Some t → x ≠ Starter t → asleep s x = false) →
  sorting s !! t = None → sending s !! t = None →
  ∃ s', step junk s s' ∧ thread_step t (base s) (base s') ∧ sorting s' = sorting s ∧ sending s' = sending s.
Proof.
  intros Hf E H1 H2 Ha Hsort Hsend. pose proof Hf as Hf'. apply flagged_true in Hf'.
  destruct (flagged_moves t (base s) p Hf' E H1 H2) as [b' Hs].
  destruct p as [| |r b|]; try done.
  - exists (set_base b' s). split; [|done]. apply (s_turn _ s t b'); [done|by apply Ha|done].
  - destruct (base s) as [w ph cs] eqn:Eb. cbn in Hf, E. destruct r; [|destruct b].
    + exists (set_base (Sys w (<[t := Running false b]> ph) cs) s). rewrite <- Eb in *.
      assert (thread_step t (base s) (Sys w (<[t := Running false b]> ph) cs)) as Hs'
        by (rewrite Eb; by apply t_recv_exit).
      split; [|done]. eapply (s_recv_exit _ s t b); [by rewrite Eb|by apply Ha|done| |done]. cbn. by rewrite lookup_insert_eq.
    + exists (set_base (Sys w (<[t := Running false false]> ph) cs) s). rewrite <- Eb in *.
      assert (thread_step t (base s) (Sys w (<[t := Running false false]> ph) cs)) as Hs'
        by (rewrite Eb; by apply t_send_exit).
      split; [|done]. eapply (s_send_exit _ s t false); [by rewrite Eb|by apply Ha|done| |done]. cbn. by rewrite lookup_insert_eq.
    + rewrite <- Eb in *. exists (set_asleep (notify_all work_cv_ (asleep s)) (set_base b' s)).
      split; [|done]. apply (s_finish _ s t b'); [by rewrite Eb|done].
Qed.

Lemma step_rank b b' t :
  Work.step b b' → calls_of b !! t ≠ None →
  (rank (thread_of b' !! t) ≤ rank (thread_of b !! t))%nat.
Proof.
  intros [u Hs] Hc. destruct (decide (t = u)) as [<-|Hne].
  2: { by destruct (other_step_frame t u b b' Hne Hs) as [-> _]. }
  destruct Hs as [Hs|Hs]; [by apply Nat.lt_le_incl, thread_step_rank|].
  destruct Hs; cbn in *; rewrite ?lookup_delete_eq; try done; cbn; lia.
Qed.

(** A loop whose flag is up takes nothing more. *)
Lemma flagged_takes_nothing junk s t m c' :
  flagged t (w_ (base s)) = true →
  (loop_recv_take junk t (view s) ≠ Ok (Some m, c'))
  ∧ ∀ now n, loop_send_take junk now t (view s) ≠ Ok (Some n, c').
Proof. intros Hf. unfold loop_recv_take, loop_send_take. by rewrite flagged_view, Hf. Qed.

Lemma step_busy junk s s' t :
  step junk s s' → flagged t (w_ (base s)) = true →
  (sorting s' !! t = sorting s !! t ∨ sorting s' !! t = None)
  ∧ (sending s' !! t = sending s !! t ∨ sending s' !! t = None).
Proof.
  intros Hs Hf. destruct Hs as [| | |s u r m c' _ _ _ E|s now u id data c' E _| |s now u r m c' _ _ _ E|s u m E| | | | | | | | | | | | |];
    cbn; try (by split; left).
  - split; [|by left]. left. destruct (decide (u = t)) as [->|]; [|by apply lookup_insert_ne].
    by destruct (flagged_takes_nothing junk s t m c' Hf) as [[] _].
  - split; [|by left]. destruct (decide (u = t)) as [->|]; [right; apply lookup_delete_eq|left; by apply lookup_delete_ne].
  - split; [by left|]. left. destruct (decide (u = t)) as [->|]; [|by apply lookup_insert_ne].
    by destruct (flagged_takes_nothing junk s t ([], []) c' Hf) as [_ []%(fun H => H now m)].
  - split; [by left|]. destruct (decide (u = t)) as [->|]; [right; apply lookup_delete_eq|left; by apply lookup_delete_ne].
Qed.

(** A [start] at its wait: its thread moves, or it goes on itself. *)
Lemma start_wakes junk s t :
  cv_wf junk s → calls_of (base s) !! t = Some Registered →
  ∃ s', step junk s s' ∧ (thread_step t (base s) (base s') ∨ calls_of (base s') !! t = Some Active).
Proof.
  intros Hwf E. pose proof (task_phase s t (cv_base _ _ Hwf)) as Hok. rewrite E in Hok.
  destruct (thread_of (base s) !! t) as [p|] eqn:Et; [|naive_solver].
  destruct (decide (p = Entering)) as [->|Hp].
  - assert (thread_step t (base s) (Sys (do_start_enter t (w_ (base s)))
              (<[t := Waiting]> (thread_of (base s))) (calls_of (base s)))) as Hs.
    { destruct (base s). by apply t_enter. }
    eexists. split; [by eapply s_enter|by left].
  - assert (w_stop_works_ (w_ (base s)) !! t = Some false) as Es.
    { destruct Hok as [_ Hok]. destruct p as [| |[] []|]; try done. }
    assert (asleep s (Starter t) = false) as Ha.
    { apply not_true_iff_false. intros Hx. destruct (cv_asleep _ _ Hwf _ Hx) as [_ _ [Hf|[]]].
      unfold_predicates. by rewrite bool_decide_true in Hf. }
    assert (call_step t (base s) (Sys (w_ (base s)) (thread_of (base s))
              (<[t := Active]> (calls_of (base s))))) as Hs.
    { destruct (base s). apply c_started; [done|]. unfold start_wait. by rewrite bool_decide_true. }
    eexists. split; [by eapply s_started|]. right. cbn. apply lookup_insert_eq.
Qed.

(** * Properties *)

(** C14: no wake-up is lost: however [start], [stop], the threads of all tasks, the
    server thread and the applications interleave, a thread that sleeps on a condition
    variable of the connection either finds its predicate still false, or a
    notification that wakes it up is still to come: the one of the [do_stop] that has
    raised the flag of its task, or the one of a [write] that has filled the ring. *)
Theorem no_lost_wakeup junk s x :
  reachable junk s → asleep s x = true →
  at_wait x s
  ∧ (predicate junk x s = Ok false
     ∨ (∃ t, calls_of (base s) !! t = Some Flagged ∧ (t ∉ notified s)
             ∧ do_stop_notify t (w_ (base s)) (asleep s) x = false)
     ∨ ((0 < writers s)%nat ∧ notify_all buffer_cv_ (asleep s) x = false)).
Proof.
  intros Hwf%reachable_cv_wf Hx. destruct (cv_asleep _ _ Hwf x Hx) as [Hat _ Hr]. split; [done|].
  destruct Hr as [?|Hr]; [by left|right].
  assert (∀ t, task_of x = Some t → calls_of (base s) !! t = Some Flagged →
            do_stop_notify t (w_ (base s)) (asleep s) x = false) as Hstop by eauto using stop_notifies.
  destruct x as [t|t|t|t|n]; cbn in Hr; try done;
    try (left; exists t; destruct Hr; by rewrite Hstop).
  destruct Hr as [[Hc Hn]|[_ Hw]]; [left; exists t; by rewrite Hstop|right].
  split; [done|]. unfold notify_all. by rewrite andb_false_r.
Qed.

(** C15: the last wait of [start], and what [stop] does once it holds the lock of the
    peer.  A [start] that waits for its thread is woken up by it.  A [do_stop] that has
    raised the flag of its task notifies.  From then on the thread of the task is never
    asleep: it has finished, or [loop_recv] is sorting the message it took, or
    [loop_send] is inside [writen], or it takes a step of its own.  Sorting ends when
    the write into the ring of the id returns, [writen] when the kernel has taken the
    bytes; such a step leaves less to do, there are at most six, and no step of any
    other thread adds to them.  When the thread has finished the [join] returns. *)
Theorem do_stop_ends junk s t :
  reachable junk s →
  (calls_of (base s) !! t = Some Registered →
     ∃ s', step junk s s' ∧ (thread_step t (base s) (base s') ∨ calls_of (base s') !! t = Some Active))
  ∧ (calls_of (base s) !! t = Some Flagged → t ∉ notified s →
     ∃ s', step junk s s' ∧ t ∈ notified s')
  ∧ (calls_of (base s) !! t = Some Flagged ∧ t ∈ notified s ∨ calls_of (base s) !! t = Some Joining →
     (thread_of (base s) !! t = Some Finished
      ∨ is_Some (sorting s !! t) ∨ is_Some (sending s !! t)
      ∨ ∃ s', step junk s s' ∧ thread_step t (base s) (base s') ∧ (left_to_do t s' < left_to_do t s)%nat)
     ∧ (∀ id data now c', sorting s !! t = Some (id, data) → dispatch junk now (c_ s) id data = Ok c' →
          ∃ s', step junk s s' ∧ c_ s' = c' ∧ (left_to_do t s' < left_to_do t s)%nat)
     ∧ (is_Some (sending s !! t) → ∃ s', step junk s s' ∧ (left_to_do t s' < left_to_do t s)%nat)
     ∧ (left_to_do t s ≤ 6)%nat
     ∧ ∀ s', step junk s s' → (left_to_do t s' ≤ left_to_do t s)%nat)
  ∧ (calls_of (base s) !! t = Some Joining → thread_of (base s) !! t = Some Finished →
     ∃ s', step junk s s' ∧ calls_of (base s') !! t = Some Joined).
Proof.
  intros Hwf%reachable_cv_wf. pose proof (task_phase s t (cv_base _ _ Hwf)) as Hok.
  split; [by apply start_wakes|split_and!].
  - intros E Hn. eexists. split; [by apply (s_notify _ s t)|]. cbn. set_solver.
  - intros Hc. assert (flagged t (w_ (base s)) = true ∧ is_Some (thread_of (base s) !! t)
          ∧ thread_of (base s) !! t ≠ Some Entering) as (Hf & [p Ep] & Hne).
    { rewrite flagged_true. destruct Hc as [[E _]|E]; rewrite E in Hok; cbn in Hok; naive_solver. }
    split_and!.
    + destruct (decide (p = Finished)) as [->|Hp]; [by left|right].
      destruct (sorting s !! t) eqn:E1; [by left|right]. destruct (sending s !! t) eqn:E2; [by left|right].
      destruct (awake_moves junk s t p) as (s' & Hs & Ht & E3 & E4); [done..|congruence|done| |done|done|].
      { intros x Et Hx. apply not_true_iff_false. intros Ha.
        destruct (flagged_sleeper junk s x t) as [? ?]; [done..|]. naive_solver. }
      exists s'. split_and!; [done..|]. unfold left_to_do. rewrite E3, E4.
      pose proof (thread_step_rank _ _ _ Ht). lia.
    + intros id data now c' E Ed. eexists. split; [by eapply s_dispatch|]. split; [done|].
      unfold left_to_do. cbn. rewrite lookup_delete_eq, E. repeat case_decide; try lia; naive_solver.
    + intros [m E]. eexists. split; [by eapply s_sent|].
      unfold left_to_do. cbn. rewrite lookup_delete_eq, E. repeat case_decide; try lia; naive_solver.
    + unfold left_to_do. rewrite Ep in Hne |- *. destruct p as [| |[] []|]; cbn; repeat case_decide; (done || lia).
    + intros s' Hs. pose proof (step_busy _ _ _ t Hs Hf) as [H1 H2].
      assert (rank (thread_of (base s') !! t) ≤ rank (thread_of (base s) !! t))%nat as Hr.
      { apply step_base in Hs as [->|Hs]; [done|]. apply step_rank; [done|].
        by destruct Hc as [[E _]|E]; rewrite E. }
      unfold left_to_do. destruct H1 as [->| ->], H2 as [->| ->]; repeat case_decide; try lia; naive_solver.
  - intros E Et.
    assert (call_step t (base s) (Sys (w_ (base s)) (delete t (thread_of (base s)))
              (<[t := Joined]> (calls_of (base s))))) as Hs by (destruct (base s); by apply c_join).
    eexists. split; [eapply (s_call _ s t); [congruence..|done]|]. cbn. apply lookup_insert_eq.
Qed.

(** * Witnesses *)

(** Task a works; task b sleeps until it is its turn, and is being stopped. *)
Lemma sleeper_stopped :
  ∃ s, reachable (λ _, x00) s ∧ asleep s (Turn (str "b")) = true
       ∧ calls_of (base s) !! str "b" = Some Flagged ∧ str "b" ∉ notified s.
Proof.
  set (j := λ _ : nat, x00). eexists. split.
  { exists (State initial (small_conn [] []) ∅ (λ _, false) ∅ 0%nat ∅ ∅). split; [by split_and!|].
    eapply rtc_l; [eapply (s_call j _ (str "a")); [done|done|by apply c_spawn]|].
    eapply rtc_l; [eapply (s_call j _ (str "a")); [done|done|by apply c_register]|].
    eapply rtc_l; [eapply (s_enter j _ (str "a")); [done|by apply t_enter]|].
    eapply rtc_l; [eapply (s_started j _ (str "a")); [done|done|by apply c_started]|].
    eapply rtc_l; [eapply (s_turn j _ (str "a")); [done|done|by eapply t_work]|].
    eapply rtc_l; [eapply (s_call j _ (str "b")); [done|done|by apply c_spawn]|].
    eapply rtc_l; [eapply (s_call j _ (str "b")); [done|done|by apply c_register]|].
    eapply rtc_l; [eapply (s_enter j _ (str "b")); [done|by apply t_enter]|].
    eapply rtc_l; [eapply (s_started j _ (str "b")); [done|done|by apply c_started]|].
    eapply rtc_l; [eapply (s_sleep j _ (Turn (str "b"))); [done|by intros []|reflexivity]|].
    eapply rtc_l; [eapply (s_call j _ (str "b")); [done|done|by apply c_flag]|].
    apply rtc_refl. }
  split_and!; [done|done|set_solver].
Qed.

Lemma no_lost_wakeup_witness :
  ∃ s, asleep s (Turn (str "b")) = true
  ∧ at_wait (Turn (str "b")) s
  ∧ (predicate (λ _, x00) (Turn (str "b")) s = Ok false
     ∨ (∃ t, calls_of (base s) !! t = Some Flagged ∧ (t ∉ notified s)
             ∧ do_stop_notify t (w_ (base s)) (asleep s) (Turn (str "b")) = false)
     ∨ ((0 < writers s)%nat ∧ notify_all buffer_cv_ (asleep s) (Turn (str "b")) = false)).
Proof.
  destruct sleeper_stopped as (s & Hr & Ha & _). exists s. split; [done|].
  exact (no_lost_wakeup (λ _, x00) s (Turn (str "b")) Hr Ha).
Defined.

(** Its [do_stop] notifies, and the thread of task b goes on. *)
Lemma do_stop_ends_witness :
  ∃ s t, calls_of (base s) !! t = Some Flagged ∧ t ∈ notified s ∧ asleep s (Turn t) = false
  ∧ (thread_of (base s) !! t = Some Finished
     ∨ is_Some (sorting s !! t) ∨ is_Some (sending s !! t)
     ∨ ∃ s', step (λ _, x00) s s' ∧ thread_step t (base s) (base s') ∧ (left_to_do t s' < left_to_do t s)%nat)
  ∧ (left_to_do t s ≤ 6)%nat.
Proof.
  destruct sleeper_stopped as (s & (s0 & Hf & Hr) & Ha & Hc & Hn).
  exists (State (base s) (c_ s) (reading s) (do_stop_notify (str "b") (w_ (base s)) (asleep s))
             ({[str "b"]} ∪ notified s) (writers s) (sorting s) (sending s)), (str "b"). cbn.
  split; [done|]. split; [set_solver|].
  match goal with |- _ ∧ (_ ∨ _ ∨ _ ∨ ∃ s', step _ ?x s' ∧ _) ∧ _ => assert (reachable (λ _, x00) x) as Hr' end.
  { exists s0. split; [done|]. eapply rtc_r; [done|]. by apply (s_notify _ s (str "b")). }
  apply do_stop_ends with (t := str "b") in Hr' as (_ & _ & H & _). cbn in H.
  destruct H as (H & _ & _ & H6 & _); [left; split; [done|set_solver]|]. split_and!; [|exact H|exact H6].
  apply (stop_notifies (λ _, x00) s (str "b")); [|done..]. apply reachable_cv_wf. by exists s0.
Defined.
