(* ===== verification/Server.v ===== *)
(** [TCPServer] of [include/io/internal/server.h] and [src/server.cpp]: the
    registry of accepted connections that all tasks of a process share, the
    handlers of epoll events, and the start and stop of a task's server.

    Connections live in a heap; the registry, the epoll set and the servers hold
    addresses.  An object a [shared_ptr] refers to is kept in the heap for good.  What the kernel answers is an argument of each handler. *)
From Stdlib Require Import Strings.Byte.
From S2P Require Import Prelude Timer CycleBuffer SimpleBuffer Transport Connection StdMap Work.
#[local] Open Scope Z_scope.

Module TCPServer.

(** * The program *)

(** ** The shared state *)

(** The static connection lists with the objects they point to, and the interest
    list of [epollfd_]. *)
Record registry := Reg {
  connections_ : smap Z;                   (** client id -> connection *)
  recycle_connections_ : list Z;
  objects : gmap Z conn_obj;
  epoll : gset Z;
  fresh_ : Z
}.

(** The other static members. *)
Record statics := Statics {
  reg : registry;
  s_task_count_ : Z;
  stoped_ : bool;
  listen_conn_ : option Z;
  epollfd_ : Z;
  listenfd_ : Z;
  port_ : Z;
  is_inited_ : bool;
  listen_count_ : Z
}.

Definition statics_init : statics :=
  Statics (Reg [] [] ∅ ∅ 1) 0 true None (-1) (-1) (-1) false 0.

(** The members of one server. *)
Record server := Server {
  task_id_ : bytes;
  stop_ : bool;
  is_ssl_socket_ : bool;
  expected_cids_ : list bytes;
  server_connections_ : smap Z;
  loop_thread_ : bool                      (** is there a thread to join? *)
}.

Definition set_reg (r : registry) (g : statics) : statics :=
  Statics r (s_task_count_ g) (stoped_ g) (listen_conn_ g) (epollfd_ g) (listenfd_ g) (port_ g)
          (is_inited_ g) (listen_count_ g).

Definition set_object (p : Z) (o : conn_obj) (r : registry) : registry :=
  Reg (connections_ r) (recycle_connections_ r) (<[p := o]> (objects r)) (epoll r) (fresh_ r).

(** [*p]. *)
Definition deref (r : registry) (p : Z) : outcome conn_obj :=
  match objects r !! p with Some o => Ok o | None => UB Dangling end.

Definition EPOLLIN : Z := 1.
Definition EPOLLOUT : Z := 4.
Definition EPOLLERR : Z := 8.
Definition EPOLLET : Z := 2 ^ 31.
Definition EPOLL_EVENTS : Z := Z.lor EPOLLIN (Z.lor EPOLLERR EPOLLET).

Definition epoll_add (p : Z) (r : registry) : registry :=
  Reg (connections_ r) (recycle_connections_ r) (objects r) ({[p]} ∪ epoll r) (fresh_ r).
Definition epoll_del (p : Z) (r : registry) : registry :=
  Reg (connections_ r) (recycle_connections_ r) (objects r) (epoll r ∖ {[p]}) (fresh_ r).

Section program.
Context (junk : nat → byte).

(** ** Looking up connections *)

Definition get_connection (s : server) (node_id : bytes) : option Z :=
  map_find node_id (server_connections_ s).

(** [find_connection]: also starts the server's task on the connection. *)
Definition find_connection (now : Z) (s : server) (r : registry) (cid : bytes)
    : outcome (option Z * registry) :=
  match map_find cid (connections_ r) with
  | None => mret (None, r)
  | Some p =>
    o ← deref r p;
    if reuseable_ (conn o) then
      o ← conn_start junk now (task_id_ s) o;
      mret (Some p, set_object p o r)
    else mret (None, r)
  end.

Definition put_connection (now : Z) (s : server) (r : registry) (node_id : bytes)
    : outcome (bool * server * registry) :=
  '(c, r) ← find_connection now s r node_id;
  match c with
  | None => mret (false, s, r)
  | Some p =>
    o ← deref r p;
    if reuseable_ (conn o) then
      mret (true, Server (task_id_ s) (stop_ s) (is_ssl_socket_ s) (expected_cids_ s)
                         (map_insert node_id p (server_connections_ s)) (loop_thread_ s), r)
    else mret (false, s, r)
  end.

Definition get_unrecv_size (r : registry) : outcome Z :=
  for_each (λ ret '(_, p), o ← deref r p; mret (ret +₆₄ Connection.get_unrecv_size (conn o)))
           0 (connections_ r).

Definition add_connection_to_epoll (r : registry) (p : Z) : outcome registry :=
  o ← deref r p;
  let c := conn o in
  let c := Conn (state_ c) (fd_ c) EPOLL_EVENTS (is_server_ c) (node_id_ c) (reuseable_ c)
                (buffer_ c) (mapbuffer_ c) (send_buffer_ c) (stop_works_ c) in
  mret (epoll_add p (set_object p (Obj c (tasks o)) r)).

(** ** Accepting *)

(** What [accept], the [write] of the ack and the two [read]s answer. *)
Record accept_env := AcceptEnv {
  ae_cfd : Z;
  ae_write : Z;
  ae_read1 : read_result;
  ae_read2 : read_result
}.

(** The new connection takes the place of one of the same client, which is kept
    for its users. *)
Definition register (now cfd : Z) (cid : bytes) (r : registry) : registry :=
  let tc := fresh_ r in
  let o := Obj (Connection_create junk now cfd EPOLL_EVENTS true cid) works_init in
  let '(m, recycled) := match map_find cid (connections_ r) with
                        | Some old => (map_erase cid (connections_ r), recycle_connections_ r ++ [old])
                        | None => (connections_ r, recycle_connections_ r)
                        end in
  epoll_add tc (Reg (map_insert cid tc m) recycled (<[tc := o]> (objects r)) (epoll r) (tc + 1)).

(** [handle_accept]: the registry afterwards and the descriptors it closed. *)
Definition handle_accept (now : Z) (s : server) (env : accept_env) (r : registry)
    : outcome (registry * list Z) :=
  let cfd := ae_cfd env in
  if cfd =? -1 then Throw (socket_exp "accept failed")
  else if negb (ae_write env =? sz8) then mret (r, [cfd])
  else if negb (u64 (r_ret (ae_read1 env)) =? sz64) then mret (r, [cfd])
  else
    cid_len ← load_u64 (r_data (ae_read1 env)) 0;
    cid ← string_resize [] (cid_len -₆₄ sz64);
    cid ← memcpy cid 0 (r_data (ae_read2 env)) 0 (zlen (r_data (ae_read2 env)));
    if negb (u64 (r_ret (ae_read2 env)) =? cid_len -₆₄ sz64) then mret (r, [cfd])
    else if bool_decide (cid ∈ expected_cids_ s) then mret (register now cfd cid r, [])
    else mret (r, [cfd]).

(** ** Reading *)

(** [conn->close(task_id_)]: the descriptors closed. *)
Definition close_object (now : Z) (wenv : list write_result) (o : conn_obj)
    : outcome (conn_obj * list Z) :=
  '(c, _, fds, _) ← Connection.close junk now wenv (conn o);
  mret (Obj c (tasks o), fds).

(** The loop of [handle_read]: the connection and whether the peer closed. *)
Fixpoint read_loop (now : Z) (env : list read_result) (c : Connection) : outcome (Connection * bool) :=
  match env with
  | [] => Sleep
  | RR len errno data :: env =>
    if 0 <? len then c ← Connection.write junk now c data len; read_loop now env c
    else if len =? 0 then mret (c, true)
    else if bool_decide (errno = EINTR) then read_loop now env c
    else mret (c, false)
  end.

(** What the kernel and OpenSSL answer while one event is handled. *)
Record event_env := EventEnv {
  ee_accept : accept_env;
  ee_handshake : bool;                (** the result of [conn->handshake()] *)
  ee_reads : list read_result;
  ee_writes : list write_result;
  ee_tcp_closed : bool                (** [tcpi_state == TCP_CLOSE] *)
}.

Definition handle_read (now : Z) (s : server) (g : statics) (env : event_env) (p : Z)
    : outcome (statics * list Z) :=
  o ← deref (reg g) p;
  if fd_ (conn o) =? listenfd_ g then
    '(r, fds) ← handle_accept now s (ee_accept env) (reg g);
    mret (set_reg r g, fds)
  else if bool_decide (state_ (conn o) = Closing ∨ state_ (conn o) = Closed) then mret (g, [])
  else if negb (ee_handshake env) then mret (g, [])
  else
    '(c, eof) ← read_loop now (ee_reads env) (conn o);
    let o := Obj c (tasks o) in
    if (eof : bool) then
      '(o, fds) ← close_object now (ee_writes env) o;
      mret (set_reg (set_object p o (epoll_del p (reg g))) g, fds)
    else mret (set_reg (set_object p o (reg g)) g, []).

(** The loop of [handle_error]: reads while there is something to read. *)
Fixpoint drain_loop (now : Z) (env : list read_result) (c : Connection) : outcome Connection :=
  match env with
  | [] => Sleep
  | RR len _ data :: env =>
    if 0 <? len then c ← Connection.write junk now c data len; drain_loop now env c else mret c
  end.

(** [handle_error], without the call of the error callback. *)
Definition handle_error (now : Z) (g : statics) (env : event_env) (p : Z)
    : outcome (statics * list Z) :=
  o ← deref (reg g) p;
  if ee_tcp_closed env then
    c ← drain_loop now (ee_reads env) (set_reuseable false (conn o));
    '(o, fds) ← close_object now (ee_writes env) (Obj c (tasks o));
    mret (set_reg (set_object p o (epoll_del p (reg g))) g, fds)
  else mret (g, []).

(** [handle_write] only prints. *)
Definition handle_event (now : Z) (s : server) (g : statics) (p events : Z) (env : event_env)
    : outcome (statics * list Z) :=
  if negb (Z.land events EPOLLERR =? 0) then handle_error now g env p
  else if negb (Z.land events EPOLLIN =? 0) then handle_read now s g env p
  else mret (g, []).

(** [loop_once] with the events [epoll_wait] returned. *)
Definition loop_once (now : Z) (s : server) (g : statics) (active : list (Z * Z * event_env))
    : outcome (statics * list Z) :=
  for_each (λ '(g, fds) '(p, events, env),
              '(g, more) ← handle_event now s g p events env; mret (g, fds ++ more))
           (g, []) active.

(** ** The event loop *)

(** Where [loop_main] is: waiting for its turn, waiting for the clients, serving,
    returned. *)
Inductive main_phase := MWait | MConnecting | MServing | MDone.

Definition set_listen_count (n : Z) (g : statics) : statics :=
  Statics (reg g) (s_task_count_ g) (stoped_ g) (listen_conn_ g) (epollfd_ g) (listenfd_ g) (port_ g)
          (is_inited_ g) n.

Definition all_has_connected (s : server) (r : registry) : bool :=
  forallb (λ cid, bool_decide (is_Some (map_find cid (connections_ r)))) (expected_cids_ s).

(** One round of [loop_main]; [active] is what [epoll_wait] returns, [elapsed]
    the time since the loop began, [timeout] its limit. *)
Definition loop_main_step (now : Z) (s : server) (g : statics) (ph : main_phase)
    (elapsed timeout : Z) (active : list (Z * Z * event_env))
    : outcome (main_phase * statics * list Z) :=
  match ph with
  | MWait =>
    _ ← wait_until ((listen_count_ g =? 0) || stop_ s);
    if stop_ s then mret (MDone, g, [])
    else mret (MConnecting, set_listen_count (listen_count_ g + 1) g, [])
  | MConnecting =>
    if negb (stop_ s) && (elapsed <=? timeout) then
      '(g, fds) ← loop_once now s g active;
      mret (if all_has_connected s (reg g) then MServing else MConnecting, g, fds)
    else mret (MDone, set_listen_count (listen_count_ g - 1) g, [])
  | MServing =>
    if stop_ s then mret (MDone, set_listen_count (listen_count_ g - 1) g, [])
    else '(g, fds) ← loop_once now s g active; mret (MServing, g, fds)
  | MDone => mret (MDone, g, [])
  end.

(** ** Starting and stopping *)

(** What [socket], [bind] and [listen] return, and [epoll_create1]. *)
Record init_env := InitEnv { ie_epoll : Z; ie_socket : Z; ie_bind : Z; ie_listen : Z }.

Definition create_server (env : init_env) : Z :=
  if ie_socket env <? 0 then -1
  else if negb (ie_bind env =? 0) then -1
  else if negb (ie_listen env =? 0) then -1
  else ie_socket env.

Definition init (now : Z) (env : init_env) (g : statics) : bool * statics :=
  let g := Statics (reg g) (s_task_count_ g) (stoped_ g) (listen_conn_ g) (ie_epoll env)
                   (listenfd_ g) (port_ g) (is_inited_ g) (listen_count_ g) in
  if epollfd_ g <? 0 then (false, g)
  else
    let fd := create_server env in
    let g := Statics (reg g) (s_task_count_ g) (stoped_ g) (listen_conn_ g) (epollfd_ g)
                     fd (port_ g) (is_inited_ g) (listen_count_ g) in
    if fd <? 0 then (false, g)
    else
      let p := fresh_ (reg g) in
      let o := Obj (Connection_create junk now fd EPOLL_EVENTS true (str "listen")) works_init in
      let r := epoll_add p (Reg (connections_ (reg g)) (recycle_connections_ (reg g))
                                (<[p := o]> (objects (reg g))) (epoll (reg g)) (p + 1)) in
      (true, Statics r (s_task_count_ g) (stoped_ g) (Some p) (epollfd_ g) (listenfd_ g) (port_ g)
                     (is_inited_ g) (listen_count_ g)).

(** [start]: whether it succeeded; then the server's thread is in [MWait]. *)
Definition start (now : Z) (task_id : bytes) (port : Z) (ssl_ok : bool) (env : init_env)
    (s : server) (g : statics) : bool * server * statics :=
  let s := Server task_id (stop_ s) (is_ssl_socket_ s) (expected_cids_ s) (server_connections_ s)
                  (loop_thread_ s) in
  let started := Server task_id (stop_ s) (is_ssl_socket_ s) (expected_cids_ s)
                        (server_connections_ s) true in
  let g := Statics (reg g) (s_task_count_ g + 1) (stoped_ g) (listen_conn_ g) (epollfd_ g)
                   (listenfd_ g) (port_ g) (is_inited_ g) (listen_count_ g) in
  if is_inited_ g then (true, started, g)
  else
    let g := Statics (reg g) (s_task_count_ g) (stoped_ g) (listen_conn_ g) (epollfd_ g)
                     (listenfd_ g) port (is_inited_ g) (listen_count_ g) in
    if negb ssl_ok then (false, s, g)
    else
      let '(ok, g) := init now env g in
      if negb ok then (false, s, g)
      else (true, started, Statics (reg g) (s_task_count_ g) false (listen_conn_ g) (epollfd_ g)
                             (listenfd_ g) (port_ g) true (listen_count_ g)).

(** The loop of [stop] over [server_connections_]. *)
Definition stop_connections (now elapsed : Z) (s : server) (r : registry) : outcome registry :=
  for_each (λ r '(_, p), o ← deref r p; o ← conn_stop now elapsed (task_id_ s) o; mret (set_object p o r))
           r (server_connections_ s).

(** Closes the connections that are not closed yet; [wenv] is what the transport
    of each answers. *)
Definition close_all (now : Z) (wenv : Z → list write_result) (r : registry)
    : outcome (registry * list Z) :=
  for_each (λ '(r, fds) '(_, p),
              o ← deref r p;
              if bool_decide (state_ (conn o) = Closed) then mret (r, fds)
              else '(o, more) ← close_object now (wenv p) o; mret (set_object p o r, fds ++ more))
           (r, []) (connections_ r).

Definition set_stop (s : server) : server :=
  Server (task_id_ s) true (is_ssl_socket_ s) (expected_cids_ s) (server_connections_ s) (loop_thread_ s).

(** The end of [stop], once the task has stopped on all its connections: the descriptors
    closed. *)
Definition stop_release (now : Z) (wenv : Z → list write_result) (s : server) (g : statics)
    : outcome (server * statics * list Z) :=
  let s := Server (task_id_ s) (stop_ s) (is_ssl_socket_ s) (expected_cids_ s) [] false in
  let g := Statics (reg g) (s_task_count_ g - 1) (stoped_ g) (listen_conn_ g) (epollfd_ g) (listenfd_ g)
                   (port_ g) (is_inited_ g) (listen_count_ g) in
  unrecv ← (if s_task_count_ g =? 0 then get_unrecv_size (reg g) else mret 0);
  if (s_task_count_ g =? 0) && (unrecv =? 0) then
    '(r, fds) ← close_all now wenv (reg g);
    (* the lists give up their references; the listening connection is deleted;
       closing epollfd_ empties its set *)
    let objs := match listen_conn_ g with Some p => delete p (objects r) | None => objects r end in
    let r := Reg [] [] objs ∅ (fresh_ r) in
    mret (s, Statics r (s_task_count_ g) true None (epollfd_ g) (listenfd_ g) (port_ g) false
                     (listen_count_ g),
          fds ++ [listenfd_ g; epollfd_ g])
  else mret (s, g, []).

(** [stop] after [loop_thread_.join()]. *)
Definition stop_joined (now elapsed : Z) (wenv : Z → list write_result) (s : server) (g : statics)
    : outcome (server * statics * list Z) :=
  r ← stop_connections now elapsed s (reg g);
  stop_release now wenv s (set_reg r g).

(** [stop]; [returned] is whether the loop thread has returned. *)
Definition stop (now elapsed : Z) (wenv : Z → list write_result) (returned : bool) (s : server)
    (g : statics) : outcome (server * statics * list Z) :=
  if stop_ s then mret (s, g, [])
  else if negb (loop_thread_ s) then Throw system_error
  else
    _ ← wait_until returned;
    stop_joined now elapsed wenv (set_stop s) g.
End program.

(** * Specification *)

(** The bytes the loop of [handle_read] takes: up to the end of the stream or the
    first error other than [EINTR]. *)
Fixpoint taken (env : list read_result) : bytes :=
  match env with
  | [] => []
  | RR len errno data :: env =>
    if 0 <? len then data ++ taken env
    else if len =? 0 then [] else if bool_decide (errno = EINTR) then taken env else []
  end.

(** Does the loop stop, and at the end of the stream? *)
Fixpoint ending (env : list read_result) : option bool :=
  match env with
  | [] => None
  | RR len errno data :: env =>
    if 0 <? len then ending env
    else if len =? 0 then Some true else if bool_decide (errno = EINTR) then ending env else Some false
  end.

(** The kernel stores as many bytes as it reports. *)
Definition honest (env : list read_result) : Prop :=
  Forall (λ r, 0 < r_ret r → zlen (r_data r) = r_ret r) env.

Definition listening (ph : main_phase) : bool :=
  match ph with MConnecting | MServing => true | _ => false end.

(** ** The servers of a process *)

Record world := World { globals : statics; servers : gmap bytes (server * main_phase) }.

Section world.
Context (junk : nat → byte).

(** What the threads of a connection, its users and the handlers of its events do to
    it: its peer stays, closing it is final, and one that may not be used again is
    closed. *)
Record same_conn (c c' : Connection) : Prop := {
  same_node : node_id_ c' = node_id_ c;
  same_side : is_server_ c' = is_server_ c;
  same_closed : state_ c = Closed → state_ c' = Closed;
  same_reuse : reuseable_ c' = false → reuseable_ c = false ∨ state_ c' = Closed
}.
Definition same_peer (o o' : conn_obj) : Prop := same_conn (conn o) (conn o').

(** The steps of the servers of all tasks: [start] of a new one, a round of a loop
    thread or one event of it, [put_connection], and [stop], which sets the flag and releases what the task holds
    when the thread returned; and of what shares the heap: the threads and users of a
    connection, among them the [stop] of the task on its connections, and the clients, which open connections and put them into the epoll
    set. *)
Inductive step : world → world → Prop :=
  | w_start g th t s now port ssl_ok env s' g' :
      th !! t = None → stop_ s = false → server_connections_ s = [] →
      start junk now t port ssl_ok env s g = (true, s', g') →
      step (World g th) (World g' (<[t := (s', MWait)]> th))
  | w_start_fails g th t s now port ssl_ok env s' g' :
      th !! t = None →
      start junk now t port ssl_ok env s g = (false, s', g') → step (World g th) (World g' th)
  | w_loop g th t s ph now elapsed timeout active ph' g' fds :
      th !! t = Some (s, ph) →
      loop_main_step junk now s g ph elapsed timeout active = Ok (ph', g', fds) →
      step (World g th) (World g' (<[t := (s, ph')]> th))
  | w_event g th t s ph now p events env g' fds :
      th !! t = Some (s, ph) → listening ph = true →
      handle_event junk now s g p events env = Ok (g', fds) →
      step (World g th) (World g' th)
  | w_stop g th t s ph :
      th !! t = Some (s, ph) → stop_ s = false →
      step (World g th) (World g (<[t := (set_stop s, ph)]> th))
  | w_joined g th t s now wenv s' g' fds :
      th !! t = Some (s, MDone) → stop_ s = true →
      stop_release junk now wenv s g = Ok (s', g', fds) →
      step (World g th) (World g' (delete t th))
  | w_put g th t s ph now node_id ok s' r' :
      th !! t = Some (s, ph) →
      put_connection junk now s (reg g) node_id = Ok (ok, s', r') →
      step (World g th) (World (set_reg r' g) (<[t := (s', ph)]> th))
  | w_use g th p o o' :
      objects (reg g) !! p = Some o → same_peer o o' →
      step (World g th) (World (set_reg (set_object p o' (reg g)) g) th)
  | w_open g th o :
      is_server_ (conn o) = false → reuseable_ (conn o) = true →
      step (World g th)
           (World (set_reg (Reg (connections_ (reg g)) (recycle_connections_ (reg g))
                                (<[fresh_ (reg g) := o]> (objects (reg g))) (epoll (reg g))
                                (fresh_ (reg g) + 1)) g) th)
  | w_watch g th p r' :
      add_connection_to_epoll (reg g) p = Ok r' →
      step (World g th) (World (set_reg r' g) th).

Definition reachable (w : world) : Prop := rtc step (World statics_init ∅) w.
End world.

(** The servers that handle epoll events. *)
Definition listens (w : world) (t : bytes) : Prop :=
  ∃ s ph, servers w !! t = Some (s, ph) ∧ listening ph = true.

Definition world_wf (w : world) : Prop :=
  (listen_count_ (globals w) = 0 ∧ ∀ t, ¬ listens w t)
  ∨ (listen_count_ (globals w) = 1 ∧ ∃ t, ∀ u, listens w u ↔ u = t).

(** * Lemmas *)

Section lemmas.
Context (junk : nat → byte).

Lemma read_loop_ok now env : ∀ c eof,
  conn_wf c → honest env → ending env = Some eof →
  3 * (zlen (received c) + zlen (taken env)) < 2 ^ 63 →
  ∃ b, read_loop junk now env c = Ok (set_buffer b c, eof)
    ∧ cycle_buffer.wf b ∧ cycle_buffer.contents b = received c ++ taken env.
Proof.
  induction env as [|[len e data] env IH]; intros c eof H Hh Hend Hmax; [done|].
  apply Forall_cons in Hh as [Hd Hh]. cbn [taken ending read_loop r_ret r_data] in *.
  destruct (Z.ltb_spec 0 len) as [Hlen|Hlen].
  - specialize (Hd Hlen). subst len. rewrite zlen_app in Hmax. pose proof (zlen_nonneg (taken env)).
    destruct (conn_write_ok junk now c data H) as (b & E & Hb & Hc); [lia|].
    rewrite E. cbn [mbind outcome_bind].
    assert (conn_wf (set_buffer b c)) as H' by (destruct H; by split).
    assert (received (set_buffer b c) = received c ++ data) as Er by done.
    destruct (IH (set_buffer b c) eof H' Hh Hend) as (b' & E' & Hb' & Hc').
    { rewrite Er, zlen_app. lia. }
    exists b'. rewrite E', Hc', Er, <- app_assoc. done.
  - destruct (Z.eqb_spec len 0).
    + injection Hend as <-. exists (buffer_ c). rewrite app_nil_r.
      destruct H. split_and!; [by destruct c|done..].
    + case_bool_decide; [by apply IH|]. injection Hend as <-. exists (buffer_ c). rewrite app_nil_r.
      destruct H. split_and!; [by destruct c|done..].
Qed.

(** What [register] changes. *)
Lemma register_spec now cfd cid r :
  sorted (connections_ r) →
  let r' := register junk now cfd cid r in
  map_find cid (connections_ r') = Some (fresh_ r)
  ∧ deref r' (fresh_ r) = Ok (Obj (Connection_create junk now cfd EPOLL_EVENTS true cid) works_init)
  ∧ fresh_ r ∈ epoll r'
  ∧ (∀ k, k ≠ cid → map_find k (connections_ r') = map_find k (connections_ r))
  ∧ (∀ p, map_find cid (connections_ r) = Some p → p ∈ recycle_connections_ r').
Proof.
  intros Hs. unfold register, deref, epoll_add.
  destruct (map_find cid (connections_ r)) as [old|] eqn:E; cbn; rewrite lookup_insert_eq;
    (split_and!; [|done|set_solver|intros k Hk|intros p [=]]).
  - rewrite map_find_insert, decide_True by (by apply map_erase_sorted || done).
    by rewrite map_find_erase, decide_True.
  - rewrite map_find_insert, decide_False by (by apply map_erase_sorted || done).
    by rewrite map_find_erase, decide_False.
  - subst. set_solver.
  - by rewrite map_find_insert, decide_True, E.
  - by rewrite map_find_insert, decide_False.
Qed.

Lemma handle_event_count now s g p events env g' fds :
  handle_event junk now s g p events env = Ok (g', fds) → listen_count_ g' = listen_count_ g.
Proof.
  unfold handle_event, handle_error, handle_read. intros E.
  destruct (negb _).
  - apply bind_Ok in E as (o & _ & E). destruct (ee_tcp_closed env); [|by injection E as <- <-].
    apply bind_Ok in E as (c & _ & E). apply bind_Ok in E as ([o' f] & _ & E). by injection E as <- <-.
  - destruct (negb _); [|by injection E as <- <-]. apply bind_Ok in E as (o & _ & E).
    destruct (_ =? _); [apply bind_Ok in E as ([r f] & _ & E); by injection E as <- <-|].
    destruct (bool_decide _); [by injection E as <- <-|]. destruct (negb _); [by injection E as <- <-|].
    apply bind_Ok in E as ([c []] & _ & E); [|by injection E as <- <-].
    apply bind_Ok in E as ([o' f] & _ & E). by injection E as <- <-.
Qed.

Lemma loop_once_count now s g active g' fds :
  loop_once junk now s g active = Ok (g', fds) → listen_count_ g' = listen_count_ g.
Proof.
  unfold loop_once. intros E.
  refine (for_each_inv _ (λ st, listen_count_ st.1 = listen_count_ g) active (g, []) (g', fds) _ eq_refl E).
  intros [g1 f1] [[p ev] env] [g2 f2] _ Hc Es. cbn in *.
  apply bind_Ok in Es as ([g3 f3] & Ee & Es). injection Es as <- <-.
  apply handle_event_count in Ee. congruence.
Qed.

Lemma loop_main_step_count now s g ph elapsed timeout active ph' g' fds :
  loop_main_step junk now s g ph elapsed timeout active = Ok (ph', g', fds) →
  listen_count_ g' = listen_count_ g + Z.b2z (listening ph') - Z.b2z (listening ph)
  ∧ (listening ph = false → listening ph' = true → listen_count_ g = 0).
Proof.
  unfold loop_main_step. destruct ph; intros E.
  - apply bind_Ok in E as ([] & Hw & E). apply wait_until_Ok in Hw.
    destruct (stop_ s); injection E as <- <- <-; cbn; split; try lia; try done.
    all: try (intros _ _; rewrite orb_false_r in Hw; lia).
  - destruct (_ && _); [|injection E as <- <- <-; cbn; split; [lia|done]].
    apply bind_Ok in E as ([g1 f1] & El & E). injection E as <- <- <-.
    apply loop_once_count in El. split; [|done]. destruct (all_has_connected _ _); cbn; lia.
  - destruct (stop_ s); [injection E as <- <- <-; cbn; split; [lia|done]|].
    apply bind_Ok in E as ([g1 f1] & El & E). injection E as <- <- <-.
    apply loop_once_count in El. split; [|done]. cbn. lia.
  - injection E as <- <- <-. cbn. split; [lia|done].
Qed.
End lemmas.

(** Who listens after the entry of one task was replaced. *)
Lemma listens_insert g g' th t s ph u :
  listens (World g' (<[t := (s, ph)]> th)) u
  ↔ (u = t ∧ listening ph = true) ∨ (u ≠ t ∧ listens (World g th) u).
Proof.
  unfold listens. cbn. destruct (decide (u = t)) as [->|].
  - rewrite lookup_insert_eq. naive_solver.
  - rewrite lookup_insert_ne by done. naive_solver.
Qed.

Lemma listens_delete g g' th t u :
  listens (World g' (delete t th)) u ↔ u ≠ t ∧ listens (World g th) u.
Proof.
  unfold listens. cbn. destruct (decide (u = t)) as [->|].
  - rewrite lookup_delete_eq. naive_solver.
  - rewrite lookup_delete_ne by done. naive_solver.
Qed.

Lemma start_count junk now t port ssl_ok env s g b s' g' :
  start junk now t port ssl_ok env s g = (b, s', g') → listen_count_ g' = listen_count_ g.
Proof.
  unfold start, init. intros E.
  repeat (match type of E with context [if ?b then _ else _] => destruct b end; cbn in E);
    injection E as <- <- <-; done.
Qed.

Lemma stop_release_count junk now wenv s g s' g' fds :
  stop_release junk now wenv s g = Ok (s', g', fds) → listen_count_ g' = listen_count_ g.
Proof.
  unfold stop_release. intros E.
  apply bind_Ok in E as (u & _ & E). destruct (_ && _); [|by injection E as <- <- <-].
  apply bind_Ok in E as ([r' f] & _ & E). by injection E as <- <- <-.
Qed.

(** [world_wf] only looks at the counter and at who listens. *)
Lemma world_wf_same w w' :
  world_wf w → listen_count_ (globals w') = listen_count_ (globals w) →
  (∀ u, listens w' u ↔ listens w u) → world_wf w'.
Proof. unfold world_wf. intros H Ec Hl. rewrite Ec. setoid_rewrite Hl. done. Qed.

Lemma loop_step_wf junk g th t s ph now el tmo act ph' g' fds :
  world_wf (World g th) → th !! t = Some (s, ph) →
  loop_main_step junk now s g ph el tmo act = Ok (ph', g', fds) →
  world_wf (World g' (<[t := (s, ph')]> th)).
Proof.
  intros H Et E. unfold world_wf in *. cbn in *.
  apply loop_main_step_count in E as [Ec Efirst]. pose proof (λ u, listens_insert g g' th t s ph' u) as Hl.
  assert (listens (World g th) t ↔ listening ph = true) as Ht.
  { unfold listens. cbn. rewrite Et. naive_solver. }
  destruct H as [[E0 Hno]|[E1 [v Hv]]].
  - assert (listening ph = false) as Eph by (apply not_true_iff_false; rewrite <- Ht; apply Hno).
    rewrite Eph in *. destruct (listening ph') eqn:Eph'; cbn in Ec.
    + right. split; [lia|]. exists t. intros u. rewrite Hl. naive_solver.
    + left. split; [lia|]. intros u. rewrite Hl. naive_solver.
  - destruct (listening ph) eqn:Eph.
    + assert (v = t) as -> by (symmetry; by apply Hv, Ht).
      destruct (listening ph'); cbn in Ec.
      * right. split; [lia|]. exists t. intros u. rewrite Hl, Hv. naive_solver.
      * left. split; [lia|]. intros u. rewrite Hl, Hv. naive_solver.
    + destruct (listening ph'); cbn in Ec.
      * specialize (Efirst eq_refl eq_refl). lia.
      * right. split; [lia|]. exists v. intros u. rewrite Hl, Hv.
        assert (v ≠ t) by (intros ->; assert (listens (World g th) t) as Hx%Ht by (by apply Hv); done).
        naive_solver.
Qed.

Lemma server_step_wf junk w w' : world_wf w → step junk w w' → world_wf w'.
Proof.
  intros H Hstep.
  destruct Hstep as [g th t s now port sok env s' g' Et Hs _ E|g th t s now port sok env s' g' Et E
    |g th t s ph now el tmo act ph' g' fds Et E|g th t s ph now p ev env g' fds Et Eph E|g th t s ph Et Hs
    |g th t s now wenv s' g' fds Et Hs E
    |g th t s ph now node ok s' r' Et E|g th p o o' Eo Hsame|g th o Ho|g th p r' E];
    [| | | | | | |by apply (world_wf_same _ _ H)..].
  - apply (world_wf_same _ _ H); [by eapply start_count|].
    intros u. rewrite (listens_insert g). unfold listens. cbn. destruct (decide (u = t)) as [->|]; naive_solver.
  - apply (world_wf_same _ _ H); [by eapply start_count|done].
  - by eapply loop_step_wf.
  - apply (world_wf_same _ _ H); [by eapply handle_event_count|done].
  - apply (world_wf_same _ _ H); [done|].
    intros u. rewrite (listens_insert g). unfold listens. cbn. destruct (decide (u = t)) as [->|]; naive_solver.
  - apply (world_wf_same _ _ H); [by eapply stop_release_count|].
    intros u. rewrite (listens_delete g). unfold listens. cbn. destruct (decide (u = t)) as [->|]; naive_solver.
  - apply (world_wf_same _ _ H); [done|].
    intros u. rewrite (listens_insert g). unfold listens. cbn. destruct (decide (u = t)) as [->|]; naive_solver.
Qed.

#[export] Instance server_wf_invariant junk : Invariant (step junk) world_wf.
Proof. intros w w' H Hs. by eapply server_step_wf. Qed.

Lemma server_reachable_wf junk w : reachable junk w → world_wf w.
Proof.
  apply (invariant_rtc (step junk) world_wf). left. split; [done|]. intros t (s & ph & E & _). done.
Qed.

(** * Properties *)

(** C20: at any time the thread of at most one task handles the events of the
    shared epoll instance, and [listen_count_] says whether there is one. *)
Theorem one_listener junk w :
  reachable junk w →
  (∀ t u, listens w t → listens w u → t = u)
  ∧ (listen_count_ (globals w) = 0 ∨ listen_count_ (globals w) = 1)
  ∧ (listen_count_ (globals w) = 0 ↔ ∀ t, ¬ listens w t).
Proof.
  intros [[E0 Hno]|[E1 [v Hv]]]%server_reachable_wf; rewrite ?E0, ?E1.
  - split_and!; [|by left|done]. intros t u Ht. by destruct (Hno t).
  - split_and!; [|by right|split; [done|]].
    + intros t u ->%Hv ->%Hv. done.
    + intros Hno. destruct (Hno v). by apply Hv.
Qed.

(** A stopped server leaves its loop in the next round, whatever the phase and
    whatever the kernel reports; if it was the one that listens, every server that
    waits for its turn can take it from then on. *)
Theorem stop_hands_over junk w t s ph :
  reachable junk w → servers w !! t = Some (s, ph) → stop_ s = true →
  ∃ g,
    (∀ now elapsed timeout active,
       loop_main_step junk now s (globals w) ph elapsed timeout active = Ok (MDone, g, []))
    ∧ (listening ph = true → ∀ s' now elapsed timeout active, stop_ s' = false →
       ∃ g', loop_main_step junk now s' g MWait elapsed timeout active = Ok (MConnecting, g', [])
             ∧ listen_count_ g' = 1).
Proof.
  intros Hr%server_reachable_wf Et Hs.
  assert (listening ph = true → listen_count_ (globals w) = 1) as Hc.
  { intros Hl. destruct Hr as [[_ Hno]|[E1 _]]; [|done]. destruct (Hno t). by exists s, ph. }
  destruct ph; cbn [loop_main_step]; rewrite ?Hs, ?orb_true_r; cbn [negb andb];
    (eexists; split; [intros; reflexivity|]); try done;
    intros Hl%Hc s' now el tmo act Hs'; rewrite Hs'; cbn; rewrite Hl; cbn; eauto.
Qed.

(** A hello that announces fewer bytes than its own length field kills the thread. *)
Lemma short_hello_throws junk now s r cfd errno cid_len rest :
  cfd ≠ -1 → 0 ≤ cid_len < 8 →
  handle_accept junk now s (AcceptEnv cfd 1 (RR 8 errno (le_bytes 8 cid_len)) rest) r = Throw length_error.
Proof.
  intros Hcfd Hlen. unfold handle_accept. cbn [ae_cfd ae_write ae_read1 ae_read2 r_ret r_data].
  rewrite (proj2 (Z.eqb_neq _ _)) by done. change (negb (1 =? sz8)) with false.
  change (negb (u64 8 =? sz64)) with false. cbn [negb].
  rewrite load_u64_ok by (rewrite ?zlen_le_bytes; lia). cbn [mbind outcome_bind].
  rewrite zdrop_0, ztake_ge, le_value_le_bytes by (rewrite ?zlen_le_bytes; lia).
  rewrite Z.mod_small by lia.
  assert (cid_len -₆₄ sz64 = 2 ^ 64 + cid_len - 8) as ->.
  { unfold u64. symmetry. apply (Z.mod_unique _ _ (-1)); lia. }
  unfold string_resize, string_max_size. by rewrite (proj2 (Z.ltb_lt _ _)) by lia.
Qed.

(** An event on an open connection moves everything the kernel has, up to the
    end of the stream or to the first error other than an interrupt, behind the
    bytes already received; at the end of the stream the connection is closed and
    leaves the epoll set. *)
Theorem handle_read_drains junk now s g env p o eof :
  objects (reg g) !! p = Some o → fd_ (conn o) ≠ listenfd_ g →
  state_ (conn o) ≠ Closing → state_ (conn o) ≠ Closed → ee_handshake env = true →
  conn_wf (conn o) → honest (ee_reads env) → ending (ee_reads env) = Some eof →
  3 * (zlen (received (conn o)) + zlen (taken (ee_reads env))) < 2 ^ 63 →
  ∃ c, conn_wf c ∧ received c = received (conn o) ++ taken (ee_reads env)
    ∧ to_send c = to_send (conn o) ∧ mapbuffer_ c = mapbuffer_ (conn o)
    ∧ handle_read junk now s g env p =
        if eof then
          '(o, fds) ← close_object junk now (ee_writes env) (Obj c (tasks o));
          mret (set_reg (set_object p o (epoll_del p (reg g))) g, fds)
        else mret (set_reg (set_object p (Obj c (tasks o)) (reg g)) g, []).
Proof.
  intros Ho Hfd Hs1 Hs2 Hhs H Hh Hend Hmax.
  destruct (read_loop_ok junk now (ee_reads env) (conn o) eof) as (b & E & Hb & Hc); [done..|].
  exists (set_buffer b (conn o)). split_and!; [by destruct H; split|done..|].
  unfold handle_read, deref. rewrite Ho. cbn [mbind outcome_bind].
  rewrite (proj2 (Z.eqb_neq _ _)), bool_decide_false, Hhs by (done || naive_solver).
  cbn [negb]. rewrite E. by destruct eof.
Qed.

(** * Witnesses *)

Definition idle_server : server := Server [] false false [str "p1"] [] false.
Definition server_of (t : bytes) : server := Server t false false [str "p1"] [] true.

(** The first task opened descriptors 3 (epoll) and 4 (listening). *)
Definition started_statics : statics :=
  (start (λ _, x00) 0 (str "a") 9000 true (InitEnv 3 4 0 0) idle_server statics_init).2.

(** Task a listens and was told to stop; task b waits. *)
Definition hands_over (r : registry) : world :=
  World (Statics r 2 false (Some 1) 3 4 9000 true 1)
        (<[str "a" := (set_stop (server_of (str "a")), MConnecting)]>
           (<[str "b" := (server_of (str "b"), MWait)]>
              (<[str "a" := (server_of (str "a"), MConnecting)]>
                 {[str "a" := (server_of (str "a"), MWait)]}))).

Lemma hands_over_reached junk r :
  rtc (step junk)
      (World (Statics r 1 false (Some 1) 3 4 9000 true 0) {[str "a" := (server_of (str "a"), MWait)]})
      (hands_over r).
Proof.
  eapply rtc_l; [eapply (w_loop _ _ _ (str "a") _ MWait 0 0 0 []); reflexivity|].
  eapply rtc_l; [eapply (w_start _ _ _ (str "b") idle_server 0 9000 true (InitEnv 3 4 0 0)); reflexivity|].
  eapply rtc_l; [eapply (w_stop _ _ _ (str "a") (server_of (str "a")) MConnecting); reflexivity|].
  reflexivity.
Qed.

Definition a_hands_over : world := hands_over (reg started_statics).

Lemma a_hands_over_reachable : reachable (λ _, x00) a_hands_over.
Proof.
  eapply rtc_l; [|apply hands_over_reached].
  apply (w_start _ _ _ (str "a") idle_server 0 9000 true (InitEnv 3 4 0 0)); reflexivity.
Qed.

Lemma one_listener_witness :
  (∀ t u, listens a_hands_over t → listens a_hands_over u → t = u)
  ∧ (listen_count_ (globals a_hands_over) = 0 ∨ listen_count_ (globals a_hands_over) = 1)
  ∧ (listen_count_ (globals a_hands_over) = 0 ↔ ∀ t, ¬ listens a_hands_over t).
Proof. exact (one_listener (λ _, x00) a_hands_over a_hands_over_reachable). Defined.

Lemma stop_hands_over_witness :
  ∃ g,
    (∀ now elapsed timeout active,
       loop_main_step (λ _, x00) now (set_stop (server_of (str "a"))) (globals a_hands_over)
         MConnecting elapsed timeout active = Ok (MDone, g, []))
    ∧ (listening MConnecting = true → ∀ s' now elapsed timeout active, stop_ s' = false →
       ∃ g', loop_main_step (λ _, x00) now s' g MWait elapsed timeout active
               = Ok (MConnecting, g', []) ∧ listen_count_ g' = 1).
Proof.
  exact (stop_hands_over (λ _, x00) a_hands_over (str "a") (set_stop (server_of (str "a")))
           MConnecting a_hands_over_reachable eq_refl eq_refl).
Defined.

(** A registry with one open connection, and an event on it. *)
Definition one_client : statics :=
  set_reg (Reg [(str "p1", 2)] [] {[2 := Obj (small_conn (str "x") []) works_init]} {[2]} 3)
          statics_init.
Definition readable : event_env :=
  EventEnv (AcceptEnv (-1) 0 (RR 0 (EOTHER 0) []) (RR 0 (EOTHER 0) [])) true
           [RR 2 (EOTHER 0) (str "yz"); RR (-1) EINTR []; RR 1 (EOTHER 0) (str "!"); RR 0 (EOTHER 0) []]
           [] false.

Lemma handle_read_drains_witness :
  ∃ c, conn_wf c ∧ received c = str "xyz!" ∧ to_send c = [] ∧ mapbuffer_ c = ∅
    ∧ handle_read (λ _, x00) 0 (server_of (str "a")) one_client readable 2 =
        ('(o, fds) ← close_object (λ _, x00) 0 [] (Obj c works_init);
         mret (set_reg (set_object 2 o (epoll_del 2 (reg one_client))) one_client, fds)).
Proof.
  apply (handle_read_drains (λ _, x00) 0 (server_of (str "a")) one_client readable 2
           (Obj (small_conn (str "x") []) works_init) true);
    [reflexivity|done|done|done|done|by apply small_conn_wf| |done|done].
  repeat constructor; vm_compute; congruence.
Defined.

End TCPServer.
