(* ===== verification/Listen.v ===== *)
(** The condition variable [listen_cv_] of the servers of a process
    ([src/server.cpp]): which loop threads sleep until it is their turn to handle
    epoll events, the [notify_one] at the end of [loop_main] and the [notify_all] of
    [stop], which comes after the flag [stop_] was set without the mutex.  A server
    that was woken up may be stopped and return without passing the turn on; the
    turn is never lost all the same. *)
From Stdlib Require Import Strings.Byte.
From S2P Require Import Prelude Timer CycleBuffer SimpleBuffer Transport Connection StdMap Work Server.
#[local] Open Scope Z_scope.

Module Listen.
Import TCPServer.

(** * The program *)

(** The servers, those whose thread sleeps on [listen_cv_], and those whose [stop]
    has set the flag and not yet notified. *)
Record state := State {
  servers_ : world;
  asleep : gset bytes;
  to_notify : gset bytes
}.

(** [listen_cv_.notify_one()]: one of the threads that sleep, if there is one. *)
Inductive notify_one (z : gset bytes) : gset bytes → Prop :=
  | notify_none : z = ∅ → notify_one z ∅
  | notify_some t : t ∈ z → notify_one z (z ∖ {[t]}).

(** [listen_cv_.notify_all()]. *)
Definition notify_all (z : gset bytes) : gset bytes := ∅.

(** What [start], [put_connection], the rounds of a loop that goes on and the
    clients leave alone: who waits, who listens and who is stopped. *)
Definition same_phases (w w' : world) : Prop :=
  listen_count_ (globals w') = listen_count_ (globals w)
  ∧ ∀ t s ph, servers w !! t = Some (s, ph) →
      ∃ s', servers w' !! t = Some (s', ph) ∧ stop_ s' = stop_ s.

Section program.
Context (junk : nat → byte).

Inductive step : relation state :=
  (* the end of the wait of [loop_main] *)
  | l_turn g th z n t s now elapsed timeout active ph' g' fds :
      th !! t = Some (s, MWait) → t ∉ z →
      loop_main_step junk now s g MWait elapsed timeout active = Ok (ph', g', fds) →
      step (State (World g th) z n) (State (World g' (<[t := (s, ph')]> th)) z n)
  (* the last section of [loop_main] *)
  | l_end g th z n t s ph now elapsed timeout active g' fds z' :
      th !! t = Some (s, ph) → listening ph = true →
      loop_main_step junk now s g ph elapsed timeout active = Ok (MDone, g', fds) →
      notify_one z z' →
      step (State (World g th) z n) (State (World g' (<[t := (s, MDone)]> th)) z' n)
  (* [stop]: the flag, the section on [listen_mutex_], and what follows the [join] *)
  | l_stop g th z n t s ph :
      th !! t = Some (s, ph) → stop_ s = false →
      step (State (World g th) z n) (State (World g (<[t := (set_stop s, ph)]> th)) z ({[t]} ∪ n))
  | l_notify w z n t :
      t ∈ n → step (State w z n) (State w (notify_all z) (n ∖ {[t]}))
  | l_joined g th z n t s now wenv s' g' fds :
      th !! t = Some (s, MDone) → stop_ s = true → t ∉ n →
      stop_release junk now wenv s g = Ok (s', g', fds) →
      step (State (World g th) z n) (State (World g' (delete t th)) z n)
  (* everything else the process does *)
  | l_other w w' z n :
      TCPServer.step junk w w' → same_phases w w' → step (State w z n) (State w' z n)
  (* a thread whose predicate is false sleeps; any thread can wake up *)
  | l_sleep g th z n t s :
      th !! t = Some (s, MWait) → loop_main_step junk 0 s g MWait 0 0 [] = Sleep →
      step (State (World g th) z n) (State (World g th) ({[t]} ∪ z) n)
  | l_wake w z n t : step (State w z n) (State w (z ∖ {[t]}) n).

Definition reachable (s : state) : Prop := rtc step (State (World statics_init ∅) ∅ ∅) s.
End program.

(** * Specification *)

(** A server that waits, is awake and has not been stopped: it can take the turn. *)
Definition candidate (s : state) (t : bytes) : Prop :=
  (t ∉ asleep s) ∧ ∃ sv, servers (servers_ s) !! t = Some (sv, MWait) ∧ stop_ sv = false.

Record listen_wf (junk : nat → byte) (s : state) : Prop := {
  li_reachable : TCPServer.reachable junk (servers_ s);
  li_asleep t : t ∈ asleep s → ∃ sv, servers (servers_ s) !! t = Some (sv, MWait)
                                     ∧ (stop_ sv = true → t ∈ to_notify s);
  li_pending t : t ∈ to_notify s → ∃ sv ph, servers (servers_ s) !! t = Some (sv, ph) ∧ stop_ sv = true;
  li_turn : listen_count_ (globals (servers_ s)) = 0 → asleep s ≠ ∅ →
            (∃ t, candidate s t) ∨ to_notify s ≠ ∅
}.

(** * Lemmas *)

Section lemmas.
Context (junk : nat → byte).

Lemma step_servers s s' : step junk s s' → rtc (TCPServer.step junk) (servers_ s) (servers_ s').
Proof.
  destruct 1; cbn; try reflexivity; apply rtc_once;
    [by eapply w_loop|by eapply w_loop|by eapply w_stop|by eapply w_joined|done].
Qed.

(** What the wait of [loop_main] decides. *)
Lemma wait_ok now s g elapsed timeout active ph' g' fds :
  loop_main_step junk now s g MWait elapsed timeout active = Ok (ph', g', fds) →
  if stop_ s then ph' = MDone ∧ g' = g else listen_count_ g = 0 ∧ listen_count_ g' = 1.
Proof.
  cbn. intros E. apply bind_Ok in E as ([] & Hw & E). apply wait_until_Ok in Hw.
  destruct (stop_ s); injection E as <- <- <-; [done|]. cbn. rewrite orb_false_r in Hw. lia.
Qed.

Lemma wait_sleeps s g : loop_main_step junk 0 s g MWait 0 0 [] = Sleep → listen_count_ g ≠ 0 ∧ stop_ s = false.
Proof. cbn. destruct (Z.eqb_spec (listen_count_ g) 0), (stop_ s); by cbn. Qed.

Lemma notify_one_subset z z' : notify_one z z' → z' ⊆ z.
Proof. destruct 1; set_solver. Qed.

(** A server [sv] of task [t] takes the place of the one before. *)
Lemma candidate_insert g g' th z z' n n' t sv ph u :
  u ≠ t → z' ⊆ z → candidate (State (World g th) z n) u →
  candidate (State (World g' (<[t := (sv, ph)]> th)) z' n') u.
Proof.
  intros Hne Hz (Hu & s & E & Hs). split; cbn in *; [set_solver|]. exists s. by rewrite lookup_insert_ne.
Qed.

Lemma l_turn_wf g th z n t s now elapsed timeout active ph' g' fds :
  listen_wf junk (State (World g th) z n) → th !! t = Some (s, MWait) → t ∉ z →
  loop_main_step junk now s g MWait elapsed timeout active = Ok (ph', g', fds) →
  TCPServer.reachable junk (World g' (<[t := (s, ph')]> th)) →
  listen_wf junk (State (World g' (<[t := (s, ph')]> th)) z n).
Proof.
  intros [_ Ha Hp Ht] Et Hz E%wait_ok Hr. split; cbn in *; [done|..].
  - intros u Hu. assert (u ≠ t) by congruence. rewrite lookup_insert_ne by done. by apply Ha.
  - intros u Hu. destruct (decide (u = t)) as [->|].
    + rewrite lookup_insert_eq. destruct (Hp t Hu) as (sv & ph & E' & Hs). simplify_eq. eauto.
    + rewrite lookup_insert_ne by done. by apply Hp.
  - intros E0 Hne. destruct (stop_ s) eqn:Es; [|lia]. destruct E as [-> ->].
    destruct (Ht E0 Hne) as [[u Hu]|]; [left|by right]. exists u.
    eapply candidate_insert; [|done|exact Hu]. intros ->.
    destruct Hu as (_ & sv & E' & Hs). cbn in E'. congruence.
Qed.

Lemma l_end_wf g th z n t s ph now elapsed timeout active g' fds z' :
  listen_wf junk (State (World g th) z n) → th !! t = Some (s, ph) → listening ph = true →
  loop_main_step junk now s g ph elapsed timeout active = Ok (MDone, g', fds) → notify_one z z' →
  TCPServer.reachable junk (World g' (<[t := (s, MDone)]> th)) →
  listen_wf junk (State (World g' (<[t := (s, MDone)]> th)) z' n).
Proof.
  intros [_ Ha Hp Ht] Et Hl _ Hn Hr. pose proof (notify_one_subset _ _ Hn) as Hsub. split; cbn in *; [done|..].
  - intros u Hu. assert (u ≠ t).
    { intros ->. destruct (Ha t) as (sv & E' & _); [set_solver|]. rewrite Et in E'. by injection E' as -> ->. }
    rewrite lookup_insert_ne by done. apply Ha. set_solver.
  - intros u Hu. destruct (decide (u = t)) as [->|].
    + rewrite lookup_insert_eq. destruct (Hp t Hu) as (sv & ph' & E' & Hs). simplify_eq. eauto.
    + rewrite lookup_insert_ne by done. by apply Hp.
  - intros _ Hne. destruct Hn as [->|u Hu]; [done|].
    destruct (Ha u Hu) as (sv & Eu & Hs). destruct (stop_ sv) eqn:Es; [right; set_solver|left].
    exists u. split; cbn; [set_solver|]. exists sv. rewrite lookup_insert_ne; [done|].
    intros ->. rewrite Et in Eu. by injection Eu as -> ->.
Qed.

Lemma l_stop_wf g th z n t s ph :
  listen_wf junk (State (World g th) z n) → th !! t = Some (s, ph) → stop_ s = false →
  TCPServer.reachable junk (World g (<[t := (set_stop s, ph)]> th)) →
  listen_wf junk (State (World g (<[t := (set_stop s, ph)]> th)) z ({[t]} ∪ n)).
Proof.
  intros [_ Ha Hp Ht] Et Hs Hr. split; cbn in *; [done|..].
  - intros u Hu. destruct (Ha u Hu) as (sv & Eu & Hsv). destruct (decide (u = t)) as [->|].
    + rewrite lookup_insert_eq. rewrite Eu in Et. injection Et as <- <-.
      exists (set_stop sv). split; [done|set_solver].
    + rewrite lookup_insert_ne by done. exists sv. split; [done|set_solver].
  - intros u Hu. destruct (decide (u = t)) as [->|].
    + rewrite lookup_insert_eq. eauto.
    + rewrite lookup_insert_ne by done. apply Hp. set_solver.
  - intros _ _. right. set_solver.
Qed.

Lemma l_other_wf w w' z n :
  listen_wf junk (State w z n) → same_phases w w' → TCPServer.reachable junk w' →
  listen_wf junk (State w' z n).
Proof.
  intros [_ Ha Hp Ht] [Ec Hsame] Hr. split; cbn in *; [done|..].
  - intros u (sv & Eu & Hs)%Ha. destruct (Hsame _ _ _ Eu) as (sv' & Eu' & Es). exists sv'. by rewrite Es.
  - intros u (sv & ph & Eu & Hs)%Hp. destruct (Hsame _ _ _ Eu) as (sv' & Eu' & Es).
    exists sv', ph. by rewrite Es.
  - rewrite Ec. intros E0 Hne. destruct (Ht E0 Hne) as [(u & Hu & sv & Eu & Hs)|]; [left|by right].
    destruct (Hsame _ _ _ Eu) as (sv' & Eu' & Es). exists u. split; [done|]. exists sv'. by rewrite Es.
Qed.

Lemma l_joined_wf g th z n t s g' :
  listen_wf junk (State (World g th) z n) → th !! t = Some (s, MDone) → t ∉ n →
  listen_count_ g' = listen_count_ g → TCPServer.reachable junk (World g' (delete t th)) →
  listen_wf junk (State (World g' (delete t th)) z n).
Proof.
  intros [_ Ha Hp Ht] Et Hn Ec Hr. split; cbn in *; [done|..].
  - intros u Hu. destruct (Ha u Hu) as (sv & Eu & Hs). rewrite lookup_delete_ne by congruence. eauto.
  - intros u Hu. rewrite lookup_delete_ne by congruence. by apply Hp.
  - rewrite Ec. intros E0 Hne. destruct (Ht E0 Hne) as [(u & Hu & sv & Eu & Hs)|]; [left|by right].
    exists u. split; [done|]. exists sv. cbn in *. by rewrite lookup_delete_ne by congruence.
Qed.

Lemma l_notify_wf w z n t :
  listen_wf junk (State w z n) → listen_wf junk (State w (notify_all z) (n ∖ {[t]})).
Proof. intros [Hr _ Hp _]. split; cbn in *; [done|set_solver| |done]. intros u Hu. apply Hp. set_solver. Qed.

Lemma l_sleep_wf g th z n t s :
  listen_wf junk (State (World g th) z n) → th !! t = Some (s, MWait) →
  listen_count_ g ≠ 0 → stop_ s = false → listen_wf junk (State (World g th) ({[t]} ∪ z) n).
Proof.
  intros [Hr Ha Hp _] Et Hc Hs. split; cbn in *; [done| |done|done].
  intros u [->%elem_of_singleton|Hu]%elem_of_union; [|by apply Ha]. exists s. split; [done|congruence].
Qed.

Lemma l_wake_wf w z n t : listen_wf junk (State w z n) → listen_wf junk (State w (z ∖ {[t]}) n).
Proof.
  intros [Hr Ha Hp Ht]. split; cbn in *; [done| |done|].
  - intros u Hu. apply Ha. set_solver.
  - intros E0 Hne. destruct (Ht E0) as [(u & Hu & Hs)|]; [set_solver|left|by right].
    exists u. split; [cbn in *; set_solver|done].
Qed.

#[export] Instance listen_wf_invariant : Invariant (step junk) (listen_wf junk).
Proof.
  intros s s' Hwf Hs. assert (TCPServer.reachable junk (servers_ s')) as Hr.
  { unfold TCPServer.reachable in *. etrans; [apply (li_reachable _ _ Hwf)|by apply step_servers]. }
  destruct Hs; eauto using l_turn_wf, l_end_wf, l_stop_wf, l_notify_wf, l_other_wf, l_wake_wf.
  - eapply l_joined_wf; [done..|by eapply stop_release_count|done].
  - match goal with H : _ = Sleep |- _ => apply wait_sleeps in H as [] end. by eapply l_sleep_wf.
Qed.

Lemma reachable_listen_wf s : reachable junk s → listen_wf junk s.
Proof.
  apply (invariant_rtc (step junk) (listen_wf junk)). split; cbn; [|set_solver|set_solver|done].
  unfold TCPServer.reachable. reflexivity.
Qed.
End lemmas.

(** * Properties *)

(** C16: the turn to handle epoll events is never lost and [stop] is always noticed:
    when nobody listens and a server waits that has not been stopped, then some
    waiting server is awake and takes the turn in its next step, or a [stop] is about
    to notify, which wakes the server up; and once the [stop] of a server has
    notified, its thread is awake and returns in its next round, whatever the kernel
    reports, so that the [join] returns. *)
Theorem turn_never_lost junk s t sv ph :
  reachable junk s → servers (servers_ s) !! t = Some (sv, ph) →
  (ph = MWait → stop_ sv = false → listen_count_ (globals (servers_ s)) = 0 →
     (∃ u su, candidate s u ∧ servers (servers_ s) !! u = Some (su, MWait)
        ∧ ∀ now elapsed timeout active, ∃ g',
            loop_main_step junk now su (globals (servers_ s)) MWait elapsed timeout active
              = Ok (MConnecting, g', []) ∧ listen_count_ g' = 1)
     ∨ ∃ u s', u ∈ to_notify s ∧ step junk s s' ∧ to_notify s' = to_notify s ∖ {[u]} ∧ candidate s' t)
  ∧ (stop_ sv = true → t ∈ to_notify s
     ∨ (t ∉ asleep s) ∧ ∃ g, ∀ now elapsed timeout active,
         loop_main_step junk now sv (globals (servers_ s)) ph elapsed timeout active = Ok (MDone, g, [])).
Proof.
  intros [Hr Ha Hp Ht]%reachable_listen_wf Et. split.
  - intros -> Hs Hc. assert (t ∉ asleep s ∨ asleep s ≠ ∅) as [Hz|Hz].
    { destruct (decide (t ∈ asleep s)); [right; set_solver|by left]. }
    + left. exists t, sv. split; [by split; [|eauto]|]. split; [done|]. intros. cbn. rewrite Hc, Hs. cbn. eauto.
    + destruct (Ht Hc Hz) as [[u Hu]|Hn]; [left|right].
      * pose proof Hu as (_ & su & Eu & Hsu). exists u, su. split_and!; [done..|].
        intros. cbn. rewrite Hc, Hsu. cbn. eauto.
      * apply set_choose_L in Hn as [u Hu]. destruct s as [w z n]. cbn in *.
        exists u, (State w (notify_all z) (n ∖ {[u]})). split_and!; [done|by apply l_notify|done|].
        split; [cbn; set_solver|]. by exists sv.
  - intros Hs. destruct (decide (t ∈ to_notify s)) as [|Hn]; [by left|right]. split.
    + intros (sv' & E & Hsv)%Ha. simplify_eq. by apply Hn, Hsv.
    + destruct (stop_hands_over junk (servers_ s) t sv ph Hr Et Hs) as (g & Hg & _). by exists g.
Qed.

(** * Witness *)

Lemma same_phases_new g g' th t x :
  listen_count_ g' = listen_count_ g → th !! t = None → same_phases (World g th) (World g' (<[t := x]> th)).
Proof.
  intros Ec Et. split; [done|]. intros u s ph E. cbn in *. exists s. rewrite lookup_insert_ne by congruence. done.
Qed.

Definition a_waits (r : registry) : world :=
  World (Statics r 1 false (Some 1) 3 4 9000 true 0) {[str "a" := (server_of (str "a"), MWait)]}.

(** Task a listened and was stopped; it returned before its [stop] notified, and
    passed the turn to task b, which slept. *)
Lemma passed_on_reached junk r :
  ∃ s, rtc (step junk) (State (a_waits r) ∅ ∅) s
       ∧ servers (servers_ s) !! str "b" = Some (server_of (str "b"), MWait)
       ∧ listen_count_ (globals (servers_ s)) = 0.
Proof.
  eexists. split.
  { eapply rtc_l; [eapply (l_turn junk _ _ _ _ (str "a") _ 0 0 0 []); [done|set_solver|reflexivity]|].
    eapply rtc_l.
    { eapply l_other; [by apply (w_start junk _ _ (str "b") idle_server 0 9000 true (InitEnv 3 4 0 0))|].
      by apply same_phases_new. }
    eapply rtc_l; [eapply (l_sleep junk _ _ _ _ (str "b")); reflexivity|].
    eapply rtc_l; [eapply (l_stop junk _ _ _ _ (str "a")); reflexivity|].
    eapply rtc_l.
    { eapply (l_end junk _ _ _ _ (str "a") _ MConnecting 0 0 0 []); [reflexivity..|].
      apply (notify_some _ (str "b")). set_solver. }
    apply rtc_refl. }
  split; reflexivity.
Qed.

Lemma passed_on :
  ∃ s, reachable (λ _, x00) s ∧ servers (servers_ s) !! str "b" = Some (server_of (str "b"), MWait)
       ∧ listen_count_ (globals (servers_ s)) = 0.
Proof.
  destruct (passed_on_reached (λ _, x00) (reg started_statics)) as (s & Hs & H). exists s. split; [|done].
  eapply rtc_l; [|exact Hs].
  apply l_other; [|by apply (same_phases_new _ _ ∅)].
  apply (w_start _ _ _ (str "a") idle_server 0 9000 true (InitEnv 3 4 0 0)); reflexivity.
Qed.

Lemma turn_never_lost_witness :
  ∃ s, listen_count_ (globals (servers_ s)) = 0 ∧
    ((∃ u su, candidate s u ∧ servers (servers_ s) !! u = Some (su, MWait)
        ∧ ∀ now elapsed timeout active, ∃ g',
            loop_main_step (λ _, x00) now su (globals (servers_ s)) MWait elapsed timeout active
              = Ok (MConnecting, g', []) ∧ listen_count_ g' = 1)
     ∨ ∃ u s', u ∈ to_notify s ∧ step (λ _, x00) s s' ∧ to_notify s' = to_notify s ∖ {[u]}
               ∧ candidate s' (str "b")).
Proof.
  destruct passed_on as (s & Hr & Eb & Hc). exists s. split; [done|].
  by apply (turn_never_lost (λ _, x00) s (str "b") _ _ Hr Eb).
Defined.

End Listen.
