(* ===== verification/Heap.v ===== *)
(** The heap the servers of a process share ([src/server.cpp]): every address that
    [connections_], [recycle_connections_], the epoll set, [listen_conn_] and the
    [server_connections_] of the tasks hold points to a live object of the right
    kind.  This is the type invariant the handlers rely on when they cast
    [epoll_data.ptr] to [Connection*] and use it. *)
From Stdlib Require Import Strings.Byte.
From S2P Require Import Prelude Timer CycleBuffer SimpleBuffer Transport Connection StdMap Work Server.
#[local] Open Scope Z_scope.

Module Heap.
Import TCPServer.

(** * Typing *)

Section typing.
Context (g : statics).

Definition live (p : Z) : Prop := is_Some (objects (reg g) !! p).

(** [p] is an accepted connection of client [cid]. *)
Definition accepted (cid : bytes) (p : Z) : Prop :=
  ∃ o, objects (reg g) !! p = Some o ∧ node_id_ (conn o) = cid ∧ is_server_ (conn o) = true
       ∧ listen_conn_ g ≠ Some p.

(** A connection that may not be used again is closed. *)
Definition settled (o : conn_obj) : Prop := reuseable_ (conn o) = false → state_ (conn o) = Closed.

(** A map from client ids to connections. *)
Definition typed_map (m : smap Z) : Prop :=
  sorted m ∧ ∀ cid p, map_find cid m = Some p → accepted cid p.

Record typed (th : gmap bytes (server * main_phase)) : Prop := {
  t_connections : typed_map (connections_ (reg g));
  t_recycled p : p ∈ recycle_connections_ (reg g) → ∃ cid, accepted cid p;
  t_servers t s ph : th !! t = Some (s, ph) → typed_map (server_connections_ s);
  t_epoll p : p ∈ epoll (reg g) → live p;
  t_listen p : listen_conn_ g = Some p → live p;
  t_fresh p : live p → p < fresh_ (reg g);
  t_settled p o : objects (reg g) !! p = Some o → settled o
}.
End typing.

(** What an operation may do to the heap: objects stay, with their peers. *)
Definition grows (r r' : registry) : Prop :=
  ∀ p o, objects r !! p = Some o → ∃ o', objects r' !! p = Some o' ∧ same_peer o o'.

(** An operation on the objects that are there. *)
Record updates (r r' : registry) : Prop := {
  u_connections : connections_ r' = connections_ r;
  u_recycled : recycle_connections_ r' = recycle_connections_ r;
  u_fresh : fresh_ r' = fresh_ r;
  u_grows : grows r r';
  u_live p : is_Some (objects r' !! p) → is_Some (objects r !! p);
  u_epoll p : p ∈ epoll r' → p ∈ epoll r
}.

(** * Lemmas *)

#[export] Instance same_conn_preorder : PreOrder same_conn.
Proof.
  split; [intros c; split; auto|]. intros c1 c2 c3 [N1 S1 C1 R1] [N2 S2 C2 R2].
  split; [congruence..|auto|]. intros [H|H]%R2; [destruct (R1 H); auto|auto].
Qed.

#[export] Instance same_peer_preorder : PreOrder same_peer.
Proof. split; [intros o; exact (reflexivity (conn o))|]. intros o1 o2 o3. unfold same_peer. apply transitivity. Qed.

#[export] Instance updates_preorder : PreOrder updates.
Proof.
  split.
  - intros r. split; try done. intros p o E. by exists o.
  - intros r1 r2 r3 [] []. split; try congruence.
    + intros p o E. destruct (u_grows0 _ _ E) as (o' & E' & H1).
      destruct (u_grows1 _ _ E') as (o'' & E'' & H2). exists o''. split; [done|by trans o'].
    + auto.
    + auto.
Qed.

Lemma deref_Ok r p o : deref r p = Ok o ↔ objects r !! p = Some o.
Proof. unfold deref. by destruct (objects r !! p); split; intros E; simplify_eq. Qed.

Lemma set_object_updates r p o o' :
  objects r !! p = Some o → same_peer o o' → updates r (set_object p o' r).
Proof.
  intros E H. split; cbn; try done.
  - intros q oq Eq. cbn. destruct (decide (q = p)) as [->|].
    + rewrite lookup_insert_eq. exists o'. split; [done|]. by simplify_eq.
    + rewrite lookup_insert_ne by done. by exists oq.
  - intros q. destruct (decide (q = p)) as [->|]; [by rewrite E|by rewrite lookup_insert_ne].
Qed.

Lemma epoll_del_updates r p : updates r (epoll_del p r).
Proof. split; cbn; try done; [intros q o E; by exists o|]. intros q. set_solver. Qed.

(** ** Operations on one connection keep its peer *)

Section objects.
Context (junk : nat → byte).

(** An operation on the buffers. *)
Definition same_fields (c c' : Connection) : Prop :=
  node_id_ c' = node_id_ c ∧ is_server_ c' = is_server_ c ∧ state_ c' = state_ c ∧ reuseable_ c' = reuseable_ c
  ∧ fd_ c' = fd_ c.

Lemma same_fields_trans c1 c2 c3 : same_fields c1 c2 → same_fields c2 c3 → same_fields c1 c3.
Proof. intros (? & ? & ? & ? & ?) (? & ? & ? & ? & ?). split_and!; congruence. Qed.

Lemma same_fields_conn c c' : same_fields c c' → same_conn c c'.
Proof. intros (E1 & E2 & E3 & E4 & _). split; [done..|by rewrite E3|rewrite E4; by left]. Qed.

Lemma send_same now c id data n m c' :
  Connection.send junk now c id data n = Ok (m, c') → same_fields c c'.
Proof. unfold Connection.send, put_into_send_buffer. intros E. by outcome_inv. Qed.

Lemma recv_same now elapsed st c id data n tmo m data' c' :
  Connection.recv now elapsed st c id data n tmo = Ok (m, data', c') → same_fields c c'.
Proof.
  unfold Connection.recv. intros E. destruct (_ && _); [by outcome_inv|].
  destruct (_ <? elapsed); [by outcome_inv|]. destruct (_ !! _); [|done]. by outcome_inv.
Qed.

Lemma conn_start_same now t o o' : conn_start junk now t o = Ok o' → same_fields (conn o) (conn o').
Proof.
  unfold conn_start, start_lock. intros E. outcome_inv.
  match goal with H : Connection.send _ _ _ _ _ _ = _ |- _ => apply send_same in H end. done.
Qed.

Lemma conn_start_peer now t o o' : conn_start junk now t o = Ok o' → same_peer o o'.
Proof. intros E. by eapply same_fields_conn, conn_start_same. Qed.

Lemma conn_stop_same now elapsed t o o' : conn_stop now elapsed t o = Ok o' → same_fields (conn o) (conn o').
Proof.
  unfold conn_stop, stop_lock. intros E. outcome_inv.
  match goal with H : Connection.recv _ _ _ _ _ _ _ _ = _ |- _ => apply recv_same in H end. done.
Qed.

Lemma conn_stop_peer now elapsed t o o' : conn_stop now elapsed t o = Ok o' → same_peer o o'.
Proof. intros E. by eapply same_fields_conn, conn_stop_same. Qed.

Lemma stop_section_same now elapsed t a o next o' :
  stop_section now elapsed t a o = Ok (next, o') → same_fields (conn o) (conn o').
Proof.
  intros E. destruct a; cbn [stop_section] in E; outcome_inv; try done.
  match goal with H : Connection.recv _ _ _ _ _ _ _ _ = _ |- _ => by apply recv_same in H end.
Qed.

Lemma stop_section_peer now elapsed t a o next o' :
  stop_section now elapsed t a o = Ok (next, o') → same_peer o o'.
Proof. intros E. by eapply same_fields_conn, stop_section_same. Qed.

(** [close] closes: what the handlers and the last [stop] and [close] rely on. *)
Lemma close_object_spec now wenv o o' fds :
  close_object junk now wenv o = Ok (o', fds) →
  state_ (conn o') = Closed ∧ node_id_ (conn o') = node_id_ (conn o)
  ∧ is_server_ (conn o') = is_server_ (conn o) ∧ reuseable_ (conn o') = reuseable_ (conn o).
Proof.
  unfold close_object, Connection.close. intros E. apply bind_Ok in E as ([[[c s] f] e] & E & E').
  injection E' as <- <-. case_bool_decide; [by outcome_inv|].
  unfold flush_send_buffer in E. apply bind_Ok in E as ([[c1 s1] e1] & E & E'). injection E' as <- _ _ _.
  destruct (0 <? _); by outcome_inv.
Qed.

Lemma close_object_peer now wenv o o' fds :
  close_object junk now wenv o = Ok (o', fds) → same_peer o o'.
Proof. intros (Es & ? & ? & ?)%close_object_spec. split; [done..| |]; by rewrite Es; auto. Qed.

Lemma conn_write_same now c data n c' : Connection.write junk now c data n = Ok c' → same_fields c c'.
Proof. unfold Connection.write. intros E. by outcome_inv. Qed.

Lemma read_loop_same now env : ∀ c c' eof, read_loop junk now env c = Ok (c', eof) → same_fields c c'.
Proof.
  induction env as [|[n e d] env IH]; intros c c' eof E; cbn in E; [done|].
  destruct (0 <? n).
  - apply bind_Ok in E as (c1 & Ew & E). eapply same_fields_trans; [by eapply conn_write_same|by eapply IH].
  - destruct (n =? 0); [by outcome_inv|]. case_bool_decide; [by eapply IH|by outcome_inv].
Qed.

Lemma drain_loop_same now env : ∀ c c', drain_loop junk now env c = Ok c' → same_fields c c'.
Proof.
  induction env as [|[n e d] env IH]; intros c c' E; cbn in E; [done|].
  destruct (0 <? n); [|by outcome_inv].
  apply bind_Ok in E as (c1 & Ew & E). eapply same_fields_trans; [by eapply conn_write_same|by eapply IH].
Qed.
End objects.

(** ** Typing and growth *)

Lemma accepted_grows g g' cid p :
  accepted g cid p → grows (reg g) (reg g') → listen_conn_ g' ≠ Some p → accepted g' cid p.
Proof.
  intros (o & Eo & En & Es & _) Hg Hl. destruct (Hg _ _ Eo) as (o' & Eo' & [H1 H2 _ _]).
  exists o'. split_and!; [done|congruence|congruence|done].
Qed.

Lemma typed_map_grows g g' m :
  typed_map g m → grows (reg g) (reg g') → (∀ p, listen_conn_ g' = Some p → listen_conn_ g = Some p ∨ ¬ live g p) →
  typed_map g' m.
Proof.
  intros [Hs Hm] Hg Hl. split; [done|]. intros cid p E%Hm. apply (accepted_grows g); [done..|].
  intros [Hp|Hp]%Hl; [by destruct E as (? & _ & _ & _ & ?)|]. apply Hp. destruct E as (o & E & _). by exists o.
Qed.

Lemma settled_same o o' : same_peer o o' → settled o → settled o'.
Proof. intros [_ _ Hc Hr] H [E|E]%Hr; auto. Qed.

Lemma settled_updates r r' :
  updates r r' → (∀ p o, objects r !! p = Some o → settled o) → ∀ p o, objects r' !! p = Some o → settled o.
Proof.
  intros Hu H p o' E'. destruct (u_live _ _ Hu p) as [o E]; [by exists o'|].
  destruct (u_grows _ _ Hu _ _ E) as (o2 & E2 & Hs). assert (o2 = o') as -> by congruence.
  by eapply settled_same, H.
Qed.

(** An operation on the objects that are there keeps the heap typed. *)
Lemma typed_updates g th r' :
  typed g th → updates (reg g) r' → typed (set_reg r' g) th.
Proof.
  intros [] Hu. assert (∀ p, live (set_reg r' g) p ↔ live g p) as Hlive.
  { intros p. split; [apply (u_live _ _ Hu)|]. intros [o E]. destruct (u_grows _ _ Hu _ _ E) as (o' & E' & _).
    by exists o'. }
  assert (∀ m, typed_map g m → typed_map (set_reg r' g) m) as Hm.
  { intros m H. apply (typed_map_grows g); [done|apply Hu|by left]. }
  split; cbn [reg set_reg listen_conn_].
  - rewrite (u_connections _ _ Hu). by apply Hm.
  - intros p. rewrite (u_recycled _ _ Hu). intros (cid & H)%t_recycled0. exists cid.
    apply (accepted_grows g); [done|apply Hu|]. by destruct H as (? & _ & _ & _ & ?).
  - intros t s ph E. by eapply Hm, t_servers0.
  - intros p Hp. by apply Hlive, t_epoll0, (u_epoll _ _ Hu).
  - intros p Hp. apply Hlive. by apply t_listen0.
  - intros p Hp%Hlive. rewrite (u_fresh _ _ Hu). by apply t_fresh0.
  - by apply (settled_updates (reg g)).
Qed.

(** [typed] does not look at the phases, the counters and the descriptors. *)
Lemma typed_same g g' th :
  typed g th → reg g' = reg g → listen_conn_ g' = listen_conn_ g → typed g' th.
Proof.
  intros [] Er El.
  assert (∀ cid p, accepted g cid p → accepted g' cid p) as Ha.
  { intros cid p. unfold accepted. by rewrite Er, El. }
  assert (∀ m, typed_map g m → typed_map g' m) as Hm.
  { intros m [Hs H]. split; [done|]. intros cid p E. by apply Ha, H. }
  split; unfold live; rewrite ?Er, ?El; auto.
  - intros p (cid & H)%t_recycled0. eauto.
  - intros t s ph E. by eapply Hm, t_servers0.
Qed.

Lemma typed_insert g th t s ph :
  typed g th → typed_map g (server_connections_ s) → typed g (<[t := (s, ph)]> th).
Proof.
  intros [] H. split; try done. intros u s' ph' [[_ [= <- <-]]|[_ E]]%lookup_insert_Some; [done|by eapply t_servers0].
Qed.

Lemma typed_delete g th t : typed g th → typed g (delete t th).
Proof. intros []. split; try done. intros u s ph [_ E]%lookup_delete_Some. by eapply t_servers0. Qed.

Lemma typed_map_nil g : typed_map g [].
Proof. split; [constructor|done]. Qed.

(** A new object at the next free address. *)
Definition add_object (o : conn_obj) (r : registry) : registry :=
  Reg (connections_ r) (recycle_connections_ r) (<[fresh_ r := o]> (objects r)) (epoll r) (fresh_ r + 1).

Lemma add_object_grows g th o : typed g th → grows (reg g) (add_object o (reg g)).
Proof.
  intros H p o' E. exists o'. split; [|done]. cbn. rewrite lookup_insert_ne; [done|].
  intros <-. apply (Z.lt_irrefl (fresh_ (reg g))), (t_fresh _ _ H). by exists o'.
Qed.

Lemma fresh_not_live g th : typed g th → ¬ live g (fresh_ (reg g)).
Proof. intros H Hl. pose proof (t_fresh _ _ H _ Hl). lia. Qed.

Lemma typed_add_object g th o : typed g th → reuseable_ (conn o) = true → typed (set_reg (add_object o (reg g)) g) th.
Proof.
  intros H Ho. pose proof (add_object_grows g th o H) as Hg. pose proof H as [].
  assert (∀ p, live g p → live (set_reg (add_object o (reg g)) g) p) as Hlive.
  { intros p [o' E]. destruct (Hg _ _ E) as (o'' & E' & _). by exists o''. }
  split; cbn [reg set_reg listen_conn_ add_object connections_ recycle_connections_ epoll fresh_]; auto.
  - apply (typed_map_grows g); [done|exact Hg|by left].
  - intros p (cid & Ha)%t_recycled0. exists cid. apply (accepted_grows g); [done|exact Hg|].
    by destruct Ha as (? & _ & _ & _ & ?).
  - intros t s ph E. apply (typed_map_grows g); [by eapply t_servers0|exact Hg|by left].
  - intros p [o' E]. cbn in E. destruct (decide (p = fresh_ (reg g))) as [->|Hne]; [lia|].
    rewrite lookup_insert_ne in E by done. apply Z.lt_trans with (fresh_ (reg g)); [|lia].
    apply t_fresh0. by exists o'.
  - intros p o'. cbn. intros [[_ <-]|[_ E]]%lookup_insert_Some; [unfold settled; congruence|by eapply t_settled0].
Qed.

(** ** The operations of the server *)

Section operations.
Context (junk : nat → byte).

Lemma find_connection_updates now s r cid p r' :
  find_connection junk now s r cid = Ok (p, r') →
  updates r r' ∧ match p with Some p => map_find cid (connections_ r) = Some p | None => True end.
Proof.
  unfold find_connection. intros E. destruct (map_find cid (connections_ r)) as [q|]; [|by outcome_inv].
  apply bind_Ok in E as (o & Eo%deref_Ok & E). destruct (reuseable_ (conn o)); [|by outcome_inv].
  apply bind_Ok in E as (o' & Es%conn_start_peer & E). injection E as <- <-.
  split; [by eapply set_object_updates|done].
Qed.

Lemma stop_connections_updates now elapsed s r r' :
  stop_connections now elapsed s r = Ok r' → updates r r'.
Proof.
  unfold stop_connections. apply (for_each_inv _ (updates r)); [|done].
  intros r1 [cid p] r2 _ H E. apply bind_Ok in E as (o & Eo%deref_Ok & E).
  apply bind_Ok in E as (o' & Es%conn_stop_peer & E). injection E as <-.
  trans r1; [done|]. by eapply set_object_updates.
Qed.

Lemma close_all_updates now wenv r r' fds :
  close_all junk now wenv r = Ok (r', fds) → updates r r'.
Proof.
  unfold close_all. intros E.
  refine (for_each_inv _ (λ st, updates r st.1) (connections_ r) (r, []) (r', fds) _ _ E); [|done].
  intros [r1 f1] [cid p] [r2 f2] _ H E1. cbn [fst] in *. apply bind_Ok in E1 as (o & Eo%deref_Ok & E1).
  destruct (bool_decide _); [by injection E1 as <- <-|].
  apply bind_Ok in E1 as ([o' more] & Es%close_object_peer & E1). injection E1 as <- <-.
  trans r1; [done|]. by eapply set_object_updates.
Qed.

Lemma add_to_epoll_spec r p r' :
  add_connection_to_epoll r p = Ok r' →
  ∃ r1, r' = epoll_add p r1 ∧ updates r r1 ∧ is_Some (objects r1 !! p).
Proof.
  unfold add_connection_to_epoll. intros E. apply bind_Ok in E as (o & Eo%deref_Ok & E). injection E as <-.
  eexists. split_and!; [done|apply (set_object_updates _ _ o); [done|by apply same_fields_conn]|].
  cbn. rewrite lookup_insert_eq. by eexists.
Qed.

Lemma typed_epoll_add g th p :
  is_Some (objects (reg g) !! p) → typed g th → typed (set_reg (epoll_add p (reg g)) g) th.
Proof.
  intros Hp []. split; try done. cbn. intros q [->%elem_of_singleton|Hq]%elem_of_union; [done|].
  by apply t_epoll0.
Qed.

Lemma handle_accept_inv now s env r r' fds :
  handle_accept junk now s env r = Ok (r', fds) → r' = r ∨ ∃ cid, r' = register junk now (ae_cfd env) cid r.
Proof.
  unfold handle_accept. intros E. destruct (_ =? _); [done|].
  destruct (negb _); [injection E as <- _; by left|]. destruct (negb _); [injection E as <- _; by left|].
  apply bind_Ok in E as (n & _ & E). apply bind_Ok in E as (cid & _ & E). apply bind_Ok in E as (cid' & _ & E).
  destruct (negb _); [injection E as <- _; by left|].
  destruct (bool_decide _); injection E as <- _; [right; by eexists|by left].
Qed.

Lemma close_event_updates now wenv r p o c o' fds :
  objects r !! p = Some o → same_peer o c → close_object junk now wenv c = Ok (o', fds) →
  updates r (set_object p o' (epoll_del p r)).
Proof.
  intros Eo Hc E%close_object_peer. trans (epoll_del p r); [apply epoll_del_updates|].
  apply (set_object_updates _ _ o); [done|]. by trans c.
Qed.

(** [handle_error] takes the connection out of use before it closes it. *)
Lemma unused_closed_peer now env wenv o c o' fds :
  drain_loop junk now env (set_reuseable false (conn o)) = Ok c →
  close_object junk now wenv (Obj c (tasks o)) = Ok (o', fds) → same_peer o o'.
Proof.
  intros (N & S & _ & _)%drain_loop_same (Es & N' & S' & _)%close_object_spec. cbn in *.
  split; [congruence..|done|by right].
Qed.

(** An event does no more than update the objects or register a client. *)
Lemma handle_event_inv now s g p events env g' fds :
  handle_event junk now s g p events env = Ok (g', fds) →
  ∃ r', g' = set_reg r' g
    ∧ (updates (reg g) r' ∨ ∃ cid, r' = register junk now (ae_cfd (ee_accept env)) cid (reg g)).
Proof.
  assert (∀ g' (fds : list Z), Ok (g, []) = Ok (g', fds) → ∃ r', g' = set_reg r' g
    ∧ (updates (reg g) r' ∨ ∃ cid, r' = register junk now (ae_cfd (ee_accept env)) cid (reg g))) as Hsame.
  { intros g1 f1 [= <- <-]. exists (reg g). split; [by destruct g|by left]. }
  unfold handle_event, handle_error, handle_read. intros E. destruct (negb _).
  - apply bind_Ok in E as (o & Eo%deref_Ok & E). destruct (ee_tcp_closed env); [|by eapply Hsame].
    apply bind_Ok in E as (c & Ed & E).
    apply bind_Ok in E as ([o' f] & Ec & E). injection E as <- <-.
    eexists. split; [done|]. left. etrans; [apply epoll_del_updates|].
    by eapply set_object_updates, unused_closed_peer.
  - destruct (negb _); [|by eapply Hsame]. apply bind_Ok in E as (o & Eo%deref_Ok & E).
    destruct (_ =? _).
    { apply bind_Ok in E as ([r f] & Ea%handle_accept_inv & E). injection E as <- <-. exists r.
      split; [done|]. destruct Ea as [->|Ea]; [by left|by right]. }
    destruct (bool_decide _); [by eapply Hsame|]. destruct (negb _); [by eapply Hsame|].
    apply bind_Ok in E as ([c eof] & Hc%read_loop_same%same_fields_conn & E). destruct eof.
    + apply bind_Ok in E as ([o' f] & Ec & E). injection E as <- <-.
      eexists. split; [done|]. left. by eapply (close_event_updates now _ _ p o (Obj c (tasks o))).
    + injection E as <- <-. eexists. split; [done|]. left. by eapply set_object_updates.
Qed.

Lemma typed_register g th now cfd cid :
  typed g th → typed (set_reg (register junk now cfd cid (reg g)) g) th.
Proof.
  intros H. pose proof (fresh_not_live g th H) as Hnl.
  set (o := Obj (Connection_create junk now cfd EPOLL_EVENTS true cid) works_init).
  pose proof (typed_add_object g th o H eq_refl) as [].
  destruct (register_spec junk now cfd cid (reg g)) as (Ef & _ & _ & Eo & _); [apply (t_connections _ _ H)|].
  set (g1 := set_reg (add_object o (reg g)) g) in *.
  assert (objects (register junk now cfd cid (reg g)) = objects (reg g1)) as Eobj.
  { unfold register. destruct (map_find cid (connections_ (reg g))); reflexivity. }
  assert (∀ c p, accepted g1 c p → accepted (set_reg (register junk now cfd cid (reg g)) g) c p) as Ha.
  { intros c p. unfold accepted. cbn [reg set_reg]. by rewrite Eobj. }
  assert (∀ m, typed_map g1 m → typed_map (set_reg (register junk now cfd cid (reg g)) g) m) as Hm.
  { intros m [Hs Hm]. split; [done|]. intros c p E. by apply Ha, Hm. }
  assert (∀ p, live (set_reg (register junk now cfd cid (reg g)) g) p ↔ live g1 p) as Hl.
  { intros p. unfold live. cbn [reg set_reg]. by rewrite Eobj. }
  split; cbn [reg set_reg listen_conn_].
  - split.
    + unfold register. destruct (map_find cid (connections_ (reg g))); cbn; apply map_insert_sorted; [apply map_erase_sorted|];
        apply (t_connections _ _ H).
    + intros c p E. destruct (decide (c = cid)) as [->|Hne].
      * rewrite Ef in E. injection E as <-. exists o. cbn [reg set_reg]. rewrite Eobj. cbn.
        rewrite lookup_insert_eq. split_and!; [done..|]. intros El%(t_listen _ _ H). done.
      * rewrite Eo in E by done. apply Ha. by apply (t_connections0).
  - intros p. unfold register. destruct (map_find cid (connections_ (reg g))) as [old|] eqn:Eold; cbn.
    + intros [Hp|Hp]%elem_of_app.
      * apply t_recycled0 in Hp as [c Hp]. exists c. apply Ha in Hp. unfold register in Hp. by rewrite Eold in Hp.
      * apply list_elem_of_singleton in Hp as ->. exists cid.
        assert (accepted g1 cid old) as Hp by (by apply t_connections0).
        apply Ha in Hp. unfold register in Hp. by rewrite Eold in Hp.
    + intros Hp. apply t_recycled0 in Hp as [c Hp]. exists c. apply Ha in Hp. unfold register in Hp.
      by rewrite Eold in Hp.
  - intros t s ph E. by eapply Hm, t_servers0.
  - intros p Hp. apply Hl.
    assert (p = fresh_ (reg g) ∨ p ∈ epoll (reg g)) as [->|Hp2].
    { unfold register in Hp. destruct (map_find cid (connections_ (reg g))); cbn in Hp; set_solver. }
    + exists o. cbn. apply lookup_insert_eq.
    + by apply t_epoll0.
  - intros p Hp. apply Hl. by apply t_listen0.
  - intros p Hp%Hl%t_fresh0. unfold register. by destruct (map_find cid (connections_ (reg g))).
  - intros p o'. cbn [reg set_reg]. rewrite Eobj. apply t_settled0.
Qed.

Lemma typed_event now s g th p ev env g' fds :
  typed g th → handle_event junk now s g p ev env = Ok (g', fds) → typed g' th.
Proof.
  intros H (r' & -> & [Hu|[cid ->]])%handle_event_inv; [by apply typed_updates|by apply typed_register].
Qed.

Lemma typed_loop_once now s g th active g' fds :
  typed g th → loop_once junk now s g active = Ok (g', fds) → typed g' th.
Proof.
  intros H E. unfold loop_once in E.
  refine (for_each_inv _ (λ st, typed st.1 th) active (g, []) (g', fds) _ H E).
  intros [g1 f1] [[p ev] env] [g2 f2] _ H1 E1. cbn [fst] in *.
  apply bind_Ok in E1 as ([g3 f3] & Ee & E1). injection E1 as <- <-.
  by eapply typed_event.
Qed.

Lemma typed_loop_main_step now s g th ph elapsed timeout active ph' g' fds :
  typed g th → loop_main_step junk now s g ph elapsed timeout active = Ok (ph', g', fds) → typed g' th.
Proof.
  intros H E. unfold loop_main_step in E. destruct ph.
  - apply bind_Ok in E as ([] & _ & E). destruct (stop_ s); injection E as <- <- <-; [done|].
    by apply (typed_same g).
  - destruct (_ && _); [|injection E as <- <- <-; by apply (typed_same g)].
    apply bind_Ok in E as ([g1 f1] & El & E). injection E as <- <- <-. by eapply typed_loop_once.
  - destruct (stop_ s); [injection E as <- <- <-; by apply (typed_same g)|].
    apply bind_Ok in E as ([g1 f1] & El & E). injection E as <- <- <-. by eapply typed_loop_once.
  - by injection E as <- <- <-.
Qed.

Lemma typed_start now t port ssl_ok env s g th b s' g' :
  typed g th → start junk now t port ssl_ok env s g = (b, s', g') →
  typed g' th ∧ server_connections_ s' = server_connections_ s.
Proof.
  intros H E. unfold start, init in E.
  repeat (match type of E with context [if ?b then _ else _] => destruct b end; cbn in E);
    injection E as <- <- <-; (split; [|done]); try (by apply (typed_same g)).
  pose proof (fresh_not_live g th H) as Hn.
  match goal with |- typed (Statics ?r _ _ _ _ _ _ _ _) _ => set (r' := r) end.
  match goal with |- typed ?x _ => set (g' := x) end.
  assert (grows (reg g) (reg g')) as Hg by exact (add_object_grows g th _ H).
  assert (∀ q, listen_conn_ g' = Some q → listen_conn_ g = Some q ∨ ¬ live g q) as Hl.
  { intros q [= <-]. by right. }
  assert (∀ c p, accepted g c p → accepted g' c p) as Ha.
  { intros c p Hc. apply (accepted_grows g); [done..|]. intros [Hp|Hp]%Hl; [by destruct Hc as (? & _ & _ & _ & ?)|].
    apply Hp. destruct Hc as (x & Ex & _). by exists x. }
  assert (∀ p, live g' p ↔ live g p ∨ p = fresh_ (reg g)) as Hlive.
  { intros p. unfold live, g'. cbn. destruct (decide (p = fresh_ (reg g))) as [->|Hne].
    - rewrite lookup_insert_eq. split; [by right|]. intros _. by eexists.
    - rewrite lookup_insert_ne by done. naive_solver. }
  destruct H. split.
  - by apply (typed_map_grows g).
  - intros p (c & Hp)%t_recycled0. eauto.
  - intros u s' ph E. apply (typed_map_grows g); [by eapply t_servers0|done..].
  - intros p Hp. apply Hlive. unfold g' in Hp. cbn in Hp. apply elem_of_union in Hp as [->%elem_of_singleton|Hp]; auto.
  - intros p [= <-]. apply Hlive. by right.
  - intros p [Hp| ->]%Hlive; cbn; [|lia]. specialize (t_fresh0 p Hp). lia.
  - intros p o. cbn. intros [[_ <-]|[_ E]]%lookup_insert_Some; [by intros [=]|by eapply t_settled0].
Qed.

Lemma typed_stop_release now wenv s g th t ph s' g' fds :
  typed g th → th !! t = Some (s, ph) → stop_release junk now wenv s g = Ok (s', g', fds) →
  typed g' (delete t th).
Proof.
  intros H Et E. unfold stop_release in E. apply bind_Ok in E as (u & _ & E).
  destruct (_ && _).
  2: { injection E as <- <- <-. apply typed_delete. by apply (typed_same g). }
  apply bind_Ok in E as ([r2 f] & Ec%close_all_updates & E). injection E as <- <- <-. cbn [reg] in Ec.
  pose proof (typed_updates g th r2 H Ec) as H2.
  set (objs := match _ with Some p => _ | None => _ end).
  assert (∀ p, is_Some (objs !! p) → is_Some (objects r2 !! p)) as Hsub.
  { intros p. unfold objs. cbn. destruct (listen_conn_ g) as [q|]; [|done].
    intros [o Eo]. apply lookup_delete_Some in Eo as [_ Eo]. by exists o. }
  split; cbn [reg listen_conn_ connections_ recycle_connections_ epoll fresh_].
  - apply typed_map_nil.
  - by intros p ?%elem_of_nil.
  - intros v sv ph' [_ Ev]%lookup_delete_Some. destruct (t_servers _ _ H2 v sv ph' Ev) as [Hs Hm].
    split; [done|]. intros c p (o & Eo & En & Esv & El)%Hm. cbn [reg set_reg listen_conn_] in Eo, El.
    exists o. split_and!; [|done..]. unfold objs. cbn.
    destruct (listen_conn_ g) as [q|]; [|done]. rewrite lookup_delete_ne; [done|]. congruence.
  - intros p. set_solver.
  - done.
  - intros p Hp%Hsub. apply (t_fresh _ _ H2 p Hp).
  - intros p o Ep. apply (t_settled _ _ H2 p o). revert Ep. unfold objs. cbn.
    destruct (listen_conn_ g); [by intros [_ ?]%lookup_delete_Some|done].
Qed.

(** [put_connection] gives a server a connection of that client. *)
Lemma typed_put_connection now s g th t ph node_id ok s' r' :
  typed g th → th !! t = Some (s, ph) →
  put_connection junk now s (reg g) node_id = Ok (ok, s', r') →
  typed (set_reg r' g) (<[t := (s', ph)]> th).
Proof.
  intros H Et E. unfold put_connection in E.
  apply bind_Ok in E as ([c r] & [Hu Hc]%find_connection_updates & E).
  pose proof (typed_updates g th r H Hu) as H1. pose proof (t_servers _ _ H1 t s ph Et) as Hm.
  destruct c as [p|]; [|injection E as <- <- <-; by apply typed_insert].
  apply bind_Ok in E as (o & Eo%deref_Ok & E).
  destruct (reuseable_ (conn o)); injection E as <- <- <-; [|by apply typed_insert].
  apply typed_insert; [done|]. destruct Hm as [Hs Hm]. split; [by apply map_insert_sorted|].
  intros cid q Eq. cbn [server_connections_] in Eq. rewrite map_find_insert in Eq by done. case_decide as Ecid; [|by apply Hm].
  injection Eq as <-. subst cid. destruct (map_find node_id (server_connections_ s)) eqn:Ef; cbn; [by apply Hm|].
  apply (t_connections _ _ H1). cbn [reg set_reg]. by rewrite (u_connections _ _ Hu).
Qed.

Definition world_typed (w : world) : Prop := typed (globals w) (servers w).

#[export] Instance typed_invariant : Invariant (step junk) world_typed.
Proof.
  intros w w' H Hs. unfold world_typed in *.
  destruct Hs as [g th t s now port sok env s' g' Et Hs Hm E|g th t s now port sok env s' g' Et E
    |g th t s ph now el tmo act ph' g' fds Et E|g th t s ph now p ev env g' fds Et Eph E|g th t s ph Et Hs
    |g th t s now wenv s' g' fds Et Hs E
    |g th t s ph now node ok s' r' Et E|g th p o o' Eo Hsame|g th o Ho Hre|g th p r' E]; cbn [globals servers] in *.
  - destruct (typed_start _ _ _ _ _ _ _ th _ _ _ H E) as [H' Es]. apply typed_insert; [done|].
    rewrite Es, Hm. apply typed_map_nil.
  - by destruct (typed_start _ _ _ _ _ _ _ th _ _ _ H E) as [H' _].
  - apply typed_insert; [by eapply typed_loop_main_step|]. 
    eapply t_servers; [by eapply typed_loop_main_step|done].
  - by eapply typed_event.
  - apply typed_insert; [done|]. by apply (t_servers _ _ H t s ph).
  - by eapply typed_stop_release.
  - by eapply typed_put_connection.
  - apply typed_updates; [done|]. by eapply set_object_updates.
  - by apply typed_add_object.
  - apply add_to_epoll_spec in E as (r1 & -> & Hu & Hp).
    apply (typed_epoll_add (set_reg r1 g)); [done|by apply typed_updates].
Qed.

Lemma reachable_typed w : reachable junk w → world_typed w.
Proof.
  apply (invariant_rtc (step junk) world_typed). split; cbn.
  - apply typed_map_nil.
  - by intros p ?%elem_of_nil.
  - done.
  - intros p. set_solver.
  - done.
  - intros p [o E]. cbn in E. done.
  - done.
Qed.
End operations.

(** ** No use after the end *)

(** The call does not use an object after its end. *)
Definition alive {A} (m : outcome A) : Prop := m ≠ UB Dangling.

Lemma alive_bind {A B} (m : outcome A) (f : A → outcome B) :
  alive m → (∀ a, m = Ok a → alive (f a)) → alive (m ≫= f).
Proof. unfold alive. destruct m; cbn; intros; eauto; congruence. Qed.

Lemma alive_wait b : alive (wait_until b).
Proof. by destruct b. Qed.
Lemma alive_require b f : f ≠ Dangling → alive (require b f).
Proof. unfold alive, require. destruct b; congruence. Qed.
Lemma alive_deref r p : is_Some (objects r !! p) → alive (deref r p).
Proof. intros [o E]. unfold deref. by rewrite E. Qed.

Create HintDb alive.
#[export] Hint Resolve alive_wait alive_deref : alive.
#[export] Hint Extern 1 (alive (require _ _)) => (apply alive_require; discriminate) : alive.

(** Splits a call into the calls it makes. *)
Ltac alive :=
  repeat match goal with
  | |- alive (_ ≫= _) => apply alive_bind; [|intros ? ?]
  | |- alive (mret _) => discriminate
  | |- alive (Ok _) => discriminate
  | |- alive Sleep => discriminate
  | |- alive (Throw _) => discriminate
  | |- alive (UB _) => discriminate
  | |- alive (if ?b then _ else _) => destruct b eqn:?
  | |- alive (match ?x with _ => _ end) => destruct x eqn:?
  | |- alive _ => solve [eauto with alive]
  end.

(** A loop, with an invariant under which its body is alive. *)
Lemma alive_for_each {S A} (f : S → A → outcome S) (P : S → Prop) l : ∀ s,
  (∀ s a, a ∈ l → P s → alive (f s a) ∧ ∀ s', f s a = Ok s' → P s') → P s → alive (for_each f s l).
Proof.
  induction l as [|a l IH]; intros s Hf H; cbn; [done|].
  destruct (Hf s a ltac:(by left) H) as [Ha Hn]. apply alive_bind; [done|]. intros s1 E1.
  apply IH; [|by apply Hn]. intros s2 b Hb. apply Hf. by right.
Qed.

Section alive.
Context (junk : nat → byte).

Lemma alive_memcpy d o s so n : alive (memcpy d o s so n).
Proof. unfold memcpy. alive. Qed.
Lemma alive_load_u64 p o : alive (load_u64 p o).
Proof. unfold load_u64. alive. Qed.
Lemma alive_resize s n : alive (string_resize s n).
Proof. unfold string_resize. alive. Qed.
Lemma alive_mod64 a b : alive (mod64 a b).
Proof. unfold mod64. alive. Qed.
Lemma alive_div64 a b : alive (div64 a b).
Proof. unfold div64. alive. Qed.
#[local] Hint Resolve alive_memcpy alive_load_u64 alive_resize alive_mod64 alive_div64 : alive.

Lemma alive_ring_read now cb d n : alive (cycle_buffer.read now cb d n).
Proof. unfold cycle_buffer.read, cycle_buffer.read_copy. alive. Qed.
Lemma alive_ring_write now cb d n : alive (cycle_buffer.write junk now cb d n).
Proof.
  unfold cycle_buffer.write, cycle_buffer.realloc, cycle_buffer.relocate, cycle_buffer.write_copy. alive.
Qed.
Lemma alive_frame id d n : alive (simple_buffer_create junk id d n).
Proof. unfold simple_buffer_create. alive. Qed.
#[local] Hint Resolve alive_ring_read alive_ring_write alive_frame : alive.

Lemma alive_send now c id d n : alive (Connection.send junk now c id d n).
Proof. unfold Connection.send, put_into_send_buffer. alive. Qed.
Lemma alive_recv now el st c id d n tmo : alive (Connection.recv now el st c id d n tmo).
Proof. unfold Connection.recv. alive. Qed.
Lemma alive_conn_write now c d n : alive (Connection.write junk now c d n).
Proof. unfold Connection.write. alive. Qed.
#[local] Hint Resolve alive_send alive_recv alive_conn_write : alive.

Lemma alive_writen_loop env : ∀ p k n, alive (writen_loop env p k n).
Proof. induction env as [|[] env IH]; intros p k n; cbn [writen_loop]; alive. Qed.
#[local] Hint Resolve alive_writen_loop : alive.

Lemma alive_close_object now env o : alive (close_object junk now env o).
Proof. unfold close_object, Connection.close, flush_send_buffer, writen. alive. Qed.
Lemma alive_conn_start now t o : alive (conn_start junk now t o).
Proof. unfold conn_start, start_lock, start_wait. alive. Qed.
Lemma alive_conn_stop now el t o : alive (conn_stop now el t o).
Proof. unfold conn_stop, stop_lock, do_stop_take. alive. Qed.
Lemma alive_stop_section now el t a o : alive (stop_section now el t a o).
Proof. destruct a; unfold stop_section, do_stop_take; alive. Qed.
Lemma alive_read_loop now env : ∀ c, alive (read_loop junk now env c).
Proof. induction env as [|[] env IH]; intros c; cbn [read_loop]; alive. Qed.
Lemma alive_drain_loop now env : ∀ c, alive (drain_loop junk now env c).
Proof. induction env as [|[] env IH]; intros c; cbn [drain_loop]; alive. Qed.
Lemma alive_handle_accept now s env r : alive (handle_accept junk now s env r).
Proof. unfold handle_accept. alive. Qed.
#[local] Hint Resolve alive_close_object alive_conn_start alive_conn_stop alive_read_loop
  alive_drain_loop alive_handle_accept : alive.

Lemma alive_handle_event now s g p events env :
  live g p → alive (handle_event junk now s g p events env).
Proof. intros H. unfold handle_event, handle_error, handle_read. alive. Qed.

(** The addresses in a list lead somewhere. *)
Definition lead (l : smap Z) (r : registry) : Prop := ∀ cid p, (cid, p) ∈ l → is_Some (objects r !! p).

Lemma lead_updates l r r' : updates r r' → lead l r → lead l r'.
Proof. intros Hu H cid p Hin. destruct (H cid p Hin) as [o E]. destruct (u_grows _ _ Hu _ _ E) as (o' & E' & _). by exists o'. Qed.

Lemma alive_stop_connections now el s r :
  lead (server_connections_ s) r → alive (stop_connections now el s r).
Proof.
  intros H. unfold stop_connections. apply (alive_for_each _ (updates r)); [|done].
  intros r1 [cid p] Hin Hu. pose proof (lead_updates _ _ _ Hu H cid p Hin).
  split; [alive|]. intros r' E. apply bind_Ok in E as (o & Eo%deref_Ok & E).
  apply bind_Ok in E as (o' & Es%conn_stop_peer & E). injection E as <-.
  trans r1; [done|]. by eapply set_object_updates.
Qed.

Lemma alive_stop_release now wenv s g :
  lead (connections_ (reg g)) (reg g) → alive (stop_release junk now wenv s g).
Proof.
  intros Hc. unfold stop_release. apply alive_bind.
  { cbn [s_task_count_ reg]. destruct (_ =? 0); [|done]. unfold get_unrecv_size.
    apply (alive_for_each _ (λ _, True)); [|done]. intros ret [cid p] Hin _. split; [|done].
    pose proof (Hc _ _ Hin). alive. }
  intros u _. destruct (_ && _); [|done]. apply alive_bind; [|by intros []].
  cbn [reg]. unfold close_all. apply (alive_for_each _ (λ st, updates (reg g) st.1)); [|done].
  intros [r1 f1] [cid p] Hin Hu. cbn [fst] in *. pose proof (lead_updates _ _ _ Hu Hc cid p Hin) as Hl.
  split; [alive|]. intros [r2 f2] E1. cbn [fst]. apply bind_Ok in E1 as (o & Eo%deref_Ok & E1).
  destruct (bool_decide _); [by injection E1 as <- <-|].
  apply bind_Ok in E1 as ([o' more] & Es'%close_object_peer & E1). injection E1 as <- <-.
  trans r1; [done|]. by eapply set_object_updates.
Qed.

Lemma alive_stop_joined now el wenv s g :
  lead (server_connections_ s) (reg g) → lead (connections_ (reg g)) (reg g) →
  alive (stop_joined junk now el wenv s g).
Proof.
  intros H1 H2. unfold stop_joined. apply alive_bind; [by apply alive_stop_connections|].
  intros r Hu%stop_connections_updates. apply alive_stop_release. cbn.
  rewrite (u_connections _ _ Hu). by eapply lead_updates.
Qed.

Lemma alive_put_connection now s r cid :
  (∀ p, map_find cid (connections_ r) = Some p → is_Some (objects r !! p)) →
  alive (put_connection junk now s r cid).
Proof.
  intros Hl. unfold put_connection. apply alive_bind.
  - unfold find_connection. destruct (map_find _ _) eqn:E; [|done]. pose proof (Hl _ eq_refl). alive.
  - intros [[p|] r'] [Hu E]%find_connection_updates; [|done].
    assert (is_Some (objects r' !! p)) by (destruct (Hl p E) as [o Eo];
      destruct (u_grows _ _ Hu _ _ Eo) as (o' & ? & _); by exists o'). alive.
Qed.

(** A handler of an event uses the connection of the event. *)
Lemma handle_event_dangles now s g p events env :
  negb (Z.land events EPOLLERR =? 0) || negb (Z.land events EPOLLIN =? 0) = true →
  handle_event junk now s g p events env = UB Dangling ↔ ¬ is_Some (objects (reg g) !! p).
Proof.
  intros Hev. split.
  - intros E Hl. exact (alive_handle_event now s g p events env Hl E).
  - intros Hn. assert (deref (reg g) p = UB Dangling) as Ed.
    { unfold deref. destruct (objects (reg g) !! p) eqn:E; [|done]. by destruct Hn. }
    unfold handle_event, handle_error, handle_read. rewrite Ed. destruct (negb (_ =? 0)); [done|]. cbn in Hev. by rewrite Hev.
Qed.
End alive.

(** * Properties *)

(** C21: the heap of the servers is well typed in every state they can reach, whatever
    the tasks, the clients, the threads of the connections and the kernel do: a name
    in [connections_] or in the [server_connections_] of a task is mapped to a live
    connection that this client opened to the server and that is not the listening
    one, and what the epoll set, the recycle list and [listen_conn_] hold is live; and a
    connection that may not be used again is closed. *)
Theorem heap_typed junk w :
  reachable junk w →
  (∀ cid p, map_find cid (connections_ (reg (globals w))) = Some p → accepted (globals w) cid p)
  ∧ (∀ t s ph cid p, servers w !! t = Some (s, ph) → get_connection s cid = Some p →
       accepted (globals w) cid p)
  ∧ (∀ p, p ∈ epoll (reg (globals w)) ∨ p ∈ recycle_connections_ (reg (globals w))
          ∨ listen_conn_ (globals w) = Some p → live (globals w) p)
  ∧ (∀ p o, objects (reg (globals w)) !! p = Some o → reuseable_ (conn o) = false → state_ (conn o) = Closed).
Proof.
  intros []%reachable_typed. split_and!; [| | |exact t_settled0].
  - apply t_connections0.
  - intros t s ph cid p Et. apply (t_servers0 _ _ _ Et).
  - intros p [H|[(cid & o & E & _)%t_recycled0|H]]; [by apply t_epoll0|by exists o|by apply t_listen0].
Qed.

(** * Witnesses *)

Lemma heap_typed_witness :
  (∀ cid p, map_find cid (connections_ (reg (globals a_hands_over))) = Some p →
     accepted (globals a_hands_over) cid p)
  ∧ (∀ t s ph cid p, servers a_hands_over !! t = Some (s, ph) → get_connection s cid = Some p →
       accepted (globals a_hands_over) cid p)
  ∧ (∀ p, p ∈ epoll (reg (globals a_hands_over)) ∨ p ∈ recycle_connections_ (reg (globals a_hands_over))
          ∨ listen_conn_ (globals a_hands_over) = Some p → live (globals a_hands_over) p)
  ∧ (∀ p o, objects (reg (globals a_hands_over)) !! p = Some o → reuseable_ (conn o) = false →
       state_ (conn o) = Closed).
Proof. exact (heap_typed (λ _, x00) a_hands_over a_hands_over_reachable). Defined.
End Heap.
