(* ===== verification/Client.v ===== *)
(** [TCPClient] of [include/io/internal/client.h] and [src/client.cpp]: the
    connections to servers that all tasks of a process share, how a client finds,
    waits for or opens one, and how the last one closes them.

    The objects live in the heap of the process, the one of the server's
    registry.  What the kernel and the peer answer is an argument of each step. *)
From stdpp Require Import pretty.
From Stdlib Require Import Strings.Byte.
From S2P Require Import Prelude Timer CycleBuffer SimpleBuffer Transport.
From S2P Require Import Connection StdMap Work Server Socket.
#[local] Open Scope Z_scope.

Module TCPClient.
Import TCPServer (registry, Reg, objects, epoll, fresh_, deref, set_object, close_object).

(** * The program *)

(** ** State *)

(** The static members. *)
Record statics := Statics {
  connections_ : smap Z;                   (** "ip:port" -> connection *)
  recycle_connections_ : list Z;
  to_connect_set_ : gset bytes;            (** the addresses being dialled *)
  task_count_ : Z
}.

Definition statics_init : statics := Statics [] [] ∅ 0.

Record client := Client {
  host_ : bytes;
  ip_ : bytes;
  port_ : Z;
  fd_ : Z;
  node_id_ : bytes;
  task_id_ : bytes;
  connected_ : bool;
  is_first_connect_ : bool;
  is_first_client_ : bool;
  conn_ : option Z;
  cid_ : bytes
}.

(** The constructor and [setcid]. *)
Definition TCPClient_create (task_id node_id host : bytes) (port : Z) (cid : bytes) : client :=
  Client host host port (-1) node_id task_id false false false None cid.

Definition set_ip (ip : bytes) (c : client) : client :=
  Client (host_ c) ip (port_ c) (fd_ c) (node_id_ c) (task_id_ c) (connected_ c) (is_first_connect_ c)
         (is_first_client_ c) (conn_ c) (cid_ c).
Definition set_first_client (b : bool) (c : client) : client :=
  Client (host_ c) (ip_ c) (port_ c) (fd_ c) (node_id_ c) (task_id_ c) (connected_ c)
         (is_first_connect_ c) b (conn_ c) (cid_ c).
Definition set_fd (fd : Z) (c : client) : client :=
  Client (host_ c) (ip_ c) (port_ c) fd (node_id_ c) (task_id_ c) (connected_ c) (is_first_connect_ c)
         (is_first_client_ c) (conn_ c) (cid_ c).
Definition set_conn (p : Z) (c : client) : client :=
  Client (host_ c) (ip_ c) (port_ c) (fd_ c) (node_id_ c) (task_id_ c) true (is_first_connect_ c)
         (is_first_client_ c) (Some p) (cid_ c).
Definition set_first_connect (c : client) : client :=
  Client (host_ c) (ip_ c) (port_ c) (fd_ c) (node_id_ c) (task_id_ c) (connected_ c) true
         (is_first_client_ c) (conn_ c) (cid_ c).
Definition set_unconnected (c : client) : client :=
  Client (host_ c) (ip_ c) (port_ c) (fd_ c) (node_id_ c) (task_id_ c) false (is_first_connect_ c)
         (is_first_client_ c) (conn_ c) (cid_ c).

(** [ip_ + ":" + std::to_string(port_)]. *)
Definition node_address (c : client) : bytes := ip_ c ++ str ":" ++ str (pretty (port_ c)).

Section program.
Context (junk : nat → byte).

(** ** [connect]: the shared connections *)

(** [conn_ = iter->second; conn_->start(task_id_); connected_ = true]. *)
Definition attach (now p : Z) (c : client) (r : registry) : outcome (client * registry) :=
  o ← deref r p;
  o ← conn_start junk now (task_id_ c) o;
  mret (set_conn p c, set_object p o r).

Inductive begun := Reused | MustWait | MustDial.

(** The section on [task_mtx_], up to the wait for another client. *)
Definition connect_begin (now : Z) (c : client) (g : statics) (r : registry)
    : outcome (begun * client * statics * registry) :=
  let addr := node_address c in
  let c := if task_count_ g =? 0 then set_first_client true c else c in
  let g := Statics (connections_ g) (recycle_connections_ g) (to_connect_set_ g) (task_count_ g + 1) in
  let dial g :=
    if bool_decide (addr ∈ to_connect_set_ g) then mret (MustWait, c, g, r)
    else mret (MustDial, c, Statics (connections_ g) (recycle_connections_ g)
                                    ({[addr]} ∪ to_connect_set_ g) (task_count_ g), r) in
  match map_find addr (connections_ g) with
  | Some p =>
    o ← deref r p;
    if reuseable_ (conn o) then
      '(c, r) ← attach now p c r;
      mret (Reused, c, g, r)
    else dial (Statics (map_erase addr (connections_ g)) (recycle_connections_ g ++ [p])
                       (to_connect_set_ g) (task_count_ g))
  | None => dial g
  end.

(** The wait for the client that dials the same address, and what follows. *)
Definition connect_wait (now : Z) (c : client) (g : statics) (r : registry)
    : outcome (client * registry) :=
  match map_find (node_address c) (connections_ g) with
  | Some p => attach now p c r
  | None => Sleep
  end.

(** ** [connect]: dialling *)

Definition NEVER_TIMEOUT : Z := 1000 * 1000000.
Definition EISCONN : errno_t := EOTHER 106.

(** The calls of [::connect]: value, [errno], and the milliseconds since the loop
    began when it returned and the thread had slept. *)
Definition dial_env : Type := list (Z * errno_t * Z).

Fixpoint dial (timeout elapsed : Z) (env : dial_env) : outcome bool :=
  if (timeout <? 0) || (elapsed <=? timeout) then
    if 0 <? timeout then
      match env with
      | [] => Sleep
      | (err, errno, later) :: env =>
        if err =? 0 then mret true
        else if bool_decide (errno = EISCONN) then mret true
        else dial timeout later env
      end
    else mret false
  else mret false.

(** The message that names the client. *)
Definition hello (cid : bytes) : outcome bytes :=
  let cid_len := sz64 +₆₄ zlen cid in
  tmpcid ← string_resize [] cid_len;
  tmpcid ← memcpy tmpcid 0 (le_bytes 8 cid_len) 0 sz64;
  memcpy tmpcid sz64 cid 0 (zlen cid).

(** What one attempt meets: [socket], the [connect]s, the [read] of the ack, the
    [write] of the message, the handshake. *)
Record attempt_env := AttemptEnv {
  ae_socket : Z;
  ae_connect : dial_env;
  ae_ack : Z;
  ae_write : Z;
  ae_handshake : bool
}.

(** One turn of the loop: whether it returned [true], the descriptors it closed. *)
Definition attempt (now timeout : Z) (env : attempt_env) (c : client) (g : statics) (r : registry)
    : outcome (bool * list Z * client * statics * registry) :=
  let addr := node_address c in
  let fd := ae_socket env in
  let c := set_fd fd c in
  if fd <? 0 then mret (false, [], c, g, r)
  else
    let timeout := if timeout <? 0 then NEVER_TIMEOUT else timeout in
    connected ← dial timeout 0 (ae_connect env);
    if negb connected then mret (false, [fd], c, g, r)
    else if negb (ae_ack env =? sz8) then mret (false, [fd], c, g, r)
    else
      tmpcid ← hello (cid_ c);
      if negb (u64 (ae_write env) =? zlen tmpcid) then mret (false, [fd], c, g, r)
      else
        let p := fresh_ r in
        let o := Obj (Connection_create junk now fd 0 false (node_id_ c)) works_init in
        let r := Reg (TCPServer.connections_ r) (TCPServer.recycle_connections_ r)
                     (<[p := o]> (objects r)) (epoll r) (p + 1) in
        let c := set_conn p c in
        if ae_handshake env then
          let g := Statics (map_insert addr p (connections_ g)) (recycle_connections_ g)
                           (to_connect_set_ g ∖ {[addr]}) (task_count_ g) in
          let c := set_first_connect c in
          o ← conn_start junk now (task_id_ c) o;
          mret (true, [], c, g, set_object p o r)
        else mret (false, [], c, g, r).

(** The number of turns. *)
Definition retries (conn_retries : Z) : nat :=
  Z.to_nat (if conn_retries <=? 0 then 1 else conn_retries).

(** The loop over [k], with what each turn meets. *)
Fixpoint connect_loop (turns : nat) (now timeout : Z) (envs : list attempt_env) (c : client) (g : statics)
    (r : registry) : outcome (bool * list Z * client * statics * registry) :=
  match turns, envs with
  | O, _ => mret (false, [], c, g, r)
  | S _, [] => Sleep
  | S turns, env :: envs =>
    '(ok, fds, c, g, r) ← attempt now timeout env c g r;
    if (ok : bool) then mret (true, fds, c, g, r)
    else
      '(ok, more, c, g, r) ← connect_loop turns now timeout envs c g r;
      mret (ok, fds ++ more, c, g, r)
  end.

(** [connect] when no other client moves during the call. *)
Definition connect (now timeout conn_retries : Z) (ssl_ok : bool)
    (resolver : bytes → option (list (ai_family * bytes))) (envs : list attempt_env)
    (c : client) (g : statics) (r : registry) : outcome (bool * list Z * client * statics * registry) :=
  if negb ssl_ok then mret (false, [], c, g, r)
  else
    let c := set_ip (gethostip resolver (host_ c)) c in
    if bool_decide (ip_ c = []) then mret (false, [], c, g, r)
    else
      '(b, c, g, r) ← connect_begin now c g r;
      match b with
      | Reused => mret (true, [], c, g, r)
      | MustWait => '(c, r) ← connect_wait now c g r; mret (true, [], c, g, r)
      | MustDial => connect_loop (retries conn_retries) now timeout envs c g r
      end.

(** ** [close] *)

Definition get_unrecv_size (g : statics) (r : registry) : outcome Z :=
  for_each (λ ret '(_, p), o ← deref r p; mret (ret +₆₄ Connection.get_unrecv_size (conn o)))
           0 (connections_ g).

(** The loop over [connections_]; [wenv] is what the transport of each answers. *)
Definition close_all (now : Z) (wenv : Z → list write_result) (g : statics) (r : registry)
    : outcome (registry * list Z) :=
  for_each (λ '(r, fds) '(_, p),
              o ← deref r p;
              '(o, more) ← close_object junk now (wenv p) o;
              mret (set_object p o r, fds ++ more))
           (r, []) (connections_ g).

(** First part of [close]: [conn_->stop(task_id_)]. *)
Definition close_stop (now elapsed : Z) (c : client) (r : registry) : outcome registry :=
  p ← match conn_ c with Some p => mret p | None => UB NullPointer end;
  o ← deref r p;
  o ← conn_stop now elapsed (task_id_ c) o;
  mret (set_object p o r).

(** A section of that call. *)
Definition close_section (now elapsed : Z) (a : stop_at) (c : client) (r : registry)
    : outcome (option stop_at * registry) :=
  p ← match conn_ c with Some p => mret p | None => UB NullPointer end;
  o ← deref r p;
  '(next, o) ← stop_section now elapsed (task_id_ c) a o;
  mret (next, set_object p o r).

(** The section of [close] under [task_mtx_]: the task leaves, the last one closes the
    connections unless one has data to receive. *)
Definition close_release (now : Z) (wenv : Z → list write_result) (g : statics) (r : registry)
    : outcome (statics * registry * list Z) :=
  let g := Statics (connections_ g) (recycle_connections_ g) (to_connect_set_ g) (task_count_ g - 1) in
  unrecv ← (if task_count_ g =? 0 then get_unrecv_size g r else mret 0);
  if (task_count_ g =? 0) && (unrecv =? 0) then
    '(r, fds) ← close_all now wenv g r;
    mret (Statics [] [] ∅ (task_count_ g), r, fds)
  else mret (g, r, []).

Definition close (now elapsed : Z) (wenv : Z → list write_result) (c : client) (g : statics) (r : registry)
    : outcome (client * statics * registry * list Z) :=
  if connected_ c then
    let c := set_unconnected c in
    r ← close_stop now elapsed c r;
    '(g, r, fds) ← close_release now wenv g r;
    mret (c, g, r, fds)
  else mret (c, g, r, []).
End program.

(** * Specification: the clients of a process *)

(** Where [connect] of a client is: waiting for another one, dialling with so many
    turns left, done, or returned [false]; or [close]: in [stop] of its connection, or after. *)
Inductive phase := Waiting | Dialling (turns : nat) | Connected | Failed | Stopping (a : stop_at) | Closing.

(** [close] of the client has begun. *)
Definition leaving (ph : phase) : bool := match ph with Stopping _ | Closing => true | _ => false end.

Record world := World { shared : statics; heap : registry; clients : gmap Z (client * phase) }.

Definition begun_phase (conn_retries : Z) (b : begun) : phase :=
  match b with Reused => Connected | MustWait => Waiting | MustDial => Dialling (retries conn_retries) end.

Definition next_phase (next : option stop_at) : phase :=
  match next with Some a => Stopping a | None => Closing end.

Section world.
Context (junk : nat → byte).

(** What the clients do. *)
Inductive move : world → world → Prop :=
  | c_begin g r cs i c now conn_retries b c' g' r' :
      cs !! i = None → conn_ c = None → is_first_connect_ c = false →
      connect_begin junk now c g r = Ok (b, c', g', r') →
      move (World g r cs) (World g' r' (<[i := (c', begun_phase conn_retries b)]> cs))
  | c_wake g r cs i c now c' r' :
      cs !! i = Some (c, Waiting) → connect_wait junk now c g r = Ok (c', r') →
      move (World g r cs) (World g r' (<[i := (c', Connected)]> cs))
  | c_attempt g r cs i c n now timeout env (ok : bool) fds c' g' r' :
      cs !! i = Some (c, Dialling (S n)) →
      attempt junk now timeout env c g r = Ok (ok, fds, c', g', r') →
      move (World g r cs) (World g' r' (<[i := (c', if ok then Connected else Dialling n)]> cs))
  | c_fail g r cs i c :
      cs !! i = Some (c, Dialling 0) → move (World g r cs) (World g r (<[i := (c, Failed)]> cs))
  | c_close g r cs i c :
      cs !! i = Some (c, Connected) →
      move (World g r cs) (World g r (<[i := (set_unconnected c, Stopping AtMutex)]> cs))
  | c_stop g r cs i c a now elapsed next r' :
      cs !! i = Some (c, Stopping a) → close_section now elapsed a c r = Ok (next, r') →
      move (World g r cs) (World g r' (<[i := (c, next_phase next)]> cs))
  | c_release g r cs i c now wenv g' r' fds :
      cs !! i = Some (c, Closing) → close_release junk now wenv g r = Ok (g', r', fds) →
      move (World g r cs) (World g' r' (delete i cs)).

(** And what shares the heap with them: the servers and the loops of the connections. *)
Inductive step : world → world → Prop :=
  | c_move w w' : move w w' → step w w'
  | c_heap g r r' cs : step (World g r cs) (World g r' cs).

Definition reachable (w : world) : Prop :=
  ∃ r, rtc step (World statics_init r ∅) w.
End world.

(** Client [i] has put address [a] in [to_connect_set_] and nobody took it out. *)
Definition owns (cs : gmap Z (client * phase)) (i : Z) (a : bytes) : Prop :=
  ∃ c ph, cs !! i = Some (c, ph) ∧ node_address c = a ∧ (ph = Failed ∨ ∃ n, ph = Dialling n).

Record world_wf (w : world) : Prop := {
  wf_sorted : sorted (connections_ (shared w));
  wf_count : task_count_ (shared w) = Z.of_nat (size (clients w));
  wf_owner : ∀ i a, owns (clients w) i a →
    a ∈ to_connect_set_ (shared w) ∧ map_find a (connections_ (shared w)) = None;
  wf_unique : ∀ i j a, owns (clients w) i a → owns (clients w) j a → i = j;
  wf_connected : ∀ i c, clients w !! i = Some (c, Connected) → connected_ c = true
}.

(** * Lemmas *)

Section lemmas.
Context (junk : nat → byte).

Lemma owns_insert cs i c ph j a :
  owns (<[i := (c, ph)]> cs) j a
  ↔ (j = i ∧ node_address c = a ∧ (ph = Failed ∨ ∃ n, ph = Dialling n)) ∨ (j ≠ i ∧ owns cs j a).
Proof.
  unfold owns. destruct (decide (j = i)) as [->|].
  - rewrite lookup_insert_eq. naive_solver.
  - rewrite lookup_insert_ne by done. naive_solver.
Qed.

Lemma owns_delete cs i j a : owns (delete i cs) j a ↔ j ≠ i ∧ owns cs j a.
Proof.
  unfold owns. destruct (decide (j = i)) as [->|].
  - rewrite lookup_delete_eq. naive_solver.
  - rewrite lookup_delete_ne by done. naive_solver.
Qed.

(** Only a client that dials or failed owns its address. *)
Lemma owns_self cs i c ph a :
  cs !! i = Some (c, ph) → owns cs i a → node_address c = a ∧ (ph = Failed ∨ ∃ n, ph = Dialling n).
Proof. unfold owns. naive_solver. Qed.

(** [attach] changes the client's connection. *)
Lemma attach_inv now p c r c' r' :
  attach junk now p c r = Ok (c', r') → node_address c' = node_address c ∧ connected_ c' = true.
Proof. unfold attach. intros E. outcome_inv. done. Qed.

(** What [connect_begin] leaves: one more task, and the address is taken if the
    client has to dial. *)
Lemma connect_begin_inv now c g r b c' g' r' :
  connect_begin junk now c g r = Ok (b, c', g', r') → sorted (connections_ g) →
  node_address c' = node_address c
  ∧ task_count_ g' = task_count_ g + 1
  ∧ sorted (connections_ g')
  ∧ (∀ a, map_find a (connections_ g) = None → map_find a (connections_ g') = None)
  ∧ to_connect_set_ g ⊆ to_connect_set_ g'
  ∧ match b with
    | Reused => connected_ c' = true
    | MustWait => True
    | MustDial => (node_address c ∉ to_connect_set_ g) ∧ node_address c ∈ to_connect_set_ g'
                  ∧ map_find (node_address c) (connections_ g') = None
    end.
Proof.
  unfold connect_begin. intros E Hs.
  set (c1 := if task_count_ g =? 0 then set_first_client true c else c) in *.
  assert (node_address c1 = node_address c) as Ha by (subst c1; by destruct (_ =? _)).
  destruct (map_find _ _) as [p|] eqn:Ef; cbn [connections_ recycle_connections_ to_connect_set_ task_count_] in *.
  - apply bind_Ok in E as (o & Eo & E). destruct (reuseable_ (conn o)).
    + apply bind_Ok in E as ([c2 r2] & Ea & E). apply attach_inv in Ea as [Ea Hc].
      injection E as <- <- <- <-. cbn. split_and!; congruence || done.
    + pose proof (map_find_erase (node_address c) (connections_ g)) as Her.
      case_bool_decide; injection E as <- <- <- <-; cbn; split_and!; try done;
        try (by apply map_erase_sorted); try set_solver;
        try (intros a; rewrite Her by done; case_decide; done).
      rewrite Her by done. by rewrite decide_True.
  - case_bool_decide; injection E as <- <- <- <-; cbn; split_and!; try done; set_solver.
Qed.

Lemma attempt_inv now timeout env c g r (ok : bool) fds c' g' r' :
  attempt junk now timeout env c g r = Ok (ok, fds, c', g', r') →
  node_address c' = node_address c
  ∧ if ok then
      connected_ c' = true ∧ task_count_ g' = task_count_ g
      ∧ to_connect_set_ g' = to_connect_set_ g ∖ {[node_address c]}
      ∧ ∃ p, connections_ g' = map_insert (node_address c) p (connections_ g)
    else g' = g.
Proof.
  unfold attempt. intros E.
  destruct (_ <? 0); [by injection E as <- <- <- <- <-|].
  apply bind_Ok in E as (d & _ & E). destruct (negb d); [by injection E as <- <- <- <- <-|].
  destruct (negb _); [by injection E as <- <- <- <- <-|].
  apply bind_Ok in E as (m & _ & E). destruct (negb _); [by injection E as <- <- <- <- <-|].
  destruct (ae_handshake env); [|by injection E as <- <- <- <- <-].
  apply bind_Ok in E as (o & _ & E). injection E as <- <- <- <- <-. cbn. split_and!; eauto.
Qed.

(** The task leaves, and the shared state stays unless it was the last. *)
Lemma close_release_inv now wenv g r g' r' fds :
  close_release junk now wenv g r = Ok (g', r', fds) →
  task_count_ g' = task_count_ g - 1
  ∧ (connections_ g' = [] ∧ to_connect_set_ g' = ∅ ∧ task_count_ g = 1
     ∨ connections_ g' = connections_ g ∧ to_connect_set_ g' = to_connect_set_ g).
Proof.
  unfold close_release. intros E. cbn [task_count_] in E. apply bind_Ok in E as (u & _ & E).
  destruct (Z.eqb_spec (task_count_ g - 1) 0); cbn [andb] in E.
  - destruct (u =? 0); [|injection E as <- <- <-; cbn; auto].
    apply bind_Ok in E as ([r2 f2] & _ & E). injection E as <- <- <-. cbn. split; [lia|].
    left. split_and!; [done..|lia].
  - injection E as <- <- <-. cbn. auto.
Qed.

Lemma connected_insert (P : client → Prop) (cs : gmap Z (client * phase)) i c ph :
  (∀ j d, cs !! j = Some (d, Connected) → P d) → (ph = Connected → P c) →
  ∀ j d, <[i := (c, ph)]> cs !! j = Some (d, Connected) → P d.
Proof. intros H Hc j d [[-> [= -> ->]]|[_ ?]]%lookup_insert_Some; eauto. Qed.

Lemma begin_wf g r cs i c now conn_retries b c' g' r' :
  world_wf (World g r cs) → cs !! i = None → connect_begin junk now c g r = Ok (b, c', g', r') →
  world_wf (World g' r' (<[i := (c', begun_phase conn_retries b)]> cs)).
Proof.
  intros [Hs Hn Ho Hu Hc] Ei E. cbn in *.
  apply connect_begin_inv in E as (Ha & Et & Hs' & Hf & Hset & Hb); [|done].
  assert (∀ a, owns (<[i := (c', begun_phase conn_retries b)]> cs) i a →
    b = MustDial ∧ a = node_address c) as Hi.
  { intros a [(_ & <- & Hph)|[? _]]%owns_insert; [|done]. split; [|done]. destruct b; naive_solver. }
  assert (∀ j a, j ≠ i → owns (<[i := (c', begun_phase conn_retries b)]> cs) j a → owns cs j a) as Hj
    by (intros j a ? H%owns_insert; naive_solver).
  constructor; cbn; [done|rewrite map_size_insert_None by done; lia|..].
  - intros j a H. destruct (decide (j = i)) as [->|Hne].
    + apply Hi in H as [-> ->]. naive_solver.
    + apply Hj in H; [|done]. apply Ho in H as []. eauto.
  - assert (∀ j a, j ≠ i → owns (<[i := (c', begun_phase conn_retries b)]> cs) i a →
      owns (<[i := (c', begun_phase conn_retries b)]> cs) j a → False) as Hno.
    { intros j a ? [-> ->]%Hi [Hin _]%Hj%Ho; [|done]. by destruct Hb. }
    intros j k a H1 H2. destruct (decide (j = i)) as [->|], (decide (k = i)) as [->|];
      [done|exfalso; eauto..|eauto].
  - apply connected_insert; [done|]. destruct b; cbn; done.
Qed.

(** A client changes its phase and no address becomes owned. *)
Lemma phase_wf g r r' cs i c c' ph ph' :
  world_wf (World g r cs) → cs !! i = Some (c, ph) → node_address c' = node_address c →
  (ph' = Failed ∨ (∃ n, ph' = Dialling n) → ph = Failed ∨ ∃ n, ph = Dialling n) →
  (ph' = Connected → connected_ c' = true) →
  world_wf (World g r' (<[i := (c', ph')]> cs)).
Proof.
  intros [Hs Hn Ho Hu Hc] Ei Ea Hph Hcon. cbn in *.
  assert (∀ j a, owns (<[i := (c', ph')]> cs) j a → owns cs j a) as Hj.
  { intros j a [(-> & <- & H)|[_ H]]%owns_insert; [|done]. exists c, ph. auto. }
  constructor; cbn; [done|by rewrite map_size_insert_Some by eauto|eauto..|].
  by apply connected_insert.
Qed.

Lemma attempt_wf g r cs i c n now timeout env (ok : bool) fds c' g' r' :
  world_wf (World g r cs) → cs !! i = Some (c, Dialling (S n)) →
  attempt junk now timeout env c g r = Ok (ok, fds, c', g', r') →
  world_wf (World g' r' (<[i := (c', if ok then Connected else Dialling n)]> cs)).
Proof.
  intros H Ei E. apply attempt_inv in E as [Ea E]. destruct ok; [|subst g'].
  - destruct E as (Hcon & Et & Eset & p & Econ). destruct H as [Hs Hn Ho Hu Hc]. cbn in *.
    assert (owns cs i (node_address c)) as Hown by (exists c, (Dialling (S n)); eauto).
    assert (∀ j a, owns (<[i := (c', Connected)]> cs) j a → j ≠ i ∧ owns cs j a ∧ a ≠ node_address c) as Hj.
    { intros j a [(_ & _ & [|[]])|[Hne H]]%owns_insert; [done..|]. split_and!; [done..|].
      intros ->. eauto. }
    constructor; cbn.
    + rewrite Econ. by apply map_insert_sorted.
    + rewrite map_size_insert_Some by eauto. lia.
    + intros j a (Hne & [? Hf]%Ho & Hna)%Hj. rewrite Eset, Econ, map_find_insert, decide_False by done.
      split; [set_solver|done].
    + intros j k a (? & ? & ?)%Hj (? & ? & ?)%Hj. eauto.
    + by apply connected_insert.
  - apply (phase_wf g r r' cs i c c' (Dialling (S n))); eauto. done.
Qed.

Lemma release_wf g r cs i c now wenv g' r' fds :
  world_wf (World g r cs) → cs !! i = Some (c, Closing) →
  close_release junk now wenv g r = Ok (g', r', fds) →
  world_wf (World g' r' (delete i cs)).
Proof.
  intros [Hs Hn Ho Hu Hc] Ei E. cbn in *.
  apply close_release_inv in E as [Et E].
  assert (size (delete i cs) = pred (size cs)) as Esz by (by apply map_size_delete_Some; eauto).
  assert (size cs ≠ 0%nat) as Hnz by (intros ->%map_size_empty_inv; done).
  assert (∀ j a, owns (delete i cs) j a → owns cs j a) as Hj by (intros j a [_ ?]%owns_delete; done).
  assert (∀ j d, delete i cs !! j = Some (d, Connected) → connected_ d = true) as Hc'
    by (intros j d [_ ?]%lookup_delete_Some; eauto).
  destruct E as [(Econ & Eset & E1)|[Econ Eset]]; constructor; cbn; rewrite ?Econ, ?Eset; eauto;
    [apply sorted_nil|lia| |lia].
  assert (delete i cs = ∅) as -> by (apply map_size_empty_inv; lia).
  intros j a (d & ph & [=] & _).
Qed.

Lemma client_move_wf w w' : world_wf w → move junk w w' → world_wf w'.
Proof.
  intros H Hstep. destruct Hstep as [g r cs i c now cr b c' g' r' Ei En Ef E|g r cs i c now c' r' Ei E
    |g r cs i c n now tmo env ok fds c' g' r' Ei E|g r cs i c Ei|g r cs i c Ei|g r cs i c a now el next r' Ei E
    |g r cs i c now wenv g' r' fds Ei E].
  - by eapply begin_wf.
  - unfold connect_wait in E. destruct (map_find _ _); [|done]. apply attach_inv in E as [Ea Hcon].
    eapply phase_wf; [done..| |done]. intros [|[]]; done.
  - by eapply attempt_wf.
  - eapply phase_wf; [done..| |done]. eauto.
  - eapply phase_wf; [done..| |done]. by intros [|[]].
  - eapply phase_wf; [done..| |by destruct next]. destruct next; by intros [|[]].
  - by eapply release_wf.
Qed.

#[export] Instance client_wf_invariant : Invariant (step junk) world_wf.
Proof. intros w w' H Hs. destruct Hs as [w1 w2 Hs|]; [by eapply client_move_wf|]. destruct H. by constructor. Qed.

Lemma client_reachable_wf w : reachable junk w → world_wf w.
Proof.
  intros [r Hr]. refine (invariant_rtc (step junk) world_wf _ _ _ Hr).
  constructor; cbn; [apply sorted_nil|done|intros i a|intros i j a|by intros i c]; intros (? & ? & [=] & _).
Qed.

(** [close_stop] is a run of its sections. *)
Lemma close_stop_run now elapsed c g r r' cs i :
  close_stop now elapsed c r = Ok r' → cs !! i = Some (c, Stopping AtMutex) →
  rtc (move junk) (World g r cs) (World g r' (<[i := (c, Closing)]> cs)).
Proof.
  unfold close_stop. intros E Ei. apply bind_Ok in E as (p & Ep & E). apply bind_Ok in E as (o & Eo & E).
  apply bind_Ok in E as (o' & Es & E). injection E as <-. destruct (conn_ c) as [p'|] eqn:Ec; [|done]. injection Ep as ->.
  assert (∀ a o1 next o2 r1 cs1, r1 = set_object p o1 r → stop_section now elapsed (task_id_ c) a o1 = Ok (next, o2) →
    cs1 !! i = Some (c, Stopping a) →
    move junk (World g r1 cs1) (World g (set_object p o2 r) (<[i := (c, next_phase next)]> cs1))) as Hsec.
  { intros a o1 next o2 r1 cs1 -> E Ei1. eapply c_stop; [exact Ei1|]. unfold close_section, deref.
    rewrite Ec. cbn [mbind mret outcome_bind outcome_ret objects set_object]. rewrite lookup_insert_eq.
    cbn [mbind outcome_bind]. rewrite E. cbn [mbind outcome_bind]. unfold set_object. cbn. by rewrite insert_insert_eq. }
  assert (r = set_object p o r) as Er.
  { unfold deref in Eo. destruct (objects r !! p) as [o0|] eqn:Eo'; [|done]. injection Eo as ->.
    unfold set_object. rewrite insert_id by done. by destruct r. }
  apply conn_stop_sections in Es as (o1 & o2 & o3 & o4 & E1 & E2 & E3 & E4 & E5).
  eapply rtc_l; [exact (Hsec _ _ _ _ _ _ Er E1 Ei)|]. do 3 (eapply rtc_l; [eapply Hsec; [reflexivity|eassumption|apply lookup_insert_eq]|]).
  rewrite !insert_insert_eq. apply rtc_once. pose proof (Hsec AtErase o4 None o' _ (<[i := (c, Stopping AtErase)]> cs) eq_refl E5) as H.
  cbn in H. rewrite insert_insert_eq in H. apply H, lookup_insert_eq.
Qed.

(** [close] of a connected client is a run of its parts. *)
Lemma close_run now elapsed wenv c g r c' g' r' fds cs i :
  close junk now elapsed wenv c g r = Ok (c', g', r', fds) → connected_ c = true → cs !! i = Some (c, Connected) →
  rtc (move junk) (World g r cs) (World g' r' (delete i cs)).
Proof.
  unfold close. intros E Hc Ei. rewrite Hc in E. apply bind_Ok in E as (r1 & Es & E).
  apply bind_Ok in E as ([[g2 r2] f2] & Er & E). injection E as <- <- <- <-.
  eapply rtc_l; [by eapply c_close|]. etrans; [eapply close_stop_run; [exact Es|apply lookup_insert_eq]|].
  apply rtc_once. rewrite insert_insert_eq.
  replace (delete i cs) with (delete i (<[i := (set_unconnected c, Closing)]> cs)) by apply delete_insert_eq.
  eapply c_release; [apply lookup_insert_eq|done].
Qed.

(** A failed call stays failed. *)
#[export] Instance failed_invariant i c :
  Invariant (step junk) (λ w, clients w !! i = Some (c, Failed)).
Proof.
  intros w w' H Hs. destruct Hs as [w1 w2 Hs|]; [|done]. destruct Hs; cbn in *; try done;
    rewrite ?lookup_insert_ne, ?lookup_delete_ne; try done; intros ->; congruence.
Qed.
End lemmas.

(** What the server reads from [hello]: the length, then the name. *)
Lemma hello_bytes cid :
  zlen cid + 8 ≤ string_max_size →
  hello cid = Ok (le_bytes 8 (8 + zlen cid) ++ cid).
Proof.
  intros Hmax. pose proof (zlen_nonneg cid). unfold hello. unfold string_max_size in *.
  assert (8 +₆₄ zlen cid = 8 + zlen cid) as -> by (unfold u64; apply Z.mod_small; lia).
  rewrite string_resize_ok by (unfold string_max_size; lia). cbn [mbind outcome_bind].
  assert (zlen (ztake (8 + zlen cid) [] ++ zeros (8 + zlen cid - zlen [])) = 8 + zlen cid) as Hz
    by (rewrite zlen_resize; lia).
  rewrite (memcpy_memcpy _ (le_bytes 8 (8 + zlen cid)) 0 8 cid 0 (zlen cid))
    by (rewrite ?zlen_le_bytes; lia).
  rewrite !zdrop_0, !ztake_ge, zdrop_ge, app_nil_r by (rewrite ?zlen_le_bytes; lia). done.
Qed.

(** * Properties *)

(** C26: two clients of a process never dial the same address at the same time: an
    address in [to_connect_set_] has one dialling client and no connection, the
    other clients of the address wait. *)
Theorem one_dialler junk w i j c d n m :
  reachable junk w →
  clients w !! i = Some (c, Dialling n) → clients w !! j = Some (d, Dialling m) →
  node_address c = node_address d →
  i = j ∧ node_address c ∈ to_connect_set_ (shared w)
  ∧ map_find (node_address c) (connections_ (shared w)) = None.
Proof.
  intros [_ _ Ho Hu _]%client_reachable_wf Hi Hj Ea.
  assert (owns (clients w) i (node_address c)) as H1 by (exists c, (Dialling n); eauto).
  assert (owns (clients w) j (node_address c)) as H2 by (exists d, (Dialling m); eauto).
  split; [eauto|by eapply Ho].
Qed.

(** When a client used up its turns, its address stays in [to_connect_set_] and
    its task stays counted: from then on no client of that address, however the
    process goes on, ever gets past its wait, and none dials. *)
Theorem failed_connect_blocks junk w w' i c :
  reachable junk w → clients w !! i = Some (c, Failed) → rtc (step junk) w w' →
  0 < task_count_ (shared w')
  ∧ ∀ now d,
      node_address d = node_address c →
      connect_wait junk now d (shared w') (heap w') = Sleep
      ∧ ∃ d' g', connect_begin junk now d (shared w') (heap w') = Ok (MustWait, d', g', heap w').
Proof.
  intros Hr%client_reachable_wf Hi Hs.
  destruct (invariant_rtc (step junk) (λ w, world_wf w ∧ clients w !! i = Some (c, Failed)) w w')
    as [[_ Hn Ho _ _] Hi']; [done..|].
  destruct (Ho i (node_address c)) as [Hin Hf]; [exists c, Failed; auto|]. split.
  - assert (size (clients w') ≠ 0%nat) by (intros E%map_size_empty_inv; by rewrite E in Hi'). lia.
  - intros now d Ea. unfold connect_wait, connect_begin. rewrite Ea. cbv zeta. rewrite Hf.
    split; [done|]. cbn [connections_ to_connect_set_]. rewrite Hf, bool_decide_true by done. do 2 eexists; reflexivity.
Qed.

(** C25: a server that expects a client registers a fresh connection under the name
    in the client's [hello] and keeps the one it had for its users; a server that
    does not expect it closes the descriptor and changes nothing. *)
Theorem hello_registers junk now s r cid cfd errno msg :
  zlen cid + 8 ≤ string_max_size → cfd ≠ -1 → sorted (TCPServer.connections_ r) →
  hello cid = Ok msg →
  ∃ r' fds,
    TCPServer.handle_accept junk now s
      (TCPServer.AcceptEnv cfd 1 (RR 8 errno (ztake 8 msg)) (RR (zlen cid) errno (zdrop 8 msg))) r
      = Ok (r', fds)
    ∧ if decide (cid ∈ TCPServer.expected_cids_ s) then
        fds = []
        ∧ map_find cid (TCPServer.connections_ r') = Some (fresh_ r)
        ∧ deref r' (fresh_ r)
            = Ok (Obj (Connection_create junk now cfd TCPServer.EPOLL_EVENTS true cid) works_init)
        ∧ fresh_ r ∈ epoll r'
        ∧ (∀ k, k ≠ cid →
             map_find k (TCPServer.connections_ r') = map_find k (TCPServer.connections_ r))
        ∧ (∀ p, map_find cid (TCPServer.connections_ r) = Some p → p ∈ TCPServer.recycle_connections_ r')
      else r' = r ∧ fds = [cfd].
Proof.
  intros Hmax Hcfd Hs Eh. rewrite hello_bytes in Eh by done.
  assert (msg = le_bytes 8 (8 + zlen cid) ++ cid) as -> by congruence. clear Eh.
  pose proof (zlen_nonneg cid) as Hn. unfold string_max_size in Hmax.
  assert (ztake 8 (le_bytes 8 (8 + zlen cid) ++ cid) = le_bytes 8 (8 + zlen cid)) as ->
    by (by apply ztake_app_eq; rewrite zlen_le_bytes).
  assert (zdrop 8 (le_bytes 8 (8 + zlen cid) ++ cid) = cid) as ->
    by (by apply zdrop_app_eq; rewrite zlen_le_bytes).
  unfold TCPServer.handle_accept. cbn [TCPServer.ae_cfd TCPServer.ae_write TCPServer.ae_read1
    TCPServer.ae_read2 r_ret r_data].
  rewrite (proj2 (Z.eqb_neq _ _)) by done. change (negb (1 =? sz8)) with false.
  change (negb (u64 8 =? sz64)) with false. cbn [negb].
  assert (load_u64 (le_bytes 8 (8 + zlen cid)) 0 = Ok (8 + zlen cid)) as ->.
  { rewrite load_u64_ok by (rewrite ?zlen_le_bytes; lia). f_equal.
    rewrite zdrop_0, ztake_ge by (rewrite ?zlen_le_bytes; lia).
    rewrite le_value_le_bytes by lia. apply Z.mod_small. lia. }
  cbn [mbind outcome_bind].
  assert (8 + zlen cid -₆₄ sz64 = zlen cid) as ->
    by (unfold u64; rewrite Z.mod_small; lia).
  rewrite string_resize_ok by (unfold string_max_size; lia). cbn [mbind outcome_bind].
  rewrite memcpy_fill by (rewrite ?zlen_resize; lia). cbn [mbind outcome_bind].
  rewrite zdrop_0, ztake_ge by lia.
  assert (u64 (zlen cid) = zlen cid) as -> by (apply Z.mod_small; lia).
  rewrite Z.eqb_refl. cbn [negb].
  destruct (decide (cid ∈ TCPServer.expected_cids_ s)) as [Hin|Hin];
    [rewrite bool_decide_true by done|rewrite bool_decide_false by done; eauto].
  eexists _, _. split; [reflexivity|]. split; [done|]. by apply TCPServer.register_spec.
Qed.

(** * Witnesses *)

Definition heap0 : registry := Reg [(str "P1", 1)] [] ∅ ∅ 2.

Definition client_of (task : bytes) : client :=
  TCPClient_create task (str "P2") (str "10.0.0.2") 9000 (str "P1").
Definition first_of (task : bytes) : client := set_first_client true (client_of task).

(** Client 1 dials, [n] turns left; client 2 waits for it. *)
Definition dialling (c1 : client) (ph : phase) : world :=
  World (Statics [] [] {[str "10.0.0.2:9000"]} 2) heap0
        (<[1 := (c1, ph)]> (<[2 := (client_of (str "b"), Waiting)]>
           (<[1 := (first_of (str "a"), Dialling 1)]> ∅))).

Lemma dialling_reachable : reachable (λ _, x00) (dialling (first_of (str "a")) (Dialling 1)).
Proof.
  exists heap0.
  eapply rtc_l; [apply c_move, (c_begin _ _ _ _ 1 (client_of (str "a")) 0 1); reflexivity|].
  eapply rtc_l; [apply c_move, (c_begin _ _ _ _ 2 (client_of (str "b")) 0 1); reflexivity|].
  apply reflexive_eq. vm_compute. reflexivity.
Qed.

Lemma failed_reachable :
  reachable (λ _, x00) (dialling (set_fd (-1) (first_of (str "a"))) Failed).
Proof.
  destruct dialling_reachable as [r Hr]. exists r. etrans; [exact Hr|].
  eapply rtc_l.
  { apply c_move, (c_attempt _ _ _ _ 1 (first_of (str "a")) 0 0 1000 (AttemptEnv (-1) [] 0 0 false) false []);
      reflexivity. }
  eapply rtc_l; [eapply c_move, (c_fail _ _ _ _ 1); reflexivity|].
  apply reflexive_eq. vm_compute. reflexivity.
Qed.

Lemma one_dialler_witness :
  1 = 1 ∧ node_address (first_of (str "a")) ∈ to_connect_set_ (shared (dialling (first_of (str "a")) (Dialling 1)))
  ∧ map_find (node_address (first_of (str "a")))
      (connections_ (shared (dialling (first_of (str "a")) (Dialling 1)))) = None.
Proof.
  apply (one_dialler (λ _, x00) (dialling (first_of (str "a")) (Dialling 1)) 1 1 (first_of (str "a"))
           (first_of (str "a")) 1 1); [apply dialling_reachable|reflexivity..].
Defined.

Lemma failed_connect_blocks_witness :
  let w := dialling (set_fd (-1) (first_of (str "a"))) Failed in
  0 < task_count_ (shared w)
  ∧ ∀ now d,
      node_address d = node_address (set_fd (-1) (first_of (str "a"))) →
      connect_wait (λ _, x00) now d (shared w) (heap w) = Sleep
      ∧ ∃ d' g', connect_begin (λ _, x00) now d (shared w) (heap w) = Ok (MustWait, d', g', heap w).
Proof.
  apply (failed_connect_blocks (λ _, x00) (dialling (set_fd (-1) (first_of (str "a"))) Failed)
           (dialling (set_fd (-1) (first_of (str "a"))) Failed) 1);
    [apply failed_reachable|reflexivity|reflexivity].
Defined.

Lemma hello_registers_witness :
  let msg := [x0a; x00; x00; x00; x00; x00; x00; x00] ++ str "P1" in
  let s := TCPServer.Server (str "a") false false [str "P1"] [] true in
  ∃ r' fds,
    TCPServer.handle_accept (λ _, x00) 0 s
      (TCPServer.AcceptEnv 9 1 (RR 8 (EOTHER 0) (ztake 8 msg)) (RR (zlen (str "P1")) (EOTHER 0) (zdrop 8 msg)))
      heap0 = Ok (r', fds)
    ∧ if decide (str "P1" ∈ TCPServer.expected_cids_ s) then
        fds = []
        ∧ map_find (str "P1") (TCPServer.connections_ r') = Some (fresh_ heap0)
        ∧ deref r' (fresh_ heap0)
            = Ok (Obj (Connection_create (λ _, x00) 0 9 TCPServer.EPOLL_EVENTS true (str "P1")) works_init)
        ∧ fresh_ heap0 ∈ epoll r'
        ∧ (∀ k, k ≠ str "P1" →
             map_find k (TCPServer.connections_ r') = map_find k (TCPServer.connections_ heap0))
        ∧ (∀ p, map_find (str "P1") (TCPServer.connections_ heap0) = Some p →
             p ∈ TCPServer.recycle_connections_ r')
      else r' = heap0 ∧ fds = [9].
Proof.
  apply (hello_registers (λ _, x00) 0 (TCPServer.Server (str "a") false false [str "P1"] [] true) heap0
           (str "P1") 9 (EOTHER 0) ([x0a; x00; x00; x00; x00; x00; x00; x00] ++ str "P1"));
    [vm_compute; congruence|done| |vm_compute; reflexivity].
  repeat constructor.
Defined.
End TCPClient.
