(* ===== verification/Process.v ===== *)
(** A process: the servers and the clients of all its tasks move in any order on one
    heap of connections ([src/server.cpp] and [src/client.cpp]).  The composed system
    projects on each of its parts, so what [Server], [Heap] and [Client] show of them
    holds of the process; and the heap is typed for the clients too. *)
From Stdlib Require Import Strings.Byte.
From S2P Require Import Prelude Timer CycleBuffer SimpleBuffer Transport Connection StdMap Work Server.
From S2P Require Import Heap Client.
#[local] Open Scope Z_scope.

Module Process.
Import TCPServer (registry, Reg, objects, epoll, fresh_, deref, set_object, reg, globals, set_reg, listen_conn_, same_peer).
Import TCPClient (client, phase, Connected, Waiting, Dialling, Failed).
Import Heap.

(** * The system *)

Record process := Proc {
  sv : TCPServer.world;
  shared : TCPClient.statics;
  clients : gmap Z (client * phase)
}.

Definition heap (w : process) : registry := reg (globals (sv w)).
Definition with_heap (r : registry) (sw : TCPServer.world) : TCPServer.world :=
  TCPServer.World (set_reg r (globals sw)) (TCPServer.servers sw).
Definition client_world (w : process) : TCPClient.world := TCPClient.World (shared w) (heap w) (clients w).

Section system.
Context (junk : nat → byte).

Inductive step : relation process :=
  | p_server w sw' : TCPServer.step junk (sv w) sw' → step w (Proc sw' (shared w) (clients w))
  | p_client w cw' :
      TCPClient.move junk (client_world w) cw' →
      step w (Proc (with_heap (TCPClient.heap cw') (sv w)) (TCPClient.shared cw') (TCPClient.clients cw')).

Definition process_init : process := Proc (TCPServer.World TCPServer.statics_init ∅) TCPClient.statics_init ∅.

Definition reachable (w : process) : Prop := rtc step process_init w.
End system.

(** * Typing *)

(** [p] is a connection a client of the process opened. *)
Definition opened (g : TCPServer.statics) (p : Z) : Prop :=
  ∃ o, objects (reg g) !! p = Some o ∧ is_server_ (conn o) = false.

(** [listen_conn_] is not one of those. *)
Definition listener (g : TCPServer.statics) : Prop :=
  ∀ p o, listen_conn_ g = Some p → objects (reg g) !! p = Some o → is_server_ (conn o) = true.

Record typed_clients (g : TCPServer.statics) (cg : TCPClient.statics) (cs : gmap Z (client * phase)) : Prop := {
  c_connections a p : map_find a (TCPClient.connections_ cg) = Some p → opened g p;
  c_recycled p : p ∈ TCPClient.recycle_connections_ cg → opened g p;
  c_conn i c ph p : cs !! i = Some (c, ph) → TCPClient.conn_ c = Some p → opened g p;
  c_connected i c : cs !! i = Some (c, Connected) → is_Some (TCPClient.conn_ c)
}.

Record process_typed (w : process) : Prop := {
  pt_servers : world_typed (sv w);
  pt_listener : listener (globals (sv w));
  pt_wf : TCPClient.world_wf (client_world w);
  pt_clients : typed_clients (globals (sv w)) (shared w) (clients w)
}.

(** * Lemmas *)

(** ** What an operation does to the heap *)

(** An object is updated in place or opened. *)
Inductive heap_step : relation registry :=
  | h_use r p o o' : objects r !! p = Some o → same_peer o o' → heap_step r (set_object p o' r)
  | h_open r o : is_server_ (conn o) = false → reuseable_ (conn o) = true → heap_step r (add_object o r).

(** The opened connections stay. *)
Definition keeps (g g' : TCPServer.statics) : Prop :=
  ∀ p o, objects (reg g) !! p = Some o → is_server_ (conn o) = false →
    ∃ o', objects (reg g') !! p = Some o' ∧ same_peer o o'.

#[export] Instance keeps_preorder : PreOrder keeps.
Proof.
  split; [intros g p o E _; by exists o|]. intros g1 g2 g3 H1 H2 p o E Eo.
  destruct (H1 p o E Eo) as (o2 & E2 & Hs2). destruct (H2 p o2 E2) as (o3 & E3 & Hs3); [destruct Hs2; congruence|].
  exists o3. split; [done|by trans o2].
Qed.

Lemma keeps_grows g g' : grows (reg g) (reg g') → keeps g g'.
Proof. intros H p o E _. by apply H. Qed.

Lemma keeps_opened g g' p : keeps g g' → opened g p → opened g' p.
Proof. intros H (o & E & Eo). destruct (H p o E Eo) as (o' & E' & []). exists o'. split; congruence. Qed.

Lemma listener_updates g g' :
  updates (reg g) (reg g') → listen_conn_ g' = listen_conn_ g → listener g → listener g'.
Proof.
  intros Hu El H p o' Ep Eo. rewrite El in Ep.
  destruct (u_live _ _ Hu p) as [o E]; [by eexists|]. destruct (u_grows _ _ Hu _ _ E) as (o2 & E2 & [_ Es _ _]).
  specialize (H _ _ Ep E). congruence.
Qed.

Lemma listener_add g th o : typed g th → listener g → listener (set_reg (add_object o (reg g)) g).
Proof.
  intros Ht H p o' Ep Eo. cbn in Ep, Eo. rewrite lookup_insert_ne in Eo; [by eapply H|].
  intros <-. by apply (fresh_not_live g th Ht), (t_listen _ _ Ht).
Qed.

Section lemmas.
Context (junk : nat → byte).

Lemma listener_register g th now cfd cid :
  typed g th → listener g →
  listener (set_reg (TCPServer.register junk now cfd cid (reg g)) g)
  ∧ keeps g (set_reg (TCPServer.register junk now cfd cid (reg g)) g).
Proof.
  intros Ht H.
  set (o := Obj (Connection_create junk now cfd TCPServer.EPOLL_EVENTS true cid) works_init).
  assert (objects (TCPServer.register junk now cfd cid (reg g)) = objects (add_object o (reg g))) as Eo.
  { unfold TCPServer.register. by destruct (map_find cid _). }
  split.
  - intros p o'. cbn. rewrite Eo. apply (listener_add g th o Ht H).
  - etrans; [apply (keeps_grows g (set_reg (add_object o (reg g)) g)), (add_object_grows g th o Ht)|].
    intros p. cbn. rewrite Eo. intros o' E _. by exists o'.
Qed.

(** Every step of the servers. *)
Lemma listener_event now s g th p ev env g' fds :
  typed g th → listener g → TCPServer.handle_event junk now s g p ev env = Ok (g', fds) → listener g' ∧ keeps g g'.
Proof.
  intros H Hl (r' & -> & [Hu|[cid ->]])%handle_event_inv; [|by eapply listener_register].
  split; [by apply (listener_updates g)|]. apply keeps_grows, (u_grows _ _ Hu).
Qed.

Lemma listener_loop_once now s g th active g' fds :
  typed g th → listener g → TCPServer.loop_once junk now s g active = Ok (g', fds) → listener g' ∧ keeps g g'.
Proof.
  intros H Hl E. unfold TCPServer.loop_once in E.
  refine (proj2 (for_each_inv _ (λ st, typed st.1 th ∧ listener st.1 ∧ keeps g st.1) active (g, []) (g', fds) _ _ E));
    [|by split].
  intros [g1 f1] [[p ev] env] [g2 f2] _ (H1 & Hl1 & Hk) E1. cbn [fst] in *.
  apply bind_Ok in E1 as ([g3 f3] & Ee & E1). injection E1 as <- <-.
  pose proof (listener_event _ _ _ th _ _ _ _ _ H1 Hl1 Ee) as [Hl3 Hk3].
  split_and!; [by eapply typed_event|done|by etrans].
Qed.

Lemma listener_same g g' : reg g' = reg g → listen_conn_ g' = listen_conn_ g → listener g → listener g' ∧ keeps g g'.
Proof. intros Er El H. unfold listener, keeps. rewrite Er, El. split; [done|]. intros p o E _. by exists o. Qed.

Lemma listener_loop_main_step now s g th ph elapsed timeout active ph' g' fds :
  typed g th → listener g → TCPServer.loop_main_step junk now s g ph elapsed timeout active = Ok (ph', g', fds) →
  listener g' ∧ keeps g g'.
Proof.
  intros H Hl E. unfold TCPServer.loop_main_step in E. destruct ph.
  - apply bind_Ok in E as ([] & _ & E). destruct (TCPServer.stop_ s); injection E as <- <- <-; [by split|].
    by apply listener_same.
  - destruct (_ && _); [|injection E as <- <- <-; by apply listener_same].
    apply bind_Ok in E as ([g1 f1] & El & E). injection E as <- <- <-. by eapply listener_loop_once.
  - destruct (TCPServer.stop_ s); [injection E as <- <- <-; by apply listener_same|].
    apply bind_Ok in E as ([g1 f1] & El & E). injection E as <- <- <-. by eapply listener_loop_once.
  - injection E as <- <- <-. by split.
Qed.

Lemma listener_start now t port ssl_ok env s g th b s' g' :
  typed g th → listener g → TCPServer.start junk now t port ssl_ok env s g = (b, s', g') → listener g' ∧ keeps g g'.
Proof.
  intros H Hl E. unfold TCPServer.start, TCPServer.init in E.
  repeat (match type of E with context [if ?b then _ else _] => destruct b end; cbn in E);
    injection E as <- <- <-; try by apply (listener_same g).
  split.
  - intros p o [= <-]. cbn. rewrite lookup_insert_eq. by intros [= <-].
  - apply keeps_grows. exact (add_object_grows g th _ H).
Qed.

Lemma listener_stop_release now wenv s g s' g' fds :
  listener g → TCPServer.stop_release junk now wenv s g = Ok (s', g', fds) → listener g' ∧ keeps g g'.
Proof.
  intros Hl E. unfold TCPServer.stop_release in E. apply bind_Ok in E as (u & _ & E).
  destruct (_ && _).
  2: { injection E as <- <- <-. split; [exact Hl|]. intros p o Eo _. by exists o. }
  apply bind_Ok in E as ([r2 f] & Ec%close_all_updates & E). injection E as <- <- <-. cbn [reg] in Ec.
  rename Ec into Hu.
  split; [done|]. intros p o Eo Ep. destruct (u_grows _ _ Hu _ _ Eo) as (o' & Eo' & Hsame).
  exists o'. split; [|done]. cbn. destruct (listen_conn_ g) as [q|] eqn:Eq; [|done].
  rewrite lookup_delete_ne; [done|]. intros ->. specialize (Hl _ _ Eq Eo). congruence.
Qed.

Lemma put_connection_updates now s r cid ok s' r' :
  TCPServer.put_connection junk now s r cid = Ok (ok, s', r') → updates r r'.
Proof.
  unfold TCPServer.put_connection. intros E. apply bind_Ok in E as ([c r1] & [Hu _]%find_connection_updates & E).
  destruct c as [p|]; [|by injection E as <- <- <-]. apply bind_Ok in E as (o & _ & E).
  destruct (reuseable_ (conn o)); by injection E as <- <- <-.
Qed.

Lemma server_step_keeps sw sw' :
  world_typed sw → listener (globals sw) → TCPServer.step junk sw sw' →
  listener (globals sw') ∧ keeps (globals sw) (globals sw').
Proof.
  intros H Hl Hs.
  assert (∀ g r', listener g → updates (reg g) r' → listener (set_reg r' g) ∧ keeps g (set_reg r' g)) as Hu.
  { intros g r' Hg Hu. split; [by apply (listener_updates g)|]. apply keeps_grows, (u_grows _ _ Hu). }
  destruct Hs as [g th t s now port sok env s' g' Et Hs Hm E|g th t s now port sok env s' g' Et E
    |g th t s ph now el tmo act ph' g' fds Et E|g th t s ph now p ev env g' fds Et Eph E|g th t s ph Et Hs
    |g th t s now wenv s' g' fds Et Hs E
    |g th t s ph now node ok s' r' Et E|g th p o o' Eo Hsame|g th o Ho Hre|g th p r' E];
    unfold world_typed in H; cbn [globals TCPServer.servers] in *.
  - by eapply listener_start.
  - by eapply listener_start.
  - by eapply listener_loop_main_step.
  - by eapply listener_event.
  - done.
  - by eapply listener_stop_release.
  - apply Hu; [done|]. by eapply put_connection_updates.
  - apply Hu; [done|]. by eapply set_object_updates.
  - split; [by apply (listener_add g th)|]. by apply keeps_grows, (add_object_grows g th).
  - apply add_to_epoll_spec in E as (r1 & -> & Hr & _). exact (Hu g r1 Hl Hr).
Qed.

(** ** The clients *)

Lemma attach_heap now p c r c' r' :
  TCPClient.attach junk now p c r = Ok (c', r') →
  ∃ o o', objects r !! p = Some o ∧ same_peer o o' ∧ r' = set_object p o' r ∧ TCPClient.conn_ c' = Some p.
Proof.
  unfold TCPClient.attach. intros E. apply bind_Ok in E as (o & Eo%deref_Ok & E).
  apply bind_Ok in E as (o' & Es%conn_start_peer & E). injection E as <- <-. by exists o, o'.
Qed.

(** What [connect_begin] does with the shared connections, and what it attaches to. *)
Lemma connect_begin_heap now c g r b c' g' r' :
  TCPClient.connect_begin junk now c g r = Ok (b, c', g', r') → sorted (TCPClient.connections_ g) →
  (∀ a p, map_find a (TCPClient.connections_ g') = Some p → map_find a (TCPClient.connections_ g) = Some p)
  ∧ (∀ p, p ∈ TCPClient.recycle_connections_ g' → p ∈ TCPClient.recycle_connections_ g
       ∨ ∃ a, map_find a (TCPClient.connections_ g) = Some p)
  ∧ (b ≠ TCPClient.Reused ∧ r' = r ∧ TCPClient.conn_ c' = TCPClient.conn_ c
     ∨ b = TCPClient.Reused ∧ ∃ p o o', map_find (TCPClient.node_address c) (TCPClient.connections_ g) = Some p
         ∧ objects r !! p = Some o ∧ same_peer o o' ∧ r' = set_object p o' r ∧ TCPClient.conn_ c' = Some p).
Proof.
  unfold TCPClient.connect_begin. intros E Hs.
  set (c1 := if TCPClient.task_count_ g =? 0 then TCPClient.set_first_client true c else c) in *.
  assert (TCPClient.conn_ c1 = TCPClient.conn_ c ∧ TCPClient.node_address c1 = TCPClient.node_address c) as [Hc Ha]
    by (subst c1; by destruct (_ =? _)).
  destruct (map_find _ _) as [p|] eqn:Ef; cbn [TCPClient.connections_ TCPClient.recycle_connections_
    TCPClient.to_connect_set_ TCPClient.task_count_] in *.
  - apply bind_Ok in E as (o & Eo & E). destruct (reuseable_ (conn o)).
    + apply bind_Ok in E as ([c2 r2] & Eat & E). injection E as <- <- <- <-. cbn. split_and!; [done|by left|].
      right. split; [done|]. destruct (attach_heap _ _ _ _ _ _ Eat) as (o1 & o2 & ? & ? & ? & ?).
      by exists p, o1, o2.
    + assert (∀ a q, map_find a (map_erase (TCPClient.node_address c) (TCPClient.connections_ g)) = Some q →
        map_find a (TCPClient.connections_ g) = Some q) as Her.
      { intros a q Eq. rewrite map_find_erase in Eq by done. destruct (decide (a = TCPClient.node_address c)); [discriminate|done]. }
      case_bool_decide; injection E as <- <- <- <-; cbn; (split_and!; [done| |by left]);
        (intros q [Hq|Hq%list_elem_of_singleton]%elem_of_app; [by left|right; exists (TCPClient.node_address c); congruence]).
  - case_bool_decide; injection E as <- <- <- <-; cbn; (split_and!; [done|by left|by left]).
Qed.

(** An attempt that gets through to the handshake opens a connection. *)
Lemma attempt_heap now timeout env c g r (ok : bool) fds c' g' r' :
  TCPClient.attempt junk now timeout env c g r = Ok (ok, fds, c', g', r') →
  TCPClient.recycle_connections_ g' = TCPClient.recycle_connections_ g
  ∧ (ok = false ∧ g' = g ∧ r' = r ∧ TCPClient.conn_ c' = TCPClient.conn_ c
     ∨ ∃ o o', is_server_ (conn o) = false ∧ reuseable_ (conn o) = true ∧ same_peer o o'
         ∧ TCPClient.conn_ c' = Some (fresh_ r)
         ∧ node_id_ (conn o) = TCPClient.node_id_ c
         ∧ (ok = false ∧ g' = g ∧ r' = add_object o r
            ∨ ok = true ∧ r' = set_object (fresh_ r) o' (add_object o r)
              ∧ TCPClient.connections_ g'
                = map_insert (TCPClient.node_address c) (fresh_ r) (TCPClient.connections_ g))).
Proof.
  unfold TCPClient.attempt. intros E.
  assert (∀ ok' fds', Ok (false, fds', TCPClient.set_fd (TCPClient.ae_socket env) c, g, r) = Ok (ok', fds, c', g', r') →
    ok' = false ∧ g' = g ∧ r' = r ∧ TCPClient.conn_ c' = TCPClient.conn_ c) as Hsame by by intros ? ? [= <- _ <- <- <-].
  destruct (_ <? 0); [apply Hsame in E as (-> & -> & ? & ?); split; [done|by left]|].
  apply bind_Ok in E as (d & _ & E). destruct (negb d); [apply Hsame in E as (-> & -> & ? & ?); split; [done|by left]|].
  destruct (negb _); [apply Hsame in E as (-> & -> & ? & ?); split; [done|by left]|].
  apply bind_Ok in E as (m & _ & E).
  destruct (negb _); [apply Hsame in E as (-> & -> & ? & ?); split; [done|by left]|]. clear Hsame.
  set (o := Obj (Connection_create _ _ _ _ _ _) works_init) in E.
  destruct (TCPClient.ae_handshake env).
  - apply bind_Ok in E as (o' & Es%conn_start_peer & E). injection E as <- <- <- <- <-. split; [done|].
    right. exists o, o'. split_and!; [done..|by right].
  - injection E as <- <- <- <- <-. split; [done|]. right. exists o, o. split_and!; [done..|by left].
Qed.

Lemma close_stop_heap now elapsed c r r' :
  TCPClient.close_stop now elapsed c r = Ok r' →
  ∃ p o o', TCPClient.conn_ c = Some p ∧ objects r !! p = Some o ∧ conn_stop now elapsed (TCPClient.task_id_ c) o = Ok o'
    ∧ same_peer o o' ∧ r' = set_object p o' r.
Proof.
  unfold TCPClient.close_stop. intros E. apply bind_Ok in E as (p & Ep & E). apply bind_Ok in E as (o & Eo%deref_Ok & E).
  apply bind_Ok in E as (o' & Es & E). injection E as <-. exists p, o, o'.
  split; [destruct (TCPClient.conn_ c); [by injection Ep as ->|done]|]. split_and!; [done..|by eapply conn_stop_peer|done].
Qed.

Lemma close_section_heap now elapsed a c r next r' :
  TCPClient.close_section now elapsed a c r = Ok (next, r') →
  ∃ p o o', TCPClient.conn_ c = Some p ∧ objects r !! p = Some o
    ∧ stop_section now elapsed (TCPClient.task_id_ c) a o = Ok (next, o') ∧ same_peer o o' ∧ r' = set_object p o' r.
Proof.
  unfold TCPClient.close_section. intros E. apply bind_Ok in E as (p & Ep & E). apply bind_Ok in E as (o & Eo%deref_Ok & E).
  apply bind_Ok in E as ([n o'] & Es & E). injection E as <- <-. exists p, o, o'.
  split; [destruct (TCPClient.conn_ c); [by injection Ep as ->|done]|]. split_and!; [done..|by eapply stop_section_peer|done].
Qed.

Lemma close_release_heap now wenv g r g' r' fds :
  TCPClient.close_release junk now wenv g r = Ok (g', r', fds) →
  rtc heap_step r r'
  ∧ (∀ a p, map_find a (TCPClient.connections_ g') = Some p → map_find a (TCPClient.connections_ g) = Some p)
  ∧ (∀ p, p ∈ TCPClient.recycle_connections_ g' → p ∈ TCPClient.recycle_connections_ g).
Proof.
  unfold TCPClient.close_release. intros E. apply bind_Ok in E as (u & _ & E).
  destruct (_ && _); [|by injection E as <- <- <-].
  apply bind_Ok in E as ([r2 f2] & Ec & E). injection E as <- <- <-. cbn. split; [|split; [done|set_solver]].
  unfold TCPClient.close_all in Ec.
  refine (for_each_inv _ (λ st, rtc heap_step r st.1) _ (_, []) (r2, f2) _ _ Ec); [|done].
  intros [r3 f3] [a q] [r4 f4] _ H3 E3. cbn [fst] in *. apply bind_Ok in E3 as (oq & Eq%deref_Ok & E3).
  apply bind_Ok in E3 as ([oq' more] & Eq'%close_object_peer & E3). injection E3 as <- <-.
  etrans; [done|]. by eapply rtc_once, h_use.
Qed.

(** ** The composed system *)

Lemma heap_step_server g th r : heap_step (reg g) r → TCPServer.step junk (TCPServer.World g th) (TCPServer.World (set_reg r g) th).
Proof. intros Hs. inversion Hs; subst; [by eapply TCPServer.w_use|by apply TCPServer.w_open]. Qed.

(** What the clients do to the heap is something the servers allow for. *)
Lemma heap_steps_servers r r' : rtc heap_step r r' →
  ∀ g th, reg g = r → rtc (TCPServer.step junk) (TCPServer.World g th) (TCPServer.World (set_reg r' g) th).
Proof.
  induction 1 as [r|r r1 r' Hs _ IH]; intros g th E.
  - destruct g. cbn in E. by subst.
  - eapply rtc_l; [apply heap_step_server; by rewrite E|]. exact (IH (set_reg r1 g) th eq_refl).
Qed.

Lemma move_heap w w' : TCPClient.move junk w w' → sorted (TCPClient.connections_ (TCPClient.shared w)) →
  rtc heap_step (TCPClient.heap w) (TCPClient.heap w').
Proof.
  intros Hs Hsort. destruct Hs as [g r cs i c now cr b c' g' r' Ei En Ef E|g r cs i c now c' r' Ei E
    |g r cs i c n now tmo env ok fds c' g' r' Ei E|g r cs i c Ei|g r cs i c Ei|g r cs i c a now el next r' Ei E
    |g r cs i c now wenv g' r' fds Ei E]; cbn in *.
  - apply connect_begin_heap in E as (_ & _ & [(_ & -> & _)|(_ & p & o & o' & _ & Eo & Ho & -> & _)]); [done| |done].
    by eapply rtc_once, h_use.
  - unfold TCPClient.connect_wait in E. destruct (map_find _ _); [|done].
    apply attach_heap in E as (o & o' & Eo & Ho & -> & _). by eapply rtc_once, h_use.
  - apply attempt_heap in E as (_ & [(_ & _ & -> & _)|(o & o' & Ho & Hre & Hsame & _ & _ & [(_ & _ & ->)|(_ & -> & _)])]);
      [done|by apply rtc_once, h_open|]. eapply rtc_l; [by apply (h_open _ o)|]. eapply rtc_once, h_use; [|done].
    cbn. apply lookup_insert_eq.
  - done.
  - done.
  - apply close_section_heap in E as (p & o & o' & _ & Eo & _ & Ho & ->). by eapply rtc_once, h_use.
  - by apply close_release_heap in E as (? & _).
Qed.

(** A run of the process is a run of its servers, and one of its clients. *)
Lemma process_wf w w' : TCPClient.world_wf (client_world w) → step junk w w' → TCPClient.world_wf (client_world w').
Proof.
  intros H Hs. destruct Hs as [w sw' Hs|w cw' Hs]; [by destruct H|].
  pose proof (TCPClient.client_move_wf junk _ _ H Hs) as H'. by destruct cw'.
Qed.

Lemma process_servers w w' :
  TCPClient.world_wf (client_world w) → step junk w w' → rtc (TCPServer.step junk) (sv w) (sv w').
Proof.
  intros H Hs. destruct Hs as [w sw' Hs|w cw' Hs]; [by apply rtc_once|].
  apply move_heap in Hs; [|apply (TCPClient.wf_sorted _ H)]. destruct w as [[g th] cg cs]. by eapply heap_steps_servers.
Qed.

Lemma process_clients w w' : step junk w w' → rtc (TCPClient.step junk) (client_world w) (client_world w').
Proof.
  intros Hs. destruct Hs as [w sw' Hs|w cw' Hs]; apply rtc_once.
  - exact (TCPClient.c_heap junk (shared w) (heap w) _ (clients w)).
  - apply TCPClient.c_move. by destruct cw'.
Qed.

Lemma reachable_clients_wf w : reachable junk w → TCPClient.world_wf (client_world w).
Proof.
  intros Hr. refine (invariant_rtc (step junk) (λ w, TCPClient.world_wf (client_world w)) _ _ _ Hr).
  { intros w1 w2. apply process_wf. }
  split; cbn; [apply sorted_nil|done|intros i a (? & ? & [=] & _)|intros i j a (? & ? & [=] & _)|by intros i c].
Qed.

Lemma reachable_servers w : reachable junk w → TCPServer.reachable junk (sv w).
Proof.
  intros Hr. unfold TCPServer.reachable.
  refine (proj2 (invariant_rtc (step junk) (λ w, TCPClient.world_wf (client_world w)
    ∧ rtc (TCPServer.step junk) (TCPServer.World TCPServer.statics_init ∅) (sv w)) _ _ _ Hr)).
  { intros w1 w2 [Hwf H1] Hs. split; [by eapply process_wf|]. etrans; [exact H1|by apply process_servers]. }
  split; [|done]. apply (reachable_clients_wf process_init). constructor.
Qed.

Lemma reachable_clients w : reachable junk w → TCPClient.reachable junk (client_world w).
Proof.
  intros Hr. exists (heap process_init).
  refine (invariant_rtc (step junk) (λ w, rtc (TCPClient.step junk) (client_world process_init) (client_world w)) _ _ _ Hr);
    [|done]. intros w1 w2 H1 Hs. etrans; [exact H1|by apply process_clients].
Qed.

Lemma servers_reachable sw : TCPServer.reachable junk sw → reachable junk (Proc sw TCPClient.statics_init ∅).
Proof. apply (rtc_congruence (λ sw, Proc sw TCPClient.statics_init ∅)). intros sw1 sw2. apply (p_server junk (Proc sw1 _ _)). Qed.

(** ** The clients in the typed heap *)

Lemma typed_clients_keeps g g' cg cs : keeps g g' → typed_clients g cg cs → typed_clients g' cg cs.
Proof. intros Hk []. split; eauto using keeps_opened. Qed.

Lemma typed_clients_insert g cg cs i c ph :
  typed_clients g cg cs → (∀ p, TCPClient.conn_ c = Some p → opened g p) →
  (ph = Connected → is_Some (TCPClient.conn_ c)) → typed_clients g cg (<[i := (c, ph)]> cs).
Proof.
  intros [] Hc Hph. split; [done|done| |].
  - intros j d ph' p [[-> [= <- <-]]|[_ E]]%lookup_insert_Some; eauto.
  - intros j d [[-> [= <- ->]]|[_ E]]%lookup_insert_Some; eauto.
Qed.

Lemma typed_clients_statics g cg cg' cs :
  typed_clients g cg cs →
  (∀ a p, map_find a (TCPClient.connections_ cg') = Some p → opened g p) →
  (∀ p, p ∈ TCPClient.recycle_connections_ cg' → opened g p) → typed_clients g cg' cs.
Proof. intros [] H1 H2. by split. Qed.

Lemma set_object_opened g p o o' :
  objects (reg g) !! p = Some o → same_peer o o' → opened g p → opened (set_reg (set_object p o' (reg g)) g) p.
Proof.
  intros Eo [_ Es _ _] (o1 & E1 & H1). exists o'. cbn. rewrite lookup_insert_eq. split; [done|]. congruence.
Qed.

Lemma move_typed g cg cs cw' :
  keeps g (set_reg (TCPClient.heap cw') g) →
  typed_clients g cg cs → sorted (TCPClient.connections_ cg) →
  TCPClient.move junk (TCPClient.World cg (reg g) cs) cw' →
  typed_clients (set_reg (TCPClient.heap cw') g) (TCPClient.shared cw') (TCPClient.clients cw').
Proof.
  intros Hk H Hsort Hs. inversion Hs as [g1 r cs1 i c now cr b c' g' r' Ei En Ef E|g1 r cs1 i c now c' r' Ei E
    |g1 r cs1 i c n now tmo env ok fds c' g' r' Ei E|g1 r cs1 i c Ei|g1 r cs1 i c Ei|g1 r cs1 i c a now el next r' Ei E
    |g1 r cs1 i c now wenv g' r' fds Ei E];
    subst; cbn in *; apply (typed_clients_keeps _ _ _ _ Hk) in H.
  - apply connect_begin_heap in E as (Hc & Hr & E); [|done]. apply typed_clients_insert.
    + apply (typed_clients_statics _ cg); [done| |].
      * intros a p Ep%Hc. by eapply c_connections.
      * intros p [Hp|[a Ep]]%Hr; [by eapply c_recycled|by eapply c_connections].
    + intros p Ep. destruct E as [(_ & _ & Ec)|(_ & q & o & o' & Eq & _ & _ & _ & Ec)]; [congruence|].
      assert (p = q) as -> by congruence. by eapply c_connections.
    + destruct E as [(Hb & _)|(-> & q & o & o' & _ & _ & _ & _ & Ec)]; [by destruct b|]. rewrite Ec. by eexists.
  - unfold TCPClient.connect_wait in E. destruct (map_find _ _) as [q|] eqn:Eq; [|done].
    apply attach_heap in E as (o & o' & _ & _ & _ & Ec).
    apply typed_clients_insert; [done|intros p Ep|intros _; rewrite Ec; by eexists].
    assert (p = q) as -> by congruence. by eapply c_connections.
  - apply attempt_heap in E as (Er & [(-> & -> & -> & Ec)|(o & o' & Ho & _ & Hsame & Ec & _ & E)]).
    { apply typed_clients_insert; [done| |done]. rewrite Ec. intros p. by apply (c_conn _ _ _ H i c (Dialling (S n))). }
    assert (opened (set_reg r' g) (fresh_ (reg g))) as Ho'.
    { destruct E as [(_ & _ & ->)|(_ & -> & _)]; eexists; cbn; rewrite lookup_insert_eq; (split; [done|]); [done|].
      destruct Hsame. congruence. }
    apply typed_clients_insert; [|intros p; rewrite Ec; by intros [= <-]|intros _; rewrite Ec; by eexists].
    destruct E as [(_ & -> & _)|(_ & _ & Ecs)]; [done|]. apply (typed_clients_statics _ cg); [done| |].
    + intros a p. rewrite Ecs, map_find_insert by done. case_decide; [|by apply (c_connections _ _ _ H)].
      destruct (map_find (TCPClient.node_address c) _) eqn:Ef; cbn; [|by intros [= <-]]. intros [= <-].
      by apply (c_connections _ _ _ H _ _ Ef).
    + intros p. rewrite Er. apply (c_recycled _ _ _ H).
  - apply typed_clients_insert; [done| |done]. intros p. by apply (c_conn _ _ _ H i c (Dialling 0)).
  - apply typed_clients_insert; [done| |done]. intros p. exact (c_conn _ _ _ H i c Connected p Ei).
  - apply typed_clients_insert; [done| |by destruct next]. intros p. exact (c_conn _ _ _ H i c (TCPClient.Stopping a) p Ei).
  - apply close_release_heap in E as (_ & Hc & Hr).
    assert (typed_clients (set_reg r' g) g' cs) as [].
    { apply (typed_clients_statics _ cg); [done| |].
      - intros a p Ep%Hc. by eapply c_connections.
      - intros p Hp%Hr. by eapply c_recycled. }
    split; [done|done| |].
    + intros j d ph p [_ Ej]%lookup_delete_Some. eauto.
    + intros j d [_ Ej]%lookup_delete_Some. eauto.
Qed.

Lemma servers_keep sw sw' :
  world_typed sw → listener (globals sw) → rtc (TCPServer.step junk) sw sw' →
  world_typed sw' ∧ listener (globals sw') ∧ keeps (globals sw) (globals sw').
Proof.
  intros H Hl Hr. induction Hr as [sw|sw sw1 sw' Hs _ IH]; [done|].
  destruct (server_step_keeps sw sw1 H Hl Hs) as [Hl1 Hk]. pose proof (typed_invariant junk sw sw1 H Hs) as H1.
  destruct (IH H1 Hl1) as (? & ? & ?). split_and!; [done..|by etrans].
Qed.

#[export] Instance process_typed_invariant : Invariant (step junk) process_typed.
Proof.
  intros w w' [Ht Hl Hwf Hc] Hs. pose proof (process_wf w w' Hwf Hs) as Hwf'.
  destruct (servers_keep (sv w) (sv w') Ht Hl (process_servers w w' Hwf Hs)) as (Ht' & Hl' & Hk).
  split; [done..|]. destruct Hs as [w sw' Hs|w cw' Hs]; [by eapply typed_clients_keeps|].
  destruct w as [[g th] cg cs]. apply (move_typed g cg cs); [done..|apply (TCPClient.wf_sorted _ Hwf)|done].
Qed.

Lemma reachable_process_typed w : reachable junk w → process_typed w.
Proof.
  intros Hr. refine (invariant_rtc (step junk) process_typed _ _ _ Hr). split.
  - apply (reachable_typed junk). constructor.
  - intros p o [=].
  - apply (reachable_clients_wf process_init). constructor.
  - split; cbn; [done|by intros p ?%elem_of_nil|done|done].
Qed.

(** ** No use after the end *)

Lemma opened_live g p : opened g p → is_Some (objects (reg g) !! p).
Proof. intros (o & E & _). by exists o. Qed.

Lemma alive_attach now p c r : is_Some (objects r !! p) → alive (TCPClient.attach junk now p c r).
Proof.
  intros H. unfold TCPClient.attach. apply alive_bind; [by apply alive_deref|]. intros o _.
  apply alive_bind; [apply alive_conn_start|done].
Qed.

Lemma alive_connect_begin now c cg r :
  (∀ p, map_find (TCPClient.node_address c) (TCPClient.connections_ cg) = Some p → is_Some (objects r !! p)) →
  alive (TCPClient.connect_begin junk now c cg r).
Proof.
  intros H. unfold TCPClient.connect_begin. destruct (map_find _ _) as [p|] eqn:Ep.
  - pose proof (H p eq_refl) as Hp.
    apply alive_bind; [by apply alive_deref|]. intros o _. destruct (reuseable_ (conn o)); [|by case_bool_decide].
    apply alive_bind; [by apply alive_attach|]. by intros [].
  - by case_bool_decide.
Qed.

Lemma alive_connect_wait now c cg r :
  (∀ p, map_find (TCPClient.node_address c) (TCPClient.connections_ cg) = Some p → is_Some (objects r !! p)) →
  alive (TCPClient.connect_wait junk now c cg r).
Proof.
  intros H. unfold TCPClient.connect_wait. destruct (map_find _ _) as [p|] eqn:Ep; [|done].
  by apply alive_attach, H.
Qed.

Lemma alive_dial timeout env : ∀ elapsed, alive (TCPClient.dial timeout elapsed env).
Proof. induction env as [|[[err e] later] env IH]; intros elapsed; cbn [TCPClient.dial]; alive. Qed.

Lemma alive_attempt now timeout env c cg r : alive (TCPClient.attempt junk now timeout env c cg r).
Proof.
  unfold TCPClient.attempt. destruct (_ <? 0); [done|]. apply alive_bind; [apply alive_dial|]. intros d _.
  destruct (negb d); [done|]. destruct (negb _); [done|]. apply alive_bind.
  - unfold TCPClient.hello. apply alive_bind; [apply alive_resize|]. intros s1 _.
    apply alive_bind; [apply alive_memcpy|]. intros s2 _. apply alive_memcpy.
  - intros m _. destruct (negb _); [done|]. destruct (TCPClient.ae_handshake env); [|done].
    apply alive_bind; [apply alive_conn_start|done].
Qed.

Lemma alive_close_section now elapsed a c r :
  (∀ p, TCPClient.conn_ c = Some p → is_Some (objects r !! p)) → alive (TCPClient.close_section now elapsed a c r).
Proof.
  intros Hc. unfold TCPClient.close_section. apply alive_bind; [alive|]. intros p Ep.
  assert (TCPClient.conn_ c = Some p) as Eq by (revert Ep; destruct (TCPClient.conn_ c); [by intros [= ->]|done]).
  apply alive_bind; [by apply alive_deref, Hc|]. intros o _. apply alive_bind; [apply alive_stop_section|by intros []].
Qed.

Lemma alive_close_release now wenv cg r :
  lead (TCPClient.connections_ cg) r → alive (TCPClient.close_release junk now wenv cg r).
Proof.
  intros Hl. unfold TCPClient.close_release. apply alive_bind.
  { destruct (_ =? 0); [|done]. unfold TCPClient.get_unrecv_size. apply (alive_for_each _ (λ _, True)); [|done].
    intros ret [a x] Hin _. split; [|done]. apply alive_bind; [by eapply alive_deref, Hl|done]. }
  intros u _. destruct (_ && _); [|done]. apply alive_bind; [|by intros []].
  unfold TCPClient.close_all. apply (alive_for_each _ (λ st, updates r st.1)); [|done].
  intros [r1 f1] [a x] Hin Hu. cbn [fst] in *. pose proof (lead_updates _ _ _ Hu Hl a x Hin) as Hx. split.
  - apply alive_bind; [by apply alive_deref|]. intros oy _.
    apply alive_bind; [apply alive_close_object|by intros []].
  - intros [r2 f2] E1. cbn [fst]. apply bind_Ok in E1 as (oy & Ey%deref_Ok & E1).
    apply bind_Ok in E1 as ([oy' more] & Ec%close_object_peer & E1). injection E1 as <- <-.
    trans r1; [done|]. by eapply set_object_updates.
Qed.

Lemma alive_add_to_epoll r p : is_Some (objects r !! p) → alive (TCPServer.add_connection_to_epoll r p).
Proof. intros H. unfold TCPServer.add_connection_to_epoll. apply alive_bind; [by apply alive_deref|done]. Qed.
End lemmas.
End Process.
