(* ===== verification/Lifetime.v ===== *)
(** The end of a connection ([src/server.cpp], [src/client.cpp], [src/net_io.cpp]).
    A [Connection] is freed with the last [shared_ptr] to it, but the epoll set and
    the events a round of [loop_once] has fetched hold plain pointers.  The processes
    of [Process] are extended with those events, which are handled one by one while
    the other threads move, and with the references of every [BasicIO]; what holds a
    connection is then a predicate on the state. *)
From Stdlib Require Import Strings.Byte.
From S2P Require Import Prelude Timer CycleBuffer SimpleBuffer Transport Connection StdMap Work Server.
From S2P Require Import Heap Client Process.
#[local] Open Scope Z_scope.

Module Lifetime.
Import TCPServer (objects, epoll, reg, set_reg, globals, servers, listen_conn_, server_connections_, listening,
  same_peer, event_env, EPOLLIN, MWait, MConnecting, MServing, MDone).
Import TCPClient (Connected, Dialling, Closing).
Import Heap Process.

(** * The system *)

(** An event [epoll_wait] returned: [data.ptr], [events], and what the kernel
    answers while it is handled. *)
Definition event : Type := Z * Z * event_env.

Record state := State {
  proc : process;
  rounds : gmap bytes (list event);        (** what a round of a task has yet to handle *)
  maps : gmap bytes (gset Z)               (** [connection_map] of the [BasicIO] of a task *)
}.

Definition gl (w : state) : TCPServer.statics := globals (sv (proc w)).
Definition tasks (w : state) : gmap bytes (TCPServer.server * TCPServer.main_phase) := servers (sv (proc w)).

Definition set_server (g : TCPServer.statics) (th : gmap bytes (TCPServer.server * TCPServer.main_phase))
    (w : state) : state :=
  State (Proc (TCPServer.World g th) (shared (proc w)) (clients (proc w))) (rounds w) (maps w).
Definition set_rounds (rs : gmap bytes (list event)) (w : state) : state := State (proc w) rs (maps w).

(** [connection_map[i] = conn]. *)
Definition keep (t : bytes) (c : option Z) (w : state) : state :=
  match c with
  | Some p => State (proc w) (rounds w) (<[t := {[p]} ∪ default ∅ (maps w !! t)]> (maps w))
  | None => w
  end.

(** The kernel reports events of the descriptors in its set that are open. *)
Definition polled (g : TCPServer.statics) (p : Z) : Prop :=
  p ∈ epoll (reg g) ∧ ∃ o, objects (reg g) !! p = Some o ∧ state_ (conn o) ≠ Closed.

(** What the users of a connection and its own threads do to it: they send and receive,
    start and stop tasks; and a TLS connection ends its handshake. *)
Inductive uses : conn_obj → conn_obj → Prop :=
  | u_buffers o o' : same_fields (conn o) (conn o') → uses o o'
  | u_handshake o :
      state_ (conn o) = Invalid → uses o (Obj (set_state Connection.Connected (conn o)) (Work.tasks o)).

Section system.
Context (junk : nat → byte).

(** [start] of a server, what its loop thread does (its phases, and a round: events
    fetched and handled one by one), [stop], and the end of the round; [put_connection]
    of a thread of [BasicIO::init], the clients, and the other threads of [init], which
    store the connection of their client and put it into the epoll set; the users of
    the connections; the destructor of a [BasicIO], which runs when the server stopped
    and the clients are closed. *)
Inductive step : relation state :=
  | f_start w t s now port ssl_ok env s' g' :
      tasks w !! t = None → TCPServer.stop_ s = false → server_connections_ s = [] →
      TCPServer.start junk now t port ssl_ok env s (gl w) = (true, s', g') →
      step w (set_server g' (<[t := (s', MWait)]> (tasks w)) w)
  | f_start_fails w t s now port ssl_ok env s' g' :
      tasks w !! t = None →
      TCPServer.start junk now t port ssl_ok env s (gl w) = (false, s', g') → step w (set_server g' (tasks w) w)
  | f_phase w t s ph now elapsed timeout ph' g' fds :
      tasks w !! t = Some (s, ph) → rounds w !! t = None →
      TCPServer.loop_main_step junk now s (gl w) ph elapsed timeout [] = Ok (ph', g', fds) →
      step w (set_server g' (<[t := (s, ph')]> (tasks w)) w)
  | f_fetch w t s ph active :
      tasks w !! t = Some (s, ph) → listening ph = true → rounds w !! t = None →
      Forall (λ e : event, polled (gl w) e.1.1) active →
      step w (set_rounds (<[t := active]> (rounds w)) w)
  | f_event w t s ph now p events env rest g' fds :
      tasks w !! t = Some (s, ph) → rounds w !! t = Some ((p, events, env) :: rest) →
      TCPServer.handle_event junk now s (gl w) p events env = Ok (g', fds) →
      step w (set_rounds (<[t := rest]> (rounds w)) (set_server g' (tasks w) w))
  | f_round_end w t : rounds w !! t = Some [] → step w (set_rounds (delete t (rounds w)) w)
  | f_stop w t s ph :
      tasks w !! t = Some (s, ph) → TCPServer.stop_ s = false →
      step w (set_server (gl w) (<[t := (TCPServer.set_stop s, ph)]> (tasks w)) w)
  | f_joined w t s now wenv s' g' fds :
      tasks w !! t = Some (s, MDone) → TCPServer.stop_ s = true →
      TCPServer.stop_release junk now wenv s (gl w) = Ok (s', g', fds) →
      step w (set_server g' (delete t (tasks w)) w)
  | f_put w t s ph now node_id (ok : bool) s' r' :
      tasks w !! t = Some (s, ph) →
      TCPServer.put_connection junk now s (reg (gl w)) node_id = Ok (ok, s', r') →
      step w (keep t (if ok then TCPServer.get_connection s' node_id else None)
                   (set_server (set_reg r' (gl w)) (<[t := (s', ph)]> (tasks w)) w))
  | f_client w cw :
      TCPClient.move junk (client_world (proc w)) cw →
      step w (State (Proc (with_heap (TCPClient.heap cw) (sv (proc w))) (TCPClient.shared cw) (TCPClient.clients cw))
                    (rounds w) (maps w))
  | f_connected w i c p r' :
      clients (proc w) !! i = Some (c, Connected) → TCPClient.conn_ c = Some p →
      (if TCPClient.is_first_connect_ c then TCPServer.add_connection_to_epoll (reg (gl w)) p
       else Ok (reg (gl w))) = Ok r' →
      step w (keep (TCPClient.task_id_ c) (Some p) (set_server (set_reg r' (gl w)) (tasks w) w))
  | f_use w p o o' :
      objects (reg (gl w)) !! p = Some o → uses o o' →
      step w (set_server (set_reg (TCPServer.set_object p o' (reg (gl w))) (gl w)) (tasks w) w)
  | f_destroyed w t :
      tasks w !! t = None →
      (∀ i c ph, clients (proc w) !! i = Some (c, ph) → TCPClient.task_id_ c ≠ t) →
      step w (State (proc w) (rounds w) (delete t (maps w))).

Definition lifetime_init : state := State process_init ∅ ∅.
Definition reachable (w : state) : Prop := rtc step lifetime_init w.
End system.

(** ** What holds a connection *)

(** The lists of the servers, and [listen_conn_], whose object [stop] deletes. *)
Definition owned (g : TCPServer.statics) (p : Z) : Prop :=
  (∃ cid, map_find cid (TCPServer.connections_ (reg g)) = Some p)
  ∨ p ∈ TCPServer.recycle_connections_ (reg g) ∨ listen_conn_ g = Some p.

(** The lists of the clients, and [conn_] of each. *)
Definition client_ref (cg : TCPClient.statics) (cs : gmap Z (TCPClient.client * TCPClient.phase)) (p : Z) : Prop :=
  (∃ a, map_find a (TCPClient.connections_ cg) = Some p) ∨ p ∈ TCPClient.recycle_connections_ cg
  ∨ ∃ i c ph, cs !! i = Some (c, ph) ∧ TCPClient.conn_ c = Some p.

(** The [shared_ptr]s to [p]. *)
Inductive holds (w : state) (p : Z) : Prop :=
  | by_servers : owned (gl w) p → holds w p
  | by_server t s ph id :
      tasks w !! t = Some (s, ph) → map_find id (server_connections_ s) = Some p → holds w p
  | by_clients : client_ref (shared (proc w)) (clients (proc w)) p → holds w p
  | by_io t m : maps w !! t = Some m → p ∈ m → holds w p.

(** A pointer among the events a round has yet to handle. *)
Definition in_flight (w : state) (t : bytes) (p : Z) : Prop :=
  ∃ active ev env, rounds w !! t = Some active ∧ (p, ev, env) ∈ active.

(** ** The invariant *)

(** Closed, or one of the connections clients share. *)
Definition shared_or_closed (g : TCPServer.statics) (cg : TCPClient.statics) (p : Z) : Prop :=
  (∃ o, objects (reg g) !! p = Some o ∧ is_server_ (conn o) = false ∧ state_ (conn o) = Closed)
  ∨ ∃ a, map_find a (TCPClient.connections_ cg) = Some p.

Record lifetime_wf (w : state) : Prop := {
  l_typed : process_typed (proc w);
  l_count : Z.of_nat (size (tasks w)) ≤ TCPServer.s_task_count_ (gl w);
  l_listen p : listen_conn_ (gl w) = Some p → TCPServer.is_inited_ (gl w) = true;
  l_epoll p : p ∈ epoll (reg (gl w)) → owned (gl w) p ∨ shared_or_closed (gl w) (shared (proc w)) p;
  l_client i c p :
    clients (proc w) !! i = Some (c, Connected) → TCPClient.conn_ c = Some p →
    shared_or_closed (gl w) (shared (proc w)) p;
  l_rounds t active :
    rounds w !! t = Some active →
    (∃ s ph, tasks w !! t = Some (s, ph) ∧ listening ph = true)
    ∧ ∀ p ev env, (p, ev, env) ∈ active → owned (gl w) p ∨ opened (gl w) p
}.

(** * Lemmas *)

Lemma uses_peer o o' : uses o o' → same_peer o o'.
Proof. intros [? ? H|? E]; [by apply same_fields_conn|]. split; [done..| |by left]. cbn. congruence. Qed.

(** What the servers do, short of the last [stop]: they keep what they own and what
    was opened, and watch only what they own besides. *)
Record serves (g g' : TCPServer.statics) : Prop := {
  sv_keeps : keeps g g';
  sv_owned p : owned g p → owned g' p;
  sv_epoll p : p ∈ epoll (reg g') → p ∈ epoll (reg g) ∨ owned g' p;
  sv_listen p : (∀ q, listen_conn_ g = Some q → TCPServer.is_inited_ g = true) →
    listen_conn_ g' = Some p → TCPServer.is_inited_ g' = true
}.

Lemma serves_same g g' :
  reg g' = reg g → listen_conn_ g' = listen_conn_ g → TCPServer.is_inited_ g' = TCPServer.is_inited_ g →
  serves g g'.
Proof.
  intros Er El Ei. split; unfold keeps, owned; rewrite ?Er, ?El, ?Ei; eauto. intros p o E _. by exists o.
Qed.

Lemma serves_updates g r' : updates (reg g) r' → serves g (set_reg r' g).
Proof.
  intros Hu. split.
  - apply keeps_grows, (u_grows _ _ Hu).
  - intros p. unfold owned. cbn. by rewrite (u_connections _ _ Hu), (u_recycled _ _ Hu).
  - intros p Hp. left. by apply (u_epoll _ _ Hu).
  - intros p H. apply H.
Qed.

Section lemmas.
Context (junk : nat → byte).

Lemma register_keeps_lists now cfd cid r :
  (∀ p, p ∈ TCPServer.recycle_connections_ r → p ∈ TCPServer.recycle_connections_ (TCPServer.register junk now cfd cid r))
  ∧ ∀ p, p ∈ epoll (TCPServer.register junk now cfd cid r) → p = TCPServer.fresh_ r ∨ p ∈ epoll r.
Proof. unfold TCPServer.register. destruct (map_find cid _); cbn; set_solver. Qed.

Lemma serves_register g th now cfd cid :
  typed g th → listener g → serves g (set_reg (TCPServer.register junk now cfd cid (reg g)) g).
Proof.
  intros Ht Hl. destruct (TCPServer.register_spec junk now cfd cid (reg g)) as (Ef & _ & _ & Eo & Er);
    [apply (t_connections _ _ Ht)|].
  destruct (register_keeps_lists now cfd cid (reg g)) as [Hr He]. split.
  - by apply (listener_register junk g th).
  - intros p [[c Ec]|[Hp|Hp]]; [|right; left; by apply Hr|by right; right].
    destruct (decide (c = cid)) as [->|Hne]; [right; left; by apply Er|left; exists c; cbn; by rewrite Eo].
  - intros p [->|Hp]%He; [right; left; by exists cid|by left].
  - intros p H. apply H.
Qed.

Lemma serves_event now s g th p ev env g' fds :
  typed g th → listener g → TCPServer.handle_event junk now s g p ev env = Ok (g', fds) →
  serves g g' ∧ TCPServer.s_task_count_ g' = TCPServer.s_task_count_ g.
Proof.
  intros Ht Hl (r' & -> & [Hu|[cid ->]])%handle_event_inv; (split; [|done]); [by apply serves_updates|].
  by eapply serves_register.
Qed.

(** Between two rounds the loop thread moves only the count of listening threads. *)
Lemma phase_quiet now s g ph elapsed timeout ph' g' fds :
  TCPServer.loop_main_step junk now s g ph elapsed timeout [] = Ok (ph', g', fds) →
  ∃ n, g' = TCPServer.set_listen_count n g.
Proof.
  assert (∃ n, g = TCPServer.set_listen_count n g) as Hg by (exists (TCPServer.listen_count_ g); by destruct g).
  unfold TCPServer.loop_main_step. intros E.
  destruct ph; cbn in E; [apply bind_Ok in E as ([] & _ & E)|..];
    repeat (match type of E with context [if ?b then _ else _] => destruct b end; cbn in E);
    injection E as <- <- <-; eauto.
Qed.

Lemma serves_start now t port ssl_ok env s g th (b : bool) s' g' :
  typed g th → listener g → (∀ q, listen_conn_ g = Some q → TCPServer.is_inited_ g = true) →
  TCPServer.start junk now t port ssl_ok env s g = (b, s', g') →
  serves g g' ∧ TCPServer.s_task_count_ g' = TCPServer.s_task_count_ g + 1.
Proof.
  intros Ht Hl Hi E. pose proof (proj2 (listener_start junk _ _ _ _ _ _ _ th _ _ _ Ht Hl E)) as Hk.
  unfold TCPServer.start, TCPServer.init in E.
  destruct (TCPServer.is_inited_ g) eqn:Ei; [injection E as <- <- <-; split; [|done]; by apply serves_same|].
  repeat (match type of E with context [if ?b then _ else _] => destruct b end; cbn in E);
    injection E as <- <- <-; (split; [|done]); try (by apply serves_same). split; [done| | |done].
  - intros p [Hc|[Hr|Hp]]; [by left|by right; left|]. naive_solver.
  - intros p. cbn. intros [->%elem_of_singleton|Hp]%elem_of_union; [right; by right; right|by left].
Qed.

(** [stop] of a task that is not the last one; the last one takes everything out of
    the epoll set. *)
Lemma serves_stop now wenv s g s' g' fds :
  listener g → TCPServer.stop_release junk now wenv s g = Ok (s', g', fds) →
  keeps g g' ∧ TCPServer.s_task_count_ g' = TCPServer.s_task_count_ g - 1
  ∧ (serves g g' ∨ TCPServer.s_task_count_ g' = 0 ∧ epoll (reg g') = ∅ ∧ listen_conn_ g' = None).
Proof.
  intros Hl E. split; [by apply (listener_stop_release junk now wenv s g s' g' fds)|].
  unfold TCPServer.stop_release in E.
  apply bind_Ok in E as (u & _ & E). cbn in E. destruct (_ && _) eqn:Ez.
  - apply bind_Ok in E as ([r2 f] & _ & E). injection E as <- <- <-. cbn in *. split; [done|]. right.
    apply andb_true_iff in Ez as [Ez%Z.eqb_eq _]. done.
  - injection E as <- <- <-. split; [done|]. left.
    by apply serves_same.
Qed.

Lemma serves_put now s g node_id (ok : bool) s' r' :
  TCPServer.put_connection junk now s (reg g) node_id = Ok (ok, s', r') → serves g (set_reg r' g).
Proof. intros E. apply serves_updates. by eapply put_connection_updates. Qed.

(** ** The clients *)

Definition closed (r : TCPServer.registry) (p : Z) : Prop :=
  ∃ o, objects r !! p = Some o ∧ state_ (conn o) = Closed.

Lemma closed_updates r r' p : updates r r' → closed r p → closed r' p.
Proof. intros Hu (o & E & Ec). destruct (u_grows _ _ Hu _ _ E) as (o' & E' & []). exists o'. auto. Qed.

Lemma keeps_shared g g' cg p : keeps g g' → shared_or_closed g cg p → shared_or_closed g' cg p.
Proof.
  intros Hk [(o & E & Es & Ec)|H]; [left|by right]. destruct (Hk p o E Es) as (o' & E' & []).
  exists o'. split_and!; [done|congruence|auto].
Qed.

Lemma closed_shared g cg p : opened g p → closed (reg g) p → shared_or_closed g cg p.
Proof. intros (o & E & Es) (o' & E' & Ec). left. exists o. split_and!; [done..|congruence]. Qed.

(** What the clients do leaves the lists and the epoll set of the servers alone. *)
Lemma heap_steps_quiet r r' : rtc heap_step r r' →
  TCPServer.connections_ r' = TCPServer.connections_ r
  ∧ TCPServer.recycle_connections_ r' = TCPServer.recycle_connections_ r ∧ epoll r' = epoll r.
Proof. induction 1 as [r|r r1 r' Hs _ (-> & -> & ->)]; [done|]. by destruct Hs. Qed.

(** A client leaves the shared connections alone, or takes one away that is closed. *)
Lemma connect_begin_takes now c cg r b c' cg' r' a p :
  TCPClient.connect_begin junk now c cg r = Ok (b, c', cg', r') → sorted (TCPClient.connections_ cg) →
  map_find a (TCPClient.connections_ cg) = Some p →
  map_find a (TCPClient.connections_ cg') = Some p
  ∨ ∃ o, objects r !! p = Some o ∧ reuseable_ (conn o) = false.
Proof.
  unfold TCPClient.connect_begin. intros E Hs Ea. destruct (map_find (TCPClient.node_address c) _) as [q|] eqn:Eq; cbn in Eq.
  - apply bind_Ok in E as (o & Eo%deref_Ok & E). destruct (reuseable_ (conn o)) eqn:Er.
    + apply bind_Ok in E as ([] & _ & E). injection E as <- <- <- <-. by left.
    + destruct (decide (a = TCPClient.node_address c)) as [->|Hne].
      { right. exists o. split; [congruence|done]. }
      left. case_bool_decide; injection E as <- <- <- <-; cbn; by rewrite map_find_erase, decide_False.
  - left. case_bool_decide; by injection E as <- <- <- <-.
Qed.

Lemma close_all_closes now wenv cg r r' fds a p :
  TCPClient.close_all junk now wenv cg r = Ok (r', fds) → (a, p) ∈ TCPClient.connections_ cg → closed r' p.
Proof.
  unfold TCPClient.close_all. generalize (@nil Z) as f. generalize (TCPClient.connections_ cg) as l.
  set (body := λ '(r, fds) '(_, p), _). intros l.
  assert (∀ r1 f1 x q r2 f2, body (r1, f1) (x, q) = Ok (r2, f2) → updates r1 r2 ∧ closed r2 q) as Hb.
  { intros r1 f1 x q r2 f2 E. cbn in E. apply bind_Ok in E as (o & Eo%deref_Ok & E).
    apply bind_Ok in E as ([o' more] & Ec & E). injection E as <- <-. split.
    - eapply set_object_updates; [done|by eapply close_object_peer].
    - exists o'. cbn. rewrite lookup_insert_eq. split; [done|]. by apply close_object_spec in Ec as []. }
  revert r. induction l as [|[b q] l IH]; intros r f E Hin; [by apply elem_of_nil in Hin|].
  cbn [for_each] in E. apply bind_Ok in E as ([r1 f1] & E1 & E).
  destruct (decide ((a, p) ∈ l)) as [Hl|Hl]; [by eapply IH|].
  apply elem_of_cons in Hin as [[= -> ->]|Hin]; [|done]. destruct (Hb _ _ _ _ _ _ E1) as [_ Hc].
  refine (for_each_inv body (λ st, closed st.1 q) l (r1, f1) (r', fds) _ Hc E).
  intros [r2 f2] [x y] [r3 f3] _ H2 E2. cbn [fst] in *. destruct (Hb _ _ _ _ _ _ E2) as [Hu _].
  by eapply closed_updates.
Qed.

(** The last [close] closes what it takes away. *)
Lemma close_takes now wenv cg r cg' r' fds a p :
  TCPClient.close_release junk now wenv cg r = Ok (cg', r', fds) → sorted (TCPClient.connections_ cg) →
  map_find a (TCPClient.connections_ cg) = Some p →
  map_find a (TCPClient.connections_ cg') = Some p ∨ closed r' p ∧ TCPClient.task_count_ cg' = 0.
Proof.
  unfold TCPClient.close_release. intros E Hs Ea.
  apply bind_Ok in E as (u & _ & E). destruct (_ && _) eqn:Ez; [|injection E as <- <- <-; by left].
  apply bind_Ok in E as ([r2 f2] & Ec & E). injection E as <- <- <-. right. split.
  - eapply close_all_closes; [done|]. by apply map_find_elem.
  - apply andb_true_iff in Ez as [Ez%Z.eqb_eq _]. exact Ez.
Qed.

Lemma move_shared g th cg cs cw :
  typed g th → typed_clients g cg cs → TCPClient.world_wf (TCPClient.World cg (reg g) cs) →
  keeps g (set_reg (TCPClient.heap cw) g) → TCPClient.move junk (TCPClient.World cg (reg g) cs) cw →
  let g' := set_reg (TCPClient.heap cw) g in
  (∀ p, shared_or_closed g cg p → shared_or_closed g' (TCPClient.shared cw) p)
  ∧ ∀ i c p, TCPClient.clients cw !! i = Some (c, Connected) → TCPClient.conn_ c = Some p →
      cs !! i = Some (c, Connected) ∨ shared_or_closed g' (TCPClient.shared cw) p.
Proof.
  intros Ht Hc [Hs _ Ho _ _] Hk Hm g'.
  assert (∀ cg', (∀ a p, map_find a (TCPClient.connections_ cg) = Some p →
      map_find a (TCPClient.connections_ cg') = Some p ∨ closed (reg g') p) →
    ∀ p, shared_or_closed g cg p → shared_or_closed g' cg' p) as Hshared.
  { intros cg' H p [Hp|[a Ea]]; [apply (keeps_shared g); [done|by left]|].
    destruct (H a p Ea) as [H'|H']; [right; by exists a|]. apply closed_shared; [|done].
    eapply keeps_opened; [done|by eapply c_connections]. }
  assert (∀ i c ph, (∀ p, ph = Connected → TCPClient.conn_ c = Some p → shared_or_closed g' (TCPClient.shared cw) p) →
    ∀ j d p, <[i := (c, ph)]> cs !! j = Some (d, Connected) → TCPClient.conn_ d = Some p →
      cs !! j = Some (d, Connected) ∨ shared_or_closed g' (TCPClient.shared cw) p) as Hins.
  { intros i c ph H j d p [[-> [= <- ->]]|[_ E]]%lookup_insert_Some Ed; [right; eauto|by left]. }
  inversion Hm as [g1 r cs1 i c now cr b c' cg' r' Ei En Ef E|g1 r cs1 i c now c' r' Ei E
    |g1 r cs1 i c n now tmo env ok fds c' cg' r' Ei E|g1 r cs1 i c Ei|g1 r cs1 i c Ei|g1 r cs1 i c a now el next r' Ei E
    |g1 r cs1 i c now wenv cg' r' fds Ei E];
    subst; cbn in *.
  - assert (∀ a p, map_find a (TCPClient.connections_ cg) = Some p →
      map_find a (TCPClient.connections_ cg') = Some p ∨ closed (reg g') p) as Ht'.
    { intros a p Ea. destruct (connect_begin_takes _ _ _ _ _ _ _ _ _ _ E Hs Ea) as [?|(o & Eo & Er)]; [by left|right].
      destruct (c_connections _ _ _ Hc _ _ Ea) as (o2 & E2 & Hside).
      assert (o2 = o) as -> by congruence. destruct (Hk p o Eo Hside) as (o' & E' & [_ _ Hcl _]).
      exists o'. split; [done|]. apply Hcl. by eapply t_settled. }
    split; [by apply Hshared|]. apply Hins. intros p Hb Ep.
    apply connect_begin_heap in E as (_ & _ & E); [|done].
    destruct E as [(Hn & _)|(_ & q & o & o' & Eq & _ & _ & _ & Ec)]; [by destruct b|].
    assert (q = p) as -> by congruence. apply (Hshared cg'); [done|]. right. by exists (TCPClient.node_address c).
  - split; [apply Hshared; by left|]. apply Hins. intros p _ Ep. unfold TCPClient.connect_wait in E.
    destruct (map_find _ _) as [q|] eqn:Eq; [|done]. apply attach_heap in E as (_ & _ & _ & _ & _ & Ec).
    assert (q = p) as -> by congruence. right. by exists (TCPClient.node_address c).
  - assert (TCPClient.owns cs i (TCPClient.node_address c)) as [_ Hnone]%Ho by (exists c, (Dialling (S n)); naive_solver).
    apply attempt_heap in E as (_ & [(-> & -> & -> & Ec)|(o & o' & _ & _ & _ & Ec & _ & E)]).
    { split; [apply Hshared; by left|by apply Hins]. }
    destruct E as [(-> & -> & _)|(-> & _ & Ecs)]; [split; [apply Hshared; by left|by apply Hins]|].
    split.
    + apply Hshared. intros a p Ea. left. rewrite Ecs, map_find_insert by done.
      case_decide as Ha; [|done]. subst a. congruence.
    + apply Hins. intros p _ Ep. right. exists (TCPClient.node_address c).
      rewrite Ecs, map_find_insert, decide_True, Hnone by done. cbn. congruence.
  - split; [apply Hshared; by left|by apply Hins].
  - split; [apply Hshared; by left|by apply Hins].
  - split; [apply Hshared; by left|apply Hins; intros p Ep; by destruct next].
  - split; [|intros j d p [_ Ej]%lookup_delete_Some; by left]. apply Hshared. intros a p Ea.
    destruct (close_takes _ _ _ _ _ _ _ _ _ E Hs Ea) as [?|[? _]]; [by left|by right].
Qed.

(** ** The steps *)

(** The steps are steps of the process. *)
Lemma step_process w w' : lifetime_wf w → step junk w w' → rtc (Process.step junk) (proc w) (proc w').
Proof.
  intros Hwf Hs. pose proof (l_rounds _ Hwf) as Hr.
  assert (∀ sw, TCPServer.step junk (sv (proc w)) sw →
    rtc (Process.step junk) (proc w) (Proc sw (shared (proc w)) (clients (proc w)))) as Hsv
    by (intros sw H; by apply rtc_once, p_server).
  assert (sv (proc w) = TCPServer.World (gl w) (tasks w)) as Ew by (by destruct w as [[[]]]).
  assert (∀ t c w0, proc (keep t c w0) = proc w0) as Ekeep by by intros t [] w0.
  rewrite Ew in Hsv.
  destruct Hs; rewrite ?Ekeep; cbn [set_server set_rounds proc]; try done.
  - by eapply Hsv, TCPServer.w_start.
  - by eapply Hsv, TCPServer.w_start_fails.
  - by eapply Hsv, TCPServer.w_loop.
  - destruct (Hr _ _ H0) as [(s0 & ph0 & Et & Eph) _]. eapply Hsv, TCPServer.w_event; [exact H| |done]. congruence.
  - by eapply Hsv, TCPServer.w_stop.
  - by eapply Hsv, TCPServer.w_joined.
  - by eapply Hsv, TCPServer.w_put.
  - by apply rtc_once, p_client.
  - destruct (TCPClient.is_first_connect_ c); [by eapply Hsv, TCPServer.w_watch|].
    injection H1 as <-. destruct w as [[[[]]]]. done.
  - eapply Hsv, TCPServer.w_use; [done|by apply uses_peer].
Qed.

Lemma wf_servers w g' th' :
  lifetime_wf w → process_typed (proc (set_server g' th' w)) → serves (gl w) g' →
  Z.of_nat (size th') ≤ TCPServer.s_task_count_ g' →
  (∀ t s ph, tasks w !! t = Some (s, ph) → is_Some (rounds w !! t) → listening ph = true →
     ∃ s' ph', th' !! t = Some (s', ph') ∧ listening ph' = true) →
  lifetime_wf (set_server g' th' w).
Proof.
  intros [] Ht [] Hn Hl. split; cbn; try done.
  - intros p. by apply sv_listen0.
  - intros p [Hp|Hp]%sv_epoll0; [|by left]. destruct (l_epoll0 p Hp); [left; auto|right; by eapply keeps_shared].
  - intros i c p Ei Ep. eapply keeps_shared; [done|by eapply l_client0].
  - intros t active Et. destruct (l_rounds0 t active Et) as [(s & ph & Es & Eph) Ha]. split; [by eapply Hl; eauto|].
    intros p ev env Hin. destruct (Ha p ev env Hin); [left; auto|right; by eapply keeps_opened].
Qed.

Lemma wf_keep t c w : lifetime_wf w → lifetime_wf (keep t c w).
Proof. intros []. by destruct c. Qed.

Lemma wf_rounds w rs :
  lifetime_wf w →
  (∀ t active, rs !! t = Some active →
     (∃ s ph, tasks w !! t = Some (s, ph) ∧ listening ph = true)
     ∧ ∀ p ev env, (p, ev, env) ∈ active → owned (gl w) p ∨ opened (gl w) p) →
  lifetime_wf (set_rounds rs w).
Proof. intros [] H. by split. Qed.

Lemma polled_known w p : lifetime_wf w → polled (gl w) p →
  owned (gl w) p ∨ opened (gl w) p ∧ ∃ a, map_find a (TCPClient.connections_ (shared (proc w))) = Some p.
Proof.
  intros H [Hp (o & Eo & Hopen)]. destruct (l_epoll _ H p Hp) as [?|[(o' & E' & _ & Ec)|[a Ea]]]; [by left|congruence|].
  right. split; [|by exists a]. by eapply c_connections; [apply (pt_clients _ (l_typed _ H))|].
Qed.

(** A thread of [init] watches the connection of its client. *)
Lemma wf_watch w p r1 :
  lifetime_wf w → updates (reg (gl w)) r1 → shared_or_closed (gl w) (shared (proc w)) p →
  let w' := set_server (set_reg (TCPServer.epoll_add p r1) (gl w)) (tasks w) w in
  process_typed (proc w') → lifetime_wf w'.
Proof.
  intros H Hu Hp w' Ht. pose proof (serves_updates _ _ Hu) as [Hk Ho He _]. destruct H. split; cbn; try done.
  - intros q [->%elem_of_singleton|[Hq|Hq]%He]%elem_of_union; [right; by eapply keeps_shared| |by left].
    destruct (l_epoll0 q Hq); [left; by apply Ho|right; by eapply keeps_shared].
  - intros i c q Ei Eq. eapply keeps_shared; [done|by eapply l_client0].
  - intros t active (Hl & Ha)%l_rounds0. split; [done|]. intros q ev env [Hq|Hq]%Ha; [left; by apply Ho|right].
    by eapply keeps_opened.
Qed.

(** A task that does not listen has no round. *)
Lemma no_round w t s ph : lifetime_wf w → tasks w !! t = Some (s, ph) → listening ph = false → rounds w !! t = None.
Proof.
  intros H Et Eph. apply eq_None_not_Some. intros [active (Hl & _)%(l_rounds _ H)].
  destruct Hl as (s' & ph' & E' & Eph'). congruence.
Qed.

Lemma wf_insert w g' t s ph s' ph' :
  lifetime_wf w → tasks w !! t = Some (s, ph) → process_typed (proc (set_server g' (<[t := (s', ph')]> (tasks w)) w)) →
  serves (gl w) g' → TCPServer.s_task_count_ g' = TCPServer.s_task_count_ (gl w) →
  (is_Some (rounds w !! t) → listening ph' = true) →
  lifetime_wf (set_server g' (<[t := (s', ph')]> (tasks w)) w).
Proof.
  intros H Et Ht Hs En Hph. apply wf_servers; [done..| |].
  - rewrite map_size_insert_Some by eauto. rewrite En. apply (l_count _ H).
  - intros u s0 ph0 Eu Hu Hl. destruct (decide (u = t)) as [->|Hne].
    + rewrite lookup_insert_eq. eauto.
    + rewrite lookup_insert_ne by done. eauto.
Qed.

Lemma wf_start w g' t s ph :
  lifetime_wf w → tasks w !! t = None → process_typed (proc (set_server g' (<[t := (s, ph)]> (tasks w)) w)) →
  serves (gl w) g' → TCPServer.s_task_count_ g' = TCPServer.s_task_count_ (gl w) + 1 →
  lifetime_wf (set_server g' (<[t := (s, ph)]> (tasks w)) w).
Proof.
  intros H Et Ht Hs En. apply wf_servers; [done..| |].
  - rewrite map_size_insert_None by done. pose proof (l_count _ H). lia.
  - intros u s0 ph0 Eu _ Hl. exists s0, ph0. rewrite lookup_insert_ne by congruence. done.
Qed.

(** The server of a task is gone: nobody but the other tasks is in a round, and when
    the lists were emptied there are none. *)
Lemma wf_joined w t s now wenv s' g' fds :
  lifetime_wf w → tasks w !! t = Some (s, MDone) →
  TCPServer.stop_release junk now wenv s (gl w) = Ok (s', g', fds) →
  process_typed (proc (set_server g' (delete t (tasks w)) w)) →
  lifetime_wf (set_server g' (delete t (tasks w)) w).
Proof.
  intros H Et E Ht. pose proof (pt_listener _ (l_typed _ H)) as Hl.
  assert (size (delete t (tasks w)) = pred (size (tasks w))) as Esz by (apply map_size_delete_Some; eauto).
  pose proof (l_count _ H) as Hc.
  apply (serves_stop now wenv s (gl w) s' g' fds Hl) in E as (Hk & En & [Hs|(E0 & Ee & El)]).
  - apply wf_servers; [done..| |].
    + assert (size (tasks w) ≠ 0%nat) by (intros Ez%map_size_empty_inv; by rewrite Ez in Et). lia.
    + intros u s0 ph0 Eu Hu Hlu. exists s0, ph0. split; [|done]. rewrite lookup_delete_ne; [done|].
      intros <-. rewrite (no_round w t s MDone) in Hu by done. by destruct Hu.
  - assert (delete t (tasks w) = ∅) as Ed.
    { apply map_size_empty_inv. lia. }
    split; cbn; try done.
    + rewrite Ed, map_size_empty. lia.
    + intros p. rewrite El. done.
    + intros p. rewrite Ee. set_solver.
    + intros i c p Ei Ep. eapply keeps_shared; [done|by eapply l_client].
    + intros u active (Hu & _)%(l_rounds _ H). destruct Hu as (s0 & ph0 & Eu & Hlu).
      assert (u ≠ t) as Hne by (intros ->; rewrite Et in Eu; by injection Eu as <- <-).
      assert (delete t (tasks w) !! u = Some (s0, ph0)) as Eu' by by rewrite lookup_delete_ne.
      rewrite Ed in Eu'. done.
Qed.

Lemma wf_client w cw :
  lifetime_wf w → TCPClient.move junk (client_world (proc w)) cw →
  let w' := State (Proc (with_heap (TCPClient.heap cw) (sv (proc w))) (TCPClient.shared cw) (TCPClient.clients cw))
                  (rounds w) (maps w) in
  process_typed (proc w') → keeps (gl w) (gl w') → lifetime_wf w'.
Proof.
  intros H Hm w' Ht Hk. pose proof (l_typed _ H) as [Hts Hl Hw Hc].
  destruct w as [[[g th] cg cs] rs ms]. cbn in *.
  destruct (move_shared g th cg cs cw Hts Hc Hw Hk Hm) as [Hsh Hcl].
  pose proof (move_heap junk _ _ Hm (TCPClient.wf_sorted _ Hw)) as (E1 & E2 & E3)%heap_steps_quiet. cbn in *.
  assert (∀ p, owned g p → owned (set_reg (TCPClient.heap cw) g) p) as Ho.
  { intros p. unfold owned. cbn. by rewrite E1, E2. }
  split; cbn; try done.
  - apply (l_count _ H).
  - apply (l_listen _ H).
  - intros p. rewrite E3. intros [Hp|Hp]%(l_epoll _ H); [left; by apply Ho|right; by apply Hsh].
  - intros i c p Ei Ep. destruct (Hcl i c p Ei Ep) as [E|?]; [|done]. apply Hsh. by eapply (l_client _ H).
  - intros t active (Hlt & Ha)%(l_rounds _ H). split; [done|]. intros p ev env [Hp|Hp]%Ha; [left; by apply Ho|].
    right. by eapply keeps_opened.
Qed.

#[export] Instance lifetime_invariant : Invariant (step junk) lifetime_wf.
Proof.
  intros w w' H Hs. pose proof (step_process w w' H Hs) as Hrun.
  pose proof (invariant_rtc (Process.step junk) process_typed _ _ (l_typed _ H) Hrun) as Ht.
  pose proof (l_typed _ H) as [Hts Hl Hw _]. change (typed (gl w) (tasks w)) in Hts. change (listener (gl w)) in Hl.
  destruct Hs as [w t s now port sok env s' g' Et _ _ E|w t s now port sok env s' g' Et E
    |w t s ph now el tmo ph' g' fds Et Er E|w t s ph active Et Eph Er Ha|w t s ph now p ev env rest g' fds Et Er E
    |w t Er|w t s ph Et _|w t s now wenv s' g' fds Et _ E|w t s ph now nid ok s' r' Et E|w cw Hm
    |w i c p r' Ei Ep E|w p o o' Eo Hsame%uses_peer|w t Et Hcs].
  - destruct (serves_start _ _ _ _ _ _ _ (tasks w) _ _ _ Hts Hl (l_listen _ H) E) as [Hs En]. by apply wf_start.
  - destruct (serves_start _ _ _ _ _ _ _ (tasks w) _ _ _ Hts Hl (l_listen _ H) E) as [Hs En].
    apply wf_servers; [done..|pose proof (l_count _ H); lia|eauto].
  - destruct (phase_quiet _ _ _ _ _ _ _ _ _ E) as [n ->].
    apply (wf_insert w _ t s ph s); [done..|by apply serves_same|done|]. rewrite Er. by intros [].
  - apply wf_rounds; [done|]. intros u act [[-> <-]|[_ Eu]]%lookup_insert_Some; [|by apply (l_rounds _ H)].
    split; [eauto|]. intros p ev env Hin. rewrite Forall_forall in Ha.
    destruct (polled_known w p H) as [?|[? _]]; [exact (Ha _ Hin)|by left|by right].
  - destruct (serves_event _ _ _ (tasks w) _ _ _ _ _ Hts Hl E) as [Hs En].
    assert (lifetime_wf (set_server g' (tasks w) w)) as H'.
    { apply wf_servers; [done..| |eauto]. rewrite En. apply (l_count _ H). }
    apply wf_rounds; [done|]. intros u act [[-> <-]|[_ Eu]]%lookup_insert_Some; [|by apply (l_rounds _ H')].
    destruct (l_rounds _ H' u _ Er) as [Hlt Ha]. split; [done|]. intros q ev' env' Hin. eapply Ha. by right.
  - apply wf_rounds; [done|]. intros u act [_ Eu]%lookup_delete_Some. by apply (l_rounds _ H).
  - apply (wf_insert w _ t s ph); [done..|by apply serves_same|done|].
    intros [act (Hlt & _)%(l_rounds _ H)]. destruct Hlt as (s0 & ph0 & E0 & ?). congruence.
  - by eapply wf_joined.
  - apply wf_keep. apply (wf_insert w _ t s ph); [done..| |by eapply serves_put|done|].
    + by destruct ok, (TCPServer.get_connection s' nid).
    + intros [act (Hlt & _)%(l_rounds _ H)]. destruct Hlt as (s0 & ph0 & E0 & ?). congruence.
  - apply wf_client; [done..|].
    destruct (servers_keep junk _ _ Hts Hl (process_servers junk _ _ Hw (p_client junk (proc w) cw Hm))) as (_ & _ & Hk).
    exact Hk.
  - apply wf_keep. destruct (TCPClient.is_first_connect_ c).
    + apply add_to_epoll_spec in E as (r1 & -> & Hu & _). apply wf_watch; [done..| |done]. by eapply l_client.
    + injection E as <-. apply wf_servers; [done|done|by apply serves_same|apply (l_count _ H)|eauto].
  - apply wf_servers; [done..|by eapply serves_updates, set_object_updates|apply (l_count _ H)|eauto].
  - by destruct H.
Qed.

Lemma lifetime_reachable_wf w : reachable junk w → lifetime_wf w.
Proof.
  intros Hr. refine (invariant_rtc (step junk) lifetime_wf _ _ _ Hr). split; cbn; try done.
  - apply (reachable_process_typed junk). constructor.
Qed.

(** ** Where references come from *)

(** What the servers own was theirs before, or is new. *)
Definition inherits (g g' : TCPServer.statics) : Prop := ∀ p, live g p → owned g' p → owned g p.

Lemma inherits_same g g' :
  TCPServer.connections_ (reg g') = TCPServer.connections_ (reg g) →
  TCPServer.recycle_connections_ (reg g') = TCPServer.recycle_connections_ (reg g) →
  listen_conn_ g' = listen_conn_ g → inherits g g'.
Proof. intros E1 E2 E3 p _. unfold owned. by rewrite E1, E2, E3. Qed.

Lemma inherits_updates g r' : updates (reg g) r' → inherits g (set_reg r' g).
Proof. intros []. by apply inherits_same. Qed.

Lemma inherits_register g th now cfd cid :
  typed g th → inherits g (set_reg (TCPServer.register junk now cfd cid (reg g)) g).
Proof.
  intros Ht p Hp Ho.
  assert (p ≠ TCPServer.fresh_ (reg g)) as Hne by (intros ->; by apply (fresh_not_live g th Ht)).
  destruct (TCPServer.register_spec junk now cfd cid (reg g)) as (Ef & _ & _ & Eo & _);
    [apply (t_connections _ _ Ht)|].
  destruct Ho as [[c Ec]|[Hr|Hl]]; [| |by right; right].
  - cbn in Ec. destruct (decide (c = cid)) as [->|Hc]; [congruence|]. rewrite Eo in Ec by done. left. by exists c.
  - cbn in Hr. unfold TCPServer.register in Hr. destruct (map_find cid _) as [old|] eqn:E; cbn in Hr; [|by right; left].
    apply elem_of_app in Hr as [Hr| ->%list_elem_of_singleton]; [by right; left|left; by exists cid].
Qed.

Lemma inherits_event now s g th p ev env g' fds :
  typed g th → TCPServer.handle_event junk now s g p ev env = Ok (g', fds) → inherits g g'.
Proof.
  intros Ht (r' & -> & [Hu|[cid ->]])%handle_event_inv; [by apply inherits_updates|by eapply inherits_register].
Qed.

Lemma inherits_start now t port ssl_ok env s g th (b : bool) s' g' :
  typed g th → TCPServer.start junk now t port ssl_ok env s g = (b, s', g') →
  inherits g g' ∧ server_connections_ s' = server_connections_ s.
Proof.
  intros Ht E. unfold TCPServer.start, TCPServer.init in E.
  repeat (match type of E with context [if ?b then _ else _] => destruct b end; cbn in E);
    injection E as <- <- <-; (split; [|done]); try by apply inherits_same.
  intros p Hp [Hc|[Hr|Hl]]; [by left|by right; left|]. cbn in Hl. injection Hl as <-.
  by apply (fresh_not_live g th Ht) in Hp.
Qed.

Lemma inherits_stop now wenv s g s' g' fds :
  TCPServer.stop_release junk now wenv s g = Ok (s', g', fds) → inherits g g'.
Proof.
  unfold TCPServer.stop_release. intros E.
  apply bind_Ok in E as (u & _ & E). cbn in E. destruct (_ && _).
  - apply bind_Ok in E as ([r2 f] & _ & E). injection E as <- <- <-.
    intros p _ [[c Ec]|[Hr|Hl]]; [done|by apply elem_of_nil in Hr|done].
  - injection E as <- <- <-. by apply inherits_same.
Qed.

Lemma put_connection_from now s r node_id (ok : bool) s' r' id p :
  TCPServer.put_connection junk now s r node_id = Ok (ok, s', r') →
  sorted (server_connections_ s) → map_find id (server_connections_ s') = Some p →
  map_find id (server_connections_ s) = Some p ∨ map_find id (TCPServer.connections_ r) = Some p.
Proof.
  unfold TCPServer.put_connection. intros E Hs Ep.
  apply bind_Ok in E as ([c r1] & [_ Hc]%find_connection_updates & E).
  destruct c as [q|]; [|injection E as <- <- <-; by left]. apply bind_Ok in E as (o & _ & E).
  destruct (reuseable_ (conn o)); injection E as <- <- <-; [|by left]. cbn in Ep.
  rewrite map_find_insert in Ep by done. case_decide as Hid; [|by left]. subst id.
  destruct (map_find node_id (server_connections_ s)); cbn in Ep; [by left|right; congruence].
Qed.

(** What the clients refer to they, or other clients, referred to before, or is new. *)
Lemma client_ref_insert cg cg' cs i c' ph' p :
  (∀ q, (∃ a, map_find a (TCPClient.connections_ cg') = Some q) ∨ q ∈ TCPClient.recycle_connections_ cg' →
    q = p → client_ref cg cs q) →
  (TCPClient.conn_ c' = Some p → client_ref cg cs p) →
  client_ref cg' (<[i := (c', ph')]> cs) p → client_ref cg cs p.
Proof.
  intros Hl Hc [H|[H|(j & d & ph & [[-> [= <- <-]]|[_ E]]%lookup_insert_Some & Ed)]]; [eauto|eauto|by apply Hc|].
  right. right. by exists j, d, ph.
Qed.

Lemma client_ref_move cg r cs cw p :
  sorted (TCPClient.connections_ cg) → p ≠ TCPServer.fresh_ r →
  TCPClient.move junk (TCPClient.World cg r cs) cw →
  client_ref (TCPClient.shared cw) (TCPClient.clients cw) p → client_ref cg cs p.
Proof.
  intros Hs Hp Hm.
  inversion Hm as [g1 r1 cs1 i c now cr b c' cg' r' Ei En Ef E|g1 r1 cs1 i c now c' r' Ei E
    |g1 r1 cs1 i c n now tmo env ok fds c' cg' r' Ei E|g1 r1 cs1 i c Ei|g1 r1 cs1 i c Ei|g1 r1 cs1 i c a now el next r' Ei E
    |g1 r1 cs1 i c now wenv cg' r' fds Ei E];
    subst; cbn.
  - apply connect_begin_heap in E as (Hc & Hr & E); [|done]. apply client_ref_insert.
    + intros q [[a Ea%Hc]|[Hq|[a Ea]]%Hr] _; [left; by exists a|by right; left|left; by exists a].
    + intros Ep. left. exists (TCPClient.node_address c).
      destruct E as [(_ & _ & Ec)|(_ & q & _ & _ & Eq & _ & _ & _ & Ec)]; congruence.
  - apply client_ref_insert; [intros q [H|H] _; [by left|by right; left]|]. intros Ep. left.
    exists (TCPClient.node_address c). unfold TCPClient.connect_wait in E.
    destruct (map_find _ _) as [q|] eqn:Eq; [|done]. apply attach_heap in E as (_ & _ & _ & _ & _ & Ec). congruence.
  - apply attempt_heap in E as (Er & [(-> & -> & -> & Ec)|(o & o' & _ & _ & _ & Ec & _ & E)]).
    + apply client_ref_insert; [intros q [H|H] _; [by left|by right; left]|]. rewrite Ec. intros Ep.
      right. right. by exists i, c, (Dialling (S n)).
    + apply client_ref_insert; [|congruence]. intros q [[a Ea]|Hq] ->; [|right; left; by rewrite <- Er].
      destruct E as [(_ & -> & _)|(_ & _ & Ecs)]; [left; by exists a|]. left. exists a. rewrite Ecs, map_find_insert in Ea by done.
      case_decide; [|done]. subst a. destruct (map_find _ _); cbn in Ea; [done|congruence].
  - apply client_ref_insert; [intros q [H|H] _; [by left|by right; left]|]. intros Ep. right. right. by exists i, c, (Dialling 0).
  - apply client_ref_insert; [intros q [H|H] _; [by left|by right; left]|]. intros Ep. right. right. by exists i, c, Connected.
  - apply client_ref_insert; [intros q [H|H] _; [by left|by right; left]|]. intros Ep. right. right. by exists i, c, (TCPClient.Stopping a).
  - apply close_release_heap in E as (_ & Hc & Hr).
    intros [[a Ea%Hc]|[Hq%Hr|(j & d & ph & [_ Ej]%lookup_delete_Some & Ed)]];
      [left; by exists a|by right; left|right; right; by exists j, d, ph].
Qed.

(** ** A reference that is gone stays gone *)

Lemma holds_servers w g' th' p :
  live (gl w) p → inherits (gl w) g' →
  (∀ t s ph id, th' !! t = Some (s, ph) → map_find id (server_connections_ s) = Some p → holds w p) →
  holds (set_server g' th' w) p → holds w p.
Proof.
  intros Hp Hg Hs [H|t s ph id E1 E2|H|t m E1 E2]; [by apply by_servers, Hg|by eapply Hs| |by eapply by_io].
  by apply by_clients.
Qed.

Lemma holds_rounds w rs p : holds (set_rounds rs w) p → holds w p.
Proof.
  intros [H|t s ph id E1 E2|H|t m E1 E2]; [by apply by_servers|by eapply by_server|by apply by_clients|by eapply by_io].
Qed.

(** Servers that hold what they held. *)
Lemma holds_insert w t s ph p (u : bytes) s' ph' id :
  (∀ id, map_find id (server_connections_ s) = Some p → holds w p) →
  <[t := (s, ph)]> (tasks w) !! u = Some (s', ph') → map_find id (server_connections_ s') = Some p → holds w p.
Proof. intros H [[-> [= <- <-]]|[_ E]]%lookup_insert_Some Ep; [by eapply H|by eapply by_server]. Qed.

Lemma holds_keep_cases w t q p : holds (keep t q w) p → q = Some p ∨ holds w p.
Proof.
  destruct q as [q|]; [|by right]. cbn.
  intros [H|u s ph id E1 E2|H|u m E1 E2]; [right; by apply by_servers|right; by eapply by_server|right; by apply by_clients|].
  cbn in E1. apply lookup_insert_Some in E1 as [[-> <-]|[_ E1]]; [|right; by eapply by_io].
  apply elem_of_union in E2 as [->%elem_of_singleton|E2]; [by left|right].
  destruct (maps w !! u) as [m|] eqn:Em; cbn in E2; [by eapply by_io|set_solver].
Qed.

Lemma gone_for_good w w' p : lifetime_wf w → step junk w w' → live (gl w) p → holds w' p → holds w p.
Proof.
  intros H Hs Hp. pose proof (l_typed _ H) as [Hts _ Hw _]. change (typed (gl w) (tasks w)) in Hts.
  assert (∀ t s ph, tasks w !! t = Some (s, ph) → ∀ id, map_find id (server_connections_ s) = Some p → holds w p)
    as Hsame by (intros; by eapply by_server).
  destruct Hs as [w t s now port sok env s' g' Et _ Em E|w t s now port sok env s' g' Et E
    |w t s ph now el tmo ph' g' fds Et Er E|w t s ph active Et Eph Er Ha|w t s ph now q ev env rest g' fds Et Er E
    |w t Er|w t s ph Et _|w t s now wenv s' g' fds Et _ E|w t s ph now nid ok s' r' Et E|w cw Hm
    |w i c q r' Ei Ep E|w q o o' Eo Hsm%uses_peer|w t Et Hcs].
  - destruct (inherits_start _ _ _ _ _ _ _ _ _ _ _ Hts E) as [Hi Es]. apply holds_servers; [done..|].
    intros u s0 ph0 id. apply holds_insert. intros id'. by rewrite Es, Em.
  - destruct (inherits_start _ _ _ _ _ _ _ _ _ _ _ Hts E) as [Hi _]. apply holds_servers; eauto.
  - destruct (phase_quiet _ _ _ _ _ _ _ _ _ E) as [n ->]. apply holds_servers; [done|by apply inherits_same|].
    intros u s0 ph0 id. apply holds_insert; eauto.
  - apply holds_rounds.
  - intros Hh%holds_rounds. revert Hh. apply holds_servers; [done|by eapply inherits_event|eauto].
  - apply holds_rounds.
  - apply holds_servers; [done|by apply inherits_same|]. intros u s0 ph0 id. apply holds_insert. by apply (Hsame t s ph).
  - apply holds_servers; [done|by eapply inherits_stop|]. intros u s0 ph0 id [_ Eu]%lookup_delete_Some. eauto.
  - assert (∀ id, map_find id (server_connections_ s') = Some p → holds w p) as Hfrom.
    { intros id Ep. apply (put_connection_from _ _ _ _ _ _ _ _ _ E) in Ep as [?|?];
        [by eapply Hsame| |apply (t_servers _ _ Hts t s ph Et)]. apply by_servers. left. by exists id. }
    intros [Hq|Hh]%holds_keep_cases; [destruct ok; [by eapply Hfrom|done]|]. revert Hh. apply holds_servers; [done| |].
    + by eapply inherits_updates, put_connection_updates.
    + intros u s0 ph0 id. by apply holds_insert.
  - intros [Ho|t s ph id E1 E2|Hc|t m E1 E2]; [apply by_servers| |apply by_clients|]; [|by eapply by_server| |by eapply by_io].
    { pose proof (move_heap junk _ _ Hm (TCPClient.wf_sorted _ Hw)) as (E1 & E2 & _)%heap_steps_quiet.
      by apply (inherits_same (gl w) (set_reg (TCPClient.heap cw) (gl w)) E1 E2 eq_refl). }
    eapply client_ref_move; [apply (TCPClient.wf_sorted _ Hw)| |exact Hm|done].
    intros ->. by apply (fresh_not_live (gl w) (tasks w) Hts).
  - intros [[= ->]|Hh]%holds_keep_cases; [apply by_clients; right; right; by exists i, c, Connected|]. revert Hh.
    apply holds_servers; [done| |eauto]. destruct (TCPClient.is_first_connect_ c); [|injection E as <-; by apply inherits_same].
    apply add_to_epoll_spec in E as (r1 & -> & [] & _). by apply inherits_same.
  - apply holds_servers; [done|by eapply inherits_updates, set_object_updates|eauto].
  - intros [Ho|u s ph id E1 E2|Hc|u m E1 E2]; [by apply by_servers|by eapply by_server|by apply by_clients|].
    cbn in E1. apply lookup_delete_Some in E1 as [_ E1]. by eapply by_io.
Qed.
(** ** A connection nobody watches *)

(** The client has its connection, or closes. *)
Definition settled_phase (ph : TCPClient.phase) : Prop := ph = Connected ∨ TCPClient.leaving ph.

(** A connection a client opened, out of the epoll set, and no client will put it
    there. *)
Definition deaf (p : Z) (w : state) : Prop :=
  opened (gl w) p ∧ (p ∉ epoll (reg (gl w)))
  ∧ ∀ i c ph, clients (proc w) !! i = Some (c, ph) → TCPClient.is_first_connect_ c = true →
      settled_phase ph ∧ TCPClient.conn_ c ≠ Some p.

Lemma owned_not_opened w p : process_typed (proc w) → owned (gl w) p → ¬ opened (gl w) p.
Proof.
  intros [Ht Hl _ _] Ho (o & Eo & Es). change (typed (gl w) (tasks w)) in Ht. change (listener (gl w)) in Hl.
  destruct Ho as [[c Ec]|[Hr|El]].
  - destruct (t_connections _ _ Ht) as [_ Hm]. destruct (Hm c p Ec) as (o' & E' & _ & Es' & _). congruence.
  - destruct (t_recycled _ _ Ht p Hr) as (c & o' & E' & _ & Es' & _). congruence.
  - specialize (Hl p o El Eo). congruence.
Qed.

Lemma attach_first now p c r c' r' :
  TCPClient.attach junk now p c r = Ok (c', r') → TCPClient.is_first_connect_ c' = TCPClient.is_first_connect_ c.
Proof. unfold TCPClient.attach. intros E. by outcome_inv. Qed.

Lemma connect_begin_first now c cg r b c' cg' r' :
  TCPClient.connect_begin junk now c cg r = Ok (b, c', cg', r') →
  TCPClient.is_first_connect_ c' = TCPClient.is_first_connect_ c.
Proof.
  unfold TCPClient.connect_begin. set (c1 := if _ =? 0 then _ else _).
  assert (TCPClient.is_first_connect_ c1 = TCPClient.is_first_connect_ c) as <- by (subst c1; by destruct (_ =? _)).
  intros E. destruct (map_find _ _); [apply bind_Ok in E as (o & _ & E); destruct (reuseable_ _)|].
  - apply bind_Ok in E as ([c2 r2] & Ea%attach_first & E). by injection E as <- <- <- <-.
  - case_bool_decide; by injection E as <- <- <- <-.
  - case_bool_decide; by injection E as <- <- <- <-.
Qed.

Lemma attempt_first now timeout env c cg r (ok : bool) fds c' cg' r' :
  TCPClient.attempt junk now timeout env c cg r = Ok (ok, fds, c', cg', r') →
  if ok then TCPClient.conn_ c' = Some (TCPServer.fresh_ r)
  else TCPClient.is_first_connect_ c' = TCPClient.is_first_connect_ c.
Proof.
  unfold TCPClient.attempt. intros E. destruct (_ <? 0); [by injection E as <- <- <- <- <-|].
  apply bind_Ok in E as (d & _ & E). destruct (negb d); [by injection E as <- <- <- <- <-|].
  destruct (negb _); [by injection E as <- <- <- <- <-|]. apply bind_Ok in E as (m & _ & E).
  destruct (negb _); [by injection E as <- <- <- <- <-|]. destruct (TCPClient.ae_handshake env).
  - apply bind_Ok in E as (o' & _ & E). by injection E as <- <- <- <- <-.
  - by injection E as <- <- <- <- <-.
Qed.

Lemma move_deaf cg r cs cw p :
  p ≠ TCPServer.fresh_ r → TCPClient.move junk (TCPClient.World cg r cs) cw →
  (∀ i c ph, cs !! i = Some (c, ph) → TCPClient.is_first_connect_ c = true →
    settled_phase ph ∧ TCPClient.conn_ c ≠ Some p) →
  ∀ i c ph, TCPClient.clients cw !! i = Some (c, ph) → TCPClient.is_first_connect_ c = true →
    settled_phase ph ∧ TCPClient.conn_ c ≠ Some p.
Proof.
  intros Hp Hm H.
  assert (∀ j c' ph', (TCPClient.is_first_connect_ c' = true → settled_phase ph' ∧ TCPClient.conn_ c' ≠ Some p) →
    ∀ i c ph, <[j := (c', ph')]> cs !! i = Some (c, ph) → TCPClient.is_first_connect_ c = true →
      settled_phase ph ∧ TCPClient.conn_ c ≠ Some p) as Hins.
  { intros j c' ph' Hc i c ph [[_ [= <- <-]]|[_ E]]%lookup_insert_Some; [done|by eapply H]. }
  inversion Hm as [g1 r1 cs1 j c now cr b c' cg' r' Ei En Ef E|g1 r1 cs1 j c now c' r' Ei E
    |g1 r1 cs1 j c n now tmo env ok fds c' cg' r' Ei E|g1 r1 cs1 j c Ei|g1 r1 cs1 j c Ei|g1 r1 cs1 j c a now el next r' Ei E
    |g1 r1 cs1 j c now wenv cg' r' fds Ei E];
    subst; cbn.
  - apply Hins. rewrite (connect_begin_first _ _ _ _ _ _ _ _ E). congruence.
  - apply Hins. unfold TCPClient.connect_wait in E. destruct (map_find _ _); [|done].
    rewrite (attach_first _ _ _ _ _ _ E). intros Hf. by destruct (H _ _ _ Ei Hf) as [[] _].
  - apply Hins. apply attempt_first in E. destruct ok; [intros _; split; [by left|congruence]|].
    rewrite E. intros Hf. by destruct (H _ _ _ Ei Hf) as [[] _].
  - apply Hins. intros Hf. by destruct (H _ _ _ Ei Hf) as [[] _].
  - apply Hins. intros Hf. destruct (H _ _ _ Ei Hf) as [_ Hne]. split; [by right|done].
  - apply Hins. intros Hf. destruct (H _ _ _ Ei Hf) as [_ Hne]. split; [right; by destruct next|done].
  - intros i d ph [_ Ed]%lookup_delete_Some. by eapply H.
Qed.

Lemma run_keeps w w' : process_typed w → rtc (Process.step junk) w w' → keeps (globals (sv w)) (globals (sv w')).
Proof.
  intros H Hr. revert H. induction Hr as [w|w w1 w' Hs _ IH]; intros H; [done|].
  pose proof (process_typed_invariant junk w w1 H Hs) as H1. etrans; [|by apply IH].
  pose proof (process_servers junk w w1 (pt_wf _ H) Hs) as Hsv.
  by destruct (servers_keep junk (sv w) (sv w1) (pt_servers _ H) (pt_listener _ H) Hsv) as (_ & _ & ?).
Qed.

Lemma unwatched w w' p :
  process_typed (proc w') → serves (gl w) (gl w') → opened (gl w') p →
  (p ∉ epoll (reg (gl w))) → p ∉ epoll (reg (gl w')).
Proof. intros Ht Hs Ho Hp [?|Hown]%(sv_epoll _ _ Hs); [done|]. by eapply owned_not_opened. Qed.

Lemma epoll_stays w w' p :
  lifetime_wf w → process_typed (proc w') → opened (gl w') p → deaf p w → step junk w w' → p ∉ epoll (reg (gl w')).
Proof.
  intros H Ht' Ho' (Ho & Hp & Hf) Hs. pose proof (l_typed _ H) as [Hts Hl Hw _].
  change (typed (gl w) (tasks w)) in Hts. change (listener (gl w)) in Hl.
  assert (serves (gl w) (gl w') → p ∉ epoll (reg (gl w'))) as Hserves by (intros Hsv; by eapply unwatched).
  destruct Hs as [w t s now port sok env s' g' Et _ _ E|w t s now port sok env s' g' Et E
    |w t s ph now el tmo ph' g' fds Et Er E|w t s ph active Et Eph Er Ha|w t s ph now q ev env rest g' fds Et Er E
    |w t Er|w t s ph Et _|w t s now wenv s' g' fds Et _ E|w t s ph now nid ok s' r' Et E|w cw Hm
    |w i c q r' Ei Eq E|w q o o' Eo Hsm%uses_peer|w t Et Hcs]; try done.
  - apply Hserves. exact (proj1 (serves_start _ _ _ _ _ _ _ (tasks w) _ _ _ Hts Hl (l_listen _ H) E)).
  - apply Hserves. exact (proj1 (serves_start _ _ _ _ _ _ _ (tasks w) _ _ _ Hts Hl (l_listen _ H) E)).
  - destruct (phase_quiet _ _ _ _ _ _ _ _ _ E) as [n ->]. exact Hp.
  - apply Hserves. exact (proj1 (serves_event _ _ _ (tasks w) _ _ _ _ _ Hts Hl E)).
  - destruct (serves_stop now wenv s (gl w) s' g' fds Hl E) as (_ & _ & [Hsv|(_ & Ee & _)]); [by apply Hserves|].
    cbn. rewrite Ee. set_solver.
  - assert (∀ c, gl (keep t c (set_server (set_reg r' (gl w)) (<[t := (s', ph)]> (tasks w)) w)) = set_reg r' (gl w))
      as -> by by intros [].
    intros Hq. apply Hp. apply (u_epoll _ _ (put_connection_updates _ _ _ _ _ _ _ _ E) _ Hq).
  - pose proof (move_heap junk _ _ Hm (TCPClient.wf_sorted _ Hw)) as (_ & _ & E3)%heap_steps_quiet.
    cbn in *. by rewrite E3.
  - cbn. destruct (TCPClient.is_first_connect_ c) eqn:Ec; [|by injection E as <-].
    apply add_to_epoll_spec in E as (r1 & -> & Hu & _). destruct (Hf i c Connected Ei Ec) as [_ Hne].
    cbn. intros [->%elem_of_singleton|Hq]%elem_of_union; [done|]. by apply Hp, (u_epoll _ _ Hu).
Qed.

Lemma deaf_for_ever w w' p : lifetime_wf w → deaf p w → rtc (step junk) w w' → deaf p w'.
Proof.
  intros H Hd Hr. revert H Hd. induction Hr as [w|w w1 w' Hs _ IH]; intros H Hd; [done|].
  pose proof (lifetime_invariant w w1 H Hs) as H1. apply IH; [done|].
  assert (opened (gl w1) p) as Ho.
  { destruct Hd as (Ho & _ & _). eapply keeps_opened; [|exact Ho]. exact (run_keeps _ _ (l_typed _ H) (step_process _ _ H Hs)). }
  split; [done|]. split; [exact (epoll_stays w w1 p H (l_typed _ H1) Ho Hd Hs)|].
  destruct Hd as (Hop & _ & Hf). pose proof (pt_servers _ (l_typed _ H)) as Hts.
  assert (∀ t c w0, clients (proc (keep t c w0)) = clients (proc w0)) as Ekeep by by intros t [] w0.
  destruct Hs; rewrite ?Ekeep; try exact Hf. apply (move_deaf _ _ _ _ _) with (2 := H0); [|exact Hf].
  intros ->. eapply (fresh_not_live _ _ Hts). destruct Hop as (o & E & _). by exists o.
Qed.
(** No event of such a connection is handled, if none is already in flight. *)
Lemma unheard w w' p :
  deaf p w → (∀ t, ¬ in_flight w t p) → step junk w w' → ∀ t, ¬ in_flight w' t p.
Proof.
  intros (_ & Hp & _) Hn Hs t (act & ev & env & Et & Hin).
  assert (∀ rs, rounds w !! t = Some rs → (p, ev, env) ∈ rs → False) as Hno by (intros rs Ers Hrs; apply (Hn t); by exists rs, ev, env).
  destruct Hs as [| |w u s ph now el tmo ph' g' fds Eu Er E|w u s ph active Eu Eph Er Ha
    |w u s ph now q ev' env' rest g' fds Eu Er E|w u Er|w u s ph Eu _|w u s now wenv s' g' fds Eu _ E
    |w u s ph now nid ok s' r' Eu E|w cw Hm|w i c q r' Ei Eq E|w q o o' Eo Hsm%uses_peer|w u Eu Hcs]; cbn in Et; try by eapply Hno.
  - apply lookup_insert_Some in Et as [[<- <-]|[_ Et]]; [|by eapply Hno].
    rewrite Forall_forall in Ha. destruct (Ha _ Hin) as [He _]. by apply Hp.
  - apply lookup_insert_Some in Et as [[<- <-]|[_ Et]]; [|by eapply Hno]. eapply Hno; [exact Er|by apply list_elem_of_further].
  - apply lookup_delete_Some in Et as [_ Et]. by eapply Hno.
  - by destruct (if ok then _ else _); eapply Hno.
Qed.

Lemma unheard_for_ever w w' p :
  lifetime_wf w → deaf p w → (∀ t, ¬ in_flight w t p) → rtc (step junk) w w' →
  (p ∉ epoll (reg (gl w'))) ∧ ∀ t, ¬ in_flight w' t p.
Proof.
  intros H Hd Hn Hr. split; [apply (deaf_for_ever w w' p H Hd Hr)|].
  revert H Hd Hn. induction Hr as [w|w w1 w' Hs _ IH]; intros H Hd Hn; [done|].
  apply IH; [by eapply lifetime_invariant|eapply deaf_for_ever; [done..|by apply rtc_once]|by eapply unheard].
Qed.
End lemmas.

(** [start] of a task that has not been stopped succeeds while the ring has room for
    its lock, whatever the state of the connection. *)
Lemma conn_start_ok junk now t o :
  conn_wf (conn o) → 3 * (zlen (to_send (conn o)) + zlen (frame (lock_id t) (str "1"))) < 2 ^ 63 →
  w_stop_works_ (Work.tasks o) !! t ≠ Some true →
  ∃ o', conn_start junk now t o = Ok o' ∧ state_ (conn o') = state_ (conn o).
Proof.
  intros Hw Hroom Hf. destruct (send_ok junk now (conn o) (lock_id t) (str "1") Hw Hroom) as (b & E & _).
  unfold conn_start, start_lock. change 1 with (zlen (str "1")). rewrite E. cbn [mbind outcome_bind mret outcome_ret].
  set (w := Works _ _ _ _ _).
  assert (start_wait t (start_register t (do_start_enter t w)) = Ok ()) as ->; [|by eexists].
  unfold start_wait, start_register, do_start_enter. subst w. cbn [w_stop_works_].
  destruct (w_stop_works_ (Work.tasks o) !! t) as [[]|] eqn:Et; [done|..]; cbn [w_stop_works_];
    rewrite bool_decide_true; [done..|by rewrite Et|done|by rewrite lookup_insert_eq].
Qed.

(** The clients move. *)
Lemma clients_run junk w cw : rtc (TCPClient.move junk) (client_world (proc w)) cw →
  rtc (step junk) w (State (Proc (with_heap (TCPClient.heap cw) (sv (proc w))) (TCPClient.shared cw) (TCPClient.clients cw))
                           (rounds w) (maps w)).
Proof.
  intros Hr.
  set (f cw := State (Proc (with_heap (TCPClient.heap cw) (sv (proc w))) (TCPClient.shared cw) (TCPClient.clients cw))
                     (rounds w) (maps w)).
  assert (w = f (client_world (proc w))) as Ew by by destruct w as [[[[] ?] ? ?] ? ?].
  rewrite Ew at 1. refine (rtc_congruence (R:=TCPClient.move junk) f (step junk) _ _ _ Hr). intros cw1 cw2 Hm.
  refine (f_client junk (f cw1) cw2 _). by destruct cw1.
Qed.

(** ** A run *)

(** Two tasks of a process: "a" listens and has no peers, "b" waits for its turn and
    its client dials. *)
Section scenario.
Context (junk : nat → byte).

Definition task_server (t : bytes) (stop : bool) : TCPServer.server := TCPServer.Server t stop false [] [] true.
Definition new_server : TCPServer.server := TCPServer.Server [] false false [] [] false.
Definition listen_object : conn_obj :=
  Obj (Connection_create junk 0 4 TCPServer.EPOLL_EVENTS true (str "listen")) works_init.
Definition dialled_object : conn_obj := Obj (Connection_create junk 0 7 0 false (str "P2")) works_init.

Definition running (objs : gmap Z conn_obj) (ep : gset Z) (fresh n listening : Z)
    (th : gmap bytes (TCPServer.server * TCPServer.main_phase)) (cg : TCPClient.statics)
    (cs : gmap Z (TCPClient.client * TCPClient.phase)) (rs : gmap bytes (list event)) (ms : gmap bytes (gset Z)) : state :=
  State (Proc (TCPServer.World (TCPServer.Statics (TCPServer.Reg [] [] objs ep fresh) n false (Some 1) 3 4 9000 true listening) th)
              cg cs) rs ms.

Definition one_object : gmap Z conn_obj := <[1 := listen_object]> ∅.
Definition a_in (ph : TCPServer.main_phase) : gmap bytes (TCPServer.server * TCPServer.main_phase) :=
  <[str "a" := (task_server (str "a") false, ph)]> ∅.
Definition b_in (stop : bool) (ph : TCPServer.main_phase) : gmap bytes (TCPServer.server * TCPServer.main_phase) :=
  <[str "b" := (task_server (str "b") stop, ph)]> (a_in MServing).

(** Task "a" serves and "b" waits. *)
Lemma scenario_servers :
  reachable junk (running one_object ({[1]} ∪ ∅) 2 2 1 (b_in false MWait) TCPClient.statics_init ∅ ∅ ∅).
Proof.
  set (st n lc th := running one_object ({[1]} ∪ ∅) 2 n lc th TCPClient.statics_init ∅ ∅ ∅).
  apply rtc_l with (y := st 1 0 (a_in MWait)).
  { apply (f_start junk lifetime_init (str "a") new_server 0 9000 true (TCPServer.InitEnv 3 4 0 0)
             (task_server (str "a") false) (gl (st 1 0 ∅))); reflexivity. }
  apply rtc_l with (y := st 1 1 (a_in MConnecting)).
  { apply (f_phase junk (st 1 0 (a_in MWait)) (str "a") (task_server (str "a") false) MWait 0 0 0 MConnecting
             (gl (st 1 1 ∅)) []); reflexivity. }
  apply rtc_l with (y := st 1 1 (a_in MServing)).
  { apply (f_phase junk (st 1 1 (a_in MConnecting)) (str "a") (task_server (str "a") false) MConnecting 0 0 0 MServing
             (gl (st 1 1 ∅)) []); reflexivity. }
  apply rtc_once.
  apply (f_start junk (st 1 1 (a_in MServing)) (str "b") new_server 0 9000 true (TCPServer.InitEnv 3 4 0 0)
           (task_server (str "b") false) (gl (st 2 1 ∅))); reflexivity.
Qed.

(** The client of "b" gets through to a new connection. *)
Definition b_client : TCPClient.client := TCPClient.first_of (str "b").
Definition b_dials : TCPClient.statics := TCPClient.Statics [] [] {[str "10.0.0.2:9000"]} 1.
Definition b_connected : TCPClient.statics := TCPClient.Statics [(str "10.0.0.2:9000", 2)] [] ∅ 1.
Definition b_client_on (p : Z) : TCPClient.client :=
  TCPClient.set_first_connect (TCPClient.set_conn p (TCPClient.set_fd 7 b_client)).
Definition answers : TCPClient.attempt_env := TCPClient.AttemptEnv 7 [(0, EOTHER 0, 0)] 1 10 true.

Lemma start_on_new_connection :
  ∃ o', conn_start junk 0 (str "b") dialled_object = Ok o' ∧ state_ (conn o') = Invalid.
Proof.
  destruct (Connection_create_wf junk 0 7 0 false (str "P2")) as (Hw & Hs & _).
  apply (conn_start_ok junk 0 (str "b") dialled_object); [exact Hw| |done]. cbn [dialled_object conn]. by rewrite Hs.
Qed.

(** The connection once the peer has sent the lock of the task, with small rings;
    [m] is what it has received. *)
Definition ready_with (m : gmap bytes CycleBuffer.cycle_buffer.t) : conn_obj :=
  Obj (Conn Invalid 7 TCPServer.EPOLL_EVENTS false (str "P2") true (ring_of [])
            m (ring_of []) {[ str "b" := false ]})
      (Works {[ str "b" := false ]} 0 [] {[ str "b" ]} 1).
Definition b_lock : gmap bytes CycleBuffer.cycle_buffer.t := {[ lock_id (str "b") := ring_of (str "1") ]}.
Definition ready_object : conn_obj := ready_with b_lock.

Lemma attempt_connects cg r :
  ∃ o', same_fields (conn o') (conn ready_object) ∧
  TCPClient.attempt junk 0 1000 answers b_client cg r =
    Ok (true, [], b_client_on (TCPServer.fresh_ r),
        TCPClient.Statics (map_insert (str "10.0.0.2:9000") (TCPServer.fresh_ r) (TCPClient.connections_ cg))
          (TCPClient.recycle_connections_ cg) (TCPClient.to_connect_set_ cg ∖ {[str "10.0.0.2:9000"]})
          (TCPClient.task_count_ cg),
        TCPServer.set_object (TCPServer.fresh_ r) o' (add_object dialled_object r)).
Proof.
  destruct start_on_new_connection as (o' & E & Es). exists o'. split.
  { destruct (conn_start_same _ _ _ _ _ E) as (N & S & T & R & F). split_and!; by rewrite ?N, ?S, ?T, ?R, ?F. }
  unfold TCPClient.attempt. cbn -[conn_start Connection_create TCPClient.hello].
  let m := eval vm_compute in (TCPClient.hello (str "P1")) in change (TCPClient.hello _) with m.
  cbn -[conn_start Connection_create map_insert].
  change (conn_start junk 0 _ _) with (conn_start junk 0 (str "b") dialled_object). rewrite E. reflexivity.
Qed.

Definition clients_in (ph : TCPClient.phase) (c : TCPClient.client) : gmap Z (TCPClient.client * TCPClient.phase) :=
  <[1 := (c, ph)]> ∅.
Definition dialling_clients := clients_in (Dialling 1) b_client.
Definition connected_clients := clients_in Connected (b_client_on 2).
Definition watched : gset Z := {[2]} ∪ ({[1]} ∪ ∅).
Definition b_maps : gmap bytes (gset Z) := <[str "b" := {[2]} ∪ ∅]> ∅.
Definition two_objects : gmap Z conn_obj := <[2 := ready_object]> one_object.

Definition readable_event : event :=
  (2, EPOLLIN, TCPServer.EventEnv (TCPServer.AcceptEnv 0 0 (RR 0 (EOTHER 0) []) (RR 0 (EOTHER 0) []))
     true [RR 2 (EOTHER 0) (str "hi"); RR (-1) EAGAIN []] [] false).

(** "b" is connected, its connection is watched, and the round of "a" has just
    fetched an event of it. *)
Definition fetched : state :=
  running two_objects watched 3 2 1 (b_in false MWait) b_connected
    connected_clients (<[str "a" := [readable_event]]> ∅) b_maps.

Definition waiting_b (objs : gmap Z conn_obj) (ep : gset Z) (fresh : Z) := running objs ep fresh 2 1 (b_in false MWait).

(** "b" is connected and its connection is watched. *)
Definition connected_b (o : conn_obj) : state :=
  waiting_b (<[2 := o]> one_object) watched 3 b_connected connected_clients ∅ b_maps.

Lemma scenario_connected m : reachable junk (connected_b (ready_with m)).
Proof.
  set (o := ready_with m).
  unfold reachable. etrans; [exact scenario_servers|].
  destruct (attempt_connects b_dials (TCPServer.Reg [] [] one_object ({[1]} ∪ ∅) 2)) as (o' & Ho & E).
  apply rtc_l with (y := waiting_b one_object ({[1]} ∪ ∅) 2 b_dials dialling_clients ∅ ∅).
  { refine (f_client junk (waiting_b one_object ({[1]} ∪ ∅) 2 TCPClient.statics_init ∅ ∅ ∅) (TCPClient.World b_dials (TCPServer.Reg [] [] one_object ({[1]} ∪ ∅) 2)
             dialling_clients) _).
    apply (TCPClient.c_begin junk _ _ ∅ 1 (TCPClient.client_of (str "b")) 0 1 TCPClient.MustDial); reflexivity. }
  apply rtc_l with (y := waiting_b (<[2 := o']> (<[2 := dialled_object]> one_object)) ({[1]} ∪ ∅) 3 b_connected
    connected_clients ∅ ∅).
  { refine (f_client junk (waiting_b one_object ({[1]} ∪ ∅) 2 b_dials dialling_clients ∅ ∅)
      (TCPClient.World b_connected (TCPServer.Reg [] [] (<[2 := o']> (<[2 := dialled_object]> one_object)) ({[1]} ∪ ∅) 3)
             (<[1 := (b_client_on 2, Connected)]> dialling_clients)) _).
    refine (TCPClient.c_attempt junk b_dials (TCPServer.Reg [] [] one_object ({[1]} ∪ ∅) 2)
              dialling_clients 1 b_client 0 0 1000 answers true [] _ _ _ _ E); reflexivity. }
  set (e := Obj (Conn (state_ (conn o')) (fd_ (conn o')) TCPServer.EPOLL_EVENTS (is_server_ (conn o')) (node_id_ (conn o'))
    (reuseable_ (conn o')) (buffer_ (conn o')) (mapbuffer_ (conn o')) (send_buffer_ (conn o')) (stop_works_ (conn o'))) (Work.tasks o')).
  apply rtc_l with (y := connected_b e).
  { refine (f_connected junk (waiting_b (<[2 := o']> (<[2 := dialled_object]> one_object)) ({[1]} ∪ ∅) 3 b_connected
      connected_clients ∅ ∅) 1 (b_client_on 2) 2 (TCPServer.Reg [] [] (<[2 := e]> one_object) watched 3) _ _ _); reflexivity. }
  apply rtc_once. refine (f_use junk (connected_b e) 2 e o _ _); [reflexivity|]. apply u_buffers. exact Ho.
Qed.

Lemma scenario_fetched : reachable junk fetched.
Proof.
  unfold reachable. etrans; [exact (scenario_connected b_lock)|]. apply rtc_once.
  refine (f_fetch junk (connected_b ready_object) (str "a") (task_server (str "a") false) MServing
    [readable_event] _ _ _ _); [reflexivity..|]. apply Forall_singleton. split.
  - change (2 ∈ watched). apply elem_of_union_l. by apply elem_of_singleton.
  - exists ready_object. split; [reflexivity|]. change (Invalid ≠ Closed). discriminate.
Qed.

(** The last client closes: the connection is closed and taken off the list. *)
Lemma b_closes :
  ∃ o c, TCPClient.close junk 0 0 (λ _, []) (b_client_on 2) b_connected (TCPServer.Reg [] [] two_objects watched 3) =
    Ok (c, TCPClient.Statics [] [] ∅ 0, TCPServer.Reg [] [] (<[2 := o]> one_object) watched 3, [7])
    ∧ is_server_ (conn o) = false.
Proof.
  unfold two_objects, one_object. generalize listen_object as l. intros l.
  do 2 eexists. split; [vm_compute; reflexivity|reflexivity].
Qed.

Definition no_clients : TCPClient.statics := TCPClient.Statics [] [] ∅ 0.
Definition a_round : gmap bytes (list event) := <[str "a" := [readable_event]]> ∅.

(** "b" is gone and the round of "a" goes on. *)
Definition freed (o : conn_obj) : state :=
  running (<[2 := o]> one_object) watched 3 1 1 (a_in MServing) no_clients ∅ a_round ∅.

Lemma scenario_freed : ∃ o, is_server_ (conn o) = false ∧ reachable junk (freed o).
Proof.
  destruct b_closes as (o & c & E & Ho). exists o. split; [exact Ho|]. unfold reachable. etrans; [exact scenario_fetched|].
  set (st n th ms := running (<[2 := o]> one_object) watched 3 n 1 th no_clients ∅ a_round ms).
  transitivity (st 2 (b_in false MWait) b_maps).
  { refine (clients_run junk fetched (TCPClient.World no_clients
      (TCPServer.Reg [] [] (<[2 := o]> one_object) watched 3) (delete 1 connected_clients)) _).
    refine (TCPClient.close_run junk 0 0 (λ _, []) (b_client_on 2) b_connected (TCPServer.Reg [] [] two_objects watched 3)
              c _ _ [7] connected_clients 1 E _ _); reflexivity. }
  apply rtc_l with (y := st 2 (b_in true MWait) b_maps).
  { refine (f_stop junk (st 2 (b_in false MWait) b_maps) (str "b") (task_server (str "b") false) MWait _ _); reflexivity. }
  apply rtc_l with (y := st 2 (b_in true MDone) b_maps).
  { refine (f_phase junk (st 2 (b_in true MWait) b_maps) (str "b") (task_server (str "b") true) MWait 0 0 0 MDone
              (gl (st 2 (b_in true MWait) b_maps)) [] _ _ _); reflexivity. }
  apply rtc_l with (y := st 1 (a_in MServing) b_maps).
  { refine (f_joined junk (st 2 (b_in true MDone) b_maps) (str "b") (task_server (str "b") true) 0 (λ _, [])
              (TCPServer.Server (str "b") true false [] [] false) (gl (st 1 (a_in MServing) b_maps)) [] _ _ _); reflexivity. }
  apply rtc_once. refine (f_destroyed junk (st 1 (a_in MServing) b_maps) (str "b") _ _); [reflexivity|].
  intros i d ph Ei. done.
Qed.

(** *** A task after the last one *)

(** The peer has started its task "c" over the connection before "b" closes: the lock
    of "c" has come, and nobody has read it.  So the connection stays. *)
Definition c_lock : gmap bytes CycleBuffer.cycle_buffer.t := <[lock_id (str "c") := ring_of (str "1")]> b_lock.
Definition drained : CycleBuffer.cycle_buffer.t :=
  CycleBuffer.cycle_buffer.CB 1 1 9 9 (str "1" ++ zeros 8) (timer_create 0).
Definition kept_object : conn_obj :=
  Obj (Conn Invalid 7 TCPServer.EPOLL_EVENTS false (str "P2") true (ring_of [])
            (<[lock_id (str "c") := ring_of (str "1")]> {[ lock_id (str "b") := drained ]}) (ring_of []) ∅) works_init.
Definition one_kept : TCPClient.statics := TCPClient.Statics [(str "10.0.0.2:9000", 2)] [] ∅ 0.

Lemma b_leaves :
  ∃ c, TCPClient.close junk 0 0 (λ _, []) (b_client_on 2) b_connected
         (TCPServer.Reg [] [] (<[2 := ready_with c_lock]> one_object) watched 3) =
    Ok (c, one_kept, TCPServer.Reg [] [] (<[2 := kept_object]> one_object) watched 3, []).
Proof. unfold one_object. generalize listen_object as l. intros l. eexists. vm_compute. reflexivity. Qed.

(** The servers of "b" and then of "a" stop: the last one closes the epoll set. *)
Definition kept_map : gmap Z conn_obj := <[2 := kept_object]> ∅.
Definition stopped : state :=
  State (Proc (TCPServer.World (TCPServer.Statics (TCPServer.Reg [] [] kept_map ∅ 3) 0 true None 3 4 9000 false 0) ∅)
              one_kept ∅) ∅ ∅.

Lemma scenario_stopped : reachable junk stopped.
Proof.
  destruct b_leaves as (c & E). unfold reachable. etrans; [exact (scenario_connected c_lock)|].
  set (st n th ms := running (<[2 := kept_object]> one_object) watched 3 n 1 th one_kept ∅ ∅ ms).
  transitivity (st 2 (b_in false MWait) b_maps).
  { refine (clients_run junk (connected_b (ready_with c_lock)) (TCPClient.World one_kept
      (TCPServer.Reg [] [] (<[2 := kept_object]> one_object) watched 3) (delete 1 connected_clients)) _).
    refine (TCPClient.close_run junk 0 0 (λ _, []) (b_client_on 2) b_connected
              (TCPServer.Reg [] [] (<[2 := ready_with c_lock]> one_object) watched 3) c _ _ [] connected_clients 1 E _ _);
      reflexivity. }
  apply rtc_l with (y := st 2 (b_in true MWait) b_maps).
  { refine (f_stop junk (st 2 (b_in false MWait) b_maps) (str "b") (task_server (str "b") false) MWait _ _); reflexivity. }
  apply rtc_l with (y := st 2 (b_in true MDone) b_maps).
  { refine (f_phase junk (st 2 (b_in true MWait) b_maps) (str "b") (task_server (str "b") true) MWait 0 0 0 MDone
              (gl (st 2 (b_in true MWait) b_maps)) [] _ _ _); reflexivity. }
  apply rtc_l with (y := st 1 (a_in MServing) b_maps).
  { refine (f_joined junk (st 2 (b_in true MDone) b_maps) (str "b") (task_server (str "b") true) 0 (λ _, [])
              (TCPServer.Server (str "b") true false [] [] false) (gl (st 1 (a_in MServing) b_maps)) [] _ _ _); reflexivity. }
  apply rtc_l with (y := st 1 (a_in MServing) ∅).
  { refine (f_destroyed junk (st 1 (a_in MServing) b_maps) (str "b") _ _); [reflexivity|]. intros i d ph Ei. done. }
  set (a_stops ph := <[str "a" := (task_server (str "a") true, ph)]> (∅ : gmap bytes (TCPServer.server * TCPServer.main_phase))).
  apply rtc_l with (y := st 1 (a_stops MServing) ∅).
  { refine (f_stop junk (st 1 (a_in MServing) ∅) (str "a") (task_server (str "a") false) MServing _ _); reflexivity. }
  set (s0 := running (<[2 := kept_object]> one_object) watched 3 1 0 (a_stops MDone) one_kept ∅ ∅ ∅).
  apply rtc_l with (y := s0).
  { refine (f_phase junk (st 1 (a_stops MServing) ∅) (str "a") (task_server (str "a") true) MServing 0 0 0 MDone
              (gl s0) [] _ _ _); reflexivity. }
  apply rtc_once.
  refine (f_joined junk s0 (str "a") (task_server (str "a") true) 0 (λ _, [])
            (TCPServer.Server (str "a") true false [] [] false) (gl stopped) [4; 3] _ _ _); reflexivity.
Qed.

(** Task "c" starts, and its client takes the connection. *)
Definition new_listener : conn_obj :=
  Obj (Connection_create junk 0 4 TCPServer.EPOLL_EVENTS true (str "listen")) works_init.
Definition c_client : TCPClient.client := TCPClient.set_conn 2 (TCPClient.first_of (str "c")).
Definition taken (m : gmap Z conn_obj) (listening : Z) (ph : TCPServer.main_phase) (n : Z)
    (cs : gmap Z (TCPClient.client * TCPClient.phase)) (ms : gmap bytes (gset Z)) : state :=
  State (Proc (TCPServer.World
                 (TCPServer.Statics (TCPServer.Reg [] [] m ({[3]} ∪ ∅) 4) 1 false (Some 3) 3 4 9000 true listening)
                 (<[str "c" := (task_server (str "c") false, ph)]> ∅))
              (TCPClient.Statics [(str "10.0.0.2:9000", 2)] [] ∅ n) cs) ∅ ms.

Lemma start_on_kept_connection :
  ∃ o, conn_start junk 0 (str "c") kept_object = Ok o ∧ state_ (conn o) = Invalid.
Proof.
  apply (conn_start_ok junk 0 (str "c") kept_object); [|vm_compute; reflexivity|done].
  split; [by apply ring_of_wf..|]. apply map_Forall_insert_2; [by apply ring_of_wf|]. apply map_Forall_singleton.
  split; by vm_compute.
Qed.

(** Its server serves and its client is connected, and in its [connection_map]. *)
Lemma scenario_taken :
  ∃ o, is_server_ (conn o) = false ∧ state_ (conn o) = Invalid ∧
  reachable junk (taken (<[2 := o]> (<[3 := new_listener]> kept_map)) 1 MServing 1 (clients_in Connected c_client)
                    (<[str "c" := {[2]} ∪ ∅]> ∅)).
Proof.
  destruct start_on_kept_connection as (o & E & Es). exists o.
  split; [destruct (conn_start_peer _ _ _ _ _ E) as [_ S _ _]; by rewrite S|]. split; [done|].
  unfold reachable. etrans; [exact scenario_stopped|]. set (m := <[3 := new_listener]> kept_map).
  apply rtc_l with (y := taken m 0 MWait 0 ∅ ∅).
  { refine (f_start junk stopped (str "c") new_server 0 9000 true (TCPServer.InitEnv 3 4 0 0)
             (task_server (str "c") false) (gl (taken m 0 MWait 0 ∅ ∅)) _ _ _ _); reflexivity. }
  apply rtc_l with (y := taken m 1 MConnecting 0 ∅ ∅).
  { refine (f_phase junk (taken m 0 MWait 0 ∅ ∅) (str "c") (task_server (str "c") false) MWait 0 0 0 MConnecting
             (gl (taken m 1 MWait 0 ∅ ∅)) [] _ _ _); reflexivity. }
  apply rtc_l with (y := taken m 1 MServing 0 ∅ ∅).
  { refine (f_phase junk (taken m 1 MConnecting 0 ∅ ∅) (str "c") (task_server (str "c") false) MConnecting 0 0 0 MServing
             (gl (taken m 1 MWait 0 ∅ ∅)) [] _ _ _); reflexivity. }
  set (m' := <[2 := o]> m). set (cs := clients_in Connected c_client).
  apply rtc_l with (y := taken m' 1 MServing 1 cs ∅).
  { refine (f_client junk (taken m 1 MServing 0 ∅ ∅) (TCPClient.World (shared (proc (taken m 1 MServing 1 ∅ ∅)))
      (reg (gl (taken m' 1 MServing 1 cs ∅))) cs) _).
    refine (TCPClient.c_begin junk one_kept (reg (gl (taken m 1 MServing 0 ∅ ∅))) ∅ 1 (TCPClient.client_of (str "c"))
              0 1 TCPClient.Reused c_client _ _ _ _ _ _); [reflexivity..|].
    unfold TCPClient.connect_begin. change (map_find _ _) with (Some 2). unfold TCPClient.attach, TCPServer.deref.
    change (objects _ !! 2) with (Some kept_object). cbn -[conn_start m' m].
    change ["c"%byte] with (str "c"). rewrite E. reflexivity. }
  apply rtc_once.
  refine (f_connected junk (taken m' 1 MServing 1 cs ∅) 1 c_client 2 (reg (gl (taken m' 1 MServing 1 cs ∅))) _ _ _);
    reflexivity.
Qed.
End scenario.

(** * Properties *)

(** C23: in every state servers and clients of a process can reach, with rounds of
    [loop_once] interrupted between any two events, the connections whose descriptor
    is open and in the epoll set are held by some [shared_ptr] or are the listening
    one; and a pointer that a round has fetched and not handled yet leads to a
    connection that is still held, unless it is one that a client of the process
    opened: a server never frees an accepted connection or the listening one under
    a round.  And freed means gone: nothing in the process gets a reference back to a
    connection nobody holds. *)
Theorem polled_are_held junk w :
  reachable junk w →
  (∀ p, polled (gl w) p → holds w p)
  ∧ (∀ t p, in_flight w t p → holds w p ∨ opened (gl w) p)
  ∧ ∀ w' p, step junk w w' → live (gl w) p → ¬ holds w p → ¬ holds w' p.
Proof.
  intros H%lifetime_reachable_wf. split_and!; [| |intros w' p Hs Hp Hn Hh; by eapply Hn, gone_for_good].
  - intros p [Hp|[_ [a Ea]]]%(polled_known w p H); [by apply by_servers|]. apply by_clients. left. by exists a.
  - intros t p (active & ev & env & Et & Hin). destruct (l_rounds _ H t active Et) as [_ Ha].
    destruct (Ha p ev env Hin); [left; by apply by_servers|by right].
Qed.

(** C37: a connection that a client of the process opened can be freed under a round:
    one task listens and its round has fetched an event of the connection; the task
    that opened it closes the last client, its server stops without having listened
    and its [BasicIO] is destroyed.  No reference is left, and the next thing the
    listening thread does is [handle_read] on that pointer. *)
Theorem dialled_freed_in_flight junk :
  ∃ w t s p env rest,
    reachable junk w ∧ tasks w !! t = Some (s, MServing) ∧ TCPServer.stop_ s = false
    ∧ rounds w !! t = Some ((p, EPOLLIN, env) :: rest) ∧ opened (gl w) p ∧ ¬ holds w p.
Proof.
  destruct (scenario_freed junk) as (o & Ho & Hr).
  exists (freed junk o), (str "a"), (task_server (str "a") false), 2, readable_event.2, [].
  split_and!; [exact Hr|reflexivity..| |].
  - exists o. split; [reflexivity|exact Ho].
  - intros [[[c [=]]|[[]%elem_of_nil|[=]]]|t s ph id Et Ep|[[a [=]]|[[]%elem_of_nil|(i & c & ph & Ei & _)]]|t m Et _];
      [|discriminate Ei|discriminate Et].
    change (tasks _) with (a_in MServing) in Et. unfold a_in in Et.
    apply lookup_insert_Some in Et as [[_ [= <- _]]|[_ Et]]; [discriminate Ep|discriminate Et].
Qed.

(** The end of a stream closes a connection but leaves it reusable.  After the
    round has handled the event, a later client of the address takes it without
    dialling and counts as connected, and a server that waits for that client finds
    it; but the connection is closed, out of the epoll set, and a client that did not
    dial does not put it there again. *)
Theorem closed_is_reused junk now s g p o env c g' fds :
  objects (reg g) !! p = Some o → fd_ (conn o) ≠ TCPServer.listenfd_ g →
  state_ (conn o) = Connection.Connected → reuseable_ (conn o) = true → TCPServer.ee_handshake env = true →
  TCPServer.read_loop junk now (TCPServer.ee_reads env) (conn o) = Ok (c, true) →
  TCPServer.handle_read junk now s g env p = Ok (g', fds) →
  closed (reg g') p ∧ (p ∉ epoll (reg g'))
  ∧ (∀ now d cg b d' cg' r',
       map_find (TCPClient.node_address d) (TCPClient.connections_ cg) = Some p →
       TCPClient.connect_begin junk now d cg (reg g') = Ok (b, d', cg', r') →
       b = TCPClient.Reused ∧ TCPClient.conn_ d' = Some p ∧ TCPClient.connected_ d' = true
       ∧ TCPClient.is_first_connect_ d' = TCPClient.is_first_connect_ d ∧ closed r' p ∧ (p ∉ epoll r'))
  ∧ (∀ now s cid q r',
       map_find cid (TCPServer.connections_ (reg g')) = Some p →
       TCPServer.find_connection junk now s (reg g') cid = Ok (q, r') → q = Some p ∧ closed r' p ∧ (p ∉ epoll r')).
Proof.
  intros Eo Hfd Es Hre Hh Er E. unfold TCPServer.handle_read in E. unfold TCPServer.deref in E.
  rewrite Eo in E. cbn [mbind outcome_bind] in E.
  rewrite (proj2 (Z.eqb_neq _ _) Hfd), bool_decide_false, Hh, Er in E by (rewrite Es; by intros []).
  cbn [mbind outcome_bind negb] in E. apply bind_Ok in E as ([o' f] & Ec & E). injection E as <- <-.
  apply close_object_spec in Ec as (Ecl & _ & _ & Ere). cbn [conn] in Ere.
  apply read_loop_same in Er as (_ & _ & _ & Erc & _).
  assert (reuseable_ (conn o') = true) as Hre' by congruence.
  set (r := TCPServer.set_object p o' _). assert (closed r p) as Hc by (exists o'; cbn; by rewrite lookup_insert_eq).
  assert (p ∉ epoll r) as Hp by (cbn; set_solver).
  assert (objects r !! p = Some o') as Ep by (cbn; apply lookup_insert_eq).
  split_and!; [done..| |].
  - intros now' d cg b d' cg' r' Ed Eb. unfold TCPClient.connect_begin in Eb.
    cbn [TCPClient.connections_ reg set_reg] in Eb. rewrite Ed in Eb.
    unfold TCPServer.deref in Eb. rewrite Ep in Eb. cbn [mbind outcome_bind] in Eb. rewrite Hre' in Eb.
    apply bind_Ok in Eb as ([d2 r2] & Ea & Eb). injection Eb as <- <- <- <-.
    unfold TCPClient.attach in Ea. apply bind_Ok in Ea as (o1 & Eo1%deref_Ok & Ea).
    apply bind_Ok in Ea as (o2 & Es2%conn_start_peer & Ea). injection Ea as <- <-.
    split_and!; [done..|by destruct (_ =? _)| |done]. eapply closed_updates; [|exact Hc]. by eapply set_object_updates.
  - intros now' s' cid q r' Ec' Ef. unfold TCPServer.find_connection in Ef. cbn [reg set_reg] in Ef, Ec'. rewrite Ec' in Ef.
    unfold TCPServer.deref in Ef. rewrite Ep in Ef. cbn [mbind outcome_bind] in Ef. rewrite Hre' in Ef.
    apply bind_Ok in Ef as (o2 & Es2%conn_start_peer & Ef). injection Ef as <- <-. split; [done|]. split; [|done].
    eapply closed_updates; [|exact Hc]. by eapply set_object_updates.
Qed.

(** C36: a task that starts after the last one of the process stopped may take a
    connection nobody reads.  [TCPClient::close] of the last client keeps the
    connections when there is data on one that nobody has read, say because the peer
    has already started its next task on it; then the server stops, which closes the
    epoll set.  The client of the next task takes the kept connection without
    dialling, so nobody puts it into the new set: the client is connected, its server
    serves, the connection is open (a plain one is [Invalid] until it is closed), but from then on the set never has it and no
    round ever handles an event of it, whatever the peer sends. *)
Theorem reused_is_deaf junk :
  ∃ w c p o s, reachable junk w
  ∧ clients (proc w) !! 1 = Some (c, Connected) ∧ TCPClient.connected_ c = true ∧ TCPClient.conn_ c = Some p
  ∧ (p ∈ default ∅ (maps w !! TCPClient.task_id_ c))
  ∧ tasks w !! TCPClient.task_id_ c = Some (s, MServing)
  ∧ objects (reg (gl w)) !! p = Some o ∧ state_ (conn o) = Invalid
  ∧ ∀ w', rtc (step junk) w w' → (p ∉ epoll (reg (gl w'))) ∧ ∀ t, ¬ in_flight w' t p.
Proof.
  destruct (scenario_taken junk) as (o & Ho & Es & Hr).
  do 2 eexists. exists 2, o. eexists. split; [exact Hr|].
  split; [reflexivity|]. split; [reflexivity|]. split; [reflexivity|].
  split; [change (2 ∈ ({[2]} ∪ ∅ : gset Z)); set_solver|]. split; [reflexivity|]. split; [reflexivity|]. split; [exact Es|].
  intros w'. apply unheard_for_ever; [by eapply lifetime_reachable_wf|split; [by exists o|split]|].
  - change (2 ∉ ({[3]} ∪ ∅ : gset Z)). set_solver.
  - intros i c ph Ei. change (clients_in Connected c_client !! i = Some (c, ph)) in Ei.
    unfold clients_in in Ei. apply lookup_insert_Some in Ei as [[_ [= <- _]]|[_ Ei]]; discriminate.
  - intros t (act & ev & env & Et & _). done.
Qed.

(** * Witnesses *)

Lemma polled_are_held_witness :
  in_flight (fetched (λ _, x00)) (str "a") 2 ∧ polled (gl (fetched (λ _, x00))) 2
  ∧ (∀ p, polled (gl (fetched (λ _, x00))) p → holds (fetched (λ _, x00)) p)
  ∧ (∀ t p, in_flight (fetched (λ _, x00)) t p →
       holds (fetched (λ _, x00)) p ∨ opened (gl (fetched (λ _, x00))) p)
  ∧ ∀ w' p, step (λ _, x00) (fetched (λ _, x00)) w' → live (gl (fetched (λ _, x00))) p →
      ¬ holds (fetched (λ _, x00)) p → ¬ holds w' p.
Proof.
  split; [|split; [|exact (polled_are_held (λ _, x00) (fetched (λ _, x00)) (scenario_fetched (λ _, x00)))]].
  - exists [readable_event], EPOLLIN, readable_event.2. split; [reflexivity|by apply list_elem_of_singleton].
  - split; [by apply elem_of_union_l, elem_of_singleton|]. exists ready_object. split; [reflexivity|].
    change (Invalid ≠ Closed). discriminate.
Defined.

(** The peer of a connection closes it. *)
Definition plain_object (st : Connection.State) : conn_obj :=
  Obj (Conn st 7 TCPServer.EPOLL_EVENTS false (str "P2") true (ring_of []) ∅ (ring_of []) ∅) works_init.
Definition with_object (st : Connection.State) (ep : gset Z) : TCPServer.statics :=
  TCPServer.Statics (TCPServer.Reg [] [] (<[2 := plain_object st]> ∅) ep 3) 1 false None 3 4 9000 true 1.
Definition peer_closes : event_env :=
  TCPServer.EventEnv (TCPServer.AcceptEnv 0 0 (RR 0 (EOTHER 0) []) (RR 0 (EOTHER 0) [])) true [RR 0 (EOTHER 0) []] [] false.

(** A client takes the closed connection. *)
Lemma takes_closed :
  ∃ o, TCPClient.connect_begin (λ _, x00) 0 (TCPClient.client_of (str "c")) b_connected (reg (with_object Closed ∅)) =
    Ok (TCPClient.Reused, TCPClient.set_conn 2 (TCPClient.client_of (str "c")),
        TCPClient.Statics [(str "10.0.0.2:9000", 2)] [] ∅ 2,
        TCPServer.set_object 2 o (reg (with_object Closed ∅))).
Proof.
  destruct (conn_start_ok (λ _, x00) 0 (str "c") (plain_object Closed)) as (o & E & _);
    [split; [by apply ring_of_wf..|apply map_Forall_empty]|vm_compute; reflexivity|done|].
  exists o. unfold TCPClient.connect_begin.
  change (map_find _ _) with (Some 2). unfold TCPClient.attach, TCPServer.deref.
  repeat first [rewrite lookup_insert_eq | progress cbn -[conn_start]].
  change ["c"%byte] with (str "c"). rewrite E. reflexivity.
Qed.

Lemma closed_is_reused_witness :
  TCPServer.handle_read (λ _, x00) 0 new_server (with_object Connection.Connected {[ 2 ]}) peer_closes 2 =
    Ok (with_object Closed ∅, [7])
  ∧ closed (reg (with_object Closed ∅)) 2
  ∧ ∃ b d' cg' r',
      TCPClient.connect_begin (λ _, x00) 0 (TCPClient.client_of (str "c")) b_connected (reg (with_object Closed ∅)) =
        Ok (b, d', cg', r')
      ∧ b = TCPClient.Reused ∧ TCPClient.conn_ d' = Some 2 ∧ TCPClient.connected_ d' = true
      ∧ TCPClient.is_first_connect_ d' = false ∧ closed r' 2 ∧ (2 ∉ epoll r').
Proof.
  destruct (closed_is_reused (λ _, x00) 0 new_server (with_object Connection.Connected {[ 2 ]}) 2
              (plain_object Connection.Connected) peer_closes (conn (plain_object Connection.Connected))
              (with_object Closed ∅) [7]) as (Hc & _ & Hb & _);
    [reflexivity|vm_compute; discriminate|reflexivity|reflexivity|reflexivity|reflexivity|reflexivity|].
  split; [reflexivity|]. split; [exact Hc|]. destruct takes_closed as [o E]. do 4 eexists. split; [exact E|].
  refine (Hb 0 (TCPClient.client_of (str "c")) b_connected _ _ _ _ _ E). reflexivity.
Defined.
End Lifetime.
