(* ===== verification/Freed.v ===== *)
(** Which calls of a process use a freed connection.  The heap of [Lifetime] keeps every
    connection that was ever created; here it loses those nobody holds, as the program's
    does when the last [shared_ptr] to a connection goes. *)
From Stdlib Require Import Strings.Byte.
From S2P Require Import Prelude Timer CycleBuffer SimpleBuffer Transport Connection StdMap Work Server.
From S2P Require Import Heap Client Process Lifetime.
#[local] Open Scope Z_scope.

Module Freed.
Import TCPServer (registry, Reg, objects, epoll, reg, set_reg, server_connections_, MServing).
Import TCPClient (Connected).
Import Heap Process Lifetime.

(** * Specification *)

(** [r] is the heap of the process without the connections nobody holds. *)
Record frees (w : state) (r : registry) : Prop := {
  fr_connections : TCPServer.connections_ r = TCPServer.connections_ (reg (gl w));
  fr_recycled : TCPServer.recycle_connections_ r = TCPServer.recycle_connections_ (reg (gl w));
  fr_epoll : epoll r = epoll (reg (gl w));
  fr_held p : holds w p → objects r !! p = objects (reg (gl w)) !! p;
  fr_freed p : ¬ holds w p → objects r !! p = None
}.

(** The events whose handlers look at the connection. *)
Definition handled (events : Z) : bool :=
  negb (Z.land events TCPServer.EPOLLERR =? 0) || negb (Z.land events TCPServer.EPOLLIN =? 0).

(** * Lemmas *)

Section lemmas.
Context (junk : nat → byte) (w : state) (r : registry).
Hypotheses (Hw : lifetime_wf w) (Hr : frees w r).

Lemma kept p : holds w p → live (gl w) p → is_Some (objects r !! p).
Proof. intros Hh [o E]. rewrite (fr_held _ _ Hr) by done. by exists o. Qed.

Lemma listed cid p : map_find cid (TCPServer.connections_ (reg (gl w))) = Some p → is_Some (objects r !! p).
Proof.
  intros E. apply kept; [apply by_servers; left; by exists cid|].
  pose proof (pt_servers _ (l_typed _ Hw)) as Ht. destruct (t_connections _ _ Ht) as [_ Hm].
  destruct (Hm cid p E) as (o & Eo & _). by exists o.
Qed.

Lemma lead_servers : lead (TCPServer.connections_ r) r.
Proof.
  intros cid p Hin. rewrite (fr_connections _ _ Hr) in Hin. apply (listed cid), elem_map_find; [|done].
  apply (t_connections _ _ (pt_servers _ (l_typed _ Hw))).
Qed.

Lemma lead_server t s ph : tasks w !! t = Some (s, ph) → lead (server_connections_ s) r.
Proof.
  intros Et cid p Hin. pose proof (pt_servers _ (l_typed _ Hw)) as Ht.
  destruct (t_servers _ _ Ht t s ph Et) as [Hs Hm]. apply elem_map_find in Hin; [|done].
  apply kept; [by eapply by_server|]. destruct (Hm cid p Hin) as (o & Eo & _). by exists o.
Qed.

Lemma client_found a p : map_find a (TCPClient.connections_ (shared (proc w))) = Some p → is_Some (objects r !! p).
Proof.
  intros E. apply kept; [apply by_clients; left; by exists a|].
  apply opened_live. eapply c_connections; [apply (pt_clients _ (l_typed _ Hw))|done].
Qed.

Lemma lead_clients : lead (TCPClient.connections_ (shared (proc w))) r.
Proof. intros a p Hin. apply (client_found a), elem_map_find; [apply (TCPClient.wf_sorted _ (pt_wf _ (l_typed _ Hw)))|done]. Qed.

Lemma client_conn i c ph p :
  clients (proc w) !! i = Some (c, ph) → TCPClient.conn_ c = Some p → is_Some (objects r !! p).
Proof.
  intros Ei Ec. apply kept; [apply by_clients; right; right; by exists i, c, ph|].
  apply opened_live. eapply c_conn; [apply (pt_clients _ (l_typed _ Hw))|done..].
Qed.

(** A polled pointer, or one a round has fetched, leads to a connection. *)
Lemma polled_kept p : polled (gl w) p → holds w p → is_Some (objects r !! p).
Proof. intros [_ (o & Eo & _)] Hh. apply kept; [done|by exists o]. Qed.
End lemmas.

(** * Properties *)

(** C22: of all calls of a process only the handling of an event can use a connection
    after it was freed.  Take any state the servers and clients of a process can reach,
    with the connections nobody holds freed: [put_connection] and [stop] of a server,
    [connect] and [close] of a client (its [stop] of the connection section by section)
    and the entry into the epoll set never follow a pointer that leads nowhere, and
    neither does the handler of an event of a connection that is open and in the set
    now; but the handler of an event a round fetched before does exactly when nobody
    holds the connection any more. *)
Theorem only_rounds_follow_freed junk w r :
  reachable junk w → frees w r → let g := set_reg r (gl w) in
  (∀ t s ph, tasks w !! t = Some (s, ph) →
     (∀ now cid, TCPServer.put_connection junk now s r cid ≠ UB Dangling)
     ∧ ∀ now elapsed wenv, TCPServer.stop_joined junk now elapsed wenv s g ≠ UB Dangling)
  ∧ (∀ now c,
       TCPClient.connect_begin junk now c (shared (proc w)) r ≠ UB Dangling
       ∧ TCPClient.connect_wait junk now c (shared (proc w)) r ≠ UB Dangling
       ∧ ∀ wenv, TCPClient.close_release junk now wenv (shared (proc w)) r ≠ UB Dangling)
  ∧ (∀ i c ph, clients (proc w) !! i = Some (c, ph) →
       (∀ now elapsed a, TCPClient.close_section now elapsed a c r ≠ UB Dangling)
       ∧ (ph = Connected → ∃ p, TCPClient.conn_ c = Some p ∧ TCPServer.add_connection_to_epoll r p ≠ UB Dangling))
  ∧ (∀ now s p events env, polled (gl w) p → TCPServer.handle_event junk now s g p events env ≠ UB Dangling)
  ∧ ∀ t active p events env now s, rounds w !! t = Some active → (p, events, env) ∈ active → handled events = true →
      TCPServer.handle_event junk now s g p events env = UB Dangling ↔ ¬ holds w p.
Proof.
  intros H%lifetime_reachable_wf Hr g. split_and!.
  - intros t s ph Et. split.
    + intros now cid. apply alive_put_connection. intros p. rewrite (fr_connections _ _ Hr). by apply listed.
    + intros now el wenv. apply alive_stop_joined; [by eapply lead_server|by eapply lead_servers].
  - intros now c. split_and!; [apply alive_connect_begin|apply alive_connect_wait|intros wenv; apply alive_close_release, lead_clients];
      try done; intros p; by apply client_found.
  - intros i c ph Ei. split.
    + intros now el a. apply alive_close_section. intros p. by eapply client_conn.
    + intros ->. destruct (c_connected _ _ _ (pt_clients _ (l_typed _ H)) i c Ei) as [p Ep]. exists p. split; [done|].
      apply alive_add_to_epoll. by eapply client_conn.
  - intros now s p ev env Hp. apply alive_handle_event. apply (polled_kept w r Hr p Hp).
    destruct (polled_known w p H Hp) as [?|[_ [a Ea]]]; [by apply by_servers|apply by_clients; left; by exists a].
  - intros t active p ev env now s Et Hin Hev. unfold g. rewrite handle_event_dangles by done. cbn [reg set_reg]. split.
    + intros Hn Hh. apply Hn. apply (kept w r Hr p Hh). destruct (l_rounds _ H t active Et) as [_ Ha].
      destruct (Ha p ev env Hin) as [Ho|Ho]; [|by apply opened_live].
      pose proof (pt_servers _ (l_typed _ H)) as Ht. destruct Ho as [[cid E]|[Hq|El]].
      * destruct (t_connections _ _ Ht) as [_ Hm]. destruct (Hm cid p E) as (o & Eo & _). by exists o.
      * destruct (t_recycled _ _ Ht p Hq) as (cid & o & Eo & _). by exists o.
      * by apply (t_listen _ _ Ht).
    + intros Hn [o Eo]. by rewrite (fr_freed _ _ Hr) in Eo.
Qed.

(** * Witnesses *)

Definition zero : nat → byte := λ _, x00.

(** Task "a" serves and has fetched an event of connection 2, on which the client of "b"
    is connected: nothing is freed. *)
Lemma fetched_held p : is_Some (two_objects zero !! p) → holds (fetched zero) p.
Proof.
  intros [o E]. unfold two_objects, one_object in E.
  apply lookup_insert_Some in E as [[<- _]|[_ E]].
  - apply by_clients. left. by exists (str "10.0.0.2:9000").
  - apply lookup_insert_Some in E as [[<- _]|[_ E]]; [|done]. apply by_servers. right. by right.
Qed.

Lemma fetched_frees : frees (fetched zero) (reg (gl (fetched zero))).
Proof.
  split; try done. intros p Hn. change (two_objects zero !! p = None). apply eq_None_not_Some. intros Hs. by apply Hn, fetched_held.
Qed.

(** "b" is gone: connection 2 is freed, and the round of "a" still has its event. *)
Lemma freed_frees o : frees (freed zero o) (Reg [] [] (one_object zero) watched 3).
Proof.
  assert (∀ p, holds (freed zero o) p → p = 1) as Hone.
  { intros p [[[c [=]]|[[]%elem_of_nil|[= <-]]]|t s ph id Et Ep|[[a [=]]|[[]%elem_of_nil|(i & c & ph & Ei & _)]]|t m Et _];
      [done| |discriminate Ei|discriminate Et].
    change (tasks _) with (a_in MServing) in Et. unfold a_in in Et.
    apply lookup_insert_Some in Et as [[_ [= <- _]]|[_ Et]]; [discriminate Ep|discriminate Et]. }
  split; try done.
  - intros p ->%Hone. change (one_object zero !! 1 = <[2 := o]> (one_object zero) !! 1). by rewrite lookup_insert_ne.
  - intros p Hn. unfold one_object. cbn. apply lookup_insert_None. split; [done|]. intros <-. apply Hn, by_servers. by right; right.
Qed.

Lemma only_rounds_follow_freed_witness :
  (∀ now cid, TCPServer.put_connection zero now (task_server (str "a") false) (reg (gl (fetched zero))) cid ≠ UB Dangling)
  ∧ (∀ now elapsed a, TCPClient.close_section now elapsed a (b_client_on 2) (reg (gl (fetched zero))) ≠ UB Dangling)
  ∧ (∀ now s, TCPServer.handle_event zero now s (gl (fetched zero)) 2 readable_event.1.2 readable_event.2 ≠ UB Dangling)
  ∧ ∃ o, reachable zero (freed zero o)
     ∧ ∀ now s, TCPServer.handle_event zero now s (set_reg (Reg [] [] (one_object zero) watched 3) (gl (freed zero o))) 2
                  readable_event.1.2 readable_event.2 = UB Dangling.
Proof.
  destruct (only_rounds_follow_freed zero (fetched zero) _ (scenario_fetched zero) fetched_frees) as (Hs & _ & Hc & _ & Hf).
  split; [apply (Hs (str "a") _ MServing); reflexivity|]. split; [apply (Hc 1 _ Connected); reflexivity|]. split.
  - intros now s E. refine (proj1 (Hf (str "a") [readable_event] 2 _ _ now s _ _ _) E _);
      [reflexivity|by apply list_elem_of_singleton|reflexivity|]. apply fetched_held. by eexists.
  - destruct (scenario_freed zero) as (o & Ho & Hr). exists o. split; [exact Hr|]. intros now s.
    destruct (only_rounds_follow_freed zero (freed zero o) _ Hr (freed_frees o)) as (_ & _ & _ & _ & Hf').
    refine (proj2 (Hf' (str "a") [readable_event] 2 _ _ now s _ _ _) _); [reflexivity|by apply list_elem_of_singleton|reflexivity|].
    intros Hh. pose proof (fr_held _ _ (freed_frees o) 2 Hh) as E. discriminate E.
Defined.
End Freed.
