(* ===== verification/Closers.v ===== *)
(** [Connection::close] of [src/connection.cpp] called by several threads.  It tests and
    sets [state_] without a mutex: the loop of a server closes a connection whose stream
    has ended ([TCPServer::handle_read], [handle_error]), and [TCPClient::close] of the
    last client closes all connections.  The other files take a close as one step; here
    it goes access by access, with the table of open descriptors of the process. *)
From Stdlib Require Import Strings.Byte.
From S2P Require Import Prelude Timer CycleBuffer SimpleBuffer Transport Connection StdMap Work Server.
From S2P Require Import Heap Client Process Lifetime.
#[local] Open Scope Z_scope.

Module Closers.
Import TCPServer (registry, Reg, objects, epoll, reg, set_reg, event_env, MWait, MServing, EPOLLIN, EPOLL_EVENTS).

(** * The program *)

(** Where a call of [close] is: before the test of [state_], before
    [state_ = Closing], before [flush_send_buffer], before [::close(fd_)], before
    [state_ = Closed]. *)
Inductive point := Tests | Marks | Flushes | Releases | Finishes.

(** A plain connection; who has each open descriptor of the process (the connection is
    number 0); the calls of [close] under way; and what [::close] was called with so far,
    with the owner the descriptor had. *)
Record state := State {
  c_ : Connection;
  table : gmap Z nat;
  calls : gmap nat point;
  log : list (Z * option nat)
}.

Section program.
Context (junk : nat → byte).

Inductive step : relation state :=
  | x_call st t :
      calls st !! t = None → step st (State (c_ st) (table st) (<[t := Tests]> (calls st)) (log st))
  | x_closed st t :
      calls st !! t = Some Tests → state_ (c_ st) = Closed →
      step st (State (c_ st) (table st) (delete t (calls st)) (log st))
  | x_goes_on st t :
      calls st !! t = Some Tests → state_ (c_ st) ≠ Closed →
      step st (State (c_ st) (table st) (<[t := Marks]> (calls st)) (log st))
  | x_marks st t :
      calls st !! t = Some Marks →
      step st (State (set_state Closing (c_ st)) (table st) (<[t := Flushes]> (calls st)) (log st))
  | x_flushes st t now env c' sent env' :
      calls st !! t = Some Flushes → flush_send_buffer junk now env (c_ st) = Ok (c', sent, env') →
      step st (State c' (table st) (<[t := Releases]> (calls st)) (log st))
  | x_releases st t :
      let fd := fd_ (c_ st) in
      calls st !! t = Some Releases →
      step st (State (c_ st) (delete fd (table st)) (<[t := Finishes]> (calls st)) (log st ++ [(fd, table st !! fd)]))
  | x_finishes st t :
      calls st !! t = Some Finishes →
      step st (State (set_state Closed (c_ st)) (table st) (delete t (calls st)) (log st))
  (* another [socket], [accept] or [open] of the process gets a free descriptor, and
     gives it back *)
  | x_opens st fd n :
      table st !! fd = None → (0 < n)%nat → step st (State (c_ st) (<[fd := n]> (table st)) (calls st) (log st))
  | x_gives_back st fd n :
      table st !! fd = Some n → (0 < n)%nat → step st (State (c_ st) (delete fd (table st)) (calls st) (log st)).

(** The calls come one after the other. *)
Definition alone (st : state) : Prop := ∀ t u p q, calls st !! t = Some p → calls st !! u = Some q → t = u.
Definition in_turn : relation state := λ st st', step st st' ∧ alone st'.

(** An open connection, and nobody closes it. *)
Definition opened (c : Connection) (m : gmap Z nat) : state := State c m ∅ [].
End program.

(** * The invariant *)

(** Calls in turn: the descriptor is the connection's until the one [::close]. *)
Record closes_once (fd : Z) (st : state) : Prop := {
  o_fd : fd_ (c_ st) = fd;
  o_alone : alone st;
  o_log : (log st = [] ∧ table st !! fd = Some 0%nat ∧ state_ (c_ st) ≠ Closed ∧ ∀ t, calls st !! t ≠ Some Finishes)
          ∨ log st = [(fd, Some 0%nat)]
            ∧ ((∃ t, calls st !! t = Some Finishes)
               ∨ state_ (c_ st) = Closed ∧ ∀ t p, calls st !! t = Some p → p = Tests)
}.

(** * Lemmas *)

Lemma flush_keeps junk now env c c' sent env' :
  flush_send_buffer junk now env c = Ok (c', sent, env') → fd_ c' = fd_ c ∧ state_ c' = state_ c.
Proof. unfold flush_send_buffer. intros E. destruct (0 <? _); by outcome_inv. Qed.

Section lemmas.
Context (junk : nat → byte).

(** The one call there is moves on. *)
Lemma only_call st t p q u : alone st → calls st !! t = Some p → <[t := q]> (calls st) !! u = Some Finishes → q = Finishes.
Proof.
  intros Ha Et [[_ ?]|[Hne Eu]]%lookup_insert_Some; [done|]. by destruct Hne; eapply Ha.
Qed.

#[export] Instance closes_once_invariant fd : Invariant (in_turn junk) (closes_once fd).
Proof.
  intros st st' [Hfd Ha Hl] [Hs Ha'].
  destruct Hs as [st t Et|st t Et Es|st t Et Es|st t Et|st t now env c' sent env' Et E|st t f Et|st t Et|st f n Ef Hn|st f n Ef Hn];
    cbn in *; (split; cbn; [|done|]); try done.
  - destruct Hl as [(? & ? & ? & Hn)|(? & Hl)]; [left|right]; (split_and!; [done..|]).
    + intros u [[_ ?]|[_ ?]]%lookup_insert_Some; [done|by eapply Hn].
    + destruct Hl as [[u Hu]|[Hc Hp]].
      * left. exists u. rewrite lookup_insert_ne; congruence.
      * right. split; [done|]. intros u p [[_ <-]|[_ ?]]%lookup_insert_Some; [done|by eapply Hp].
  - destruct Hl as [(_ & _ & ? & _)|(? & Hl)]; [done|right]. split; [done|].
    destruct Hl as [[u Hu]|[Hc Hp]]; [by pose proof (Ha t u _ _ Et Hu); congruence|right].
    split; [done|]. intros u p [_ ?]%lookup_delete_Some. by eapply Hp.
  - destruct Hl as [(? & ? & ? & Hn)|(? & [[u Hu]|[Hc _]])]; [left|by pose proof (Ha t u _ _ Et Hu); congruence|done].
    split_and!; [done..|]. intros u Hu. by apply (only_call st t Tests Marks u) in Hu.
  - destruct Hl as [(? & ? & ? & Hn)|(? & [[u Hu]|[Hc Hp]])]; [left|by pose proof (Ha t u _ _ Et Hu); congruence|by specialize (Hp _ _ Et)].
    split_and!; [done..|]. intros u Hu. by apply (only_call st t Marks Flushes u) in Hu.
  - destruct (flush_keeps _ _ _ _ _ _ _ E) as [-> _]. done.
  - destruct (flush_keeps _ _ _ _ _ _ _ E) as [_ ->].
    destruct Hl as [(? & ? & ? & Hn)|(? & [[u Hu]|[Hc Hp]])]; [left|by pose proof (Ha t u _ _ Et Hu); congruence|by specialize (Hp _ _ Et)].
    split_and!; [done..|]. intros u Hu. by apply (only_call st t Flushes Releases u) in Hu.
  - destruct Hl as [(E0 & Et0 & ? & Hn)|(? & [[u Hu]|[Hc Hp]])]; [right|by pose proof (Ha t u _ _ Et Hu); congruence|by specialize (Hp _ _ Et)].
    subst f. rewrite E0, Hfd, Et0. split; [done|]. left. exists t. apply lookup_insert_eq.
  - destruct Hl as [(_ & _ & _ & Hn)|(? & Hl)]; [by specialize (Hn t)|right]. split; [done|]. right. split; [done|].
    intros u p [Hne Eu]%lookup_delete_Some. by destruct Hne; eapply Ha.
  - destruct Hl as [(? & ? & ? & Hn')|Hl]; [left|by right]. split_and!; [done| |done..].
    rewrite lookup_insert_ne; [done|]. congruence.
  - destruct Hl as [(? & E0 & ? & Hn')|Hl]; [left|by right]. split_and!; [done| |done..].
    rewrite lookup_delete_ne; [done|]. intros ->. rewrite E0 in Ef. injection Ef as <-. lia.
Qed.

(** A call that nobody interrupts is [Connection.close]. *)
Lemma close_alone now env c m l (t : nat) c' sent fds env' :
  Connection.close junk now env c = Ok (c', sent, fds, env') →
  ∃ m', rtc (in_turn junk) (State c m ∅ l) (State c' m' ∅ (l ++ ((λ fd, (fd, m !! fd)) <$> fds))).
Proof.
  intros E.
  assert (∀ p q, <[t := q]> (<[t := p]> ∅) = <[t := q]> (∅ : gmap nat point)) as Hi by (intros; apply insert_insert_eq).
  assert (∀ c m p l, alone (State c m (<[t := p]> ∅) l)) as H1.
  { intros c0 m0 p l0 u v q q'. cbn. intros [[<- _]|[_ E1]]%lookup_insert_Some [[<- _]|[_ E2]]%lookup_insert_Some; done. }
  assert (∀ c m l, alone (State c m ∅ l)) as H0 by by intros c0 m0 l0 u v q q'.
  assert (∀ st st', step junk st st' → alone st' → in_turn junk st st') as Hin by by split.
  unfold Connection.close in E. case_bool_decide as Es.
  - injection E as <- <- <- <-. exists m. rewrite app_nil_r.
    eapply rtc_l; [apply Hin; [apply (x_call junk _ t); apply lookup_empty|apply H1]|]. apply rtc_once. cbn.
    apply Hin; [|apply H0]. pose proof (x_closed junk (State c m (<[t := Tests]> ∅) l) t (lookup_insert_eq _ _ _) Es) as H.
    cbn in H. by rewrite delete_insert_eq, delete_empty in H.
  - apply bind_Ok in E as ([[c1 s1] e1] & E & E'). injection E' as <- <- <- <-. exists (delete (fd_ c1) m).
    eapply rtc_l; [apply Hin; [apply (x_call junk _ t); apply lookup_empty|apply H1]|]. cbn.
    eapply rtc_l; [apply Hin; [apply (x_goes_on junk _ t); [apply lookup_insert_eq|exact Es]|]; cbn; rewrite Hi; apply H1|]. cbn. rewrite Hi.
    eapply rtc_l; [apply Hin; [apply (x_marks junk _ t); apply lookup_insert_eq|]; cbn; rewrite Hi; apply H1|]. cbn. rewrite Hi.
    eapply rtc_l; [apply Hin; [eapply (x_flushes junk _ t); [apply lookup_insert_eq|exact E]|]; cbn; rewrite Hi; apply H1|]. cbn. rewrite Hi.
    eapply rtc_l; [apply Hin; [apply (x_releases junk _ t); apply lookup_insert_eq|]; cbn; rewrite Hi; apply H1|]. cbn. rewrite Hi.
    apply rtc_once. apply Hin; [|apply H0]. pose proof (x_finishes junk (State c1 (delete (fd_ c1) m) (<[t := Finishes]> ∅)
      (l ++ [(fd_ c1, m !! fd_ c1)])) t (lookup_insert_eq _ _ _)) as H. cbn in H. rewrite delete_insert_eq, delete_empty in H. exact H.
Qed.

(** Two calls, the first one up to [::close]; then another file gets the descriptor, and
    the second call closes that. *)
Lemma second_close c fd n (t u : nat) now env c1 s1 e1 c2 s2 e2 :
  fd_ c = fd → state_ c ≠ Closed → (0 < n)%nat → t ≠ u →
  flush_send_buffer junk now env (set_state Closing c) = Ok (c1, s1, e1) →
  flush_send_buffer junk now env c1 = Ok (c2, s2, e2) →
  ∃ st, rtc (step junk) (opened c {[fd := 0%nat]}) st ∧ calls st = ∅ ∧ state_ (c_ st) = Closed
    ∧ log st = [(fd, Some 0%nat); (fd, Some n)].
Proof.
  intros Hfd Hs Hn Hne E1 E2. destruct (flush_keeps _ _ _ _ _ _ _ E1) as [F1 S1], (flush_keeps _ _ _ _ _ _ _ E2) as [F2 S2].
  assert (set_state Closing c1 = c1) as Ec1 by (destruct c1; cbn in *; by subst).
  set (K p q := <[t := p]> (<[u := q]> ∅) : gmap nat point).
  assert (∀ p p' q, <[t := p']> (K p q) = K p' q) as It by (intros; unfold K; apply insert_insert_eq).
  assert (∀ p q q', <[u := q']> (K p q) = K p q') as Iu'.
  { intros. unfold K. rewrite (insert_insert_ne _ u t) by done. by rewrite insert_insert_eq. }
  assert (∀ p q, K p q !! t = Some p) as Lt by (intros; apply lookup_insert_eq).
  assert (∀ p q, K p q !! u = Some q) as Lu by (intros; unfold K; rewrite lookup_insert_ne, lookup_insert_eq; done).
  eexists. split.
  { eapply rtc_l; [apply (x_call junk _ u); apply lookup_empty|].
    eapply rtc_l; [apply (x_call junk _ t); cbn; rewrite lookup_insert_ne; [apply lookup_empty|done]|]. cbn. fold (K Tests Tests).
    eapply rtc_l; [apply (x_goes_on junk _ t); [apply Lt|exact Hs]|]. cbn. rewrite It.
    eapply rtc_l; [apply (x_goes_on junk _ u); [apply Lu|exact Hs]|]. cbn. rewrite Iu'.
    eapply rtc_l; [apply (x_marks junk _ t); apply Lt|]. cbn. rewrite It.
    eapply rtc_l; [eapply (x_flushes junk _ t); [apply Lt|exact E1]|]. cbn. rewrite It.
    eapply rtc_l; [apply (x_marks junk _ u); apply Lu|]. cbn. rewrite Iu', Ec1.
    eapply rtc_l; [eapply (x_flushes junk _ u); [apply Lu|exact E2]|]. cbn. rewrite Iu'.
    eapply rtc_l; [apply (x_releases junk _ t); apply Lt|]. cbn. rewrite It.
    eapply rtc_l; [apply (x_opens junk _ fd n); [|done]; cbn; rewrite F2, F1; cbn; rewrite Hfd; apply lookup_delete_eq|]. cbn.
    eapply rtc_l; [apply (x_releases junk _ u); apply Lu|]. cbn. rewrite Iu'.
    eapply rtc_l; [apply (x_finishes junk _ t); apply Lt|].
    eapply rtc_l; [apply (x_finishes junk _ u); cbn; rewrite lookup_delete_ne by done; apply Lu|]. apply rtc_refl. }
  cbn. split_and!; [|done|].
  - unfold K. rewrite delete_insert_id; [|by rewrite lookup_insert_ne]. by rewrite delete_insert_eq, delete_empty.
  - rewrite F2, F1. cbn. rewrite Hfd, lookup_insert_eq. by rewrite lookup_singleton_eq.
Qed.
End lemmas.

(** ** Two threads that close the same connection *)

Section meeting.
Context (junk : nat → byte).
Import Lifetime.

(** The peer of connection 2 has closed it, and the round of "a" has just fetched that;
    the client of "b", the last one of the process, has stopped its task. *)
Definition stopped_object : conn_obj :=
  Obj (Conn Invalid 7 EPOLL_EVENTS false (str "P2") true (ring_of [])
            {[ lock_id (str "b") := drained ]} (ring_of []) ∅) works_init.
Definition meeting : Lifetime.state :=
  running (<[2 := stopped_object]> (one_object junk)) watched 3 2 1 (b_in false MWait) b_connected
    (clients_in TCPClient.Closing (TCPClient.set_unconnected (b_client_on 2)))
    (<[str "a" := [(2, EPOLLIN, peer_closes)]]> ∅) b_maps.

Lemma b_stops :
  TCPClient.close_stop 0 0 (TCPClient.set_unconnected (b_client_on 2)) (Reg [] [] (two_objects junk) watched 3) =
    Ok (Reg [] [] (<[2 := stopped_object]> (one_object junk)) watched 3).
Proof. unfold two_objects, one_object. generalize (listen_object junk) as l. intros l. vm_compute. reflexivity. Qed.

Lemma scenario_meeting : Lifetime.reachable junk meeting.
Proof.
  set (st o c ph := running (<[2 := o]> (one_object junk)) watched 3 2 1 (b_in false MWait) b_connected
    (clients_in ph c) (<[str "a" := [(2, EPOLLIN, peer_closes)]]> ∅) b_maps).
  unfold Lifetime.reachable. etrans; [exact (scenario_connected junk b_lock)|].
  eapply rtc_l with (y := st ready_object (b_client_on 2) TCPClient.Connected).
  { refine (f_fetch junk (connected_b junk ready_object) (str "a") (task_server (str "a") false) MServing
      [(2, EPOLLIN, peer_closes)] _ _ _ _); [reflexivity..|]. apply Forall_singleton. split.
    - change (2 ∈ watched). apply elem_of_union_l. by apply elem_of_singleton.
    - exists ready_object. split; [reflexivity|]. change (Invalid ≠ Closed). discriminate. }
  refine (clients_run junk (st ready_object (b_client_on 2) TCPClient.Connected) (TCPClient.World b_connected
    (Reg [] [] (<[2 := stopped_object]> (one_object junk)) watched 3)
    (clients_in TCPClient.Closing (TCPClient.set_unconnected (b_client_on 2)))) _).
  eapply rtc_l; [by eapply (TCPClient.c_close junk _ _ _ 1 (b_client_on 2))|].
  pose proof (TCPClient.close_stop_run junk 0 0 _ b_connected _ _ (<[1 := (TCPClient.set_unconnected (b_client_on 2),
    TCPClient.Stopping AtMutex)]> ∅) 1 b_stops (lookup_insert_eq _ _ _)) as H.
  rewrite insert_insert_eq in H. exact H.
Qed.

Lemma both_close :
  (∃ g, TCPServer.handle_event junk 0 (task_server (str "a") false) (gl meeting) 2 EPOLLIN peer_closes = Ok (g, [7]))
  ∧ ∃ cg r, TCPClient.close_release junk 0 (λ _, []) (Process.shared (proc meeting)) (reg (gl meeting)) = Ok (cg, r, [7]).
Proof.
  unfold meeting, one_object. cbn [gl proc running Process.sv TCPServer.globals Process.shared reg]. generalize (listen_object junk) as l. intros l.
  split; do 2 try eexists; vm_compute; reflexivity.
Qed.
End meeting.

(** * Properties *)

(** C24: [Connection::close] gives its descriptor back once when its calls come one after
    the other: the first one closes it while it is the connection's, the later ones do
    nothing.  But two threads do close the same connection at the same time, with no
    mutex in common: in a state the process can reach the loop of one task has fetched
    the end of the stream of a connection and is about to close it, and so is the last
    client, whose task has stopped.  When both have tested [state_] before either has set
    it to [Closed], [::close] is called twice, and the second time it closes what another
    [socket], [accept] or [open] of the process has got in the meantime. *)
Theorem close_is_not_atomic junk :
  (∀ c m st, m !! fd_ c = Some 0%nat → state_ c ≠ Closed → rtc (in_turn junk) (opened c m) st →
     (log st = [] ∨ log st = [(fd_ c, Some 0%nat)])
     ∧ (calls st = ∅ → state_ (c_ st) = Closed → log st = [(fd_ c, Some 0%nat)]))
  ∧ ∃ w a s p env rest i c o fd, Lifetime.reachable junk w
      ∧ Lifetime.tasks w !! a = Some (s, MServing) ∧ Lifetime.rounds w !! a = Some ((p, EPOLLIN, env) :: rest)
      ∧ (∃ g, TCPServer.handle_event junk 0 s (Lifetime.gl w) p EPOLLIN env = Ok (g, [fd]))
      ∧ Process.clients (Lifetime.proc w) !! i = Some (c, TCPClient.Closing)
      ∧ (∃ cg r, TCPClient.close_release junk 0 (λ _, []) (Process.shared (Lifetime.proc w)) (reg (Lifetime.gl w)) = Ok (cg, r, [fd]))
      ∧ objects (reg (Lifetime.gl w)) !! p = Some o
      ∧ ∀ n, (0 < n)%nat →
          ∃ st, rtc (step junk) (opened (conn o) {[fd := 0%nat]}) st ∧ calls st = ∅ ∧ state_ (c_ st) = Closed
            ∧ log st = [(fd, Some 0%nat); (fd, Some n)].
Proof.
  split.
  - intros c m st Hm Hs Hr. assert (closes_once (fd_ c) st) as [_ _ Hl].
    { refine (invariant_rtc (in_turn junk) (closes_once (fd_ c)) _ _ _ Hr). split; [done|by intros t u p q|left; by split_and!]. }
    split; [destruct Hl as [(? & _)|[? _]]; auto|]. intros E0 Ec. destruct Hl as [(_ & _ & Hn & _)|[? _]]; done.
  - destruct (both_close junk) as [H1 H2].
    exists (meeting junk), (str "a"), (Lifetime.task_server (str "a") false), 2, Lifetime.peer_closes, [], 1,
      (TCPClient.set_unconnected (Lifetime.b_client_on 2)), stopped_object, 7.
    split; [apply scenario_meeting|]. split; [reflexivity|]. split; [reflexivity|]. split; [exact H1|].
    split; [reflexivity|]. split; [exact H2|]. split; [apply lookup_insert_eq|].
    intros n Hn. set (c1 := set_state Closing (conn stopped_object)).
    assert (flush_send_buffer junk 0 [] c1 = Ok (c1, [], [])) as Ef by reflexivity.
    by apply (second_close junk (conn stopped_object) 7 n 0 1 0 [] c1 [] [] c1 [] []).
Qed.

(** * Witnesses *)

(** A call of [close] in turn. *)
Lemma close_is_not_atomic_witness :
  ∃ m st, rtc (in_turn (λ _, x00)) (opened (conn stopped_object) m) st ∧ calls st = ∅ ∧ state_ (c_ st) = Closed
    ∧ log st = [(7, Some 0%nat)].
Proof.
  destruct (close_alone (λ _, x00) 0 [] (conn stopped_object) {[7 := 0%nat]} [] 0 (set_state Closed (conn stopped_object)) [] [7] [])
    as [m Hr]; [vm_compute; reflexivity|].
  eexists _, _. split; [exact Hr|]. split; [reflexivity|]. split; [reflexivity|].
  destruct (close_is_not_atomic (λ _, x00)) as [H _].
  apply (H (conn stopped_object) {[7 := 0%nat]} _); [reflexivity|discriminate|exact Hr|reflexivity|reflexivity].
Defined.
End Closers.
