(* ===== verification/Descriptors.v ===== *)
(** The file descriptors of a process ([src/server.cpp], [src/client.cpp]), with plain
    sockets: what [accept], [socket] and [epoll_create1] hand out and what the calls of
    [::close] give back, over the runs of the servers and clients of a process in which a
    connection is closed by one thread at a time; [Closers] has the others. *)
From Stdlib Require Import Strings.Byte.
From S2P Require Import Prelude Timer CycleBuffer SimpleBuffer Transport Connection StdMap Work Server.
From S2P Require Import Heap Client Process Lifetime.
#[local] Open Scope Z_scope.

Module Descriptors.
Import TCPServer (registry, objects, reg, set_reg, set_object, globals, servers, listen_conn_, same_peer, deref,
  epollfd_, listenfd_, is_inited_, event_env, MWait, MDone, stop_, idle_server, server_of).
Import TCPClient (client, phase, Connected, Waiting, Dialling, Failed).
Import Heap Process.

(** * The open connections *)

(** The descriptor of a connection that is not closed. *)
Definition fd_of (o : conn_obj) : option Z :=
  if bool_decide (state_ (conn o) = Closed) then None else Some (fd_ (conn o)).

(** The connections of the heap that are not closed, with their descriptors. *)
Definition view (r : registry) : gmap Z Z := omap fd_of (objects r).

(** What [r'] no longer has open is what was closed, connections of [D]. *)
Definition closes (D : Z → Prop) (r r' : registry) (fds : list Z) : Prop :=
  ∃ ps, NoDup ps ∧ Forall D ps ∧ Forall2 (λ p fd, view r !! p = Some fd) ps fds
    ∧ ∀ p, view r' !! p = if decide (p ∈ ps) then None else view r !! p.

Definition same_view (r r' : registry) : Prop := ∀ p, view r' !! p = view r !! p.

(** ** Lemmas *)

Lemma view_lookup r p : view r !! p = objects r !! p ≫= fd_of.
Proof. apply lookup_omap. Qed.

Lemma view_set_object r p o q : view (set_object p o r) !! q = if decide (q = p) then fd_of o else view r !! q.
Proof.
  rewrite !view_lookup. cbn. case_decide as Hq; [subst; by rewrite lookup_insert_eq|by rewrite lookup_insert_ne].
Qed.

Lemma same_fields_fd o o' : same_fields (conn o) (conn o') → fd_of o' = fd_of o.
Proof. intros (_ & _ & Es & _ & Ef). unfold fd_of. by rewrite Es, Ef. Qed.

Lemma set_object_view r p o o' : objects r !! p = Some o → fd_of o' = fd_of o → same_view r (set_object p o' r).
Proof. intros E Ef q. rewrite view_set_object. case_decide; [subst|done]. by rewrite view_lookup, E. Qed.

#[export] Instance same_view_preorder : PreOrder same_view.
Proof. split; [by intros r p|]. intros r1 r2 r3 H1 H2 p. by rewrite H2. Qed.

Lemma closes_same D r r' : same_view r r' → closes D r r' [].
Proof.
  intros H. exists []. split_and!; [apply NoDup_nil_2|constructor..|]. intros p. rewrite decide_False by apply not_elem_of_nil. apply H.
Qed.

Lemma closes_trans D r1 r2 r3 f1 f2 : closes D r1 r2 f1 → closes D r2 r3 f2 → closes D r1 r3 (f1 ++ f2).
Proof.
  intros (ps & Hnd1 & HD1 & Hf1 & H1) (qs & Hnd2 & HD2 & Hf2 & H2).
  assert (∀ q, q ∈ qs → (q ∉ ps) ∧ is_Some (view r1 !! q)) as Hq.
  { intros q (i & Ei)%list_elem_of_lookup. destruct (Forall2_lookup_l _ _ _ _ _ Hf2 Ei) as (fd & _ & E).
    rewrite H1 in E. case_decide; [done|by rewrite E]. }
  exists (ps ++ qs). split_and!.
  - apply NoDup_app. split_and!; [done| |done]. intros p Hp Hp'. by destruct (Hq p Hp').
  - by apply Forall_app.
  - apply Forall2_app; [done|]. eapply Forall2_impl; [exact Hf2|]. cbn. intros q fd E. rewrite H1 in E. by case_decide.
  - intros p. rewrite H2, H1. repeat case_decide; set_solver.
Qed.

Lemma closes_view D r1 r2 r3 fds : same_view r1 r2 → closes D r2 r3 fds → closes D r1 r3 fds.
Proof. intros H1%(closes_same D) H2. exact (closes_trans _ _ _ _ _ _ H1 H2). Qed.

Lemma closes_weaken (D D' : Z → Prop) r r' fds : (∀ p, D p → D' p) → closes D r r' fds → closes D' r r' fds.
Proof. intros H (ps & Hnd & HD & Hf & Hv). exists ps. split_and!; [done| |done..]. by eapply Forall_impl. Qed.

Lemma closes_outside D r r' fds p : closes D r r' fds → ¬ D p → view r' !! p = view r !! p.
Proof.
  intros (ps & _ & HD & _ & Hv) Hp. rewrite Hv. rewrite decide_False; [done|]. intros Hin.
  rewrite Forall_forall in HD. by apply Hp, HD.
Qed.

(** What is closed was open, once, and is not open any more. *)
Lemma closes_open D r r' fds fd : closes D r r' fds → fd ∈ fds → ∃ p, view r !! p = Some fd.
Proof.
  intros (ps & _ & _ & Hf & _) (i & Ei)%list_elem_of_lookup.
  destruct (Forall2_lookup_r _ _ _ _ _ Hf Ei) as (p & _ & E). by exists p.
Qed.

Lemma closes_NoDup D r r' fds :
  closes D r r' fds → (∀ p q fd, view r !! p = Some fd → view r !! q = Some fd → p = q) → NoDup fds.
Proof.
  intros (ps & Hnd & _ & Hf & _) Hinj. apply NoDup_alt. intros i j fd Ei Ej.
  destruct (Forall2_lookup_r _ _ _ _ _ Hf Ei) as (p & Ep & Hp), (Forall2_lookup_r _ _ _ _ _ Hf Ej) as (q & Eq & Hq).
  assert (p = q) as <- by eauto. exact (NoDup_lookup _ _ _ _ Hnd Ep Eq).
Qed.

Lemma closes_left D r r' fds p fd :
  closes D r r' fds → (∀ p q fd, view r !! p = Some fd → view r !! q = Some fd → p = q) →
  view r' !! p = Some fd → view r !! p = Some fd ∧ fd ∉ fds.
Proof.
  intros (ps & Hnd & _ & Hf & Hv) Hinj E. rewrite Hv in E. case_decide as Hp; [done|]. split; [done|].
  intros (i & Ei)%list_elem_of_lookup. destruct (Forall2_lookup_r _ _ _ _ _ Hf Ei) as (q & Eq & Hq).
  apply Hp. rewrite (Hinj p q fd E Hq). by eapply list_elem_of_lookup_2.
Qed.

(** What is closed by [fd] being in the list is not in the view, the rest is. *)
Lemma closes_keeps D r r' fds p fd : closes D r r' fds → view r !! p = Some fd → view r' !! p = Some fd ∨ fd ∈ fds.
Proof.
  intros (ps & _ & _ & Hf & Hv) E. rewrite Hv. case_decide as Hp; [right|by left].
  apply list_elem_of_lookup in Hp as [i Ei]. destruct (Forall2_lookup_l _ _ _ _ _ Hf Ei) as (fd' & Ef & E').
  assert (fd' = fd) as -> by congruence. by eapply list_elem_of_lookup_2.
Qed.

(** ** What the calls open and close *)

Section calls.
Context (junk : nat → byte).

Lemma close_object_fds now wenv o o' fds :
  TCPServer.close_object junk now wenv o = Ok (o', fds) →
  fd_of o' = None ∧ fds = match fd_of o with Some fd => [fd] | None => [] end.
Proof.
  intros E. pose proof E as (Es & _)%close_object_spec. split; [unfold fd_of; by rewrite bool_decide_true|].
  unfold TCPServer.close_object, Connection.close in E. apply bind_Ok in E as ([[[c s] f] e] & E & E').
  injection E' as _ <-. unfold fd_of. case_bool_decide as Hc; [by injection E as _ _ <- _|].
  apply bind_Ok in E as ([[c1 s1] e1] & E & E'). injection E' as _ _ <- _.
  unfold flush_send_buffer in E. destruct (0 <? _); by outcome_inv.
Qed.

(** One object is closed, after its buffers changed. *)
Lemma close_closes now wenv r r1 p o o1 o' fds :
  objects r !! p = Some o → objects r1 = objects r → fd_of o1 = fd_of o →
  TCPServer.close_object junk now wenv o1 = Ok (o', fds) → closes (eq p) r (set_object p o' r1) fds.
Proof.
  intros Eo E1 Ef [Eo' ->]%close_object_fds. rewrite Ef.
  assert (view r !! p = fd_of o) as Ep by by rewrite view_lookup, Eo.
  assert (∀ q, view r1 !! q = view r !! q) as Hv by (intros q; by rewrite !view_lookup, E1).
  destruct (fd_of o) as [fd|].
  - exists [p]. split_and!; [apply NoDup_singleton|by repeat constructor..|]. intros q.
    rewrite view_set_object, Eo', Hv. repeat case_decide; set_solver.
  - apply closes_same. intros q. rewrite view_set_object, Eo', Hv. case_decide; [by subst|done].
Qed.

Lemma add_to_epoll_view r p r' : TCPServer.add_connection_to_epoll r p = Ok r' → same_view r r'.
Proof.
  unfold TCPServer.add_connection_to_epoll. intros E. apply bind_Ok in E as (o & Eo%deref_Ok & E). injection E as <-.
  set (o' := Obj _ _). exact (set_object_view r p o o' Eo eq_refl).
Qed.

Lemma attach_view now p c r c' r' : TCPClient.attach junk now p c r = Ok (c', r') → same_view r r'.
Proof.
  unfold TCPClient.attach. intros E. apply bind_Ok in E as (o & Eo%deref_Ok & E).
  apply bind_Ok in E as (o' & Es%conn_start_same & E). injection E as <- <-. by eapply set_object_view, same_fields_fd.
Qed.

Lemma connect_begin_view now c g r b c' g' r' :
  TCPClient.connect_begin junk now c g r = Ok (b, c', g', r') → same_view r r'.
Proof.
  unfold TCPClient.connect_begin. intros E. destruct (map_find _ _) as [p|].
  - apply bind_Ok in E as (o & _ & E). destruct (reuseable_ (conn o)).
    + apply bind_Ok in E as ([c2 r2] & Ea%attach_view & E). by injection E as <- <- <- <-.
    + case_bool_decide; by injection E as <- <- <- <-.
  - case_bool_decide; by injection E as <- <- <- <-.
Qed.

Lemma connect_wait_view now c g r c' r' : TCPClient.connect_wait junk now c g r = Ok (c', r') → same_view r r'.
Proof. unfold TCPClient.connect_wait. destruct (map_find _ _); [apply attach_view|done]. Qed.

(** An attempt closes its socket or makes a connection of it. *)
Lemma attempt_view now timeout env c g r (ok : bool) fds c' g' r' :
  TCPClient.attempt junk now timeout env c g r = Ok (ok, fds, c', g', r') → TCPClient.ae_handshake env = true →
  let fd := TCPClient.ae_socket env in
  if ok then 0 ≤ fd ∧ fds = [] ∧ (∀ p, view r' !! p = if decide (p = TCPServer.fresh_ r) then Some fd else view r !! p)
  else r' = r ∧ fds = if fd <? 0 then [] else [fd].
Proof.
  unfold TCPClient.attempt. cbv zeta. intros E Hh. destruct (Z.ltb_spec (TCPClient.ae_socket env) 0);
    [by injection E as <- <- <- <- <-|].
  apply bind_Ok in E as (d & _ & E). destruct (negb d); [by injection E as <- <- <- <- <-|].
  destruct (negb _); [by injection E as <- <- <- <- <-|]. apply bind_Ok in E as (m & _ & E).
  destruct (negb _); [by injection E as <- <- <- <- <-|]. rewrite Hh in E.
  apply bind_Ok in E as (o' & Es%conn_start_same%same_fields_fd & E). injection E as <- <- <- <- <-. split_and!; [lia|done|].
  intros p. rewrite view_set_object, Es. case_decide as Hp; [done|].
  rewrite !view_lookup. cbn. by rewrite lookup_insert_ne.
Qed.

Lemma close_section_view now elapsed a c r next r' :
  TCPClient.close_section now elapsed a c r = Ok (next, r') → same_view r r'.
Proof. intros (p & o & o' & _ & Eo & Es%stop_section_same & _ & ->)%close_section_heap. by eapply set_object_view, same_fields_fd. Qed.

Lemma client_close_all_closes now wenv g r r' fds :
  TCPClient.close_all junk now wenv g r = Ok (r', fds) →
  closes (λ p, p ∈ (TCPClient.connections_ g).*2) r r' fds.
Proof.
  unfold TCPClient.close_all. intros E.
  refine (for_each_inv _ (λ st, closes _ r st.1 st.2) _ (r, []) (r', fds) _ _ E); [|by apply closes_same].
  intros [r1 f1] [a p] [r2 f2] Hin H1 E1. cbn [fst snd] in *. apply bind_Ok in E1 as (o & Eo%deref_Ok & E1).
  apply bind_Ok in E1 as ([o' more] & Ec & E1). injection E1 as <- <-.
  eapply closes_trans; [exact H1|]. eapply closes_weaken; [|by eapply close_closes].
  intros q <-. apply list_elem_of_fmap. by exists (a, p).
Qed.

Lemma close_release_closes now wenv g r g' r' fds :
  TCPClient.close_release junk now wenv g r = Ok (g', r', fds) →
  closes (λ p, p ∈ (TCPClient.connections_ g).*2) r r' fds.
Proof.
  unfold TCPClient.close_release. intros E. apply bind_Ok in E as (u & _ & E).
  destruct (_ && _); [|injection E as <- <- <-; by apply closes_same].
  apply bind_Ok in E as ([r2 f2] & Ec%client_close_all_closes & E). by injection E as <- <- <-.
Qed.

(** ** The server *)

Lemma put_connection_view now s r cid ok s' r' :
  TCPServer.put_connection junk now s r cid = Ok (ok, s', r') → same_view r r'.
Proof.
  unfold TCPServer.put_connection. intros E. apply bind_Ok in E as ([c r1] & Ef & E).
  assert (same_view r r1) as H1.
  { unfold TCPServer.find_connection in Ef. destruct (map_find _ _) as [p|]; [|by injection Ef as _ <-].
    apply bind_Ok in Ef as (o & Eo%deref_Ok & Ef). destruct (reuseable_ (conn o)); [|by injection Ef as _ <-].
    apply bind_Ok in Ef as (o' & Es%conn_start_same & Ef). injection Ef as _ <-. by eapply set_object_view, same_fields_fd. }
  destruct c as [p|]; [|by injection E as _ _ <-]. apply bind_Ok in E as (o & _ & E).
  destruct (reuseable_ (conn o)); by injection E as _ _ <-.
Qed.

Lemma stop_connections_view now elapsed s r r' : TCPServer.stop_connections now elapsed s r = Ok r' → same_view r r'.
Proof.
  unfold TCPServer.stop_connections. intros E.
  refine (for_each_inv _ (same_view r) _ r r' _ _ E); [|done].
  intros r1 [a p] r2 _ H1 E1. apply bind_Ok in E1 as (o & Eo%deref_Ok & E1).
  apply bind_Ok in E1 as (o' & Es%conn_stop_same & E1). injection E1 as <-.
  trans r1; [done|]. by eapply set_object_view, same_fields_fd.
Qed.

Lemma server_close_all_closes now wenv r r' fds :
  TCPServer.close_all junk now wenv r = Ok (r', fds) →
  closes (λ p, p ∈ (TCPServer.connections_ r).*2) r r' fds.
Proof.
  unfold TCPServer.close_all. intros E.
  refine (for_each_inv _ (λ st, closes _ r st.1 st.2) _ (r, []) (r', fds) _ _ E); [|by apply closes_same].
  intros [r1 f1] [a p] [r2 f2] Hin H1 E1. cbn [fst snd] in *. apply bind_Ok in E1 as (o & Eo%deref_Ok & E1).
  case_bool_decide; [by injection E1 as <- <-|].
  apply bind_Ok in E1 as ([o' more] & Ec & E1). injection E1 as <- <-.
  eapply closes_trans; [exact H1|]. eapply closes_weaken; [|by eapply close_closes].
  intros q <-. apply list_elem_of_fmap. by exists (a, p).
Qed.

(** The connection [accept] makes for an event, if the event is one of the listener. *)
Definition accepts (g : TCPServer.statics) (p events : Z) (env : event_env) : list Z :=
  match objects (reg g) !! p with
  | Some o =>
    if (Z.land events TCPServer.EPOLLERR =? 0) && negb (Z.land events TCPServer.EPOLLIN =? 0)
       && (fd_ (conn o) =? listenfd_ g)
    then [TCPServer.ae_cfd (TCPServer.ee_accept env)] else []
  | None => []
  end.

Definition adds (p fd : Z) (r r' : registry) : Prop :=
  ∀ q, view r' !! q = if decide (q = p) then Some fd else view r !! q.

Lemma register_adds now cfd cid r :
  adds (TCPServer.fresh_ r) cfd r (TCPServer.register junk now cfd cid r).
Proof.
  intros q. rewrite !view_lookup. unfold TCPServer.register.
  destruct (map_find cid _) as [old|]; cbn [TCPServer.epoll_add objects];
    (case_decide as Hq; [subst q; by rewrite lookup_insert_eq|by rewrite lookup_insert_ne]).
Qed.

Lemma handle_accept_fds now s env r r' fds :
  TCPServer.handle_accept junk now s env r = Ok (r', fds) →
  r' = r ∧ fds = [TCPServer.ae_cfd env] ∨ fds = [] ∧ adds (TCPServer.fresh_ r) (TCPServer.ae_cfd env) r r'.
Proof.
  unfold TCPServer.handle_accept. intros E. destruct (_ =? -1); [done|].
  destruct (negb _); [injection E as <- <-; by left|]. destruct (negb _); [injection E as <- <-; by left|].
  apply bind_Ok in E as (len & _ & E). apply bind_Ok in E as (c1 & _ & E). apply bind_Ok in E as (c2 & _ & E).
  destruct (negb _); [injection E as <- <-; by left|].
  case_bool_decide; injection E as <- <-; [right|by left]. split; [done|apply register_adds].
Qed.

Lemma handle_event_fds now s g p events env g' fds :
  TCPServer.handle_event junk now s g p events env = Ok (g', fds) →
  (∃ r', g' = set_reg r' g)
  ∧ (accepts g p events env = [] ∧ closes (λ q, q = p ∧ (TCPServer.ee_tcp_closed env = true
         ∨ ∃ o, objects (reg g) !! p = Some o ∧ fd_ (conn o) ≠ listenfd_ g)) (reg g) (reg g') fds
     ∨ ∃ cfd, accepts g p events env = [cfd]
         ∧ (same_view (reg g) (reg g') ∧ fds = [cfd] ∨ fds = [] ∧ adds (TCPServer.fresh_ (reg g)) cfd (reg g) (reg g'))).
Proof.
  assert (∀ r, ∃ r', set_reg r g = set_reg r' g) as Hset by eauto.
  assert (∃ r', g = set_reg r' g) as Hg by (exists (reg g); by destruct g).
  unfold TCPServer.handle_event, accepts. intros E. destruct (Z.land events TCPServer.EPOLLERR =? 0) eqn:Ee; cbn [negb] in E.
  - destruct (Z.land events TCPServer.EPOLLIN =? 0) eqn:Ei; cbn [negb andb] in E |- *.
    { injection E as <- <-. split; [done|]. left. split; [by destruct (objects (reg g) !! p)|by apply closes_same]. }
    unfold TCPServer.handle_read in E. apply bind_Ok in E as (o & Eo%deref_Ok & E). rewrite Eo.
    destruct (Z.eqb_spec (fd_ (conn o)) (listenfd_ g)) as [Hl|Hl].
    { apply bind_Ok in E as ([r fs] & Ea%handle_accept_fds & E). injection E as <- <-. split; [done|]. right.
      eexists. split; [done|]. destruct Ea as [[-> ->]|[-> Ha]]; [left; by split|right; by split]. }
    case_bool_decide; [injection E as <- <-; split; [done|left; split; [done|by apply closes_same]]|].
    destruct (negb _); [injection E as <- <-; split; [done|left; split; [done|by apply closes_same]]|].
    apply bind_Ok in E as ([c eof] & Hr%read_loop_same & E).
    assert (fd_of (Obj c (tasks o)) = fd_of o) as Ef by (apply same_fields_fd; exact Hr).
    destruct eof.
    + apply bind_Ok in E as ([o' f] & Ec & E). injection E as <- <-. split; [done|]. left. split; [done|].
      eapply closes_weaken; [|by eapply (close_closes _ _ _ (TCPServer.epoll_del p (reg g)))].
      intros q <-. split; [done|]. right. by exists o.
    + injection E as <- <-. split; [done|]. left. split; [done|]. by eapply closes_same, set_object_view.
  - unfold TCPServer.handle_error in E. apply bind_Ok in E as (o & Eo%deref_Ok & E). rewrite Eo. cbn [andb].
    destruct (TCPServer.ee_tcp_closed env) eqn:Et; [|injection E as <- <-; split; [done|left; split; [done|by apply closes_same]]].
    apply bind_Ok in E as (c & Hr%drain_loop_same & E). apply bind_Ok in E as ([o' f] & Ec & E). injection E as <- <-.
    split; [done|]. left. split; [done|].
    assert (fd_of (Obj c (tasks o)) = fd_of o) as Ef.
    { destruct Hr as (_ & _ & Es & _ & Ef). unfold fd_of. cbn. by rewrite Es, Ef. }
    eapply closes_weaken; [|by eapply (close_closes _ _ _ (TCPServer.epoll_del p (reg g)))].
    intros q <-. split; [done|by left].
Qed.

(** What [epoll_create1] and [socket] hand out in [start]. *)
Definition obtained (ssl_ok : bool) (env : TCPServer.init_env) (g : TCPServer.statics) : list Z :=
  if is_inited_ g || negb ssl_ok then []
  else if TCPServer.ie_epoll env <? 0 then []
  else TCPServer.ie_epoll env :: if TCPServer.ie_socket env <? 0 then [] else [TCPServer.ie_socket env].

Lemma start_fds now t port ssl_ok env s g (b : bool) s' g' :
  TCPServer.start junk now t port ssl_ok env s g = (b, s', g') →
  (reg g' = reg g ∧ listen_conn_ g' = listen_conn_ g ∧ is_inited_ g' = is_inited_ g ∧ TCPServer.s_task_count_ g' = TCPServer.s_task_count_ g + 1
   ∧ (is_inited_ g = true → b = true ∧ obtained ssl_ok env g = [] ∧ listenfd_ g' = listenfd_ g ∧ epollfd_ g' = epollfd_ g)
   ∧ (is_inited_ g = false → b = false))
  ∨ (is_inited_ g = false ∧ b = true ∧ is_inited_ g' = true
     ∧ obtained ssl_ok env g = [epollfd_ g'; listenfd_ g']
     ∧ listen_conn_ g' = Some (TCPServer.fresh_ (reg g)) ∧ TCPServer.s_task_count_ g' = TCPServer.s_task_count_ g + 1
     ∧ adds (TCPServer.fresh_ (reg g)) (listenfd_ g') (reg g) (reg g')).
Proof.
  unfold TCPServer.start, obtained. cbn [is_inited_]. intros E. destruct (is_inited_ g) eqn:Ei.
  { injection E as <- <- <-. left. split_and!; try done. }
  destruct ssl_ok; cbn [negb orb] in E |- *; [|injection E as <- <- <-; left; split_and!; done].
  unfold TCPServer.init in E. cbn [epollfd_] in E. destruct (Z.ltb_spec (TCPServer.ie_epoll env) 0).
  { cbn in E. injection E as <- <- <-. left. split_and!; done. }
  unfold TCPServer.create_server in E. destruct (Z.ltb_spec (TCPServer.ie_socket env) 0); cbn in E.
  { injection E as <- <- <-. left. split_and!; done. }
  destruct (negb (TCPServer.ie_bind env =? 0)); cbn in E; [injection E as <- <- <-; left; split_and!; done|].
  destruct (negb (TCPServer.ie_listen env =? 0)); cbn in E; [injection E as <- <- <-; left; split_and!; done|].
  destruct (Z.ltb_spec (TCPServer.ie_socket env) 0); [lia|]. cbn in E. injection E as <- <- <-. right. cbn. split_and!; try done.
  intros q. rewrite !view_lookup. cbn. case_decide as Hq; [subst q; by rewrite lookup_insert_eq|by rewrite lookup_insert_ne].
Qed.

(** The last [stop] closes the connections, the listener and the epoll set. *)
Lemma stop_release_fds now wenv s g s' g' fds :
  TCPServer.stop_release junk now wenv s g = Ok (s', g', fds) →
  TCPServer.s_task_count_ g' = TCPServer.s_task_count_ g - 1
  ∧ (same_view (reg g) (reg g') ∧ fds = [] ∧ listen_conn_ g' = listen_conn_ g ∧ is_inited_ g' = is_inited_ g
     ∧ listenfd_ g' = listenfd_ g ∧ epollfd_ g' = epollfd_ g
     ∨ TCPServer.s_task_count_ g' = 0 ∧ listen_conn_ g' = None ∧ is_inited_ g' = false
       ∧ ∃ r cl, closes (λ p, p ∈ (TCPServer.connections_ (reg g)).*2) (reg g) r cl ∧ fds = cl ++ [listenfd_ g; epollfd_ g]
           ∧ ∀ q, view (reg g') !! q = if decide (Some q = listen_conn_ g) then None else view r !! q).
Proof.
  unfold TCPServer.stop_release. intros E. apply bind_Ok in E as (u & _ & E).
  destruct (_ && _) eqn:Ez; [|injection E as <- <- <-; split; [done|by left]].
  apply bind_Ok in E as ([r2 f2] & Ec%server_close_all_closes & E). injection E as <- <- <-. split; [done|]. right.
  apply andb_true_iff in Ez as [Ez%Z.eqb_eq _]. split_and!; [done..|]. exists r2, f2. split_and!; [done|done|].
  - intros q. rewrite !view_lookup. destruct (listen_conn_ g) as [p|]; cbn [reg objects].
    + case_decide as Hq; [injection Hq as ->; by rewrite lookup_delete_eq|]. rewrite lookup_delete_ne; [done|congruence].
    + by rewrite decide_False.
Qed.
End calls.

(** * The system *)

(** A process with its open descriptors, and those a failed [start] left behind. *)
Record state := State { proc : process; open : gset Z; lost : gset Z }.

Section system.
Context (junk : nat → byte).

(** The calls of the clients, with the descriptors they get and close. *)
Inductive client_call : TCPClient.world → list Z → list Z → TCPClient.world → Prop :=
  | d_begin g r cs i c now conn_retries b c' g' r' :
      cs !! i = None → TCPClient.conn_ c = None → TCPClient.is_first_connect_ c = false →
      TCPClient.connect_begin junk now c g r = Ok (b, c', g', r') →
      client_call (TCPClient.World g r cs) [] []
        (TCPClient.World g' r' (<[i := (c', TCPClient.begun_phase conn_retries b)]> cs))
  | d_wake g r cs i c now c' r' :
      cs !! i = Some (c, Waiting) → TCPClient.connect_wait junk now c g r = Ok (c', r') →
      client_call (TCPClient.World g r cs) [] [] (TCPClient.World g r' (<[i := (c', Connected)]> cs))
  | d_attempt g r cs i c n now timeout env (ok : bool) fds c' g' r' :
      cs !! i = Some (c, Dialling (S n)) → TCPClient.ae_handshake env = true →
      TCPClient.attempt junk now timeout env c g r = Ok (ok, fds, c', g', r') →
      client_call (TCPClient.World g r cs) (if TCPClient.ae_socket env <? 0 then [] else [TCPClient.ae_socket env]) fds
        (TCPClient.World g' r' (<[i := (c', if ok then Connected else Dialling n)]> cs))
  | d_fail g r cs i c :
      cs !! i = Some (c, Dialling 0) →
      client_call (TCPClient.World g r cs) [] [] (TCPClient.World g r (<[i := (c, Failed)]> cs))
  | d_close g r cs i c :
      cs !! i = Some (c, Connected) →
      client_call (TCPClient.World g r cs) [] []
        (TCPClient.World g r (<[i := (TCPClient.set_unconnected c, TCPClient.Stopping AtMutex)]> cs))
  | d_stop g r cs i c a now elapsed next r' :
      cs !! i = Some (c, TCPClient.Stopping a) → TCPClient.close_section now elapsed a c r = Ok (next, r') →
      client_call (TCPClient.World g r cs) [] [] (TCPClient.World g r' (<[i := (c, TCPClient.next_phase next)]> cs))
  | d_release g r cs i c now wenv g' r' fds :
      cs !! i = Some (c, TCPClient.Closing) → TCPClient.close_release junk now wenv g r = Ok (g', r', fds) →
      client_call (TCPClient.World g r cs) [] fds (TCPClient.World g' r' (delete i cs)).

(** The calls of the servers, and of the threads and users of a connection.  The kernel
    does not report the listening socket as closed. *)
Inductive server_call : TCPServer.world → list Z → list Z → TCPServer.world → Prop :=
  | d_start g th t s now port ssl_ok env s' g' :
      th !! t = None → stop_ s = false → TCPServer.server_connections_ s = [] →
      TCPServer.start junk now t port ssl_ok env s g = (true, s', g') →
      server_call (TCPServer.World g th) (obtained ssl_ok env g) [] (TCPServer.World g' (<[t := (s', MWait)]> th))
  | d_phase g th t s ph now elapsed timeout ph' g' fds :
      th !! t = Some (s, ph) → TCPServer.loop_main_step junk now s g ph elapsed timeout [] = Ok (ph', g', fds) →
      server_call (TCPServer.World g th) [] fds (TCPServer.World g' (<[t := (s, ph')]> th))
  | d_event g th t s ph now p events env g' fds :
      th !! t = Some (s, ph) → TCPServer.listening ph = true →
      (listen_conn_ g = Some p → TCPServer.ee_tcp_closed env = false) →
      TCPServer.handle_event junk now s g p events env = Ok (g', fds) →
      server_call (TCPServer.World g th) (accepts g p events env) fds (TCPServer.World g' th)
  | d_flag g th t s ph :
      th !! t = Some (s, ph) → stop_ s = false →
      server_call (TCPServer.World g th) [] [] (TCPServer.World g (<[t := (TCPServer.set_stop s, ph)]> th))
  | d_joined g th t s now wenv s' g' fds :
      th !! t = Some (s, MDone) → stop_ s = true →
      TCPServer.stop_release junk now wenv s g = Ok (s', g', fds) →
      server_call (TCPServer.World g th) [] fds (TCPServer.World g' (delete t th))
  | d_put g th t s ph now node_id ok s' r' :
      th !! t = Some (s, ph) → TCPServer.put_connection junk now s (reg g) node_id = Ok (ok, s', r') →
      server_call (TCPServer.World g th) [] [] (TCPServer.World (set_reg r' g) (<[t := (s', ph)]> th))
  | d_watch g th p r' :
      TCPServer.add_connection_to_epoll (reg g) p = Ok r' →
      server_call (TCPServer.World g th) [] [] (TCPServer.World (set_reg r' g) th)
  | d_use g th p o o' :
      objects (reg g) !! p = Some o → same_fields (conn o) (conn o') →
      server_call (TCPServer.World g th) [] [] (TCPServer.World (set_reg (set_object p o' (reg g)) g) th).

Inductive call (p : process) (new cl : list Z) : process → Prop :=
  | d_server sw' : server_call (sv p) new cl sw' → call p new cl (Proc sw' (shared p) (clients p))
  | d_client cw' :
      client_call (client_world p) new cl cw' →
      call p new cl (Proc (with_heap (TCPClient.heap cw') (sv p)) (TCPClient.shared cw') (TCPClient.clients cw')).

(** The kernel hands out descriptors that are not in use. *)
Definition unused (new : list Z) (st : state) : Prop := NoDup new ∧ ∀ fd, fd ∈ new → fd ∉ open st.

Inductive step : list Z → list Z → relation state :=
  | d_call st new cl p' :
      call (proc st) new cl p' → unused new st →
      step new cl st (State p' ((open st ∪ list_to_set new) ∖ list_to_set cl) (lost st))
  | d_start_fails st t s now port ssl_ok env s' g' :
      servers (sv (proc st)) !! t = None →
      TCPServer.start junk now t port ssl_ok env s (globals (sv (proc st))) = (false, s', g') →
      let new := obtained ssl_ok env (globals (sv (proc st))) in
      unused new st →
      step new [] st (State (Proc (TCPServer.World g' (servers (sv (proc st)))) (shared (proc st)) (clients (proc st)))
                            (open st ∪ list_to_set new) (lost st ∪ list_to_set new)).

Definition reachable (st : state) : Prop :=
  rtc (λ st st', ∃ new cl, step new cl st st') (State process_init ∅ ∅) st.
End system.

(** * The invariant *)

Definition gl (st : state) : TCPServer.statics := globals (sv (proc st)).

Record fds_ok (st : state) : Prop := {
  d_typed : process_typed (proc st);
  d_open p fd : view (heap (proc st)) !! p = Some fd → fd ∈ open st;
  d_apart p q fd : view (heap (proc st)) !! p = Some fd → view (heap (proc st)) !! q = Some fd → p = q;
  d_listen p : listen_conn_ (gl st) = Some p →
    is_inited_ (gl st) = true ∧ view (heap (proc st)) !! p = Some (listenfd_ (gl st));
  d_inited : is_inited_ (gl st) = true →
    is_Some (listen_conn_ (gl st)) ∧ epollfd_ (gl st) ∈ open st
    ∧ (epollfd_ (gl st) ∉ lost st) ∧ ∀ p, view (heap (proc st)) !! p ≠ Some (epollfd_ (gl st));
  d_lost fd : fd ∈ lost st → fd ∈ open st ∧ ∀ p, view (heap (proc st)) !! p ≠ Some fd;
  d_all fd : fd ∈ open st → (∃ p, view (heap (proc st)) !! p = Some fd)
    ∨ is_inited_ (gl st) = true ∧ fd = epollfd_ (gl st) ∨ fd ∈ lost st;
  d_tasks : is_inited_ (gl st) = false → servers (sv (proc st)) = ∅;
  d_count : Z.of_nat (size (servers (sv (proc st)))) ≤ TCPServer.s_task_count_ (gl st)
}.

(** ** Lemmas *)

Section invariant.
Context (junk : nat → byte).

Lemma client_call_move w new cl w' : client_call junk w new cl w' → TCPClient.move junk w w'.
Proof. intros H. destruct H; by econstructor. Qed.

Lemma server_call_step sw new cl sw' : server_call junk sw new cl sw' → TCPServer.step junk sw sw'.
Proof.
  intros H. destruct H; [by eapply TCPServer.w_start|by eapply TCPServer.w_loop|by eapply TCPServer.w_event
    |by eapply TCPServer.w_stop|by eapply TCPServer.w_joined|by eapply TCPServer.w_put|by eapply TCPServer.w_watch|].
  eapply TCPServer.w_use; [done|by apply same_fields_conn].
Qed.

Lemma call_step p new cl p' : call junk p new cl p' → Process.step junk p p'.
Proof. intros [sw' H|cw' H]; [by eapply p_server, server_call_step|by eapply p_client, client_call_move]. Qed.

Lemma client_call_fds w new cl w' :
  client_call junk w new cl w' →
  let r := TCPClient.heap w in let r' := TCPClient.heap w' in
  new = [] ∧ closes (λ p, p ∈ (TCPClient.connections_ (TCPClient.shared w)).*2) r r' cl
  ∨ ∃ fd, new = [fd] ∧ (same_view r r' ∧ cl = [fd] ∨ cl = [] ∧ adds (TCPServer.fresh_ r) fd r r').
Proof.
  intros H. destruct H as [g r cs i c now cr b c' g' r' Ei En Ef E|g r cs i c now c' r' Ei E
    |g r cs i c n now tmo env ok fds c' g' r' Ei Eh E|g r cs i c Ei|g r cs i c Ei|g r cs i c a now el next r' Ei E
    |g r cs i c now wenv g' r' fds Ei E]; cbn.
  - left. split; [done|]. by eapply closes_same, connect_begin_view.
  - left. split; [done|]. by eapply closes_same, connect_wait_view.
  - apply attempt_view in E; [|done]. destruct ok.
    + destruct E as (Hfd & -> & Hv). rewrite (proj2 (Z.ltb_ge _ _)) by lia. right. eexists. split; [done|]. by right.
    + destruct E as [-> ->]. destruct (_ <? 0); [left; split; [done|by apply closes_same]|].
      right. eexists. split; [done|]. by left.
  - left. split; [done|]. by apply closes_same.
  - left. split; [done|]. by apply closes_same.
  - left. split; [done|]. by eapply closes_same, close_section_view.
  - left. split; [done|]. by eapply close_release_closes.
Qed.

(** What the calls of the clients and most of those of the servers leave as it is. *)
Record same_setup (g g' : TCPServer.statics) : Prop := {
  ss_conn : listen_conn_ g' = listen_conn_ g;
  ss_inited : is_inited_ g' = is_inited_ g;
  ss_listen : listenfd_ g' = listenfd_ g;
  ss_epoll : epollfd_ g' = epollfd_ g
}.

Definition tasks_ok (p : process) : Prop :=
  (is_inited_ (globals (sv p)) = false → servers (sv p) = ∅)
  ∧ Z.of_nat (size (servers (sv p))) ≤ TCPServer.s_task_count_ (globals (sv p)).

Definition sound (st : state) (new cl : list Z) (p' : process) : Prop :=
  fds_ok (State p' ((open st ∪ list_to_set new) ∖ list_to_set cl) (lost st))
  ∧ NoDup cl ∧ ∀ fd, fd ∈ cl → fd ∈ open st ∨ fd ∈ new.

(** A call that closes connections. *)
Lemma closes_ok D st p' cl :
  fds_ok st → process_typed p' → same_setup (gl st) (globals (sv p')) → tasks_ok p' →
  closes D (heap (proc st)) (heap p') cl → (∀ q, listen_conn_ (gl st) = Some q → ¬ D q) → sound st [] cl p'.
Proof.
  intros H Ht [Ec Ei El Ee] [Htk Hn] Hcl Hq. pose proof (d_apart _ H) as Hinj.
  assert (∀ fd, fd ∈ cl → ∃ p, view (heap (proc st)) !! p = Some fd) as Hop by (intros fd; by eapply closes_open).
  assert (∀ p fd, view (heap p') !! p = Some fd → view (heap (proc st)) !! p = Some fd ∧ (fd ∉ cl)) as Hleft
    by (intros p fd; by eapply closes_left).
  split_and!; [split|by eapply closes_NoDup|]; cbn [proc open lost].
  - done.
  - intros p fd [E Hfd]%Hleft. apply (d_open _ H) in E. set_solver.
  - intros p q fd [E1 _]%Hleft [E2 _]%Hleft. eauto.
  - intros p. unfold gl. cbn [proc]. rewrite Ec, Ei, El. intros Ep. destruct (d_listen _ H p Ep) as [? E]. split; [done|].
    unfold heap in *. rewrite (closes_outside _ _ _ _ _ Hcl); [done|by apply Hq].
  - unfold gl. cbn [proc]. rewrite Ec, Ei, Ee. intros Hi. destruct (d_inited _ H Hi) as (? & Hep & Hlo & Hne). split_and!; [done| |done|].
    + assert (epollfd_ (gl st) ∉ cl) by (intros [p E]%Hop; by eapply Hne). unfold gl in *. set_solver.
    + intros p [E _]%Hleft. by eapply Hne.
  - intros fd [Ho Hne]%(d_lost _ H). split; [|intros p [E _]%Hleft; by eapply Hne].
    assert (fd ∉ cl) by (intros [p E]%Hop; by eapply Hne). set_solver.
  - intros fd Hfd. unfold gl. cbn [proc]. rewrite Ei, Ee.
    assert (fd ∈ open st ∧ fd ∉ cl) as [Ho Hnc] by set_solver.
    destruct (d_all _ H fd Ho) as [[p E]|?]; [|by right]. left. exists p.
    by destruct (closes_keeps _ _ _ _ _ _ Hcl E).
  - apply Htk.
  - apply Hn.
  - intros fd [p E]%Hop. left. by eapply d_open.
Qed.

Lemma unused_bounce (s : gset Z) fd : fd ∉ s → (s ∪ list_to_set [fd]) ∖ list_to_set [fd] = s.
Proof. intros. set_solver. Qed.

(** A descriptor that is handed out and closed again. *)
Lemma bounce_ok st p' fd :
  fds_ok st → unused [fd] st → process_typed p' → same_setup (gl st) (globals (sv p')) → tasks_ok p' →
  same_view (heap (proc st)) (heap p') → sound st [fd] [fd] p'.
Proof.
  intros H [_ Hu] Ht Hs Htk Hv. specialize (Hu fd ltac:(by apply list_elem_of_singleton)).
  destruct (closes_ok (λ _, False) st p' [] H Ht Hs Htk (closes_same _ _ _ Hv)) as (Hok & _); [auto|].
  unfold sound. rewrite unused_bounce by done. split_and!; [|apply NoDup_singleton|auto].
  cbn in Hok. by rewrite union_empty_r_L, difference_empty_L in Hok.
Qed.

(** What is open after one connection was added. *)
Lemma adds_in st r' fd :
  fds_ok st → adds (TCPServer.fresh_ (heap (proc st))) fd (heap (proc st)) r' →
  (∀ p x, view r' !! p = Some x →
     p = TCPServer.fresh_ (heap (proc st)) ∧ x = fd ∨ p ≠ TCPServer.fresh_ (heap (proc st)) ∧ view (heap (proc st)) !! p = Some x)
  ∧ (∀ p x, view (heap (proc st)) !! p = Some x → view r' !! p = Some x).
Proof.
  intros H Hv.
  assert (view (heap (proc st)) !! TCPServer.fresh_ (heap (proc st)) = None) as Hfresh.
  { rewrite view_lookup. destruct (objects _ !! _) eqn:E; [|done]. exfalso.
    eapply (fresh_not_live _ _ (pt_servers _ (d_typed _ H))). by eexists. }
  split; intros p x; rewrite Hv; (case_decide as Hp; [|by auto]); [intros [= ->]; by left|].
  subst p. by rewrite Hfresh.
Qed.

(** A descriptor that becomes a connection. *)
Lemma adds_ok st p' fd :
  fds_ok st → unused [fd] st → process_typed p' → same_setup (gl st) (globals (sv p')) → tasks_ok p' →
  adds (TCPServer.fresh_ (heap (proc st))) fd (heap (proc st)) (heap p') → sound st [fd] [] p'.
Proof.
  intros H [_ Hu] Ht [Ec Ei El Ee] [Htk Hn] Hv. specialize (Hu fd ltac:(by apply list_elem_of_singleton)).
  destruct (adds_in _ _ _ H Hv) as [Hin Hold].
  split_and!; [split|apply NoDup_nil_2|by intros x ?%not_elem_of_nil]; cbn [proc open lost].
  - done.
  - intros p x [[-> ->]|[_ E]]%Hin; [set_solver|]. apply (d_open _ H) in E. set_solver.
  - intros p q x [[-> ->]|[Hp E1]]%Hin [[-> E]|[Hq E2]]%Hin; [done| | |by eapply d_apart].
    + by destruct (Hu (d_open _ H _ _ E2)).
    + subst x. by destruct (Hu (d_open _ H _ _ E1)).
  - intros p. unfold gl. cbn [proc]. rewrite Ec, Ei, El. intros Ep. destruct (d_listen _ H p Ep) as [? E]. split; [done|by apply Hold].
  - unfold gl. cbn [proc]. rewrite Ec, Ei, Ee. intros Hi. destruct (d_inited _ H Hi) as (? & Hep & Hlo & Hne).
    split_and!; [done|unfold gl in *; set_solver|done|].
    intros p [[-> E]|[_ E]]%Hin; [|by eapply Hne]. apply Hu. by rewrite <- E.
  - intros x [Ho Hne]%(d_lost _ H). split; [set_solver|]. intros p [[-> ->]|[_ E]]%Hin; [by apply Hu|by eapply Hne].
  - intros x Hx. unfold gl. cbn [proc]. rewrite Ei, Ee.
    assert (x = fd ∨ x ∈ open st) as [->|Ho] by set_solver.
    + left. exists (TCPServer.fresh_ (heap (proc st))). by rewrite Hv, decide_True.
    + destruct (d_all _ H x Ho) as [[p E]|?]; [|by right]. left. exists p. by apply Hold.
  - apply Htk.
  - apply Hn.
Qed.

(** The first [start] makes the epoll set and the listener. *)
Lemma start_ok st p' :
  fds_ok st → is_inited_ (gl st) = false → is_inited_ (globals (sv p')) = true →
  unused [epollfd_ (globals (sv p')); listenfd_ (globals (sv p'))] st → process_typed p' → tasks_ok p' →
  listen_conn_ (globals (sv p')) = Some (TCPServer.fresh_ (heap (proc st))) →
  adds (TCPServer.fresh_ (heap (proc st))) (listenfd_ (globals (sv p'))) (heap (proc st)) (heap p') →
  sound st [epollfd_ (globals (sv p')); listenfd_ (globals (sv p'))] [] p'.
Proof.
  set (e := epollfd_ _). set (l := listenfd_ _). set (pl := TCPServer.fresh_ _).
  intros H Hn Hi [Hnd Hu] Ht [Htk Hc] Hlc Hv.
  assert (e ≠ l ∧ (e ∉ open st) ∧ (l ∉ open st)) as (Hel & Hue & Hul).
  { split_and!; [apply NoDup_cons in Hnd as [Hnd _]; set_solver|apply Hu; set_solver|apply Hu; set_solver]. }
  destruct (adds_in _ _ _ H Hv) as [Hin Hold]. fold pl in Hin.
  split_and!; [split|apply NoDup_nil_2|by intros x ?%not_elem_of_nil]; cbn [proc open lost].
  - done.
  - intros p x [[-> ->]|[_ E]]%Hin; [set_solver|]. apply (d_open _ H) in E. set_solver.
  - intros p q x [[-> ->]|[Hp E1]]%Hin [[-> E]|[Hq E2]]%Hin; [done| | |by eapply d_apart].
    + by destruct (Hul (d_open _ H _ _ E2)).
    + subst x. by destruct (Hul (d_open _ H _ _ E1)).
  - intros p. unfold gl. cbn [proc]. rewrite Hlc. intros [= <-]. split; [done|]. by rewrite Hv, decide_True.
  - intros _. unfold gl. cbn [proc]. rewrite Hlc. split_and!; [by eexists|set_solver|intros [Ho _]%(d_lost _ H); by apply Hue|].
    intros p [[_ E]|[_ E]]%Hin; [by apply Hel|]. by apply Hue, (d_open _ H p).
  - intros x [Ho Hne]%(d_lost _ H). split; [set_solver|]. intros p [[-> ->]|[_ E]]%Hin; [by apply Hul|by eapply Hne].
  - intros x Hx. unfold gl. cbn [proc].
    assert (x = e ∨ x = l ∨ x ∈ open st) as [-> |[-> |Ho]] by set_solver.
    + right. by left.
    + left. exists pl. by rewrite Hv, decide_True.
    + destruct (d_all _ H x Ho) as [[p E]|[[Hx' _]|?]]; [|congruence|by right; right]. left. exists p. by apply Hold.
  - apply Htk.
  - apply Hc.
Qed.

(** The last [stop]. *)
Lemma last_stop_ok D st p' r cl :
  fds_ok st → is_inited_ (gl st) = true → process_typed p' → servers (sv p') = ∅ →
  0 ≤ TCPServer.s_task_count_ (globals (sv p')) → listen_conn_ (globals (sv p')) = None → is_inited_ (globals (sv p')) = false →
  closes D (heap (proc st)) r cl → (∀ q, listen_conn_ (gl st) = Some q → ¬ D q) →
  (∀ q, view (heap p') !! q = if decide (Some q = listen_conn_ (gl st)) then None else view r !! q) →
  sound st [] (cl ++ [listenfd_ (gl st); epollfd_ (gl st)]) p'.
Proof.
  intros H Hi Ht Hs Hc Hl Hi' Hcl Hq Hv. pose proof (d_apart _ H) as Hinj.
  destruct (d_inited _ H Hi) as ([pl Epl] & Hep & Hlo & Hne). destruct (d_listen _ H pl Epl) as [_ Evl].
  set (l := listenfd_ (gl st)) in *. set (e := epollfd_ (gl st)) in *.
  assert (∀ fd, fd ∈ cl → ∃ p, view (heap (proc st)) !! p = Some fd) as Hop by (intros fd; by eapply closes_open).
  assert (∀ p fd, view r !! p = Some fd → view (heap (proc st)) !! p = Some fd ∧ (fd ∉ cl)) as Hleft
    by (intros p fd; by eapply closes_left).
  assert (l ∉ cl) as Hlcl.
  { apply (Hleft pl). rewrite (closes_outside _ _ _ _ _ Hcl) by (by apply Hq). exact Evl. }
  assert (e ∉ cl) as Hecl by (intros [p E]%Hop; by eapply Hne).
  assert (l ≠ e) as Hle by (intros E; apply (Hne pl); by rewrite Evl, E).
  assert (∀ p fd, view (heap p') !! p = Some fd → view (heap (proc st)) !! p = Some fd ∧ (fd ∉ cl ++ [l; e])) as Hkept.
  { intros p fd. rewrite Hv, Epl. case_decide as Hp; [done|]. intros [E Hfd]%Hleft. split; [done|].
    assert (fd ≠ l) by (intros ->; apply Hp; f_equal; by eapply Hinj).
    assert (fd ≠ e) by (intros ->; by eapply Hne). set_solver. }
  split_and!; [split| |]; cbn [proc open lost].
  - done.
  - intros p fd [E Hfd]%Hkept. apply (d_open _ H) in E. set_solver.
  - intros p q fd [E1 _]%Hkept [E2 _]%Hkept. eauto.
  - intros p. unfold gl. cbn [proc]. by rewrite Hl.
  - unfold gl. cbn [proc]. by rewrite Hi'.
  - intros fd Hfd. destruct (d_lost _ H fd Hfd) as [Ho Hne']. split; [|intros p [E _]%Hkept; by eapply Hne'].
    assert (fd ∉ cl) by (intros [p E]%Hop; by eapply Hne'). assert (fd ≠ l) by (intros ->; by eapply Hne').
    assert (fd ≠ e) by (intros ->; done). set_solver.
  - intros fd Hfd. assert (fd ∈ open st ∧ (fd ∉ cl) ∧ fd ≠ l ∧ fd ≠ e) as (Ho & Hnc & Hnl & Hnep) by set_solver.
    destruct (d_all _ H fd Ho) as [[p E]|[[_ ?]|?]]; [|done|by right; right]. left. exists p. rewrite Hv, Epl.
    rewrite decide_False by (intros [= ->]; congruence). by destruct (closes_keeps _ _ _ _ _ _ Hcl E).
  - done.
  - unfold gl. cbn [proc]. rewrite Hs, map_size_empty. done.
  - apply NoDup_app. split_and!; [by eapply closes_NoDup|set_solver|].
    apply NoDup_cons. split; [set_solver|apply NoDup_singleton].
  - intros fd [[p E]%Hop|Hfd]%elem_of_app; left; [by eapply d_open|].
    apply elem_of_cons in Hfd as [-> | ->%list_elem_of_singleton]; [by eapply d_open|done].
Qed.

Lemma phase_fds now s g ph elapsed timeout ph' g' fds :
  TCPServer.loop_main_step junk now s g ph elapsed timeout [] = Ok (ph', g', fds) → fds = [].
Proof.
  unfold TCPServer.loop_main_step. intros E.
  destruct ph; cbn in E; [apply bind_Ok in E as ([] & _ & E)|..];
    repeat (match type of E with context [if ?b then _ else _] => destruct b end; cbn in E); by injection E as _ _ <-.
Qed.

Lemma connections_not_listener g th p :
  typed g th → listen_conn_ g = Some p → p ∉ (TCPServer.connections_ (reg g)).*2.
Proof.
  intros Ht El ([a q] & -> & Hin)%list_elem_of_fmap. destruct (t_connections _ _ Ht) as [Hs Hm].
  by destruct (Hm a q (elem_map_find _ _ _ Hs Hin)) as (o & _ & _ & _ & Hl).
Qed.

Lemma start_call_ok g th cg cs op lo t s now port sok env s' g' :
  let st := State (Proc (TCPServer.World g th) cg cs) op lo in
  fds_ok st → th !! t = None → TCPServer.start junk now t port sok env s g = (true, s', g') →
  unused (obtained sok env g) st →
  let p' := Proc (TCPServer.World g' (<[t := (s', MWait)]> th)) cg cs in
  process_typed p' → sound st (obtained sok env g) [] p'.
Proof.
  intros st H Et E Hu p' Ht. pose proof (d_tasks _ H) as Htk. pose proof (d_count _ H) as Hn.
  unfold gl, heap in *. cbn [st proc sv globals servers] in *.
  destruct (start_fds junk _ _ _ _ _ _ _ _ _ _ E) as [(Er & El & Ei & En & Hobt & Hb)
    |(Ei & _ & Ei' & Eob & El & En & Hv)].
  + destruct (is_inited_ g) eqn:Ei0; [|by specialize (Hb eq_refl)]. destruct (Hobt eq_refl) as (_ & -> & Elf & Eep).
    eapply (closes_ok (λ _, False)); [done|done|split; cbn; congruence| |by apply closes_same; unfold heap; cbn; rewrite Er|auto].
    split; cbn; [by rewrite Ei|]. rewrite map_size_insert_None by done. lia.
  + rewrite Eob in Hu |- *. apply start_ok; try done. split; cbn; [by rewrite Ei'|]. rewrite map_size_insert_None by done. lia.
Qed.

Lemma joined_call_ok g th cg cs op lo t s now wenv s' g' fds :
  let st := State (Proc (TCPServer.World g th) cg cs) op lo in
  fds_ok st → th !! t = Some (s, MDone) → TCPServer.stop_release junk now wenv s g = Ok (s', g', fds) →
  let p' := Proc (TCPServer.World g' (delete t th)) cg cs in
  process_typed p' → sound st [] fds p'.
Proof.
  intros st H Et E p' Ht. pose proof (d_tasks _ H) as Htk. pose proof (d_count _ H) as Hn.
  pose proof (pt_servers _ (d_typed _ H)) as Hty. unfold world_typed, gl, heap in *. cbn [st proc sv globals servers] in *.
  destruct (is_inited_ g) eqn:Ei; [|by rewrite Htk in Et].
  assert (size (delete t th) = pred (size th)) as Esz by (by rewrite map_size_delete_Some).
  assert (size th ≠ 0%nat) as Hne by (intros ->%map_size_empty_inv; done).
  destruct (stop_release_fds junk _ _ _ _ _ _ _ E) as [En [(Hv & -> & El & Ei' & Elf & Eep)|(Ez & El & Ei' & r & cl & Hcl & -> & Hv)]].
  + eapply (closes_ok (λ _, False)); [done|done|split; cbn; congruence| |by apply closes_same|auto].
    split; cbn; [congruence|lia].
  + eapply last_stop_ok; [done|done|done| | |done|done|exact Hcl| |exact Hv]; cbn.
    * apply map_size_empty_inv. lia.
    * lia.
    * intros q Eq. by eapply connections_not_listener.
Qed.

Lemma server_call_ok st new cl sw' :
  fds_ok st → server_call junk (sv (proc st)) new cl sw' → unused new st →
  sound st new cl (Proc sw' (shared (proc st)) (clients (proc st))).
Proof.
  intros H Hc Hu.
  assert (process_typed (Proc sw' (shared (proc st)) (clients (proc st)))) as Ht.
  { eapply (process_typed_invariant junk); [exact (d_typed _ H)|]. by eapply p_server, server_call_step. }
  pose proof (pt_servers _ (d_typed _ H)) as Hty. unfold world_typed in Hty.
  pose proof (d_tasks _ H) as Htk. pose proof (d_count _ H) as Hn. pose proof (d_listen _ H) as Hli.
  pose proof (d_inited _ H) as Hin. unfold gl in *.
  destruct st as [[sw cg cs] op lo]. cbn [proc sv shared clients] in *. unfold heap in *. cbn [sv] in *.
  destruct Hc as [g th t s now port sok env s' g' Et _ _ E|g th t s ph now el tmo ph' g' fds Et E
    |g th t s ph now p ev env g' fds Et Eph Hsys E|g th t s ph Et Hs|g th t s now wenv s' g' fds Et Es E
    |g th t s ph now nid ok s' r' Et E|g th p r' E|g th p o o' Eo Hsf]; cbn [globals servers] in *.
  - by eapply start_call_ok.
  - pose proof (phase_fds _ _ _ _ _ _ _ _ _ E) as ->. destruct (Lifetime.phase_quiet junk _ _ _ _ _ _ _ _ _ E) as [n ->].
    eapply (closes_ok (λ _, False)); [done|done|split; cbn; congruence| |by apply closes_same|auto].
    split; cbn; [intros Hi; by rewrite (Htk Hi) in Et|]. by rewrite map_size_insert_Some.
  - destruct (handle_event_fds _ _ _ _ _ _ _ _ _ E) as [[r' ->] [[Ea Hcl]|(cfd & Ea & [[Hv ->]|[-> Hv]])]]; rewrite Ea in Hu |- *.
    + eapply closes_ok; [done|done|split; cbn; congruence|by split|exact Hcl|]. cbn. intros q Eq [-> [Hx|(o & Eo & Hx)]].
      * by rewrite Hsys in Hx.
      * destruct (Hli p Eq) as [_ Ev]. rewrite view_lookup, Eo in Ev. cbn in Ev. unfold fd_of in Ev.
        case_bool_decide; [done|]. by injection Ev.
    + by apply bounce_ok.
    + by apply adds_ok.
  - eapply (closes_ok (λ _, False)); [done|done|split; cbn; congruence| |by apply closes_same|auto].
    split; cbn; [intros Hi; by rewrite (Htk Hi) in Et|]. by rewrite map_size_insert_Some.
  - by eapply joined_call_ok.
  - eapply (closes_ok (λ _, False)); [done|done|split; cbn; congruence| |apply closes_same; by eapply put_connection_view|auto].
    split; cbn; [intros Hi; by rewrite (Htk Hi) in Et|]. by rewrite map_size_insert_Some.
  - eapply (closes_ok (λ _, False)); [done|done|split; cbn; congruence|by split|apply closes_same; by eapply add_to_epoll_view|auto].
  - eapply (closes_ok (λ _, False)); [done|done|split; cbn; congruence|by split|apply closes_same; by eapply set_object_view, same_fields_fd|auto].
Qed.

Lemma client_call_ok st new cl cw' :
  fds_ok st → client_call junk (client_world (proc st)) new cl cw' → unused new st →
  sound st new cl (Proc (with_heap (TCPClient.heap cw') (sv (proc st))) (TCPClient.shared cw') (TCPClient.clients cw')).
Proof.
  intros H Hc Hu. pose proof (client_call_move _ _ _ _ Hc) as Hm.
  pose proof (process_typed_invariant junk _ _ (d_typed _ H) (p_client junk _ _ Hm)) as Ht.
  set (p' := Proc _ _ _) in *.
  assert (same_setup (gl st) (globals (sv p'))) as Hs by by split.
  assert (tasks_ok p') as Htk by (split; [exact (d_tasks _ H)|exact (d_count _ H)]).
  destruct (client_call_fds _ _ _ _ Hc) as [[-> Hcl]|(fd & -> & [[Hv ->]|[-> Hv]])].
  - eapply closes_ok; [done..|exact Hcl|]. cbn. intros q Eq ([a q'] & -> & Hin)%list_elem_of_fmap.
    destruct (pt_clients _ (d_typed _ H)) as [Hcs _ _ _]. apply elem_map_find in Hin; [|apply (pt_wf _ (d_typed _ H))].
    destruct (Hcs _ _ Hin) as (o & Eo & Hf). cbn in Eq. pose proof (pt_listener _ (d_typed _ H) _ _ Eq Eo). congruence.
  - by apply bounce_ok.
  - by apply adds_ok.
Qed.

(** A [start] that fails leaves its epoll set and its socket open. *)
Lemma start_fails_ok st t s now port ssl_ok env s' g' :
  fds_ok st → servers (sv (proc st)) !! t = None →
  TCPServer.start junk now t port ssl_ok env s (gl st) = (false, s', g') →
  unused (obtained ssl_ok env (gl st)) st →
  fds_ok (State (Proc (TCPServer.World g' (servers (sv (proc st)))) (shared (proc st)) (clients (proc st)))
                (open st ∪ list_to_set (obtained ssl_ok env (gl st)))
                (lost st ∪ list_to_set (obtained ssl_ok env (gl st)))).
Proof.
  intros H Et E [_ Hu].
  assert (process_typed (Proc (TCPServer.World g' (servers (sv (proc st)))) (shared (proc st)) (clients (proc st)))) as Ht.
  { eapply (process_typed_invariant junk); [exact (d_typed _ H)|]. apply p_server. unfold gl in E.
    destruct (sv (proc st)) as [g th]. by eapply TCPServer.w_start_fails. }
  destruct (start_fds junk _ _ _ _ _ _ _ _ _ _ E) as [(Er & El & Ei & En & Hsame & _)|(_ & [=] & _)].
  destruct (is_inited_ (gl st)) eqn:Ei0; [by destruct (Hsame eq_refl)|]. set (new := obtained _ _ _) in *.
  assert (∀ p fd, view (heap (proc st)) !! p = Some fd → fd ∉ new) as Hv.
  { intros p fd Ep%(d_open _ H) Hin. by eapply Hu. }
  split; unfold gl, heap in *; cbn [proc open lost sv globals servers] in *; rewrite ?Er, ?El, ?Ei, ?En.
  - exact Ht.
  - intros p fd Ep. apply elem_of_union_l. by eapply (d_open _ H).
  - exact (d_apart _ H).
  - intros p Ep. destruct (d_listen _ H p Ep). unfold gl in *. congruence.
  - done.
  - intros fd [Hl|Hl]%elem_of_union.
    + destruct (d_lost _ H fd Hl) as [Ho Hne]. split; [by apply elem_of_union_l|exact Hne].
    + split; [by apply elem_of_union_r|]. intros p Ep. apply (Hv p fd Ep). by apply elem_of_list_to_set in Hl.
  - intros fd [Ho|Hn]%elem_of_union; [|right; right; by apply elem_of_union_r].
    destruct (d_all _ H fd Ho) as [?|[[]|Hl]]; [by left|unfold gl in *; congruence|]. right; right. by apply elem_of_union_l.
  - intros _. by apply (d_tasks _ H).
  - pose proof (d_count _ H). unfold gl in *. lia.
Qed.

Lemma step_fds_ok new cl st st' :
  fds_ok st → step junk new cl st st' →
  fds_ok st' ∧ NoDup cl ∧ (∀ fd, fd ∈ cl → fd ∈ open st ∨ fd ∈ new) ∧ lost st ⊆ lost st'.
Proof.
  intros H Hs. destruct Hs as [st new cl p' [sw' Hc|cw' Hc] Hu|st t s now port sok env s' g' Et E new' Hu].
  - destruct (server_call_ok _ _ _ _ H Hc Hu) as (? & ? & ?). by split_and!.
  - destruct (client_call_ok _ _ _ _ H Hc Hu) as (? & ? & ?). by split_and!.
  - split_and!; [by eapply start_fails_ok|apply NoDup_nil_2|by intros ? ?%not_elem_of_nil|apply union_subseteq_l].
Qed.

Lemma reachable_fds_ok st : reachable junk st → fds_ok st.
Proof.
  intros Hr. refine (rtc_ind_r fds_ok _ _ _ _ Hr).
  - split; try done. apply (reachable_process_typed junk). constructor.
  - intros st1 st2 _ (new & cl & Hs) H. by destruct (step_fds_ok _ _ _ _ H Hs).
Qed.
End invariant.

(** * Theorems *)

(** Over every run of the servers and clients of a process on plain sockets in which the
    handlers of events and the calls of [close] do not overlap, no
    descriptor is closed twice or after it was given back: what a call closes, each
    once, was open or was handed out by that call; two connections that are not closed
    never share a descriptor, so a call on one never reaches the socket of the other;
    and after the call the open descriptors are exactly those of the connections that
    were not closed (the listener's among them, and those nobody refers to any more,
    since the destructor of a connection closes nothing), the epoll set while the
    server is initialised, and what a [start] that failed left behind, which nothing
    closes. *)
Theorem descriptors_closed_once junk st new cl st' :
  reachable junk st → step junk new cl st st' →
  NoDup cl ∧ (∀ fd, fd ∈ cl → fd ∈ open st ∨ fd ∈ new)
  ∧ (∀ p q fd, view (heap (proc st')) !! p = Some fd → view (heap (proc st')) !! q = Some fd → p = q)
  ∧ (∀ fd, fd ∈ open st' ↔ (∃ p, view (heap (proc st')) !! p = Some fd)
       ∨ is_inited_ (gl st') = true ∧ fd = epollfd_ (gl st') ∨ fd ∈ lost st')
  ∧ lost st ⊆ lost st'.
Proof.
  intros Hr%reachable_fds_ok Hs. destruct (step_fds_ok _ _ _ _ _ Hr Hs) as (H & Hnd & Hc & Hl).
  split_and!; [done..|by apply d_apart| |done]. intros fd. split; [by apply d_all|].
  intros [[p E]|[[Hi ->]|Hlo]]; [by eapply d_open|by apply (d_inited _ H)|by apply (d_lost _ H)].
Qed.

(** * Witnesses *)

(** The only task starts and stops before its thread listens. *)
Definition with_tasks (th : gmap bytes (TCPServer.server * TCPServer.main_phase)) : process :=
  Proc (TCPServer.World (TCPServer.start (λ _, x00) 0 (str "a") 9000 true (TCPServer.InitEnv 3 4 0 0) idle_server
                           TCPServer.statics_init).2 th) TCPClient.statics_init ∅.
Definition a_started : gmap bytes (TCPServer.server * TCPServer.main_phase) := <[str "a" := (server_of (str "a"), MWait)]> ∅.
Definition a_told : gmap bytes (TCPServer.server * TCPServer.main_phase) :=
  <[str "a" := (TCPServer.set_stop (server_of (str "a")), MWait)]> a_started.
Definition told_to_stop : state :=
  State (with_tasks (<[str "a" := (TCPServer.set_stop (server_of (str "a")), MDone)]> a_told)) {[3; 4]} ∅.

Lemma told_to_stop_reachable : reachable (λ _, x00) told_to_stop.
Proof.
  eapply rtc_l.
  { exists [3; 4], []. eapply (d_call _ _ _ _ (with_tasks a_started)).
    - change [3; 4] with (obtained true (TCPServer.InitEnv 3 4 0 0) TCPServer.statics_init).
      eapply (d_server _ process_init), (d_start _ _ _ (str "a") idle_server 0 9000 true (TCPServer.InitEnv 3 4 0 0)); reflexivity.
    - split; [repeat constructor; set_solver|cbn; set_solver]. }
  eapply rtc_l.
  { exists [], []. eapply (d_call _ _ _ _ (with_tasks a_told)).
    - eapply d_server, (d_flag _ _ _ (str "a") (server_of (str "a")) MWait); reflexivity.
    - split; [constructor|cbn; set_solver]. }
  eapply rtc_l.
  { exists [], []. eapply (d_call _ _ _ _ (proc told_to_stop)).
    - eapply d_server, (d_phase _ _ _ (str "a") _ MWait 0 0 0); reflexivity.
    - split; [constructor|cbn; set_solver]. }
  apply reflexive_eq. reflexivity.
Qed.

Lemma descriptors_closed_once_witness :
  ∃ st', step (λ _, x00) [] [4; 3] told_to_stop st'
  ∧ NoDup [4; 3] ∧ (∀ fd, fd ∈ [4; 3] → fd ∈ open told_to_stop ∨ fd ∈ [])
  ∧ (∀ p q fd, view (heap (proc st')) !! p = Some fd → view (heap (proc st')) !! q = Some fd → p = q)
  ∧ (∀ fd, fd ∈ open st' ↔ (∃ p, view (heap (proc st')) !! p = Some fd)
       ∨ is_inited_ (gl st') = true ∧ fd = epollfd_ (gl st') ∨ fd ∈ lost st')
  ∧ lost told_to_stop ⊆ lost st'.
Proof.
  eexists. refine ((λ H, conj H (descriptors_closed_once (λ _, x00) _ _ _ _ told_to_stop_reachable H)) _).
  eapply d_call; [|split; [constructor|cbn; set_solver]].
  eapply d_server, (d_joined _ _ _ (str "a") _ 0 (λ _, [])); reflexivity.
Defined.
End Descriptors.
