(* ===== verification/Callback.v ===== *)
(** The error callback of a task ([handler] in [src/server.cpp]): which server has one,
    and which errors of the connections of a process are reported, to whom. *)
From Stdlib Require Import Strings.Byte.
From S2P Require Import Prelude Timer CycleBuffer SimpleBuffer Transport Connection StdMap Work Server.
From S2P Require Import Heap Client Process Lifetime Descriptors.
#[local] Open Scope Z_scope.

Module Callback.
Import TCPServer (server, main_phase, statics, reg, set_reg, set_object, objects, globals, servers, is_inited_,
  s_task_count_, MWait, MConnecting, MServing, MDone, stop_, set_stop, listening, event_env, EPOLLERR).

(** An [error_callback] that is not null, by its address. *)
Definition callback := Z.

(** What a call of [handler] passes, and which server makes it. *)
Record report := Report { by_ : bytes; to_ : callback; current_node_id : bytes; pear_node_id : bytes; errorno : Z; errormsg : bytes }.

(** The servers of a process, and the member [handler] of those where it is not null. *)
Record state := State { world : TCPServer.world; handlers : gmap bytes callback }.

Definition gl (st : state) : statics := globals (world st).

Section program.
Context (junk : nat → byte) (strerror : Z → bytes).

(** The assignment to [handler] in [start]. *)
Definition set_handler (t : bytes) (handler_ : option callback) (g : statics) (hs : gmap bytes callback) : gmap bytes callback :=
  if is_inited_ g then hs else match handler_ with Some f => <[t := f]> hs | None => hs end.

(** The call at the head of [handle_error]. *)
Definition report_error (t : bytes) (errno : Z) (o : conn_obj) (hs : gmap bytes callback) : list report :=
  match hs !! t with
  | Some f => [Report t f [] (c_str (node_id_ (conn o))) errno (strerror errno)]
  | None => []
  end.

(** One event of [loop_once]. *)
Definition event_reports (t : bytes) (events errno : Z) (o : conn_obj) (hs : gmap bytes callback) : list report :=
  if negb (Z.land events EPOLLERR =? 0) then report_error t errno o hs else [].

(** What else the servers and their users do. *)
Inductive quiet : relation TCPServer.world :=
  | q_phase g th t s ph now elapsed timeout ph' g' fds :
      th !! t = Some (s, ph) → TCPServer.loop_main_step junk now s g ph elapsed timeout [] = Ok (ph', g', fds) →
      quiet (TCPServer.World g th) (TCPServer.World g' (<[t := (s, ph')]> th))
  | q_flag g th t s ph :
      th !! t = Some (s, ph) → stop_ s = false →
      quiet (TCPServer.World g th) (TCPServer.World g (<[t := (set_stop s, ph)]> th))
  | q_put g th t s ph now node_id ok s' r' :
      th !! t = Some (s, ph) → TCPServer.put_connection junk now s (reg g) node_id = Ok (ok, s', r') →
      quiet (TCPServer.World g th) (TCPServer.World (set_reg r' g) (<[t := (s', ph)]> th))
  | q_heap g th r' :                       (* the clients and the threads of the connections, whatever they do *)
      quiet (TCPServer.World g th) (TCPServer.World (set_reg r' g) th).

Inductive step : list report → relation state :=
  | e_start g th hs t s now port handler_ ssl_ok env s' g' :
      th !! t = None → stop_ s = false → TCPServer.server_connections_ s = [] →
      TCPServer.start junk now t port ssl_ok env s g = (true, s', g') →
      step [] (State (TCPServer.World g th) hs)
              (State (TCPServer.World g' (<[t := (s', MWait)]> th)) (set_handler t handler_ g hs))
  | e_start_fails g th hs t s now port ssl_ok env s' g' :   (* this server never handles an event *)
      th !! t = None → TCPServer.start junk now t port ssl_ok env s g = (false, s', g') →
      step [] (State (TCPServer.World g th) hs) (State (TCPServer.World g' th) hs)
  | e_event g th hs t s ph now p events errno env o g' fds :
      th !! t = Some (s, ph) → listening ph = true → objects (reg g) !! p = Some o →
      TCPServer.handle_event junk now s g p events env = Ok (g', fds) →
      step (event_reports t events errno o hs) (State (TCPServer.World g th) hs) (State (TCPServer.World g' th) hs)
  | e_joined g th hs t s now wenv s' g' fds :
      th !! t = Some (s, MDone) → stop_ s = true →
      TCPServer.stop_release junk now wenv s g = Ok (s', g', fds) →
      step [] (State (TCPServer.World g th) hs) (State (TCPServer.World g' (delete t th)) (delete t hs))
  | e_quiet w hs w' : quiet w w' → step [] (State w hs) (State w' hs).

Definition state_init : state := State (TCPServer.World TCPServer.statics_init ∅) ∅.
Definition reachable (st : state) : Prop := rtc (λ st st', ∃ reps, step reps st st') state_init st.

(** * The invariant *)

Record callbacks_ok (st : state) : Prop := {
  e_one t u f f' : handlers st !! t = Some f → handlers st !! u = Some f' → t = u;
  e_live t f : handlers st !! t = Some f → is_Some (servers (world st) !! t);
  e_tasks : is_inited_ (gl st) = false → servers (world st) = ∅;
  e_count : Z.of_nat (size (servers (world st))) ≤ s_task_count_ (gl st)
}.

(** ** Lemmas *)

Lemma callbacks_keep st w' :
  callbacks_ok st → dom (servers w') = dom (servers (world st)) →
  is_inited_ (globals w') = is_inited_ (gl st) → s_task_count_ (globals w') = s_task_count_ (gl st) →
  callbacks_ok (State w' (handlers st)).
Proof.
  intros [Ho Hl Ht Hc] Hd Ei En. split; unfold gl; cbn; [done|..].
  - intros t f E%Hl. apply elem_of_dom. rewrite Hd. by apply elem_of_dom.
  - rewrite Ei. intros E%Ht. apply dom_empty_iff_L. by rewrite Hd, E, dom_empty_L.
  - rewrite En. rewrite <- !size_dom in *. by rewrite Hd.
Qed.

Lemma quiet_keeps w w' : quiet w w' →
  dom (servers w') = dom (servers w) ∧ is_inited_ (globals w') = is_inited_ (globals w)
  ∧ s_task_count_ (globals w') = s_task_count_ (globals w).
Proof.
  assert (∀ (th : gmap bytes (server * main_phase)) t x y, th !! t = Some x → dom (<[t := y]> th) = dom th) as Hd.
  { intros th t x y Et. apply dom_insert_lookup_L. by eexists. }
  intros [g th t s ph now el tmo ph' g' fds Et E|g th t s ph Et _|g th t s ph now nid ok s' r' Et _|g th r']; cbn;
    [|split_and!; try done; by eapply Hd..].
  destruct (Lifetime.phase_quiet junk _ _ _ _ _ _ _ _ _ E) as [n ->]. split_and!; [by eapply Hd|done..].
Qed.

Lemma callbacks_start g th hs t s now port handler_ ssl_ok env (b : bool) s' g' :
  callbacks_ok (State (TCPServer.World g th) hs) → th !! t = None →
  TCPServer.start junk now t port ssl_ok env s g = (b, s', g') →
  if b then callbacks_ok (State (TCPServer.World g' (<[t := (s', MWait)]> th)) (set_handler t handler_ g hs))
  else callbacks_ok (State (TCPServer.World g' th) hs).
Proof.
  intros [Ho Hl Ht Hc] Et E. unfold gl in *. cbn [world handlers globals servers] in *.
  assert (s_task_count_ g' = s_task_count_ g + 1 ∧ is_inited_ g' = if b then true else is_inited_ g) as [En Ei].
  { destruct (Descriptors.start_fds junk _ _ _ _ _ _ _ _ _ _ E) as [(_ & _ & Ei & En & Hi & Hb)|(_ & -> & Ei & _ & _ & En & _)];
      (split; [done|]); [|done]. rewrite Ei. destruct (is_inited_ g); [by destruct (Hi eq_refl) as [-> _]|by rewrite Hb]. }
  assert (∀ f, hs !! t ≠ Some f) as Hnone by (intros f [? E']%Hl; congruence).
  destruct b; split; unfold gl; cbn [world handlers globals servers]; rewrite ?Ei, ?En; try done.
  - unfold set_handler. destruct (is_inited_ g) eqn:Ei0; [exact Ho|]. destruct handler_ as [f|]; [|exact Ho].
    intros u v fu fv [[<- _]|[_ Eu]]%lookup_insert_Some [[<- _]|[_ Ev]]%lookup_insert_Some; [done| | |by eapply Ho].
    + apply Hl in Ev as [x Ev]. by rewrite Ht in Ev.
    + apply Hl in Eu as [x Eu]. by rewrite Ht in Eu.
  - intros u f. unfold set_handler. rewrite lookup_insert_is_Some. destruct (decide (t = u)) as [->|Hne]; [by left|].
    intros Eu. right. split; [done|]. destruct (is_inited_ g); [by eapply Hl|]. destruct handler_; [|by eapply Hl].
    rewrite lookup_insert_ne in Eu by done. by eapply Hl.
  - rewrite map_size_insert_None by done. lia.
  - lia.
Qed.

Lemma callbacks_joined g th hs t s now wenv ph s' g' fds :
  callbacks_ok (State (TCPServer.World g th) hs) → th !! t = Some (s, ph) →
  TCPServer.stop_release junk now wenv s g = Ok (s', g', fds) →
  callbacks_ok (State (TCPServer.World g' (delete t th)) (delete t hs)).
Proof.
  intros [Ho Hl Ht Hc] Et E. unfold gl in *. cbn [world handlers globals servers] in *.
  assert (size (delete t th) = pred (size th)) as Es by (by rewrite map_size_delete_Some).
  assert (size th ≠ 0%nat) as Hne by (intros ->%map_size_empty_inv; done).
  assert (is_inited_ g = true) as Ei by (destruct (is_inited_ g); [done|by rewrite Ht in Et]).
  destruct (Descriptors.stop_release_fds junk _ _ _ _ _ _ _ E) as [En Hcase].
  split; unfold gl; cbn [world handlers globals servers].
  - intros u v f f' [_ Eu]%lookup_delete_Some [_ Ev]%lookup_delete_Some. by eapply Ho.
  - intros u f [Hu Eu]%lookup_delete_Some. rewrite lookup_delete_ne by done. by eapply Hl.
  - destruct Hcase as [(_ & _ & _ & Ei' & _)|(Ez & _)]; [congruence|]. intros _. apply map_size_empty_inv. lia.
  - lia.
Qed.

Lemma callbacks_step reps st st' : callbacks_ok st → step reps st st' → callbacks_ok st'.
Proof.
  intros H Hs. destruct Hs as [g th hs t s now port h sok env s' g' Et _ _ E|g th hs t s now port sok env s' g' Et E
    |g th hs t s ph now p ev errno env o g' fds Et Eph Eo E|g th hs t s now wenv s' g' fds Et Es E|w hs w' Hq].
  - by eapply (callbacks_start g th hs t s now port h sok env true).
  - by eapply (callbacks_start g th hs t s now port None sok env false).
  - apply Heap.handle_event_inv in E as (r' & -> & _). by apply (callbacks_keep _ (TCPServer.World (set_reg r' g) th) H).
  - by eapply callbacks_joined.
  - destruct (quiet_keeps _ _ Hq) as (Hd & Ei & En). by apply (callbacks_keep _ w' H).
Qed.

Lemma reachable_callbacks_ok st : reachable st → callbacks_ok st.
Proof.
  intros Hr. refine (rtc_ind_r callbacks_ok _ _ _ _ Hr); [by split|].
  intros st1 st2 _ (reps & Hs) H. by eapply callbacks_step.
Qed.

Lemma reports_to reps st st' r : step reps st st' → r ∈ reps →
  handlers st !! by_ r = Some (to_ r) ∧ ∃ s ph, servers (world st) !! by_ r = Some (s, ph) ∧ listening ph = true.
Proof.
  intros Hs Hr. destruct Hs as [| |g th hs t s ph now p ev errno env o g' fds Et Eph Eo E| |]; try by apply not_elem_of_nil in Hr.
  unfold event_reports, report_error in Hr. destruct (negb _); [|by apply not_elem_of_nil in Hr]. cbn.
  destruct (hs !! t) eqn:Eh; [|by apply not_elem_of_nil in Hr]. apply list_elem_of_singleton in Hr as ->. cbn. eauto.
Qed.

Lemma silence reps st st' :
  callbacks_ok st → is_inited_ (gl st) = true → handlers st = ∅ → step reps st st' → reps = [] ∧ handlers st' = ∅.
Proof.
  intros H Hi He Hs. destruct Hs as [g th hs t s now port h sok env s' g' Et _ _ E|g th hs t s now port sok env s' g' Et E
    |g th hs t s ph now p ev errno env o g' fds Et Eph Eo E|g th hs t s now wenv s' g' fds Et Es E|w hs w' Hq];
    unfold gl in *; cbn [world handlers globals] in *; subst hs.
  - unfold set_handler. by rewrite Hi.
  - done.
  - unfold event_reports, report_error. rewrite lookup_empty. by destruct (negb _).
  - by rewrite delete_empty.
  - done.
Qed.

Lemma silent_run st st' :
  callbacks_ok st → handlers st = ∅ →
  rtc (λ a b, is_inited_ (gl a) = true ∧ ∃ reps, step reps a b) st st' → callbacks_ok st' ∧ handlers st' = ∅.
Proof.
  intros H He Hr. induction Hr as [|a b c [Hi [reps Hs]] _ IH]; [done|].
  destruct (silence _ _ _ H Hi He Hs) as [_ He']. apply IH; [by eapply callbacks_step|done].
Qed.
End program.

(** * Properties *)

(** C39: errors are reported to one task only.  The callback passed to [start] is kept
    by the task that initialises the servers of the process and by no other: at any
    time at most one server has one, and every report comes from that server, while it
    is the one that listens.  Once it has stopped, no error of any connection is
    reported to anyone, whichever callbacks the tasks that run or start then have
    passed, until the last of them has stopped. *)
Theorem one_task_hears_errors junk strerror st :
  reachable junk strerror st →
  (∀ t u f f', handlers st !! t = Some f → handlers st !! u = Some f' → t = u ∧ f = f')
  ∧ (∀ reps st' r, step junk strerror reps st st' → r ∈ reps →
       handlers st !! by_ r = Some (to_ r)
       ∧ ∃ s ph, servers (world st) !! by_ r = Some (s, ph) ∧ listening ph = true)
  ∧ (handlers st = ∅ →
     ∀ st' reps st'', rtc (λ a b, is_inited_ (gl a) = true ∧ ∃ reps, step junk strerror reps a b) st st' →
       is_inited_ (gl st') = true → step junk strerror reps st' st'' → reps = []).
Proof.
  intros H%reachable_callbacks_ok. split_and!.
  - intros t u f f' Et Eu. assert (t = u) as <- by (by eapply e_one). split; [done|congruence].
  - intros reps st' r Hs Hr. by eapply reports_to.
  - intros He st' reps st'' Hrun Hi Hs. destruct (silent_run _ _ _ _ H He Hrun) as [H' He'].
    by destruct (silence _ _ _ _ _ H' Hi He' Hs).
Qed.

(** * Witnesses *)

(** Task a initialises the servers, task b starts, task a stops. *)
Definition mute (_ : Z) : bytes := [].
Definition both (r : TCPServer.registry) (n : Z) (th : gmap bytes (server * main_phase)) : TCPServer.world :=
  TCPServer.World (TCPServer.Statics r n false (Some 1) 3 4 9000 true 0) th.
Definition a_starts : gmap bytes (server * main_phase) := <[str "a" := (TCPServer.server_of (str "a"), MWait)]> ∅.
Definition b_starts : gmap bytes (server * main_phase) := <[str "b" := (TCPServer.server_of (str "b"), MWait)]> a_starts.
Definition a_told : gmap bytes (server * main_phase) := <[str "a" := (set_stop (TCPServer.server_of (str "a")), MWait)]> b_starts.
Definition a_ends : gmap bytes (server * main_phase) := <[str "a" := (set_stop (TCPServer.server_of (str "a")), MDone)]> a_told.
Definition b_alone : state := State (both (reg TCPServer.started_statics) 1 (delete (str "a") a_ends)) ∅.

Lemma b_is_left r :
  rtc (λ st st', ∃ reps, step (λ _, x00) mute reps st st')
      (State (both r 1 a_starts) {[str "a" := 7]}) (State (both r 1 (delete (str "a") a_ends)) ∅).
Proof.
  eapply rtc_l.
  { exists []. eapply (e_start _ _ _ _ _ (str "b") TCPServer.idle_server 0 9000 (Some 8) true (TCPServer.InitEnv 3 4 0 0)); reflexivity. }
  eapply rtc_l.
  { exists []. eapply e_quiet, (q_flag _ _ _ (str "a") (TCPServer.server_of (str "a")) MWait); reflexivity. }
  eapply rtc_l.
  { exists []. eapply e_quiet, (q_phase _ _ _ (str "a") _ MWait 0 0 0); reflexivity. }
  eapply rtc_l.
  { exists []. eapply (e_joined _ _ _ _ _ (str "a") _ 0 (λ _, [])); reflexivity. }
  apply reflexive_eq. reflexivity.
Qed.

Lemma b_alone_reachable : reachable (λ _, x00) mute b_alone.
Proof.
  eapply rtc_l; [|apply b_is_left]. exists [].
  apply (e_start _ _ TCPServer.statics_init ∅ ∅ (str "a") TCPServer.idle_server 0 9000 (Some 7) true (TCPServer.InitEnv 3 4 0 0)); reflexivity.
Qed.

Lemma one_task_hears_errors_witness :
  is_Some (servers (world b_alone) !! str "b") ∧ is_inited_ (gl b_alone) = true
  ∧ ∀ st' reps st'', rtc (λ a b, is_inited_ (gl a) = true ∧ ∃ reps, step (λ _, x00) mute reps a b) b_alone st' →
      is_inited_ (gl st') = true → step (λ _, x00) mute reps st' st'' → reps = [].
Proof.
  split; [by eexists|]. split; [reflexivity|].
  exact (proj2 (proj2 (one_task_hears_errors (λ _, x00) mute b_alone b_alone_reachable)) eq_refl).
Defined.
End Callback.
