(* ===== verification/NetIO.v ===== *)
(** [BasicIO] of [include/io/internal/net_io.h] and [src/net_io.cpp], and the data
    path of [TCPChannel] in [src/io_channel_impl.cpp]: the server and the clients of
    one task, the map from nodes to their connections, and [Send] and [Recv]
    through it.  The threads of [init] run one after the other here and interleave in
    [Init]; the build with [USE_EMP_IO] is in [EmpIO]. *)
From Stdlib Require Import Strings.Byte.
From S2P Require Import Prelude Timer CycleBuffer SimpleBuffer Transport Connection StdMap.
From S2P Require Import Json Config Socket Codec Topology Work Server Client.
#[local] Open Scope Z_scope.

Module BasicIO.

(** * The program *)

(** The static members of the servers and the clients of the process; the heap is
    the server's registry. *)
Record process := Process { servers_of : TCPServer.statics; clients_of : TCPClient.statics }.

Definition heap (g : process) : TCPServer.registry := TCPServer.reg (servers_of g).
Definition set_heap (r : TCPServer.registry) (g : process) : process :=
  Process (TCPServer.set_reg r (servers_of g)) (clients_of g).

(** A [BasicIO]; [connection_map] maps to a null pointer before a node is connected. *)
Record io := IO {
  task_id_ : bytes;
  node_info_ : NodeInfo;
  client_infos_ : list NodeInfo;
  server_infos_ : list NodeInfo;
  connect_timeout : Z;                     (** of [channel_config_] *)
  connect_retries : Z;
  server : TCPServer.server;
  clients : smap TCPClient.client;
  connection_map : smap (option Z)
}.

Definition set_server (s : TCPServer.server) (i : io) : io :=
  IO (task_id_ i) (node_info_ i) (client_infos_ i) (server_infos_ i) (connect_timeout i)
     (connect_retries i) s (clients i) (connection_map i).
Definition set_clients (c : smap TCPClient.client) (i : io) : io :=
  IO (task_id_ i) (node_info_ i) (client_infos_ i) (server_infos_ i) (connect_timeout i)
     (connect_retries i) (server i) c (connection_map i).
Definition set_connection_map (m : smap (option Z)) (i : io) : io :=
  IO (task_id_ i) (node_info_ i) (client_infos_ i) (server_infos_ i) (connect_timeout i)
     (connect_retries i) (server i) (clients i) m.

(** [expected_cids], [expected_sids] and [expected_ids] of [init]. *)
Definition expected_cids (i : io) : list bytes := info_id <$> client_infos_ i.
Definition expected_sids (i : io) : list bytes := info_id <$> server_infos_ i.
Definition expected_ids (i : io) : list bytes := expected_sids i ++ expected_cids i.

(** The null entries [init] makes before it starts the threads. *)
Definition null_entries (i : io) : smap (option Z) :=
  foldl (λ m id, map_insert id None m) (connection_map i) (expected_ids i).

Section program.
Context (junk : nat → byte).

(** What one thread of [init] does: connect to a server, wait for a client, nothing. *)
Inductive job := Dial (peer : NodeInfo) | Await | Nothing.

(** The branches of [conn_f(id, j)]; [server_infos_[j]] is read without a check. *)
Definition conn_job (i : io) (id : bytes) (j : nat) : outcome job :=
  if bool_decide (id ∈ expected_sids i) then
    match server_infos_ i !! j with Some peer => mret (Dial peer) | None => UB OutOfBounds end
  else if bool_decide (id ∈ expected_cids i) then mret Await
  else mret Nothing.

(** What the outside answers a dialling thread. *)
Record dial_world := DialWorld {
  dw_ssl : bool;
  dw_resolver : bytes → option (list (ai_family * bytes));
  dw_attempts : list TCPClient.attempt_env
}.

(** The branch for a server: whether it connected. *)
Definition conn_dial (now : Z) (dw : dial_world) (i : io) (g : process) (id : bytes) (peer : NodeInfo)
    : outcome (bool * io * process) :=
  let client := TCPClient.TCPClient_create (task_id_ i) id (address peer) (port peer)
                  (info_id (node_info_ i)) in
  '(ok, _, client, cg, r) ← TCPClient.connect junk now (connect_timeout i) (connect_retries i) (dw_ssl dw)
                              (dw_resolver dw) (dw_attempts dw) client (clients_of g) (heap g);
  let g := Process (TCPServer.set_reg r (servers_of g)) cg in
  let i := set_clients (map_insert id client (clients i)) i in
  if negb ok then mret (false, i, g)
  else
    let stored := default client (map_find id (clients i)) in      (* clients[i] *)
    let i := set_connection_map (map_assign id (TCPClient.conn_ stored) (connection_map i)) i in
    if TCPClient.is_first_connect_ stored then
      p ← match TCPClient.conn_ stored with Some p => mret p | None => UB NullPointer end;
      r ← TCPServer.add_connection_to_epoll (heap g) p;
      mret (true, i, set_heap r g)
    else mret (true, i, g).

(** The branch for a client: sleeps while [put_connection] fails. *)
Definition conn_await (now : Z) (i : io) (g : process) (id : bytes) : outcome (bool * io * process) :=
  '(ok, s, r) ← TCPServer.put_connection junk now (server i) (heap g) id;
  _ ← wait_until ok;
  mret (true, set_connection_map (map_assign id (TCPServer.get_connection s id) (connection_map i))
                                 (set_server s i), set_heap r g).

(** [conn_f]. *)
Definition conn_f (now : Z) (dw : dial_world) (i : io) (g : process) (id : bytes) (j : nat)
    : outcome (bool * io * process) :=
  k ← conn_job i id j;
  match k with
  | Dial peer => conn_dial now dw i g id peer
  | Await => conn_await now i g id
  | Nothing => mret (true, i, g)
  end.

(** [init], its threads one after the other; [dw] is what thread [j] meets. *)
Definition init (now : Z) (ssl_ok : bool) (env : TCPServer.init_env) (dw : nat → dial_world) (i : io)
    (g : process) : outcome (bool * io * process) :=
  let s := TCPServer.Server [] false (TCPServer.is_ssl_socket_ (server i)) (expected_cids i) [] false in
  let '(ok, s, sg) := TCPServer.start junk now (task_id_ i) (port (node_info_ i)) ssl_ok env s
                        (servers_of g) in
  let i := set_server s i in
  let g := Process sg (clients_of g) in
  if negb ok then mret (false, i, g)
  else
    let ids := expected_ids i in
    let i := set_connection_map (null_entries i) i in
    for_each (λ '(all, i, g) '(j, id),
                '(ok, i, g) ← conn_f now (dw j) i g id j; mret ((all : bool) && ok, i, g))
             (true, i, g) (imap pair ids).

(** [connection_map[node_id]]: makes a null entry for a node that is not there. *)
Definition connection_of (i : io) (node_id : bytes) : outcome Z :=
  match map_find node_id (connection_map i) with
  | Some (Some p) => mret p
  | _ => UB NullPointer
  end.

Definition recv (now elapsed : Z) (state_now : State) (i : io) (g : process) (node_id data : bytes)
    (length : Z) (id : bytes) (timeout : Z) : outcome (Z * bytes * process) :=
  if TCPServer.stoped_ (servers_of g) then Throw (socket_exp "m server->stoped()")
  else
    p ← connection_of i node_id;
    o ← TCPServer.deref (heap g) p;
    '(ret, data, c) ← Connection.recv now elapsed state_now (conn o) id data length timeout;
    mret (ret, data, set_heap (TCPServer.set_object p (Obj c (tasks o)) (heap g)) g).

Definition send (now : Z) (i : io) (g : process) (node_id data : bytes) (length : Z) (id : bytes)
    : outcome (Z * process) :=
  p ← connection_of i node_id;
  o ← TCPServer.deref (heap g) p;
  '(ret, c) ← Connection.send junk now (conn o) id data length;
  mret (ret, set_heap (TCPServer.set_object p (Obj c (tasks o)) (heap g)) g).

(** [close]: the threads of the clients one after the other, then the server. *)
Definition close (now elapsed : Z) (wenv : Z → list write_result) (returned : bool) (i : io) (g : process)
    : outcome (io * process * list Z) :=
  '(cg, r, fds) ← for_each (λ '(cg, r, fds) '(_, c),
      '(_, cg, r, more) ← TCPClient.close junk now elapsed wenv c cg r; mret (cg, r, fds ++ more))
    (clients_of g, heap g, []) (clients i);
  '(s, sg, more) ← TCPServer.stop junk now elapsed wenv returned (server i)
                     (TCPServer.set_reg r (servers_of g));
  mret (set_server s (set_clients [] i), Process sg cg, fds ++ more).

(** ** [TCPChannel] *)

Definition Send (now : Z) (i : io) (g : process) (node_id id data : bytes) (length : Z)
    : outcome (Z * process) :=
  id ← get_string id;
  send now i g node_id data length id.

Definition Recv (now elapsed : Z) (state_now : State) (i : io) (g : process) (node_id id data : bytes)
    (length timeout : Z) : outcome (Z * bytes * process) :=
  id ← get_string id;
  recv now elapsed state_now i g node_id data length id timeout.
End program.

(** * Lemmas *)

(** The thread of a server's id reads the entry of that server. *)
Lemma conn_job_server i id j peer :
  server_infos_ i !! j = Some peer → id = info_id peer → conn_job i id j = Ok (Dial peer).
Proof.
  intros Hj ->. unfold conn_job, expected_sids. rewrite bool_decide_true, Hj; [done|].
  apply list_elem_of_fmap. exists peer. split; [done|]. by eapply list_elem_of_lookup_2.
Qed.

Lemma expected_ids_lookup i j id :
  expected_ids i !! j = Some id →
  (∃ peer, server_infos_ i !! j = Some peer ∧ id = info_id peer)
  ∨ ∃ peer, peer ∈ client_infos_ i ∧ id = info_id peer.
Proof.
  unfold expected_ids, expected_sids, expected_cids. intros [H|[_ H]]%lookup_app_Some;
    apply list_lookup_fmap_Some in H as (peer & -> & H); [eauto|right].
  apply list_elem_of_lookup_2 in H. eauto.
Qed.

(** [Connection.send] through the heap. *)
Lemma send_ok_heap junk now i g node_id p o id data :
  map_find node_id (connection_map i) = Some (Some p) →
  TCPServer.objects (heap g) !! p = Some o →
  send junk now i g node_id data (zlen data) id =
    ('(ret, c) ← Connection.send junk now (conn o) id data (zlen data);
     mret (ret, set_heap (TCPServer.set_object p (Obj c (tasks o)) (heap g)) g)).
Proof.
  intros Hp Ho. unfold send, connection_of. rewrite Hp. cbn [mbind mret outcome_bind outcome_ret].
  assert (TCPServer.deref (heap g) p = Ok o) as -> by (unfold TCPServer.deref; by rewrite Ho).
  done.
Qed.

(** * Properties *)

(** The threads [init] starts carry out the plan of [CreateInternalChannel]:
    thread [j] dials the address and port of exactly the server it is named after,
    or waits for exactly a client; no thread reads past [server_infos_], and every
    peer has a thread. *)
Theorem jobs_follow_plan doc cfg node_id ni plan i :
  parse config_init doc = Ok cfg → create_infos cfg node_id = Ok (ni, plan) →
  server_infos_ i = serverInfos plan → client_infos_ i = clientInfos plan →
  (∀ j id, expected_ids i !! j = Some id →
     (∃ peer, conn_job i id j = Ok (Dial peer) ∧ peer ∈ serverInfos plan ∧ info_id peer = id)
     ∨ (conn_job i id j = Ok Await ∧ ∃ peer, peer ∈ clientInfos plan ∧ info_id peer = id))
  ∧ ∀ peer, peer ∈ serverInfos plan ++ clientInfos plan → ∃ j, expected_ids i !! j = Some (info_id peer).
Proof.
  intros Ep Ec Es Ecl. destruct (create_infos_peers doc cfg node_id ni plan Ep Ec)
    as (node & _ & _ & _ & Hs & Hc). split.
  - intros j id [(peer & Hj & ->)|(peer & Hin & ->)]%expected_ids_lookup.
    + left. exists peer. split_and!; [by apply conn_job_server| |done].
      rewrite <- Es. by eapply list_elem_of_lookup_2.
    + right. rewrite Ecl in Hin. split; [|eauto]. unfold conn_job, expected_sids, expected_cids.
      rewrite Es, Ecl, bool_decide_false, bool_decide_true; [done|apply list_elem_of_fmap; eauto|].
      intros (s & Eid & Hin2)%list_elem_of_fmap. apply Hs in Hin2 as (m & -> & (_ & Em & _) & Hi).
      apply Hc in Hin as (m' & -> & (_ & Em' & _) & Hi'). cbn in Eid. rewrite Eid in Em'.
      assert (m' = m) as -> by congruence. done.
  - intros peer Hin. unfold expected_ids, expected_sids, expected_cids. rewrite Es, Ecl, <- fmap_app.
    apply list_elem_of_lookup in Hin as [j Hj]. exists j. by rewrite list_lookup_fmap, Hj.
Qed.

(** [Send] to a connected node appends one frame, with the binary form of the
    id, to what that node's connection has to send, and touches no other connection;
    to a node without a connection it is a call on a null pointer, and [Recv] throws
    once the server of the process has stopped. *)
Theorem send_queues_frame junk now i g node_id id bin data :
  get_string id = Ok bin →
  (∀ p o, map_find node_id (connection_map i) = Some (Some p) →
     TCPServer.objects (heap g) !! p = Some o → conn_wf (conn o) →
     3 * (zlen (to_send (conn o)) + zlen (frame bin data)) < 2 ^ 63 →
     ∃ c, Send junk now i g node_id id data (zlen data)
            = Ok (zlen (frame bin data),
                  set_heap (TCPServer.set_object p (Obj c (tasks o)) (heap g)) g)
       ∧ conn_wf c ∧ to_send c = to_send (conn o) ++ frame bin data
       ∧ received c = received (conn o) ∧ mapbuffer_ c = mapbuffer_ (conn o))
  ∧ (map_find node_id (connection_map i) = None ∨ map_find node_id (connection_map i) = Some None →
     Send junk now i g node_id id data (zlen data) = UB NullPointer)
  ∧ (TCPServer.stoped_ (servers_of g) = true →
     ∀ elapsed s timeout,
       Recv now elapsed s i g node_id id data (zlen data) timeout = Throw (socket_exp "m server->stoped()")).
Proof.
  intros Eid. unfold Send, Recv. rewrite Eid. cbn [mbind outcome_bind]. split_and!.
  - intros p o Hp Ho H Hmax. rewrite (send_ok_heap junk now i g node_id p o) by done.
    destruct (send_ok junk now (conn o) bin data H Hmax) as (b & -> & Hb & Hc).
    exists (set_send_buffer b (conn o)). by destruct H.
  - intros [E|E]; unfold send, connection_of; by rewrite E.
  - intros E elapsed s timeout. unfold recv. by rewrite E.
Qed.

(** When the server cannot be set up, for instance because the port is taken,
    [init] returns [false] and the task stays counted; the [close] of the destructor
    then joins a thread that was never started, which throws. *)
Theorem failed_init_terminates junk now ssl_ok env dw i g :
  TCPServer.is_inited_ (servers_of g) = false → clients i = [] →
  ssl_ok = false ∨ TCPServer.ie_epoll env < 0 ∨ TCPServer.create_server env < 0 →
  ∃ i' g',
    init junk now ssl_ok env dw i g = Ok (false, i', g')
    ∧ TCPServer.s_task_count_ (servers_of g') = TCPServer.s_task_count_ (servers_of g) + 1
    ∧ ∀ now2 elapsed wenv returned, close junk now2 elapsed wenv returned i' g' = Throw system_error.
Proof.
  intros Hi Hc Hfail. unfold init, TCPServer.start. cbn [TCPServer.is_inited_]. rewrite Hi.
  assert (∀ i' g', clients i' = [] → TCPServer.stop_ (server i') = false →
    TCPServer.loop_thread_ (server i') = false →
    ∀ now2 elapsed wenv returned, close junk now2 elapsed wenv returned i' g' = Throw system_error) as Hclose.
  { intros i' g' E1 E2 E3 now2 el wenv ret. unfold close, TCPServer.stop. by rewrite E1, E2, E3. }
  destruct ssl_ok; cbn [negb]; [|do 2 eexists; split_and!; [reflexivity|done|by apply Hclose]].
  unfold TCPServer.init. cbn [TCPServer.epollfd_].
  destruct (Z.ltb_spec (TCPServer.ie_epoll env) 0);
    [do 2 eexists; split_and!; [reflexivity|done|by apply Hclose]|].
  destruct (Z.ltb_spec (TCPServer.create_server env) 0);
    [do 2 eexists; split_and!; [reflexivity|done|by apply Hclose]|].
  exfalso. clear Hclose. destruct Hfail as [[=]|[|]]; lia.
Qed.

(** * Witnesses *)

(** Node P0 of the sample configuration, not connected to any peer but P1. *)
Definition sample_io : io :=
  IO (str "t") (sample_plan "P0").1 (clientInfos (sample_plan "P0").2) (serverInfos (sample_plan "P0").2)
     1000 3 (TCPServer.Server (str "t") false false [] [] true) []
     [(str "P1", Some 7); (str "P2", None)].

Definition sample_process : process :=
  Process (TCPServer.Statics
             (TCPServer.Reg [] [] {[7 := Obj (small_conn [] (str "q")) works_init]} ∅ 8)
             1 true None 3 4 9000 true 1)
          TCPClient.statics_init.

Lemma jobs_follow_plan_witness :
  (∀ j id, expected_ids sample_io !! j = Some id →
     (∃ peer, conn_job sample_io id j = Ok (Dial peer) ∧ peer ∈ serverInfos (sample_plan "P0").2
        ∧ info_id peer = id)
     ∨ (conn_job sample_io id j = Ok Await ∧ ∃ peer, peer ∈ clientInfos (sample_plan "P0").2 ∧ info_id peer = id))
  ∧ ∀ peer, peer ∈ serverInfos (sample_plan "P0").2 ++ clientInfos (sample_plan "P0").2 →
    ∃ j, expected_ids sample_io !! j = Some (info_id peer).
Proof.
  apply (jobs_follow_plan sample_document sample_config (str "P0") (sample_plan "P0").1);
    [vm_compute; reflexivity..|reflexivity|reflexivity].
Defined.

Lemma send_queues_frame_witness :
  (∀ p o, map_find (str "P1") (connection_map sample_io) = Some (Some p) →
     TCPServer.objects (heap sample_process) !! p = Some o → conn_wf (conn o) →
     3 * (zlen (to_send (conn o)) + zlen (frame [x0a] (str "hi"))) < 2 ^ 63 →
     ∃ c, Send (λ _, x00) 0 sample_io sample_process (str "P1") (str "0a") (str "hi") (zlen (str "hi"))
            = Ok (zlen (frame [x0a] (str "hi")),
                  set_heap (TCPServer.set_object p (Obj c (tasks o)) (heap sample_process)) sample_process)
       ∧ conn_wf c ∧ to_send c = to_send (conn o) ++ frame [x0a] (str "hi")
       ∧ received c = received (conn o) ∧ mapbuffer_ c = mapbuffer_ (conn o))
  ∧ (map_find (str "P1") (connection_map sample_io) = None
     ∨ map_find (str "P1") (connection_map sample_io) = Some None →
     Send (λ _, x00) 0 sample_io sample_process (str "P1") (str "0a") (str "hi") (zlen (str "hi"))
       = UB NullPointer)
  ∧ (TCPServer.stoped_ (servers_of sample_process) = true →
     ∀ elapsed s timeout,
       Recv 0 elapsed s sample_io sample_process (str "P1") (str "0a") (str "hi") (zlen (str "hi")) timeout
         = Throw (socket_exp "m server->stoped()")).
Proof.
  apply (send_queues_frame (λ _, x00) 0 sample_io sample_process (str "P1") (str "0a") [x0a] (str "hi")).
  vm_compute. reflexivity.
Defined.

(** The premises of the first part hold here. *)
Lemma sample_connected :
  map_find (str "P1") (connection_map sample_io) = Some (Some 7)
  ∧ TCPServer.objects (heap sample_process) !! 7 = Some (Obj (small_conn [] (str "q")) works_init)
  ∧ conn_wf (small_conn [] (str "q"))
  ∧ 3 * (zlen (to_send (small_conn [] (str "q"))) + zlen (frame [x0a] (str "hi"))) < 2 ^ 63.
Proof. split_and!; [reflexivity|reflexivity|by apply small_conn_wf|vm_compute; reflexivity]. Qed.

Lemma failed_init_terminates_witness :
  let g := Process TCPServer.statics_init TCPClient.statics_init in
  ∃ i' g',
    init (λ _, x00) 0 true (TCPServer.InitEnv 3 4 (-1) 0) (λ _, DialWorld true (λ _, None) []) sample_io g
      = Ok (false, i', g')
    ∧ TCPServer.s_task_count_ (servers_of g') = 0 + 1
    ∧ ∀ now2 elapsed wenv returned,
        close (λ _, x00) now2 elapsed wenv returned i' g' = Throw system_error.
Proof.
  apply (failed_init_terminates (λ _, x00) 0 true (TCPServer.InitEnv 3 4 (-1) 0)
           (λ _, DialWorld true (λ _, None) []) sample_io
           (Process TCPServer.statics_init TCPClient.statics_init)); [reflexivity..|].
  right; right. reflexivity.
Defined.
End BasicIO.
