(* ===== verification/Init.v ===== *)
(** [BasicIO::init] of [src/net_io.cpp] with its threads running at the same time:
    one thread per peer connects a client to it or waits until the server has a
    connection from it, while the servers and clients of all tasks of the process
    move.  The sequential [BasicIO.init] of [NetIO] is one of the orders. *)
From Stdlib Require Import Strings.Byte.
From S2P Require Import Prelude Timer CycleBuffer SimpleBuffer Transport Connection StdMap Config Socket.
From S2P Require Import Topology Work Server Heap Client Process NetIO.
#[local] Open Scope Z_scope.

Module Init.
Import BasicIO Process.

(** * The program *)

(** Where the thread of a peer is. *)
Inductive pc :=
  | Begin
  | Created                                (** its client is in [clients] *)
  | Connecting                             (** in [connect] *)
  | Linked                                 (** its connection is in [connection_map] *)
  | Waited                                 (** [put_connection] returned [true] *)
  | Finished (ok : bool).

(** What the threads share: the process, [clients] by the thread that made the
    object, [connection_map] and [init_client_ok].  The object a thread made is a
    client that has not begun to connect, or one of the clients of the process. *)
Record state := State {
  proc : process;
  table : smap nat;
  conns : smap (option Z);
  init_client_ok : bool;
  made : gmap nat (TCPClient.client + Z);
  threads : list (bytes * pc)
}.

Definition set_proc (p : process) (st : state) : state :=
  State p (table st) (conns st) (init_client_ok st) (made st) (threads st).
Definition set_conns (m : smap (option Z)) (st : state) : state :=
  State (proc st) (table st) m (init_client_ok st) (made st) (threads st).
Definition set_made (j : nat) (m : TCPClient.client + Z) (st : state) : state :=
  State (proc st) (table st) (conns st) (init_client_ok st) (<[j := m]> (made st)) (threads st).
Definition goto (j : nat) (id : bytes) (c : pc) (st : state) : state :=
  State (proc st) (table st) (conns st) (init_client_ok st) (made st) (<[j := (id, c)]> (threads st)).
Definition insert_client (j : nat) (id : bytes) (st : state) : state :=
  State (proc st) (map_insert id j (table st)) (conns st) (init_client_ok st) (made st) (threads st).
Definition fails (st : state) : state :=
  State (proc st) (table st) (conns st) false (made st) (threads st).

(** [clients[id]]. *)
Definition client_at (st : state) (id : bytes) : option TCPClient.client :=
  j ← map_find id (table st);
  m ← made st !! j;
  match m with inl c => Some c | inr k => fst <$> clients (proc st) !! k end.

Section program.
Context (junk : nat → byte) (i : io).

(** The server of the task. *)
Definition server_at (p : process) : option (TCPServer.server * TCPServer.main_phase) :=
  TCPServer.servers (sv p) !! task_id_ i.

(** A client stays, and nobody closes it. *)
Definition stays (p p' : process) (k : Z) : Prop :=
  ∀ c ph, clients p !! k = Some (c, ph) →
    ∃ c' ph', clients p' !! k = Some (c', ph') ∧ (TCPClient.leaving ph' → TCPClient.leaving ph).

(** What the other threads of the process may do: they leave the task's server its
    connections, and do not close its clients. *)
Definition undisturbed (st : state) (p' : process) : Prop :=
  (∀ s ph, server_at (proc st) = Some (s, ph) → ∃ ph', server_at p' = Some (s, ph'))
  ∧ ∀ j k, made st !! j = Some (inr k) → stays (proc st) p' k.

(** [put_connection] of the task's server. *)
Definition with_server (s : TCPServer.server) (ph : TCPServer.main_phase) (r : TCPServer.registry) (p : process)
    : process :=
  Proc (TCPServer.World (TCPServer.set_reg r (TCPServer.globals (sv p)))
          (<[task_id_ i := (s, ph)]> (TCPServer.servers (sv p)))) (shared p) (clients p).

Inductive step : relation state :=
  | i_process st p' :                      (* the process, and the clients' own moves in [connect] *)
      Process.step junk (proc st) p' → undisturbed st p' → step st (set_proc p' st)
  | i_create st j id peer :
      threads st !! j = Some (id, Begin) → conn_job i id j = Ok (Dial peer) →
      let c := TCPClient.TCPClient_create (task_id_ i) id (address peer) (port peer) (info_id (node_info_ i)) in
      step st (goto j id Created (insert_client j id (set_made j (inl c) st)))
  | i_unresolved st j id c ssl_ok resolver :
      threads st !! j = Some (id, Created) → made st !! j = Some (inl c) →
      let ip := gethostip resolver (TCPClient.host_ c) in
      ssl_ok = false ∨ ip = [] →
      step st (goto j id (Finished false)
                (fails (set_made j (inl (if ssl_ok : bool then TCPClient.set_ip ip c else c)) st)))
  | i_begin st j id c k now resolver b c' g' r' :
      threads st !! j = Some (id, Created) → made st !! j = Some (inl c) →
      let ip := gethostip resolver (TCPClient.host_ c) in
      ip ≠ [] → clients (proc st) !! k = None →
      TCPClient.connect_begin junk now (TCPClient.set_ip ip c) (shared (proc st)) (heap (proc st))
        = Ok (b, c', g', r') →
      step st (goto j id Connecting (set_made j (inr k)
                (set_proc (Proc (with_heap r' (sv (proc st))) g'
                             (<[k := (c', TCPClient.begun_phase (connect_retries i) b)]> (clients (proc st)))) st)))
  | i_failed st j id k c :
      threads st !! j = Some (id, Connecting) → made st !! j = Some (inr k) →
      clients (proc st) !! k = Some (c, TCPClient.Failed) →
      step st (goto j id (Finished false) (fails st))
  | i_link st j id k c stored :
      threads st !! j = Some (id, Connecting) → made st !! j = Some (inr k) →
      clients (proc st) !! k = Some (c, TCPClient.Connected) → client_at st id = Some stored →
      step st (goto j id Linked (set_conns (map_assign id (TCPClient.conn_ stored) (conns st)) st))
  | i_watch st j id stored p r' :
      threads st !! j = Some (id, Linked) → client_at st id = Some stored →
      TCPClient.is_first_connect_ stored = true → map_find id (conns st) = Some (Some p) →
      TCPServer.add_connection_to_epoll (heap (proc st)) p = Ok r' →
      step st (goto j id (Finished true)
                (set_proc (Proc (with_heap r' (sv (proc st))) (shared (proc st)) (clients (proc st))) st))
  | i_linked st j id stored :
      threads st !! j = Some (id, Linked) → client_at st id = Some stored →
      TCPClient.is_first_connect_ stored = false → step st (goto j id (Finished true) st)
  | i_put st j id now s ph (ok : bool) s' r' :  (* [false]: after a sleep it tries again *)
      threads st !! j = Some (id, Begin) → conn_job i id j = Ok Await → server_at (proc st) = Some (s, ph) →
      TCPServer.put_connection junk now s (heap (proc st)) id = Ok (ok, s', r') →
      step st (goto j id (if ok then Waited else Begin) (set_proc (with_server s' ph r' (proc st)) st))
  | i_get st j id s ph :
      threads st !! j = Some (id, Waited) → server_at (proc st) = Some (s, ph) →
      step st (goto j id (Finished true)
                (set_conns (map_assign id (TCPServer.get_connection s id) (conns st)) st))
  | i_nothing st j id :
      threads st !! j = Some (id, Begin) → conn_job i id j = Ok Nothing →
      step st (goto j id (Finished true) st).

(** When the server has started, before the threads. *)
Definition start_state (p : process) : state :=
  State p [] (null_entries i) true ∅ ((λ id, (id, Begin)) <$> expected_ids i).

(** [init] returns [init_client_ok st] when its threads are joined. *)
Definition joined (st : state) : Prop := Forall (λ t, ∃ ok, t.2 = Finished ok) (threads st).
End program.

(** * The invariant *)

(** The client calls this node. *)
Definition calls (c : TCPClient.client) (peer : NodeInfo) : Prop :=
  TCPClient.host_ c = address peer ∧ TCPClient.port_ c = port peer ∧ TCPClient.node_id_ c = info_id peer.

Section invariant.
Context (junk : nat → byte) (i : io).

(** The server of the task has this connection from [id]. *)
Definition served (p : process) (id : bytes) (q : Z) : Prop :=
  ∃ s ph, server_at i p = Some (s, ph) ∧ TCPServer.get_connection s id = Some q.

(** What a thread has done, at each point. *)
Definition dial_ok (st : state) (j : nat) (id : bytes) (peer : NodeInfo) (c : pc) : Prop :=
  match c with
  | Begin => True
  | Waited => False
  | Finished false => init_client_ok st = false
  | Created =>
    map_find id (table st) = Some j ∧ ∃ c, made st !! j = Some (inl c) ∧ calls c peer ∧ TCPClient.conn_ c = None
      ∧ TCPClient.is_first_connect_ c = false
  | Connecting =>
    map_find id (table st) = Some j
    ∧ ∃ k c ph, made st !! j = Some (inr k) ∧ clients (proc st) !! k = Some (c, ph) ∧ calls c peer
  | Linked | Finished true =>
    map_find id (table st) = Some j
    ∧ ∃ k c q, made st !! j = Some (inr k) ∧ clients (proc st) !! k = Some (c, TCPClient.Connected)
        ∧ calls c peer ∧ TCPClient.conn_ c = Some q ∧ map_find id (conns st) = Some (Some q)
  end.

Definition await_ok (st : state) (id : bytes) (c : pc) : Prop :=
  match c with
  | Begin => True
  | Waited => ∃ q, served (proc st) id q
  | Finished true => ∃ q, served (proc st) id q ∧ map_find id (conns st) = Some (Some q)
  | _ => False
  end.

Definition thread_ok (st : state) (j : nat) (id : bytes) (c : pc) : Prop :=
  match conn_job i id j with
  | Ok (Dial peer) => dial_ok st j id peer c
  | Ok Await => await_ok st id c
  | _ => c = Begin ∨ c = Finished true
  end.

Record init_ok (st : state) : Prop := {
  o_process : Process.reachable junk (proc st);
  o_server : is_Some (server_at i (proc st));
  o_threads : (threads st).*1 = expected_ids i;
  o_sorted : sorted (table st) ∧ sorted (conns st);
  o_table id j : map_find id (table st) = Some j → ∃ c, threads st !! j = Some (id, c) ∧ c ≠ Begin;
  o_thread j id c : threads st !! j = Some (id, c) → thread_ok st j id c
}.

(** * Lemmas *)

(** ** Moves of a client *)

Definition same_target (c c' : TCPClient.client) : Prop :=
  TCPClient.host_ c' = TCPClient.host_ c ∧ TCPClient.port_ c' = TCPClient.port_ c
  ∧ TCPClient.node_id_ c' = TCPClient.node_id_ c.

Lemma calls_same c c' peer : same_target c c' → calls c peer → calls c' peer.
Proof. intros (E1 & E2 & E3) (H1 & H2 & H3). split_and!; congruence. Qed.

Lemma attach_target now p c r c' r' : TCPClient.attach junk now p c r = Ok (c', r') → same_target c c'.
Proof. unfold TCPClient.attach. intros E. by outcome_inv. Qed.

Lemma connect_begin_target now c g r b c' g' r' :
  TCPClient.connect_begin junk now c g r = Ok (b, c', g', r') → same_target c c'.
Proof.
  unfold TCPClient.connect_begin. intros E.
  set (c1 := if TCPClient.task_count_ g =? 0 then _ else c) in *.
  assert (same_target c c1) as H1 by (subst c1; by destruct (_ =? _)). clearbody c1.
  destruct (map_find _ _) as [p|].
  - apply bind_Ok in E as (o & _ & E). destruct (reuseable_ (conn o)).
    + apply bind_Ok in E as ([c2 r2] & (E1 & E2 & E3)%attach_target & E). injection E as _ <- _ _.
      destruct H1 as (H1 & H2 & H3). split_and!; congruence.
    + case_bool_decide; by injection E as _ <- _ _.
  - case_bool_decide; by injection E as _ <- _ _.
Qed.

Lemma attempt_target now timeout env c g r (ok : bool) fds c' g' r' :
  TCPClient.attempt junk now timeout env c g r = Ok (ok, fds, c', g', r') → same_target c c'.
Proof.
  unfold TCPClient.attempt. intros E. destruct (_ <? 0); [by injection E as _ _ <- _ _|].
  apply bind_Ok in E as (d & _ & E). destruct (negb d); [by injection E as _ _ <- _ _|].
  destruct (negb _); [by injection E as _ _ <- _ _|].
  apply bind_Ok in E as (m & _ & E). destruct (negb _); [by injection E as _ _ <- _ _|].
  destruct (TCPClient.ae_handshake env); [|by injection E as _ _ <- _ _].
  apply bind_Ok in E as (o & _ & E). by injection E as _ _ <- _ _.
Qed.

(** A client that is not closed goes on to call the same node, and stays connected. *)
Lemma process_client p p' k c ph :
  Process.step junk p p' → clients p !! k = Some (c, ph) → stays p p' k →
  ∃ c' ph', clients p' !! k = Some (c', ph') ∧ same_target c c'
    ∧ (ph = TCPClient.Connected → c' = c ∧ ph' = TCPClient.Connected).
Proof.
  intros Hs Ek Hk. destruct Hs as [p sw' Hs|p cw' Hs]; [exists c, ph; by split_and!|].
  assert (∀ m c1 ph1, (k = m → same_target c c1 ∧ ph ≠ TCPClient.Connected) →
    ∃ c' ph', <[m := (c1, ph1)]> (clients p) !! k = Some (c', ph') ∧ same_target c c'
      ∧ (ph = TCPClient.Connected → c' = c ∧ ph' = TCPClient.Connected)) as Hins.
  { intros m c1 ph1 H. destruct (decide (m = k)) as [->|Hne].
    - rewrite lookup_insert_eq. destruct (H eq_refl). exists c1, ph1. by split_and!.
    - rewrite lookup_insert_ne by done. exists c, ph. by split_and!. }
  inversion Hs as [g1 r cs1 m d now cr b c' g' r' Em En E|g1 r cs1 m d now c' r' Em E
    |g1 r cs1 m d n now tmo env ok fds c' g' r' Em E|g1 r cs1 m d Em|g1 r cs1 m d Em|g1 r cs1 m d a now el next r' Em E
    |g1 r cs1 m d now wenv g' r' fds Em E];
    subst; cbn [TCPClient.clients clients] in *.
  - apply Hins. intros <-. congruence.
  - apply Hins. intros <-. rewrite Ek in Em. injection Em as -> ->. split; [|done].
    unfold TCPClient.connect_wait in E. destruct (map_find _ _); [|done]. by eapply attach_target.
  - apply Hins. intros <-. rewrite Ek in Em. injection Em as -> ->. split; [|done]. by eapply attempt_target.
  - apply Hins. intros <-. rewrite Ek in Em. by injection Em as -> ->.
  - apply Hins. intros <-. destruct (Hk _ _ Ek) as (c1 & ph1 & E1 & Hcl). cbn in E1. rewrite lookup_insert_eq in E1.
    injection E1 as <- <-. rewrite Ek in Em. injection Em as -> ->. by destruct (Hcl I).
  - apply Hins. intros <-. rewrite Ek in Em. by injection Em as -> ->.
  - destruct (Hk _ _ Ek) as (c1 & ph1 & E1 & _). cbn in E1. destruct (decide (m = k)) as [->|Hne]; [by rewrite lookup_delete_eq in E1|].
    rewrite lookup_delete_ne by done. exists c, ph. by split_and!.
Qed.

(** ** What one thread's step leaves of the others *)

Hypothesis Hnd : NoDup (expected_ids i).

Record keeps_thread (st st' : state) (j : nat) (id : bytes) : Prop := {
  kt_table : map_find id (table st) = Some j → map_find id (table st') = Some j;
  kt_made : made st' !! j = made st !! j;
  kt_conns : map_find id (conns st') = map_find id (conns st);
  kt_ok : init_client_ok st = false → init_client_ok st' = false;
  kt_client k c ph : made st !! j = Some (inr k) → clients (proc st) !! k = Some (c, ph) →
    ∃ c' ph', clients (proc st') !! k = Some (c', ph') ∧ same_target c c'
      ∧ (ph = TCPClient.Connected → c' = c ∧ ph' = TCPClient.Connected);
  kt_served q : served (proc st) id q → served (proc st') id q
}.

Lemma thread_ok_keeps st st' j id c : keeps_thread st st' j id → thread_ok st j id c → thread_ok st' j id c.
Proof.
  intros [Ht Hm Hc Ho Hk Hs]. unfold thread_ok. destruct (conn_job i id j) as [[peer| |]| | |]; try done.
  - destruct c as [| | | | |[]]; cbn; try done.
    + intros [E1 (c & E2 & ?)]. split; [auto|]. exists c. by rewrite Hm.
    + intros [E1 (k & c & ph & E2 & E3 & H)]. split; [auto|].
      destruct (Hk k c ph E2 E3) as (c' & ph' & ? & Hsame & _). exists k, c', ph'. rewrite Hm.
      split_and!; [done..|]. by eapply calls_same.
    + intros [E1 (k & c & q & E2 & E3 & ? & ? & ?)]. split; [auto|].
      destruct (Hk k c _ E2 E3) as (c' & ph' & ? & _ & [-> ->]); [done|]. exists k, c, q. by rewrite Hm, Hc.
    + intros [E1 (k & c & q & E2 & E3 & ? & ? & ?)]. split; [auto|].
      destruct (Hk k c _ E2 E3) as (c' & ph' & ? & _ & [-> ->]); [done|]. exists k, c, q. by rewrite Hm, Hc.
  - destruct c as [| | | | |[]]; cbn; try done.
    + intros (q & H). exists q. auto.
    + intros (q & H & E). exists q. rewrite Hc. auto.
Qed.

Lemma keeps_thread_refl st j id : keeps_thread st st j id.
Proof. split; try done. intros k c ph _ E. exists c, ph. by split_and!. Qed.

Lemma stays_same p p' k : clients p' = clients p → stays p p' k.
Proof. intros E c ph Ek. exists c, ph. by rewrite E. Qed.

(** A step of the process that keeps the clients of the thread. *)
Lemma keeps_process st p' j id :
  Process.step junk (proc st) p' → (∀ k, made st !! j = Some (inr k) → stays (proc st) p' k) →
  (∀ q, served (proc st) id q → served p' id q) → keeps_thread st (set_proc p' st) j id.
Proof. intros Hs Hk Hsv. split; try done. intros k c ph Em Ek. cbn. eapply process_client; [done..|]. by apply Hk. Qed.

(** One thread moves, the others are kept. *)
Lemma advance st st1 j id c c' :
  init_ok st → threads st !! j = Some (id, c) → threads st1 = threads st →
  (table st1 = table st ∧ (c' = Begin → c = Begin)
   ∨ c' ≠ Begin ∧ ∀ id' j', map_find id' (table st1) = Some j' →
       map_find id' (table st) = Some j' ∨ j' = j ∧ id' = id) →
  Process.reachable junk (proc st1) → is_Some (server_at i (proc st1)) →
  sorted (table st1) ∧ sorted (conns st1) → thread_ok st1 j id c' →
  (∀ j' id', j' ≠ j → id' ≠ id → keeps_thread st st1 j' id') →
  init_ok (goto j id c' st1).
Proof.
  intros [_ _ Hids _ Htab Hth] Ej Et Hb Hr Hsv Hsort Hj Hk. split; [done|done| |done| |].
  - cbn. rewrite Et, list_fmap_insert. cbn. rewrite list_insert_id; [done|].
    by rewrite list_lookup_fmap, Ej.
  - intros id' j' Ef. cbn in Ef |- *. rewrite Et.
    assert (j < length (threads st))%nat as Hlt by by eapply lookup_lt_Some.
    assert (map_find id' (table st) = Some j' ∨ c' ≠ Begin ∧ j' = j ∧ id' = id) as [Hf|(Hc & -> & ->)].
    { destruct Hb as [[E _]|[Hc Hb]]; [left; congruence|]. destruct (Hb _ _ Ef); auto. }
    + destruct (Htab _ _ Hf) as (d & Ed & Hd). destruct (decide (j' = j)) as [->|Hne].
      * rewrite Ej in Ed. injection Ed as -> ->. exists c'. rewrite list_lookup_insert_eq by done. split; [done|].
        intros Hc. destruct Hb as [[_ Hb]|[Hb _]]; auto.
      * exists d. by rewrite list_lookup_insert_ne.
    + exists c'. by rewrite list_lookup_insert_eq.
  - intros j' id' d E. cbn in E. rewrite Et in E. apply list_lookup_insert_Some in E as [(-> & [= <- <-] & _)|[Hne E]].
    { exact Hj. }
    assert (id' ≠ id) as Hid.
    { intros ->. apply Hne. eapply (NoDup_lookup _ _ _ _ Hnd);
        rewrite <- Hids, list_lookup_fmap, ?Ej, ?E; reflexivity. }
    apply (thread_ok_keeps st st1); [by apply Hk|]. by apply Hth.
Qed.

(** Whose thread can be at a point of one of the branches. *)
Lemma dials st j id c :
  init_ok st → threads st !! j = Some (id, c) → c = Created ∨ c = Connecting ∨ c = Linked →
  ∃ peer, conn_job i id j = Ok (Dial peer) ∧ dial_ok st j id peer c.
Proof.
  intros H Ej Hc. pose proof (o_thread _ H _ _ _ Ej) as Ho. unfold thread_ok in Ho.
  destruct (conn_job i id j) as [[peer| |]| | |]; [by eauto|..]; destruct Hc as [->|[->| ->]]; try done; by destruct Ho.
Qed.

Lemma waits st j id :
  init_ok st → threads st !! j = Some (id, Waited) →
  conn_job i id j = Ok Await ∧ ∃ q, served (proc st) id q.
Proof.
  intros H Ej. pose proof (o_thread _ H _ _ _ Ej) as Ho. unfold thread_ok in Ho.
  destruct (conn_job i id j) as [[peer| |]| | |]; try done; by destruct Ho.
Qed.

Lemma client_at_made st j id k c ph :
  map_find id (table st) = Some j → made st !! j = Some (inr k) → clients (proc st) !! k = Some (c, ph) →
  client_at st id = Some c.
Proof. intros E1 E2 E3. unfold client_at. rewrite E1. cbn. rewrite E2. cbn. by rewrite E3. Qed.

(** A step on the heap alone: the clients and the task's server are the same. *)
Lemma heap_only_served p r id q :
  served p id q → served (Proc (with_heap r (sv p)) (shared p) (clients p)) id q.
Proof. done. Qed.

Lemma dials_id j id peer :
  expected_ids i !! j = Some id → conn_job i id j = Ok (Dial peer) → id = info_id peer.
Proof.
  intros Ej Ep. unfold conn_job in Ep. destruct (bool_decide _); [|by destruct (bool_decide _)].
  destruct (server_infos_ i !! j) as [peer'|] eqn:E; [|done]. injection Ep as ->.
  unfold expected_ids, expected_sids in Ej. rewrite lookup_app, list_lookup_fmap, E in Ej. by injection Ej.
Qed.

(** [put_connection] adds the connection it found to those the server has. *)
Lemma put_served now s r cid ok s' r' :
  TCPServer.put_connection junk now s r cid = Ok (ok, s', r') → sorted (TCPServer.server_connections_ s) →
  (∀ id q, TCPServer.get_connection s id = Some q → TCPServer.get_connection s' id = Some q)
  ∧ (ok = true → is_Some (TCPServer.get_connection s' cid)).
Proof.
  unfold TCPServer.put_connection. intros E Hs. apply bind_Ok in E as ([c r1] & _ & E).
  destruct c as [p|]; [|by injection E as <- <- <-]. apply bind_Ok in E as (o & _ & E).
  destruct (reuseable_ (conn o)); injection E as <- <- <-; [|done].
  unfold TCPServer.get_connection. cbn [TCPServer.server_connections_]. split; [|intros _].
  - intros id q Eq. rewrite map_find_insert by done. case_decide; [subst; by rewrite Eq|done].
  - rewrite map_find_insert, decide_True by done. by eexists.
Qed.

(** The steps of one thread. *)
Lemma create_ok st j id peer :
  init_ok st → threads st !! j = Some (id, Begin) → conn_job i id j = Ok (Dial peer) →
  let c := TCPClient.TCPClient_create (task_id_ i) id (address peer) (port peer) (info_id (node_info_ i)) in
  init_ok (goto j id Created (insert_client j id (set_made j (inl c) st))).
Proof.
  intros H Ej Ep c. pose proof H as [Hr Hsv Hids [Hst Hsc] Htab Hth].
  assert (map_find id (table st) = None) as En.
  { destruct (map_find id (table st)) as [j'|] eqn:Ef; [|done]. destruct (Htab _ _ Ef) as (d & Ed & Hd).
    assert (j' = j) as ->; [|congruence]. eapply (NoDup_lookup _ _ _ _ Hnd);
      rewrite <- Hids, list_lookup_fmap, ?Ej, ?Ed; reflexivity. }
  apply (advance st _ j id Begin); [done..| |done|done|split; [by apply map_insert_sorted|done]| |].
  + right. split; [done|]. intros id' j'. cbn. rewrite map_find_insert by done. case_decide; [|by left].
    subst. rewrite En. intros [= <-]. by right.
  + unfold thread_ok. rewrite Ep. split; cbn.
    * by rewrite map_find_insert, decide_True, En by done.
    * exists c. rewrite lookup_insert_eq. split_and!; [done| |done..]. split_and!; [done..|]. cbn.
      eapply dials_id; [|done]. by rewrite <- Hids, list_lookup_fmap, Ej.
  + intros j' id' Hj Hid. split; cbn; try done.
    * by rewrite map_find_insert, decide_False.
    * by rewrite lookup_insert_ne.
    * intros k d ph _ Ed. exists d, ph. by split_and!.
Qed.

Lemma begin_ok st j id c k now resolver b c' g' r' :
  init_ok st → threads st !! j = Some (id, Created) → made st !! j = Some (inl c) →
  let ip := gethostip resolver (TCPClient.host_ c) in
  clients (proc st) !! k = None →
  TCPClient.connect_begin junk now (TCPClient.set_ip ip c) (shared (proc st)) (heap (proc st)) = Ok (b, c', g', r') →
  init_ok (goto j id Connecting (set_made j (inr k)
             (set_proc (Proc (with_heap r' (sv (proc st))) g'
                          (<[k := (c', TCPClient.begun_phase (connect_retries i) b)]> (clients (proc st)))) st))).
Proof.
  intros H Ej Em ip Ek E. pose proof H as [Hr Hsv Hids [Hst Hsc] Htab Hth].
  destruct (dials _ _ _ _ H Ej ltac:(auto)) as (peer & Ep & Et & c0 & Em0 & Hcalls & Hnone & Hfirst).
  assert (c0 = c) as -> by congruence.
  set (p' := Proc _ _ _). assert (Process.step junk (proc st) p') as Hp.
  { apply (p_client junk (proc st) (TCPClient.World g' r' _)). by apply (TCPClient.c_begin junk _ _ _ k (TCPClient.set_ip ip c) now). }
  apply (advance st _ j id Created); [done..|by left|by eapply rtc_r|done|done| |].
  + unfold thread_ok. rewrite Ep. split; [done|]. exists k, c', (TCPClient.begun_phase (connect_retries i) b).
    cbn. rewrite !lookup_insert_eq. split_and!; [done..|]. eapply calls_same; [by eapply connect_begin_target|done].
  + intros j' id' Hj Hid. split; cbn; try done; [by rewrite lookup_insert_ne|].
    intros k' d ph _ Ed. apply (process_client (proc st) p' k' d ph Hp Ed). cbn.
    intros e pe Ee. exists e, pe. cbn. by rewrite lookup_insert_ne by congruence.
Qed.

Lemma link_ok st j id k c stored :
  init_ok st → threads st !! j = Some (id, Connecting) → made st !! j = Some (inr k) →
  clients (proc st) !! k = Some (c, TCPClient.Connected) → client_at st id = Some stored →
  init_ok (goto j id Linked (set_conns (map_assign id (TCPClient.conn_ stored) (conns st)) st)).
Proof.
  intros H Ej Em Ek Est. pose proof H as [Hr Hsv Hids [Hst Hsc] Htab Hth].
  destruct (dials _ _ _ _ H Ej ltac:(auto)) as (peer & Ep & Et & k0 & c0 & ph0 & Em0 & Ek0 & Hcalls).
  assert (k0 = k) as -> by congruence. rewrite Ek in Ek0. injection Ek0 as <- <-.
  rewrite (client_at_made _ _ _ _ _ _ Et Em Ek) in Est. injection Est as <-.
  pose proof (reachable_process_typed junk _ Hr) as [_ _ _ Hty].
  destruct (c_connected _ _ _ Hty k c Ek) as [q Eq].
  apply (advance st _ j id Connecting); [done..|by left|done|done|split; [done|by apply map_assign_sorted]| |].
  + unfold thread_ok. rewrite Ep. split; [done|]. exists k, c, q. cbn. rewrite map_find_assign, decide_True by done.
    split_and!; [done..|]. by rewrite Eq.
  + intros j' id' Hj Hid. split; cbn; try done.
    * by rewrite map_find_assign, decide_False.
    * intros k' d ph _ Ed. exists d, ph. by split_and!.
Qed.

Lemma put_ok st j id now s ph (ok : bool) s' r' :
  init_ok st → threads st !! j = Some (id, Begin) → conn_job i id j = Ok Await → server_at i (proc st) = Some (s, ph) →
  TCPServer.put_connection junk now s (heap (proc st)) id = Ok (ok, s', r') →
  init_ok (goto j id (if ok then Waited else Begin) (set_proc (with_server i s' ph r' (proc st)) st)).
Proof.
  intros H Ej Ep Es E. pose proof H as [Hr Hsv Hids [Hst Hsc] Htab Hth].
  set (p' := with_server _ _ _ _ _). assert (Process.step junk (proc st) p') as Hp.
  { unfold p', with_server, heap in *. apply p_server. unfold server_at in Es.
    destruct (proc st) as [[g th] cg cs]. cbn in *. by eapply TCPServer.w_put. }
  assert (sorted (TCPServer.server_connections_ s)) as Hss.
  { pose proof (Heap.reachable_typed junk _ (reachable_servers junk _ Hr)) as Ht. by apply (Heap.t_servers _ _ Ht _ _ _ Es). }
  destruct (put_served _ _ _ _ _ _ _ E Hss) as [Hkeep Hput].
  assert (server_at i p' = Some (s', ph)) as Es' by apply lookup_insert_eq.
  apply (advance st _ j id Begin); [done..| |by eapply rtc_r|by exists (s', ph)|done| |].
  + left. split; [done|]. by destruct ok.
  + unfold thread_ok. rewrite Ep. destruct ok; [|done]. destruct (Hput eq_refl) as [q Eq]. exists q, s', ph. by split.
  + intros j' id' Hj Hid. apply keeps_process; [done|intros k' _; by apply stays_same|].
    intros q (s0 & ph0 & E0 & Eq). rewrite Es in E0. injection E0 as <- <-. exists s', ph. eauto.
Qed.

Lemma step_init_ok st st' : init_ok st → step junk i st st' → init_ok st'.
Proof.
  intros H Hs. pose proof H as [Hr Hsv Hids [Hst Hsc] Htab Hth].
  destruct Hs as [st p' Hs [Hu1 Hu2]|st j id peer Ej Ep c|st j id c ssl_ok resolver Ej Em ip Hip
    |st j id c k now resolver b c' g' r' Ej Em ip Hip Ek E|st j id k c Ej Em Ek|st j id k c stored Ej Em Ek Est
    |st j id stored p r' Ej Est Hf Ec E|st j id stored Ej Est Hf|st j id now s ph ok s' r' Ej Ep Es E
    |st j id s ph Ej Es|st j id Ej Ep].
  - split; [by eapply rtc_r| |done|done|done|].
    + destruct Hsv as [[s ph] E]. destruct (Hu1 _ _ E) as [ph' E']. by eexists.
    + intros j id c Ej. apply (thread_ok_keeps st); [|by apply Hth]. apply keeps_process; [done|eauto|].
      intros q (s & ph & E & Eq). destruct (Hu1 _ _ E) as [ph' E']. by exists s, ph'.
  - by apply create_ok.
  - destruct (dials _ _ _ _ H Ej ltac:(auto)) as (peer & Ep & _).
    apply (advance st _ j id Created); [done..|by left|done|done|done| |].
    + unfold thread_ok. by rewrite Ep.
    + intros j' id' Hj Hid. split; cbn; try done.
      * by rewrite lookup_insert_ne.
      * intros k d ph _ Ed. exists d, ph. by split_and!.
  - by apply (begin_ok _ _ _ c k now resolver b).
  - destruct (dials _ _ _ _ H Ej ltac:(auto)) as (peer & Ep & _).
    apply (advance st _ j id Connecting); [done..|by left|done|done|done| |].
    + unfold thread_ok. by rewrite Ep.
    + intros j' id' Hj Hid. split; cbn; try done. intros k' d ph _ Ed. exists d, ph. by split_and!.
  - by eapply link_ok.
  - destruct (dials _ _ _ _ H Ej ltac:(auto)) as (peer & Ep & Et & k & c & q & Em & Ek & Hcalls & Eq & Ef).
    set (p' := Proc _ _ _). assert (Process.step junk (proc st) p') as Hp.
    { unfold p', with_heap, heap in *. apply p_server. destruct (proc st) as [[g th] cg cs]. cbn in *.
      by eapply TCPServer.w_watch. }
    apply (advance st _ j id Linked); [done..|by left|by eapply rtc_r|done|done| |].
    + unfold thread_ok. rewrite Ep. split; [done|]. by exists k, c, q.
    + intros j' id' Hj Hid. apply keeps_process; [done|intros k' _; by apply stays_same|done].
  - destruct (dials _ _ _ _ H Ej ltac:(auto)) as (peer & Ep & Ho).
    apply (advance st _ j id Linked); [done..|by left|done|done|done| |].
    + unfold thread_ok. by rewrite Ep.
    + intros. apply keeps_thread_refl.
  - by eapply put_ok.
  - destruct (waits _ _ _ H Ej) as (Ep & q & s0 & ph0 & Es0 & Eq).
    rewrite Es in Es0. injection Es0 as <- <-.
    apply (advance st _ j id Waited); [done..|by left|done|done|split; [done|by apply map_assign_sorted]| |].
    + unfold thread_ok. rewrite Ep. exists q. cbn. rewrite map_find_assign, decide_True by done.
      split; [by exists s, ph|congruence].
    + intros j' id' Hj Hid. split; cbn; try done.
      * by rewrite map_find_assign, decide_False.
      * intros k' d ph' _ Ed. exists d, ph'. by split_and!.
  - apply (advance st _ j id Begin); [done..|by left|done|done|done| |].
    + unfold thread_ok. rewrite Ep. by right.
    + intros. apply keeps_thread_refl.
Qed.

Lemma null_entries_sorted : sorted (connection_map i) → sorted (null_entries i).
Proof.
  clear Hnd. unfold null_entries. generalize (connection_map i) as m. induction (expected_ids i) as [|id l IH]; intros m Hm; [done|].
  cbn. by apply IH, map_insert_sorted.
Qed.

Lemma start_init_ok p :
  Process.reachable junk p → is_Some (server_at i p) → sorted (connection_map i) → init_ok (start_state i p).
Proof.
  intros Hr Hsv Hm. split; [done|done| |split; [apply sorted_nil|by apply null_entries_sorted]|done|].
  - cbn. generalize (expected_ids i) as l. induction l as [|id l IH]; cbn; by rewrite ?IH.
  - intros j id c E. cbn in E. rewrite list_lookup_fmap in E.
    destruct (expected_ids i !! j); [|done]. injection E as <- <-.
    unfold thread_ok. destruct (conn_job i _ j) as [[]| | |]; first [done|by left].
Qed.

#[export] Instance init_ok_invariant : Invariant (step junk i) init_ok.
Proof. intros st st'. apply step_init_ok. Qed.

(** The threads of [init] named after what they do. *)
Lemma dial_thread j peer : server_infos_ i !! j = Some peer →
  expected_ids i !! j = Some (info_id peer) ∧ conn_job i (info_id peer) j = Ok (Dial peer).
Proof.
  intros E. split; [|by eapply conn_job_server]. unfold expected_ids, expected_sids.
  apply lookup_app_l_Some. by rewrite list_lookup_fmap, E.
Qed.

Lemma await_thread peer : peer ∈ client_infos_ i →
  ∃ j, expected_ids i !! j = Some (info_id peer) ∧ conn_job i (info_id peer) j = Ok Await.
Proof.
  intros Hin. assert (info_id peer ∈ expected_cids i) as Hc by (apply list_elem_of_fmap; eauto).
  assert (info_id peer ∉ expected_sids i) as Hs.
  { intros Hs. unfold expected_ids in Hnd. apply NoDup_app in Hnd as (_ & Hd & _). by apply (Hd (info_id peer)). }
  assert (info_id peer ∈ expected_ids i) as [j Ej]%list_elem_of_lookup by (apply elem_of_app; by right).
  exists j. split; [done|]. unfold conn_job. by rewrite bool_decide_false, bool_decide_true.
Qed.
End invariant.

(** * Properties *)

(** C27: whatever the order in which the threads of [init], the servers and the clients
    of the process move: when the threads have ended and [init] returns [true], every
    peer has a connection, so that [Send] and [Recv] do not meet a null pointer.  For
    a node the plan dials it is the live connection of a connected client that was
    made for that node's address and port, and for a node the plan waits for it is one
    that this node opened to the server. *)
Theorem init_connects_peers junk i p0 st :
  NoDup (expected_ids i) → sorted (connection_map i) →
  Process.reachable junk p0 → is_Some (server_at i p0) →
  rtc (step junk i) (start_state i p0) st → joined st → init_client_ok st = true →
  (∀ peer, peer ∈ server_infos_ i → ∃ k c q,
     map_find (info_id peer) (conns st) = Some (Some q)
     ∧ clients (proc st) !! k = Some (c, TCPClient.Connected) ∧ calls c peer
     ∧ TCPClient.conn_ c = Some q ∧ opened (TCPServer.globals (sv (proc st))) q)
  ∧ (∀ peer, peer ∈ client_infos_ i → ∃ q,
     map_find (info_id peer) (conns st) = Some (Some q)
     ∧ Heap.accepted (TCPServer.globals (sv (proc st))) (info_id peer) q).
Proof.
  intros Hnd Hm Hr Hsv Hs Hj Hok.
  assert (init_ok junk i st) as H.
  { refine (@invariant_rtc _ (step junk i) _ (init_ok_invariant junk i Hnd) _ _ _ Hs). by apply start_init_ok. }
  assert (∀ j id, expected_ids i !! j = Some id → ∃ ok, threads st !! j = Some (id, Finished ok)) as Hfin.
  { intros j id E. rewrite <- (o_threads _ _ _ H), list_lookup_fmap in E.
    apply fmap_Some in E as ([id' c] & Ej & ->). unfold joined in Hj. rewrite Forall_lookup in Hj.
    destruct (Hj _ _ Ej) as [ok Eok]. cbn in Eok. subst c. by exists ok. }
  split.
  - intros peer [j Ej]%list_elem_of_lookup. apply dial_thread in Ej as [Ej Ep].
    destruct (Hfin _ _ Ej) as [ok Et]. pose proof (o_thread _ _ _ H _ _ _ Et) as Ho. unfold thread_ok in Ho.
    rewrite Ep in Ho. destruct ok; [|cbn in Ho; congruence].
    destruct Ho as (_ & k & c & q & _ & Ek & Hc & Eq & Ef). exists k, c, q. split_and!; [done..|].
    pose proof (reachable_process_typed junk _ (o_process _ _ _ H)) as [_ _ _ Hty]. by eapply c_conn.
  - intros peer Hin. destruct (await_thread i Hnd peer Hin) as (j & Ej & Ep).
    destruct (Hfin _ _ Ej) as [ok Et]. pose proof (o_thread _ _ _ H _ _ _ Et) as Ho. unfold thread_ok in Ho.
    rewrite Ep in Ho. destruct ok; [|done]. destruct Ho as (q & (s & ph & Es & Eq) & Ef). exists q. split; [done|].
    pose proof (Heap.reachable_typed junk _ (reachable_servers junk _ (o_process _ _ _ H))) as Ht.
    by eapply (Heap.t_servers _ _ Ht _ _ _ Es).
Qed.
(** * Witnesses *)

(** A server that listens, with and without the connection of its client p1. *)
Definition peer_conn (fd : Z) (id : bytes) : conn_obj :=
  Obj (Conn Connection.Connected fd 1 true id true (ring_of []) ∅ (ring_of []) ∅) works_init.

Definition listens (conns : smap Z) (objs : gmap Z conn_obj) (ep : gset Z) (fresh n : Z) (ph : TCPServer.main_phase)
    : TCPServer.world :=
  TCPServer.World (TCPServer.Statics (TCPServer.Reg conns [] objs ep fresh) 1 false (Some 1) 3 4 9000 true n)
                  (<[str "a" := (TCPServer.server_of (str "a"), ph)]> ∅).

Definition accepts : TCPServer.event_env :=
  TCPServer.EventEnv
    (TCPServer.AcceptEnv 9 1 (RR 8 (EOTHER 0) [x0a; x00; x00; x00; x00; x00; x00; x00]) (RR 2 (EOTHER 0) (str "p1")))
    true [] [] false.

Definition listening (o : conn_obj) (n : Z) (ph : TCPServer.main_phase) : TCPServer.world :=
  listens [] (<[1 := o]> ∅) ({[1]} ∪ ∅) 2 n ph.
Definition accepted (o : conn_obj) : TCPServer.world :=
  listens [(str "p1", 2)] (<[2 := o]> (<[1 := peer_conn 4 (str "listen")]> ∅)) ({[2]} ∪ ({[1]} ∪ ∅)) 3 1 TCPServer.MServing.
Definition p1_accepted : TCPServer.world := accepted (peer_conn 9 (str "p1")).

(** The rings are replaced by small ones, as the use of a connection may do. *)
Lemma listening_small junk o n ph :
  TCPServer.same_peer o (peer_conn 4 (str "listen")) →
  rtc (TCPServer.step junk) (listening o n ph) (listening (peer_conn 4 (str "listen")) n ph).
Proof. intros H. apply rtc_once.
  exact (TCPServer.w_use junk (TCPServer.globals (listening o n ph)) (TCPServer.servers (listening o n ph)) 1 o
           (peer_conn 4 (str "listen")) eq_refl H).
Qed.

Lemma accepted_small junk o :
  TCPServer.same_peer o (peer_conn 9 (str "p1")) → rtc (TCPServer.step junk) (accepted o) p1_accepted.
Proof. intros H. apply rtc_once.
  exact (TCPServer.w_use junk (TCPServer.globals (accepted o)) (TCPServer.servers (accepted o)) 2 o
           (peer_conn 9 (str "p1")) eq_refl H).
Qed.

Lemma p1_accepted_reachable : TCPServer.reachable (λ _, x00) p1_accepted.
Proof.
  eapply rtc_l.
  { apply (TCPServer.w_start _ _ _ (str "a") TCPServer.idle_server 0 9000 true (TCPServer.InitEnv 3 4 0 0)); reflexivity. }
  etrans; [apply (listening_small _ (Obj (Connection_create (λ _, x00) 0 4 TCPServer.EPOLL_EVENTS true (str "listen")) works_init) 0);
    by split|].
  eapply rtc_l; [apply (TCPServer.w_loop _ _ _ (str "a") (TCPServer.server_of (str "a")) TCPServer.MWait 0 0 0 []
    TCPServer.MConnecting (TCPServer.globals (listening (peer_conn 4 (str "listen")) 1 TCPServer.MConnecting)) []); reflexivity|].
  eapply rtc_l; [apply (TCPServer.w_loop _ _ _ (str "a") (TCPServer.server_of (str "a")) TCPServer.MConnecting 0 0 0
    [(1, 1, accepts)] TCPServer.MServing (TCPServer.globals (accepted
      (Obj (Connection_create (λ _, x00) 0 9 TCPServer.EPOLL_EVENTS true (str "p1")) works_init))) []); reflexivity|].
  apply (accepted_small _ (Obj (Connection_create (λ _, x00) 0 9 TCPServer.EPOLL_EVENTS true (str "p1")) works_init)).
  by split.
Qed.

(** A task whose only peer is p1, which has connected to its server. *)
Definition sample_io : io :=
  IO (str "a") (MkNodeInfo (str "P0") (str "host") 9000) [MkNodeInfo (str "p1") (str "host1") 0] [] 1000 3
     (TCPServer.server_of (str "a")) [] [].
Definition sample_process : process := Proc p1_accepted TCPClient.statics_init ∅.

Lemma sample_put :
  ∃ s' r', TCPServer.put_connection (λ _, x00) 0 (TCPServer.server_of (str "a")) (heap sample_process) (str "p1")
             = Ok (true, s', r') ∧ TCPServer.get_connection s' (str "p1") = Some 2.
Proof. do 2 eexists. split; vm_compute; reflexivity. Qed.

Lemma sample_joins :
  ∃ st, rtc (step (λ _, x00) sample_io) (start_state sample_io sample_process) st
    ∧ joined st ∧ init_client_ok st = true ∧ conns st = [(str "p1", Some 2)].
Proof.
  destruct sample_put as (s' & r' & E & Eq). eexists. split; [|split; [|split]].
  - eapply rtc_l; [eapply (i_put _ _ _ 0%nat (str "p1") 0); [reflexivity..|exact E]|].
    eapply rtc_l; [eapply (i_get _ _ _ 0%nat (str "p1")); reflexivity|]. apply rtc_refl.
  - repeat constructor. by exists true.
  - done.
  - cbn [conns goto set_conns]. by rewrite Eq.
Qed.

Lemma init_connects_peers_witness :
  ∃ st, joined st ∧ conns st = [(str "p1", Some 2)]
    ∧ ((∀ peer, peer ∈ server_infos_ sample_io → ∃ k c q,
          map_find (info_id peer) (conns st) = Some (Some q)
          ∧ clients (proc st) !! k = Some (c, TCPClient.Connected) ∧ calls c peer
          ∧ TCPClient.conn_ c = Some q ∧ opened (TCPServer.globals (sv (proc st))) q)
       ∧ (∀ peer, peer ∈ client_infos_ sample_io → ∃ q,
          map_find (info_id peer) (conns st) = Some (Some q)
          ∧ Heap.accepted (TCPServer.globals (sv (proc st))) (info_id peer) q)).
Proof.
  destruct sample_joins as (st & Hs & Hj & Hok & Hc). exists st. split; [done|]. split; [done|].
  apply (init_connects_peers (λ _, x00) sample_io sample_process st);
    [repeat constructor; by intros ?%elem_of_nil|apply sorted_nil|apply servers_reachable, p1_accepted_reachable
    |by eexists|done..].
Defined.
End Init.
