(* ===== verification/Closing.v ===== *)
(** [BasicIO::close] of [src/net_io.cpp] with its threads running at the same time:
    one thread per client closes it, then the server of the task stops, while the
    servers and clients of the other tasks of the process move.  The [stop] of the task
    on each connection goes section by section, with the mutex [task_mtx_] of the
    connection and the thread it joins.  The sequential [BasicIO.close] of [NetIO] is
    one of the orders. *)
From Stdlib Require Import Strings.Byte.
From S2P Require Import Prelude Timer CycleBuffer SimpleBuffer Transport Connection StdMap Work Server.
From S2P Require Import Config Topology Heap Client Process Lifetime NetIO.
#[local] Open Scope Z_scope.

Module Closing.
Import TCPServer (objects, reg, set_reg, set_object, globals, servers, server_connections_, same_peer, MDone, stop_).
Import Heap Process.

(** * The program *)

(** Where the thread of a client is, and where [close] is: it joins those threads, has
    told the server to stop and joins its loop, stops the task on the connections [l] of
    the server (in section [a] on the first), or has returned. *)
Inductive pc := Begin | Leaving | Ended.
Inductive stage := Joining | Flagged | Stops (l : list (bytes * Z)) (a : stop_at) | Closed.

(** Who has the [task_mtx_] of a connection: a thread of this [close], or another one. *)
Inductive holder := This | Other.

#[global] Instance pc_eq_dec : EqDecision pc.
Proof. solve_decision. Defined.

(** [threads] are those of the clients in [clients], named by their number in the
    process; [mtx] are the mutexes that are locked; [working] the tasks whose thread on
    a connection has not finished. *)
Record state := State {
  proc : process;
  threads : list (Z * pc);
  at_ : stage;
  mtx : gmap Z holder;
  working : gset (Z * bytes)
}.

Definition set_proc (p : process) (st : state) : state := State p (threads st) (at_ st) (mtx st) (working st).
Definition goto (j : nat) (k : Z) (c : pc) (st : state) : state :=
  State (proc st) (<[j := (k, c)]> (threads st)) (at_ st) (mtx st) (working st).
Definition set_stage (s : stage) (st : state) : state := State (proc st) (threads st) s (mtx st) (working st).
Definition set_mtx (m : gmap Z holder) (st : state) : state := State (proc st) (threads st) (at_ st) m (working st).
Definition set_working (w : gset (Z * bytes)) (st : state) : state := State (proc st) (threads st) (at_ st) (mtx st) w.

Definition with_clients (r : TCPServer.registry) (cg : TCPClient.statics) (cs : gmap Z (TCPClient.client * TCPClient.phase))
    (p : process) : process := Proc (with_heap r (sv p)) cg cs.
Definition with_client (r : TCPServer.registry) (k : Z) (c : TCPClient.client) (ph : TCPClient.phase) (p : process)
    : process := with_clients r (shared p) (<[k := (c, ph)]> (clients p)) p.
Definition with_servers (g : TCPServer.statics) (th : gmap bytes (TCPServer.server * TCPServer.main_phase)) (p : process)
    : process := Proc (TCPServer.World g th) (shared p) (clients p).

(** The first section of [stop] takes the mutex, the second one gives it back; the
    [join] before the last waits for the thread. *)
Definition enabled (a : stop_at) (q : Z) (u : bytes) (st : state) : Prop :=
  match a with
  | AtMutex => mtx st !! q = None
  | AtErase => (q, u) ∉ working st
  | _ => True
  end.
Definition mtx_after (a : stop_at) (q : Z) (m : gmap Z holder) : gmap Z holder :=
  match a with AtMutex => <[q := This]> m | AtLock => delete q m | _ => m end.

Section program.
Context (junk : nat → byte) (t : bytes).

(** The server of the task. *)
Definition server_at (p : process) : option (TCPServer.server * TCPServer.main_phase) := servers (sv p) !! t.

(** What the other threads of the process may do: the clients of this [BasicIO] are
    closed by no one else, and its server is stopped by no one else. *)
Definition undisturbed (st : state) (p' : process) : Prop :=
  (∀ k x, (k, x) ∈ threads st → clients p' !! k = clients (proc st) !! k)
  ∧ match server_at (proc st) with
    | Some (s, _) => ∃ ph', server_at p' = Some (s, ph')
    | None => server_at p' = None
    end.

Inductive step : relation state :=
  | k_process st p' :
      Process.step junk (proc st) p' → undisturbed st p' → step st (set_proc p' st)
  | k_others st m w :                      (* other tasks lock, unlock and start *)
      (∀ q, mtx st !! q = Some This ↔ m !! q = Some This) →
      (∀ q, (q, t) ∈ w ↔ (q, t) ∈ working st) → step st (set_working w (set_mtx m st))
  | k_finishes st q u o :                  (* the thread of a stopped task returns *)
      objects (heap (proc st)) !! q = Some o → flagged u (tasks o) = true →
      step st (set_working (working st ∖ {[(q, u)]}) st)
  | k_skip st j k c ph :                   (* the client never connected *)
      threads st !! j = Some (k, Begin) → clients (proc st) !! k = Some (c, ph) → TCPClient.connected_ c = false →
      step st (goto j k Ended st)
  | k_begin st j k c :
      threads st !! j = Some (k, Begin) → clients (proc st) !! k = Some (c, TCPClient.Connected) →
      TCPClient.connected_ c = true →
      step st (goto j k Leaving (set_proc
        (with_client (heap (proc st)) k (TCPClient.set_unconnected c) (TCPClient.Stopping AtMutex) (proc st)) st))
  | k_section st j k c a q now elapsed next r' :
      threads st !! j = Some (k, Leaving) → clients (proc st) !! k = Some (c, TCPClient.Stopping a) →
      TCPClient.conn_ c = Some q → enabled a q (TCPClient.task_id_ c) st →
      TCPClient.close_section now elapsed a c (heap (proc st)) = Ok (next, r') →
      step st (set_mtx (mtx_after a q (mtx st))
        (set_proc (with_client r' k c (TCPClient.next_phase next) (proc st)) st))
  | k_release st j k c now wenv g' r' fds :
      threads st !! j = Some (k, Leaving) → clients (proc st) !! k = Some (c, TCPClient.Closing) →
      TCPClient.close_release junk now wenv (shared (proc st)) (heap (proc st)) = Ok (g', r', fds) →
      step st (goto j k Ended (set_proc (with_clients r' g' (delete k (clients (proc st))) (proc st)) st))
  | k_flag st s ph :                       (* the threads are joined; [stop] of the server *)
      at_ st = Joining → Forall (λ x, x.2 = Ended) (threads st) → server_at (proc st) = Some (s, ph) → stop_ s = false →
      step st (set_stage Flagged
        (set_proc (with_servers (globals (sv (proc st))) (<[t := (TCPServer.set_stop s, ph)]> (servers (sv (proc st)))) (proc st)) st))
  | k_no_server st :                       (* no server, or one that has stopped *)
      at_ st = Joining → Forall (λ x, x.2 = Ended) (threads st) → server_at (proc st) = None → step st (set_stage Closed st)
  | k_joined st s :                        (* the loop has returned *)
      at_ st = Flagged → server_at (proc st) = Some (s, MDone) → stop_ s = true →
      step st (set_stage (Stops (server_connections_ s) AtMutex) st)
  | k_server_section st s i q l a now elapsed next o o' :
      at_ st = Stops ((i, q) :: l) a → server_at (proc st) = Some (s, MDone) →
      enabled a q (TCPServer.task_id_ s) st → objects (heap (proc st)) !! q = Some o →
      stop_section now elapsed (TCPServer.task_id_ s) a o = Ok (next, o') →
      step st (set_stage (match next with Some a' => Stops ((i, q) :: l) a' | None => Stops l AtMutex end)
        (set_mtx (mtx_after a q (mtx st))
          (set_proc (with_clients (set_object q o' (heap (proc st))) (shared (proc st)) (clients (proc st)) (proc st)) st)))
  | k_released st a s now wenv s' g' fds :
      at_ st = Stops [] a → server_at (proc st) = Some (s, MDone) → stop_ s = true →
      TCPServer.stop_release junk now wenv s (globals (sv (proc st))) = Ok (s', g', fds) →
      step st (set_stage Closed (set_proc (with_servers g' (delete t (servers (sv (proc st)))) (proc st)) st)).

(** [close] is called, with clients [ks]; other tasks hold the mutexes [m], and [w] are
    the tasks whose threads have not finished. *)
Definition closing (p : process) (ks : list Z) (m : gmap Z holder) (w : gset (Z * bytes)) : state :=
  State p ((λ k, (k, Begin)) <$> ks) Joining m w.
End program.

(** * The invariant *)

(** What a thread has done, at each point. *)
Definition thread_ok (p : process) (k : Z) (x : pc) : Prop :=
  match x with
  | Begin => ∃ c ph, clients p !! k = Some (c, ph) ∧ (ph = TCPClient.Connected ∨ ph = TCPClient.Failed)
  | Leaving => ∃ c ph, clients p !! k = Some (c, ph) ∧ TCPClient.leaving ph
  | Ended => clients p !! k = None ∨ ∃ c, clients p !! k = Some (c, TCPClient.Failed)
  end.

Record closing_ok (junk : nat → byte) (t : bytes) (st : state) : Prop := {
  k_reachable : Process.reachable junk (proc st);
  k_distinct : NoDup (threads st).*1;
  k_thread k x : (k, x) ∈ threads st → thread_ok (proc st) k x;
  k_ended : at_ st ≠ Joining → Forall (λ x, x.2 = Ended) (threads st);
  k_server : at_ st = Closed → server_at t (proc st) = None
}.

(** What the sections of [stop] from [a] on need: the lock of the peer has come, the
    thread of the task is there, and its flag. *)
Definition stop_ready (a : stop_at) (u : bytes) (o : conn_obj) : Prop :=
  conn_wf (conn o) ∧
  match a with
  | AtMutex | AtLock =>
    0 < zlen (ready (conn o) (lock_id u)) ∧ u ∈ threads_ (tasks o) ∧ is_Some (w_stop_works_ (tasks o) !! u)
  | AtFlag => u ∈ threads_ (tasks o) ∧ is_Some (w_stop_works_ (tasks o) !! u)
  | AtTake => u ∈ threads_ (tasks o) ∧ flagged u (tasks o) = true
  | AtErase => flagged u (tasks o) = true
  end.

(** And no other task has the mutex when it is wanted. *)
Definition can_stop (a : stop_at) (q : Z) (u : bytes) (st : state) : Prop :=
  (∃ o, objects (heap (proc st)) !! q = Some o ∧ stop_ready a u o) ∧ (a = AtMutex → mtx st !! q = None).

(** The section a thread is in. *)
Definition stop_point (x : pc) (ph : TCPClient.phase) : option stop_at :=
  match x, ph with
  | Begin, _ => Some AtMutex
  | Leaving, TCPClient.Stopping a => Some a
  | _, _ => None
  end.

(** The rings of every connection are in order. *)
Definition tidy (r : TCPServer.registry) : Prop := map_Forall (λ _ o, conn_wf (conn o)) (objects r).

(** Nothing [close] waits for is missing: on each connection the task has yet to leave
    the lock of the peer has arrived and no other task is in [start] or [stop]. *)
Record can_close (t : bytes) (st : state) : Prop := {
  cc_tidy : tidy (heap (proc st));
  cc_connected k c ph : (k, Begin) ∈ threads st → clients (proc st) !! k = Some (c, ph) → ph = TCPClient.Connected;
  cc_thread k x c ph a : (k, x) ∈ threads st → clients (proc st) !! k = Some (c, ph) → stop_point x ph = Some a →
    ∃ q, TCPClient.conn_ c = Some q ∧ can_stop a q (TCPClient.task_id_ c) st;
  cc_apart k1 k2 x1 x2 c1 c2 ph1 ph2 q : (k1, x1) ∈ threads st → (k2, x2) ∈ threads st →
    clients (proc st) !! k1 = Some (c1, ph1) → clients (proc st) !! k2 = Some (c2, ph2) →
    TCPClient.conn_ c1 = Some q → TCPClient.conn_ c2 = Some q → k1 = k2;
  cc_server : ∃ s ph, server_at t (proc st) = Some (s, ph) ∧ stop_ s = false
    ∧ ∀ i q, (i, q) ∈ server_connections_ s → can_stop AtMutex q (TCPServer.task_id_ s) st
}.

(** * Lemmas *)

Section lemmas.
Context (junk : nat → byte) (t : bytes).

(** What [close] does is something the process may do. *)
Lemma closing_moves st st' : step junk t st st' → rtc (Process.step junk) (proc st) (proc st').
Proof.
  intros Hs. destruct Hs as [st p' Hs _|st m w _ _|st q u o _ _|st j k c ph Ej Ek Hc|st j k c Ej Ek Hc
    |st j k c a q now el next r' Ej Ek Eq He E|st j k c now wenv g' r' fds Ej Ek E
    |st s ph Ea Hall Es Hst|st Ea Hall Es|st s Ea Es Hst|st s i q l a now el next o o' Ea Es He Eo E
    |st a s now wenv s' g' fds Ea Es Hst E]; try done; apply rtc_once;
    destruct st as [[[g th] cg cs] ths at1 mt wk]; cbn in *.
  - exact Hs.
  - apply (p_client junk (Proc (TCPServer.World g th) cg cs) (TCPClient.World cg (reg g) _)). by apply (TCPClient.c_close junk).
  - apply (p_client junk (Proc (TCPServer.World g th) cg cs) (TCPClient.World cg r' _)). by eapply (TCPClient.c_stop junk).
  - apply (p_client junk (Proc (TCPServer.World g th) cg cs) (TCPClient.World g' r' _)). by eapply (TCPClient.c_release junk).
  - apply (p_server junk (Proc (TCPServer.World g th) cg cs)). by apply TCPServer.w_stop.
  - apply (p_server junk (Proc (TCPServer.World g th) cg cs)). eapply TCPServer.w_use; [done|by eapply stop_section_peer].
  - apply (p_server junk (Proc (TCPServer.World g th) cg cs)). by eapply TCPServer.w_joined.
Qed.

Lemma same_thread st j k x y :
  NoDup (threads st).*1 → threads st !! j = Some (k, x) → (k, y) ∈ threads st → y = x.
Proof.
  intros Hnd Ej (i & Ei)%list_elem_of_lookup.
  assert (i = j) as ->; [|congruence].
  eapply (NoDup_lookup _ _ _ k Hnd); by rewrite list_lookup_fmap, ?Ei, ?Ej.
Qed.

(** One thread moves and leaves the clients of the others. *)
Lemma one_thread st p' j k x y m w :
  closing_ok junk t st → threads st !! j = Some (k, x) → at_ st = Joining →
  Process.reachable junk p' → thread_ok p' k y →
  (∀ k', k' ≠ k → clients p' !! k' = clients (proc st) !! k') →
  closing_ok junk t (State p' (<[j := (k, y)]> (threads st)) (at_ st) m w).
Proof.
  intros [Hr Hnd Hth Hen Hsv] Ej Ea Hr' Hy Hk. split; cbn; [done| | |congruence|congruence].
  - rewrite list_fmap_insert. cbn. rewrite list_insert_id; [done|]. by rewrite list_lookup_fmap, Ej.
  - intros k' z (i & Ei)%list_elem_of_lookup. apply list_lookup_insert_Some in Ei as [(-> & [= <- <-] & _)|[Hne Ei]]; [done|].
    assert (k' ≠ k) as Hk'.
    { intros ->. apply Hne. eapply (NoDup_lookup _ _ _ k Hnd); by rewrite list_lookup_fmap, ?Ei, ?Ej. }
    pose proof (Hth k' z (list_elem_of_lookup_2 _ _ _ Ei)) as Hz. unfold thread_ok in *. by rewrite Hk.
Qed.

Lemma joining st j k x : closing_ok junk t st → threads st !! j = Some (k, x) → x ≠ Ended → at_ st = Joining.
Proof.
  intros H Ej Hx. destruct (at_ st) eqn:Ea; [done|..]; (assert (at_ st ≠ Joining) as Hn by congruence;
    pose proof (k_ended _ _ _ H Hn) as Hall; rewrite Forall_forall in Hall;
    by specialize (Hall _ (list_elem_of_lookup_2 _ _ _ Ej))).
Qed.

Lemma same_threads st j k x : threads st !! j = Some (k, x) → threads st = <[j := (k, x)]> (threads st).
Proof. intros Ej. by rewrite list_insert_id. Qed.

#[export] Instance closing_ok_invariant : Invariant (step junk t) (closing_ok junk t).
Proof.
  intros st st' H Hs. assert (Process.reachable junk (proc st')) as Hr.
  { unfold Process.reachable. etrans; [exact (k_reachable _ _ _ H)|by apply closing_moves]. }
  destruct Hs as [st p' Hs [Hu1 Hu2]|st m w _ _|st q u o _ _|st j k c ph Ej Ek Hc|st j k c Ej Ek Hc
    |st j k c a q now el next r' Ej Ek Eq He E|st j k c now wenv g' r' fds Ej Ek E
    |st s ph Ea Hall Es Hst|st Ea Hall Es|st s Ea Es Hst|st s i q l a now el next o o' Ea Es He Eo E
    |st a s now wenv s' g' fds Ea Es Hst E].
  - destruct H as [_ Hnd Hth Hen Hsv]. split; cbn; [done..| |done|].
    + intros k x Hx. pose proof (Hth k x Hx) as Hok. unfold thread_ok in *. by rewrite (Hu1 k x Hx).
    + intros Ea. by rewrite (Hsv Ea) in Hu2.
  - destruct H as [_ Hnd Hth Hen Hsv]. by split.
  - destruct H as [_ Hnd Hth Hen Hsv]. by split.
  - destruct (k_thread _ _ _ H k Begin (list_elem_of_lookup_2 _ _ _ Ej)) as (d & ph' & Ed & Hph).
    rewrite Ek in Ed. injection Ed as <- <-. destruct Hph as [->| ->].
    { pose proof (TCPClient.wf_connected _ (reachable_clients_wf junk _ (k_reachable _ _ _ H)) k c Ek). congruence. }
    apply (one_thread st _ j k Begin); [done..|by eapply joining|apply (k_reachable _ _ _ H)|right; by exists c|done].
  - apply (one_thread st _ j k Begin); [done..|by eapply joining|done| |].
    + do 2 eexists. cbn. rewrite lookup_insert_eq. done.
    + intros k' Hne. cbn. by rewrite lookup_insert_ne.
  - unfold set_mtx, set_proc. cbn [threads at_ working]. rewrite (same_threads st j k Leaving) by done.
    apply (one_thread st _ j k Leaving); [done..|by eapply joining|done| |].
    + do 2 eexists. cbn. rewrite lookup_insert_eq. split; [done|by destruct next].
    + intros k' Hne. cbn. by rewrite lookup_insert_ne.
  - apply (one_thread st _ j k Leaving); [done..|by eapply joining|done| |].
    + left. cbn. apply lookup_delete_eq.
    + intros k' Hne. cbn. by rewrite lookup_delete_ne.
  - destruct H as [_ Hnd Hth Hen Hsv]. by split.
  - destruct H as [_ Hnd Hth Hen Hsv]. by split.
  - destruct H as [_ Hnd Hth Hen Hsv]. split; cbn; [done..| |done]. intros _. apply Hen. congruence.
  - destruct H as [_ Hnd Hth Hen Hsv]. split; cbn; [done..| |by destruct next]. intros _. apply Hen. congruence.
  - destruct H as [_ Hnd Hth Hen Hsv]. split; cbn; [done..| |].
    + intros _. apply Hen. congruence.
    + intros _. apply lookup_delete_eq.
Qed.

Lemma closing_start p ks m w :
  Process.reachable junk p → NoDup ks → (∀ k, k ∈ ks → thread_ok p k Begin) → closing_ok junk t (closing p ks m w).
Proof.
  intros Hr Hnd Hks. split; cbn; [done| | |done|done].
  - by rewrite <- list_fmap_compose, list_fmap_id.
  - intros k x (k' & [= -> ->] & Hk)%list_elem_of_fmap. by apply Hks.
Qed.

Lemma closing_run st st' : closing_ok junk t st → rtc (step junk t) st st' → closing_ok junk t st'.
Proof. apply (invariant_rtc (step junk t) (closing_ok junk t)). Qed.

(** [close] takes away no client that failed to connect, and none fails now. *)
Definition failed (p : process) (k : Z) (c : TCPClient.client) : Prop := clients p !! k = Some (c, TCPClient.Failed).

Lemma failed_same st st' k x c :
  closing_ok junk t st → (k, x) ∈ threads st → step junk t st st' → failed (proc st') k c ↔ failed (proc st) k c.
Proof.
  intros H Hk Hs. unfold failed.
  assert (∀ j k' y, threads st !! j = Some (k', y) → k' = k → y = x) as Hx.
  { intros j k' y Ej ->. symmetry. eapply same_thread; [apply (k_distinct _ _ _ H)|done..]. }
  destruct Hs as [st p' Hs [Hu1 Hu2]|st m w _ _|st q u o _ _|st j k' d ph Ej Ek Hc|st j k' d Ej Ek Hc
    |st j k' d a q now el next r' Ej Ek Eq He E|st j k' d now wenv g' r' fds Ej Ek E
    |st s ph Ea Hall Es Hst|st Ea Hall Es|st s Ea Es Hst|st s i q l a now el next o o' Ea Es He Eo E
    |st a s now wenv s' g' fds Ea Es Hst E]; cbn; try done.
  - by rewrite (Hu1 k x).
  - destruct (decide (k' = k)) as [->|Hne]; [|by rewrite lookup_insert_ne]. rewrite lookup_insert_eq, Ek. split; intros [=].
  - destruct (decide (k' = k)) as [->|Hne]; [|by rewrite lookup_insert_ne]. rewrite lookup_insert_eq, Ek.
    split; intros [= ? E']; by destruct next.
  - destruct (decide (k' = k)) as [->|Hne]; [|by rewrite lookup_delete_ne]. rewrite lookup_delete_eq, Ek. by split.
Qed.

Lemma threads_same st st' : rtc (step junk t) st st' → (threads st').*1 = (threads st).*1.
Proof.
  induction 1 as [st|st st1 st' Hs _ IH]; [done|]. rewrite IH.
  assert (∀ j k x y, threads st !! j = Some (k, x) → (<[j := (k, y)]> (threads st)).*1 = (threads st).*1) as Hg.
  { intros j k x y Ej. rewrite list_fmap_insert. apply list_insert_id. by rewrite list_lookup_fmap, Ej. }
  destruct Hs; cbn; by eauto.
Qed.

Lemma failed_stays st st' k c :
  closing_ok junk t st → rtc (step junk t) st st' → k ∈ (threads st).*1 → failed (proc st') k c ↔ failed (proc st) k c.
Proof.
  intros H Hr. revert H. induction Hr as [st|st st1 st' Hs _ IH]; intros H Hk; [done|].
  rewrite IH; [|by eapply closing_ok_invariant|by rewrite (threads_same st st1) by by apply rtc_once].
  apply list_elem_of_fmap in Hk as ([k' x] & -> & Hk). by eapply failed_same.
Qed.

Lemma ended_gone ks st :
  closing_ok junk t st → (threads st).*1 = ks → at_ st ≠ Joining →
  ∀ k, k ∈ ks → clients (proc st) !! k = None ∨ ∃ c, failed (proc st) k c.
Proof.
  intros H <- Ha k ([k' x] & -> & Hin)%list_elem_of_fmap. pose proof (k_ended _ _ _ H Ha) as Hall.
  rewrite Forall_forall in Hall. specialize (Hall _ Hin). cbn in Hall. subst x. exact (k_thread _ _ _ H _ _ Hin).
Qed.

(** ** The calls succeed *)

Lemma recv_lock now u o :
  conn_wf (conn o) → 0 < zlen (ready (conn o) (lock_id u)) →
  ∃ ret d c, recv now 0 (state_ (conn o)) (conn o) (lock_id u) (str "1") 1 (-1) = Ok (ret, d, c) ∧ conn_wf c.
Proof.
  intros Hw Hl. pose proof (stop_waits_for_peer now u (tasks o) (conn o) Hw) as E.
  rewrite decide_False in E by (intros E0; by rewrite E0 in Hl). destruct E as (c & E & Hc & _). unfold stop_lock in E.
  apply bind_Ok in E as ([[ret d] c1] & E & E2). injection E2 as <-. by exists ret, d, c1.
Qed.

Lemma flag_raised u w : is_Some (w_stop_works_ w !! u) → flagged u (do_stop_flag u w) = true.
Proof.
  intros [b E]. unfold flagged, do_stop_flag. rewrite E. destruct b; apply bool_decide_eq_true; cbn; [done|apply lookup_insert_eq].
Qed.

Definition sections_left (a : stop_at) : nat :=
  match a with AtMutex => 5 | AtLock => 4 | AtFlag => 3 | AtTake => 2 | AtErase => 1 end.

(** A section that is ready succeeds, and the next one is ready. *)
Lemma stop_section_ok now a u o :
  stop_ready a u o →
  ∃ next o', stop_section now 0 u a o = Ok (next, o') ∧ conn_wf (conn o')
    ∧ ∀ a', next = Some a' → stop_ready a' u o' ∧ a' ≠ AtMutex ∧ (sections_left a' < sections_left a)%nat.
Proof.
  intros [Hw H]. destruct a; cbn [stop_section].
  - do 2 eexists. split; [reflexivity|]. split; [done|]. intros a' [= <-]. split_and!; [by split|done|cbn; lia].
  - destruct H as (Hl & Ht & He). destruct (recv_lock now u o Hw Hl) as (ret & d & c & -> & Hc).
    do 2 eexists. split; [reflexivity|]. split; [done|]. intros a' [= <-]. split_and!; [by split|done|cbn; lia].
  - destruct H as (Ht & He). do 2 eexists. split; [reflexivity|]. split; [by destruct Hw|]. intros a' [= <-].
    split_and!; [|done|cbn; lia]. split; [by destruct Hw|]. cbn [tasks make_obj]. split; [|by apply flag_raised].
    unfold do_stop_flag. by destruct (w_stop_works_ (tasks o) !! u) as [[]|].
  - destruct H as (Ht & Hf). unfold do_stop_take. rewrite bool_decide_true by done.
    do 2 eexists. split; [reflexivity|]. split; [done|]. intros a' [= <-]. split_and!; [by split|done|cbn; lia].
  - do 2 eexists. split; [reflexivity|]. split; [by destruct Hw|]. done.
Qed.

(** A transport that takes everything. *)
Definition takes_all (o : conn_obj) : list write_result := [WR (zlen (to_send (conn o))) (EOTHER 0)].

Lemma close_object_ok now o :
  conn_wf (conn o) →
  ∃ o' fds, TCPServer.close_object junk now (takes_all o) o = Ok (o', fds) ∧ conn_wf (conn o').
Proof.
  intros H. unfold TCPServer.close_object.
  assert (∃ c s f e, Connection.close junk now (takes_all o) (conn o) = Ok (c, s, f, e)) as (c & sent & f & e & E).
  { unfold Connection.close. case_bool_decide; [by do 4 eexists|]. unfold flush_send_buffer.
    pose proof H as [_ Hs _]. cbn [send_buffer_ set_state]. rewrite cycle_buffer.size_contents by done.
    fold (to_send (conn o)). destruct (Z.ltb_spec 0 (zlen (to_send (conn o)))); [|by do 4 eexists].
    destruct (cycle_buffer.read_ok now (send_buffer_ (conn o)) (new_char junk (zlen (to_send (conn o))))
        (zlen (to_send (conn o)))) as (b & Er & _); [done|split; [lia|done]|zlia|].
    fold (to_send (conn o)) in Er. rewrite Er, ztake_ge, zdrop_ge, app_nil_r by zlia. cbn [mbind outcome_bind].
    destruct (writen_loop_complete (takes_all o) (to_send (conn o)) (zlen (to_send (conn o))) (zlen (to_send (conn o))))
      as [env' Ew]; [unfold goes_on; cbn; lia|done|cbn; split; [lia|done]|cbn; lia|]. unfold writen. rewrite Ew. by do 4 eexists. }
  rewrite E. do 2 eexists. split; [reflexivity|]. cbn [conn].
  destruct (decide (state_ (conn o) = Connection.Closed)) as [Ec|Ec].
  - unfold Connection.close in E. rewrite bool_decide_true in E by done. by injection E as <- _ _ _.
  - apply (close_once junk now 0) in E as (_ & _ & _ & _ & ? & _); [done..|cbn; split; [lia|done]|done].
Qed.

Lemma tidy_set p o r : tidy r → conn_wf (conn o) → tidy (set_object p o r).
Proof. intros. by apply map_Forall_insert_2. Qed.

(** The loops that close the connections of a list. *)
Lemma close_list_ok wenv (body : TCPServer.registry * list Z → bytes * Z → outcome (TCPServer.registry * list Z)) l :
  (∀ r f a p o, objects r !! p = Some o → conn_wf (conn o) → state_ (conn o) = Connection.Closed ∨ wenv p = takes_all o →
     ∃ o' f', body (r, f) (a, p) = Ok (set_object p o' r, f') ∧ conn_wf (conn o') ∧ state_ (conn o') = Connection.Closed) →
  ∀ r f, tidy r →
    (∀ a p, (a, p) ∈ l → ∃ o, objects r !! p = Some o ∧ (state_ (conn o) = Connection.Closed ∨ wenv p = takes_all o)) →
    ∃ r' f', for_each body (r, f) l = Ok (r', f') ∧ tidy r' ∧ ∀ p, p ∉ l.*2 → objects r' !! p = objects r !! p.
Proof.
  intros Hb. induction l as [|[a p] l IH]; intros r f Hr Hl; cbn; [by do 2 eexists|].
  destruct (Hl a p) as (o & Eo & Ho); [by left|].
  destruct (Hb r f a p o Eo (Hr _ _ Eo) Ho) as (o' & f' & E & Hw & Hc). rewrite E. cbn [mbind outcome_bind].
  destruct (IH (set_object p o' r) f') as (r' & f2 & E' & Hr' & Hsame); [by apply tidy_set| |].
  - intros b q Hin. cbn. destruct (decide (q = p)) as [->|Hne].
    + exists o'. rewrite lookup_insert_eq. auto.
    + rewrite lookup_insert_ne by done. apply (Hl b). by right.
  - exists r', f2. split_and!; [done..|]. intros q Hq. rewrite Hsame by set_solver. cbn.
    rewrite lookup_insert_ne; [done|]. intros ->. apply Hq. by left.
Qed.

Definition answers (r : TCPServer.registry) (p : Z) : list write_result :=
  match objects r !! p with Some o => takes_all o | None => [] end.

Lemma client_close_all_ok now g r :
  tidy r → (∀ a p, (a, p) ∈ TCPClient.connections_ g → is_Some (objects r !! p)) →
  ∃ r' fds, TCPClient.close_all junk now (answers r) g r = Ok (r', fds) ∧ tidy r'
    ∧ ∀ p, p ∉ (TCPClient.connections_ g).*2 → objects r' !! p = objects r !! p.
Proof.
  intros Hr Hl. apply (close_list_ok (answers r)); [|done|].
  - intros r1 f a p o Eo Hw Ho. unfold TCPServer.deref. rewrite Eo. cbn [mbind outcome_bind].
    assert (∃ o' fds, TCPServer.close_object junk now (answers r p) o = Ok (o', fds) ∧ conn_wf (conn o')) as (o' & fds & E & Hw').
    { destruct Ho as [Ec| ->]; [|by apply close_object_ok]. unfold TCPServer.close_object, Connection.close.
      rewrite bool_decide_true by done. by do 2 eexists. }
    rewrite E. do 2 eexists. split_and!; [reflexivity|done|]. by apply close_object_spec in E as [].
  - intros a p Hin. destruct (Hl a p Hin) as [o Eo]. exists o. unfold answers. rewrite Eo. auto.
Qed.

Lemma server_close_all_ok now r :
  tidy r → (∀ a p, (a, p) ∈ TCPServer.connections_ r → is_Some (objects r !! p)) →
  ∃ r' fds, TCPServer.close_all junk now (answers r) r = Ok (r', fds) ∧ tidy r'.
Proof.
  intros Hr Hl. unfold TCPServer.close_all. edestruct (close_list_ok (answers r)) as (r' & fds & E & Hr' & _);
    [|done| |by exists r', fds].
  - intros r1 f a p o Eo Hw Ho. unfold TCPServer.deref. rewrite Eo. cbn [mbind outcome_bind].
    case_bool_decide as Ec.
    { exists o, f. unfold set_object. rewrite insert_id by done. split; [by destruct r1|by split]. }
    destruct Ho as [?| ->]; [done|]. destruct (close_object_ok now o Hw) as (o' & fs & E & Hw'). rewrite E.
    do 2 eexists. split_and!; [reflexivity|done|]. by apply close_object_spec in E as [].
  - intros a p Hin. destruct (Hl a p Hin) as [o Eo]. exists o. unfold answers. rewrite Eo. auto.
Qed.

Lemma client_unrecv_ok g r :
  (∀ a p, (a, p) ∈ TCPClient.connections_ g → is_Some (objects r !! p)) → ∃ n, TCPClient.get_unrecv_size g r = Ok n.
Proof.
  intros Hl. destruct (for_each_total (λ ret '(_, p), o ← TCPServer.deref r p; mret (ret +₆₄ Connection.get_unrecv_size (conn o)))
    (λ _, True) (TCPClient.connections_ g) 0) as (n & E & _); [|done|by exists n].
  intros ret [a p] Hin _. destruct (Hl a p Hin) as [o Eo]. eexists. split; [|done].
  unfold TCPServer.deref. rewrite Eo. reflexivity.
Qed.

Lemma server_unrecv_ok r :
  (∀ a p, (a, p) ∈ TCPServer.connections_ r → is_Some (objects r !! p)) → ∃ n, TCPServer.get_unrecv_size r = Ok n.
Proof.
  intros Hl. destruct (for_each_total (λ ret '(_, p), o ← TCPServer.deref r p; mret (ret +₆₄ Connection.get_unrecv_size (conn o)))
    (λ _, True) (TCPServer.connections_ r) 0) as (n & E & _); [|done|by exists n].
  intros ret [a p] Hin _. destruct (Hl a p Hin) as [o Eo]. eexists. split; [|done].
  unfold TCPServer.deref. rewrite Eo. reflexivity.
Qed.

Lemma close_release_ok now g r :
  tidy r → (∀ a p, (a, p) ∈ TCPClient.connections_ g → is_Some (objects r !! p)) →
  ∃ wenv g' r' fds, TCPClient.close_release junk now wenv g r = Ok (g', r', fds) ∧ tidy r'
    ∧ (∀ p, p ∉ (TCPClient.connections_ g).*2 ∨ TCPClient.task_count_ g ≠ 1 → objects r' !! p = objects r !! p).
Proof.
  intros Hr Hl. exists (answers r). unfold TCPClient.close_release. set (g1 := TCPClient.Statics _ _ _ _).
  destruct (client_unrecv_ok g1 r Hl) as [n En]. rewrite En. cbn [TCPClient.task_count_ g1].
  destruct (Z.eqb_spec (TCPClient.task_count_ g - 1) 0) as [Hc|Hc]; cbn [mbind outcome_bind andb];
    [|by eexists _, _, _]. destruct (n =? 0); [|by eexists _, _, _].
  destruct (client_close_all_ok now g1 r Hr Hl) as (r' & fds & -> & Hr' & Hsame). eexists _, _, _.
  split_and!; [reflexivity|done|]. intros p [Hp|Hp]; [by apply Hsame|lia].
Qed.

Lemma stop_release_ok now s g :
  tidy (reg g) → (∀ a p, (a, p) ∈ TCPServer.connections_ (reg g) → is_Some (objects (reg g) !! p)) →
  ∃ wenv s' g' fds, TCPServer.stop_release junk now wenv s g = Ok (s', g', fds).
Proof.
  intros Hr Hl. exists (answers (reg g)). unfold TCPServer.stop_release.
  destruct (server_unrecv_ok (reg g) Hl) as [n En]. cbn [TCPServer.s_task_count_ reg]. rewrite En.
  destruct (_ =? 0); cbn [mbind outcome_bind andb]; [|by do 3 eexists].
  destruct (n =? 0); [|by do 3 eexists].
  destruct (server_close_all_ok now (reg g) Hr Hl) as (r2 & fds & -> & _). by do 3 eexists.
Qed.

Lemma close_section_ok now c a r q o :
  TCPClient.conn_ c = Some q → objects r !! q = Some o → stop_ready a (TCPClient.task_id_ c) o →
  ∃ next o', TCPClient.close_section now 0 a c r = Ok (next, set_object q o' r) ∧ conn_wf (conn o')
    ∧ ∀ a', next = Some a' → stop_ready a' (TCPClient.task_id_ c) o' ∧ a' ≠ AtMutex ∧ (sections_left a' < sections_left a)%nat.
Proof.
  intros Ec Eo Hs. destruct (stop_section_ok now _ _ _ Hs) as (next & o' & E & Hw & Hn). exists next, o'. split; [|done].
  unfold TCPClient.close_section, TCPServer.deref. rewrite Ec. cbn [mbind mret outcome_bind outcome_ret]. rewrite Eo.
  cbn [mbind outcome_bind]. by rewrite E.
Qed.

(** ** [close] goes on *)

Lemma goto_thread (l : list (Z * pc)) j k x y k' z :
  NoDup l.*1 → l !! j = Some (k, x) → (k', z) ∈ <[j := (k, y)]> l →
  k' = k ∧ z = y ∨ k' ≠ k ∧ (k', z) ∈ l.
Proof.
  intros Hnd Ej (i & Ei)%list_elem_of_lookup. apply list_lookup_insert_Some in Ei as [(-> & [= <- <-] & _)|[Hne Ei]]; [by left|].
  right. split; [|by eapply list_elem_of_lookup_2]. intros ->. apply Hne.
  eapply (NoDup_lookup _ _ _ k Hnd); by rewrite list_lookup_fmap, ?Ei, ?Ej.
Qed.

(** Connection [q], with its mutex, is as it was. *)
Definition untouched (st st' : state) (q : Z) : Prop :=
  objects (heap (proc st')) !! q = objects (heap (proc st)) !! q ∧ mtx st' !! q = mtx st !! q.

Lemma can_stop_same st st' a q u : untouched st st' q → can_stop a q u st → can_stop a q u st'.
Proof. intros [Eo Em] [H1 H2]. split; by rewrite ?Eo, ?Em. Qed.

(** The connection of a thread that is in [stop], or of the server. *)
Definition needed (t : bytes) (k : Z) (st : state) (q : Z) : Prop :=
  (∃ k' x c ph a, k' ≠ k ∧ (k', x) ∈ threads st ∧ clients (proc st) !! k' = Some (c, ph) ∧ stop_point x ph = Some a
     ∧ TCPClient.conn_ c = Some q)
  ∨ ∃ s ph i, server_at t (proc st) = Some (s, ph) ∧ (i, q) ∈ server_connections_ s.

(** One thread moves: the connections of the others are as they were. *)
Lemma can_close_goto st p' j k x y m w :
  let st' := State p' (<[j := (k, y)]> (threads st)) (at_ st) m w in
  NoDup (threads st).*1 → threads st !! j = Some (k, x) → y ≠ Begin → can_close t st →
  (∀ k', k' ≠ k → clients p' !! k' = clients (proc st) !! k') → tidy (heap p') →
  server_at t p' = server_at t (proc st) →
  (∀ c' ph', clients p' !! k = Some (c', ph') →
     (∃ c ph, clients (proc st) !! k = Some (c, ph) ∧ TCPClient.conn_ c' = TCPClient.conn_ c)
     ∧ ∀ a, stop_point y ph' = Some a → ∃ q, TCPClient.conn_ c' = Some q ∧ can_stop a q (TCPClient.task_id_ c') st') →
  (∀ q, needed t k st q → untouched st st' q) →
  can_close t st'.
Proof.
  intros st' Hnd Ej Hy [Ht Hb Hth Ha Hs] Hk Ht' Hsv Hown Hun.
  assert (∀ k' z, (k', z) ∈ threads st' → k' = k ∧ z = y ∨ k' ≠ k ∧ (k', z) ∈ threads st) as Hg
    by (intros k' z; by apply goto_thread with (x := x)).
  split; cbn [proc st']; [done|..].
  - intros k' c ph [[_ ?]|[Hne Hin]]%Hg; [congruence|]. rewrite Hk by done. by apply Hb.
  - intros k' z c ph a [[-> ->]|[Hne Hin]]%Hg E Ea; [by apply (Hown c ph)|]. rewrite Hk in E by done.
    destruct (Hth k' z c ph a Hin E Ea) as (q & Eq & Hq). exists q. split; [done|].
    eapply can_stop_same; [|done]. apply Hun. left. by exists k', z, c, ph, a.
  - assert (∀ k' z c ph q, (k', z) ∈ threads st' → clients p' !! k' = Some (c, ph) → TCPClient.conn_ c = Some q →
      ∃ z0 c0 ph0, (k', z0) ∈ threads st ∧ clients (proc st) !! k' = Some (c0, ph0) ∧ TCPClient.conn_ c0 = Some q) as Hold.
    { intros k' z c ph q [[-> ->]|[Hne Hin]]%Hg E Eq; [|rewrite Hk in E by done; by exists z, c, ph].
      destruct (Hown c ph E) as [(c0 & ph0 & E0 & Ec0) _]. exists x, c0, ph0. split_and!; [|done|congruence].
      by eapply list_elem_of_lookup_2. }
    intros k1 k2 x1 x2 c1 c2 ph1 ph2 q H1 H2 E1 E2 Q1 Q2.
    destruct (Hold _ _ _ _ _ H1 E1 Q1) as (? & ? & ? & ? & ? & ?), (Hold _ _ _ _ _ H2 E2 Q2) as (? & ? & ? & ? & ? & ?).
    by eapply Ha.
  - destruct Hs as (s & ph & Es & Hst & Hc). exists s, ph. rewrite Hsv. split_and!; [done..|]. intros i q Hin.
    eapply can_stop_same; [|by eapply Hc]. apply Hun. right. by exists s, ph, i.
Qed.

(** A connection a client opened is not one the server of a task holds. *)
Lemma dialled_not_served w s ph a q p :
  Process.reachable junk w → server_at t w = Some (s, ph) → (a, q) ∈ server_connections_ s →
  opened (globals (sv w)) p → p ≠ q.
Proof.
  intros Hr Es Hin (o & Eo & Hd) ->. destruct (pt_servers _ (reachable_process_typed junk w Hr)) as [_ _ Hsv _ _ _ _].
  destruct (Hsv _ _ _ Es) as [Hsort Hm]. destruct (Hm a q) as (o' & Eo' & _ & Hs & _); [by apply elem_map_find|]. congruence.
Qed.

Lemma server_connections_apart w s ph :
  Process.reachable junk w → server_at t w = Some (s, ph) → NoDup (server_connections_ s).*2.
Proof.
  intros Hr Es. destruct (pt_servers _ (reachable_process_typed junk w Hr)) as [_ _ Hsv _ _ _ _].
  destruct (Hsv _ _ _ Es) as [Hsort Hm]. apply NoDup_fmap_2_strong; [|apply (NoDup_fmap_1 fst), sorted_NoDup, Hsort].
  intros [a p] [b q] Hp%elem_map_find Hq%elem_map_find; [|done..]. cbn. intros ->.
  destruct (Hm _ _ Hp) as (o & Eo & <- & _), (Hm _ _ Hq) as (o' & Eo' & <- & _). congruence.
Qed.

(** The connection of a thread is not needed by another one. *)
Lemma own_not_needed st j k x c ph q :
  closing_ok junk t st → can_close t st → threads st !! j = Some (k, x) → clients (proc st) !! k = Some (c, ph) →
  TCPClient.conn_ c = Some q → ¬ needed t k st q.
Proof.
  intros H Hc Ej Ek Eq. assert ((k, x) ∈ threads st) as Hin by by eapply list_elem_of_lookup_2.
  intros [(k' & z & c' & ph' & a & Hne & Hin' & Ek' & _ & Eq')|(s & ph' & i & Es & Hq)].
  - apply Hne. by eapply (cc_apart _ _ Hc k' k).
  - pose proof (reachable_process_typed junk _ (k_reachable _ _ _ H)) as [_ _ _ Hty].
    by eapply (dialled_not_served _ s ph' i q q); [apply (k_reachable _ _ _ H)|done..|eapply (c_conn _ _ _ Hty)|].
Qed.

Lemma begin_goes st j k :
  closing_ok junk t st → can_close t st → threads st !! j = Some (k, Begin) →
  ∃ st' c, step junk t st st' ∧ can_close t st' ∧ threads st' = <[j := (k, Leaving)]> (threads st) ∧ at_ st' = at_ st
    ∧ clients (proc st') !! k = Some (c, TCPClient.Stopping AtMutex).
Proof.
  intros H Hc Ej. assert ((k, Begin) ∈ threads st) as Hin by by eapply list_elem_of_lookup_2.
  destruct (k_thread _ _ _ H k Begin Hin) as (c & ph & Ek & _).
  pose proof (cc_connected _ _ Hc _ _ _ Hin Ek) as ->.
  pose proof (reachable_process_typed junk _ (k_reachable _ _ _ H)) as [_ _ Hwf _].
  exists (goto j k Leaving (set_proc (with_client (heap (proc st)) k (TCPClient.set_unconnected c)
    (TCPClient.Stopping AtMutex) (proc st)) st)), (TCPClient.set_unconnected c).
  split; [by apply k_begin, (TCPClient.wf_connected _ Hwf k)|]. split; [|split_and!; [done..|apply lookup_insert_eq]].
  apply (can_close_goto st _ j k Begin); [apply (k_distinct _ _ _ H)|done..| | | | |].
  - intros k' Hne. cbn. by rewrite lookup_insert_ne.
  - apply (cc_tidy _ _ Hc).
  - done.
  - intros c' ph' E. cbn in E. rewrite lookup_insert_eq in E. injection E as <- <-. split; [by exists c, TCPClient.Connected|].
    intros a [= <-]. destruct (cc_thread _ _ Hc _ _ _ _ _ Hin Ek eq_refl) as (q & Eq & Hq). exists q. split; [done|].
    by eapply can_stop_same.
  - by intros q _.
Qed.

(** A section of [stop], after the thread it may have to join has returned. *)
Lemma section_goes st j k c a :
  closing_ok junk t st → can_close t st → threads st !! j = Some (k, Leaving) →
  clients (proc st) !! k = Some (c, TCPClient.Stopping a) →
  ∃ st' next, rtc (step junk t) st st' ∧ can_close t st' ∧ threads st' = threads st ∧ at_ st' = at_ st
    ∧ clients (proc st') !! k = Some (c, TCPClient.next_phase next)
    ∧ ∀ a', next = Some a' → (sections_left a' < sections_left a)%nat.
Proof.
  intros H Hc Ej Ek. assert ((k, Leaving) ∈ threads st) as Hin by by eapply list_elem_of_lookup_2.
  destruct (cc_thread _ _ Hc _ _ _ _ a Hin Ek eq_refl) as (q & Eq & (o & Eo & Hr) & Hm).
  destruct (close_section_ok 0 c a (heap (proc st)) q o Eq Eo Hr) as (next & o' & E & Hw & Hn).
  set (st1 := set_working (if decide (a = AtErase) then working st ∖ {[(q, TCPClient.task_id_ c)]} else working st) st).
  assert (rtc (step junk t) st st1) as H1.
  { unfold st1. destruct (decide (a = AtErase)) as [->|]; [|by destruct st]. apply rtc_once.
    eapply k_finishes; [done|apply Hr]. }
  assert (enabled a q (TCPClient.task_id_ c) st1) as He.
  { unfold enabled, st1. destruct a; try done; [by apply Hm|]. cbn. set_solver. }
  eexists _, next. split; [eapply rtc_r; [exact H1|]; by eapply (k_section junk t st1 j k c a q 0 0)|].
  split; [|split_and!; [done..|cbn; apply lookup_insert_eq|intros a' Ea'; by apply Hn]].
  unfold set_mtx, set_proc. cbn [threads at_ working st1 set_working proc]. rewrite (same_threads st j k Leaving) by done.
  apply (can_close_goto st _ j k Leaving); [apply (k_distinct _ _ _ H)|done..| | | | |].
  - intros k' Hne. cbn. by rewrite lookup_insert_ne.
  - apply tidy_set; [apply (cc_tidy _ _ Hc)|done].
  - done.
  - intros c' ph' E'. cbn in E'. rewrite lookup_insert_eq in E'. injection E' as <- <-.
    split; [by exists c, (TCPClient.Stopping a)|]. intros a' Ea'. exists q. split; [done|].
    destruct next as [a2|]; [|done]. injection Ea' as ->. destruct (Hn a' eq_refl) as (Hr' & Hne & _).
    split; [|done]. exists o'. split; [cbn; apply lookup_insert_eq|done].
  - intros q' Hq'. assert (q' ≠ q) as Hne by (intros ->; by eapply own_not_needed).
    split; cbn; [by rewrite lookup_insert_ne|]. destruct a; cbn; rewrite ?lookup_insert_ne, ?lookup_delete_ne; done.
Qed.

Lemma release_goes st j k c :
  closing_ok junk t st → can_close t st → threads st !! j = Some (k, Leaving) →
  clients (proc st) !! k = Some (c, TCPClient.Closing) →
  ∃ st', step junk t st st' ∧ can_close t st' ∧ threads st' = <[j := (k, Ended)]> (threads st) ∧ at_ st' = at_ st.
Proof.
  intros H Hc Ej Ek.
  pose proof (reachable_process_typed junk _ (k_reachable _ _ _ H)) as [_ _ Hwf Hty].
  pose proof (TCPClient.wf_sorted _ Hwf) as Hsort.
  assert (∀ a p, (a, p) ∈ TCPClient.connections_ (shared (proc st)) → opened (globals (sv (proc st))) p) as Hop.
  { intros a p Hp. eapply (c_connections _ _ _ Hty a), elem_map_find; done. }
  destruct (close_release_ok 0 (shared (proc st)) (heap (proc st))) as (wenv & g' & r' & fds & E & Hr' & Hsame);
    [apply (cc_tidy _ _ Hc)|intros a p Hp; by eapply opened_live, Hop|].
  eexists. split; [by eapply (k_release junk t st j k c 0 wenv)|]. split; [|done].
  apply (can_close_goto st _ j k Leaving); [apply (k_distinct _ _ _ H)|done..| | | | |].
  - intros k' Hne. cbn. by rewrite lookup_delete_ne.
  - exact Hr'.
  - done.
  - intros c' ph' E'. cbn in E'. by rewrite lookup_delete_eq in E'.
  - intros q Hq. split; [|done]. apply Hsame. destruct Hq as [(k' & x & c' & ph & a & Hne & Hin' & Ek' & _ & Eq)|(s & ph & i & Es & Hq)].
    + right. intros E1. pose proof (TCPClient.wf_count _ Hwf) as Hn. cbn in Hn. rewrite E1 in Hn.
      assert (size (clients (proc st)) = 1%nat) as Hsz by lia.
      assert (size (delete k (clients (proc st))) = 0%nat) as Hz%map_size_empty_inv
        by (rewrite map_size_delete_Some by eauto; lia).
      assert (delete k (clients (proc st)) !! k' = Some (c', ph)) as Ed by by rewrite lookup_delete_ne.
      by rewrite Hz in Ed.
    + left. intros ([b p] & -> & Hp)%list_elem_of_fmap.
      by eapply (dialled_not_served _ s ph i p p); [apply (k_reachable _ _ _ H)|done..|by eapply Hop|].
Qed.

(** A thread that has begun to close its client ends. *)
Lemma leaving_ends n : ∀ st j k,
  closing_ok junk t st → can_close t st → threads st !! j = Some (k, Leaving) →
  (∀ c a, clients (proc st) !! k = Some (c, TCPClient.Stopping a) → (sections_left a < n)%nat) →
  ∃ st', rtc (step junk t) st st' ∧ can_close t st' ∧ threads st' = <[j := (k, Ended)]> (threads st) ∧ at_ st' = at_ st.
Proof.
  induction n as [|n IH]; intros st j k H Hc Ej Hn;
    destruct (k_thread _ _ _ H k Leaving (list_elem_of_lookup_2 _ _ _ Ej)) as (c & ph & Ek & Hl).
  - destruct ph as [| | | |a|]; try done; [by specialize (Hn _ _ Ek); lia|].
    destruct (release_goes st j k c H Hc Ej Ek) as (st' & Hs & Hc' & Et & Ea). exists st'. split_and!; [by apply rtc_once|done..].
  - destruct ph as [| | | |a|]; try done.
    + destruct (section_goes st j k c a H Hc Ej Ek) as (st1 & next & Hr & Hc1 & Et1 & Ea1 & Ek1 & Hless).
      destruct (IH st1 j k) as (st' & Hr' & Hc' & Et & Ea); [by eapply closing_run|done|by rewrite Et1| |].
      { intros c' a' E. rewrite Ek1 in E. injection E as <- E. destruct next as [a2|]; [|done]. injection E as ->.
        specialize (Hless a' eq_refl). specialize (Hn _ _ Ek). lia. }
      exists st'. split_and!; [by etrans|done|congruence..].
    + destruct (release_goes st j k c H Hc Ej Ek) as (st' & Hs & Hc' & Et & Ea). exists st'. split_and!; [by apply rtc_once|done..].
Qed.

Lemma thread_ends st j k x :
  closing_ok junk t st → can_close t st → threads st !! j = Some (k, x) →
  ∃ st', rtc (step junk t) st st' ∧ can_close t st' ∧ threads st' = <[j := (k, Ended)]> (threads st) ∧ at_ st' = at_ st.
Proof.
  intros H Hc Ej. assert (∀ a, (sections_left a < 6)%nat) as H6 by (intros []; cbn; lia). destruct x.
  - destruct (begin_goes st j k H Hc Ej) as (st1 & c & Hs & Hc1 & Et1 & Ea1 & _).
    destruct (leaving_ends 6 st1 j k) as (st' & Hr & Hc' & Et & Ea); [by eapply closing_run; [|apply rtc_once]|done| |done|].
    { rewrite Et1. apply list_lookup_insert_eq. by eapply lookup_lt_Some. }
    exists st'. split_and!; [by eapply rtc_l|done| |congruence]. by rewrite Et, Et1, list_insert_insert_eq.
  - by apply (leaving_ends 6).
  - exists st. split_and!; [done..| |done]. by apply same_threads.
Qed.

(** The threads from the [n]th on end, and then all have. *)
Lemma threads_end n : ∀ st,
  closing_ok junk t st → can_close t st → at_ st = Joining →
  (n ≤ length (threads st))%nat →
  (∀ j k x, (n ≤ j)%nat → threads st !! j = Some (k, x) → x = Ended) →
  ∃ st', rtc (step junk t) st st' ∧ can_close t st' ∧ at_ st' = Joining ∧ Forall (λ x, x.2 = Ended) (threads st').
Proof.
  induction n as [|n IH]; intros st H Hc Ea Hn Hall.
  - exists st. split_and!; [done..|]. apply Forall_forall. intros [k x] (j & Ej)%list_elem_of_lookup. eapply (Hall j); [lia|done].
  - destruct (lookup_lt_is_Some_2 (threads st) n) as [[k x] Ej]; [lia|].
    destruct (thread_ends st n k x H Hc Ej) as (st1 & Hr & Hc1 & Et1 & Ea1).
    destruct (IH st1) as (st' & Hr' & ? & ? & ?); [by eapply closing_run|done|congruence|by rewrite Et1, length_insert; lia| |].
    { intros j k' x' Hj E. rewrite Et1 in E. apply list_lookup_insert_Some in E as [(-> & [= <- <-] & _)|[Hne E]]; [done|].
      eapply (Hall j); [lia|done]. }
    exists st'. split_and!; [by etrans|done..].
Qed.

(** ** The server *)

(** [stop] on one connection of the server. *)
Lemma server_stops_one n : ∀ st s i q l a,
  at_ st = Stops ((i, q) :: l) a → server_at t (proc st) = Some (s, MDone) →
  can_stop a q (TCPServer.task_id_ s) st → tidy (heap (proc st)) → (sections_left a < n)%nat →
  ∃ st', rtc (step junk t) st st' ∧ at_ st' = Stops l AtMutex ∧ server_at t (proc st') = Some (s, MDone)
    ∧ tidy (heap (proc st')) ∧ ∀ q', q' ≠ q → untouched st st' q'.
Proof.
  induction n as [|n IH]; intros st s i q l a Ea Es [(o & Eo & Hr) Hm] Ht Hn; [lia|].
  destruct (stop_section_ok 0 a _ o Hr) as (next & o' & E & Hw & Hnext).
  set (st1 := set_working (if decide (a = AtErase) then working st ∖ {[(q, TCPServer.task_id_ s)]} else working st) st).
  assert (rtc (step junk t) st st1) as H1.
  { unfold st1. destruct (decide (a = AtErase)) as [->|]; [|by destruct st]. apply rtc_once.
    eapply k_finishes; [done|apply Hr]. }
  assert (enabled a q (TCPServer.task_id_ s) st1) as He.
  { unfold enabled, st1. destruct a; try done; [by apply Hm|]. cbn. set_solver. }
  pose proof (k_server_section junk t st1 s i q l a 0 0 next o o' Ea Es He Eo E) as Hs.
  set (st2 := set_stage _ _) in Hs.
  assert (∀ q', q' ≠ q → untouched st st2 q') as Hun.
  { intros q' Hne. split; cbn; [by rewrite lookup_insert_ne|]. destruct a; cbn; rewrite ?lookup_insert_ne, ?lookup_delete_ne; done. }
  assert (rtc (step junk t) st st2) as H2 by by eapply rtc_r.
  assert (tidy (heap (proc st2))) as Ht2 by by apply tidy_set.
  destruct next as [a'|]; [|by exists st2].
  destruct (Hnext a' eq_refl) as (Hr' & Hne & Hlt).
  destruct (IH st2 s i q l a') as (st' & Hrun & ? & ? & ? & Hun'); [done..| |done|lia|].
  { split; [|done]. exists o'. split; [cbn; apply lookup_insert_eq|done]. }
  exists st'. split_and!; [by etrans|done..|]. intros q' Hq'. destruct (Hun q' Hq') as [E1 E2], (Hun' q' Hq') as [E3 E4].
  split; congruence.
Qed.

Lemma server_stops l : ∀ st s,
  at_ st = Stops l AtMutex → server_at t (proc st) = Some (s, MDone) → NoDup l.*2 →
  (∀ i q, (i, q) ∈ l → can_stop AtMutex q (TCPServer.task_id_ s) st) → tidy (heap (proc st)) →
  ∃ st', rtc (step junk t) st st' ∧ at_ st' = Stops [] AtMutex ∧ server_at t (proc st') = Some (s, MDone)
    ∧ tidy (heap (proc st')).
Proof.
  induction l as [|[i q] l IH]; intros st s Ea Es Hnd Hc Ht; [by exists st|].
  cbn in Hnd. apply NoDup_cons in Hnd as [Hq Hnd].
  destruct (server_stops_one 6 st s i q l AtMutex) as (st1 & Hr & Ea1 & Es1 & Ht1 & Hun);
    [done|done|apply (Hc i); by left|done|cbn; lia|].
  destruct (IH st1 s) as (st' & Hr' & ? & ? & ?); [done..| |done|].
  - intros i' q' Hin. eapply can_stop_same; [apply Hun|apply (Hc i'); by right]. intros ->. apply Hq.
    apply list_elem_of_fmap. by exists (i', q).
  - exists st'. split_and!; [by etrans|done..].
Qed.

(** The loop of a server that was told to stop returns. *)
Lemma loop_returns s ph g :
  stop_ s = true →
  TCPServer.loop_main_step junk 0 s g ph 0 0 [] =
    Ok (MDone, TCPServer.set_listen_count (TCPServer.listen_count_ g - (if TCPServer.listening ph then 1 else 0)) g, []).
Proof.
  intros Hs. unfold TCPServer.loop_main_step. rewrite Hs. destruct ph; cbn -[Z.sub].
  - rewrite orb_true_r. cbn. rewrite Z.sub_0_r. by destruct g.
  - done.
  - done.
  - rewrite Z.sub_0_r. by destruct g.
Qed.

Definition has_left (ph : TCPServer.main_phase) (g : TCPServer.statics) : TCPServer.statics :=
  TCPServer.set_listen_count (TCPServer.listen_count_ g - (if TCPServer.listening ph then 1 else 0)) g.

(** [stop] of the server, up to its connections. *)
Lemma server_told st s ph :
  at_ st = Joining → Forall (λ x, x.2 = Ended) (threads st) → server_at t (proc st) = Some (s, ph) → stop_ s = false →
  let s1 := TCPServer.set_stop s in
  rtc (step junk t) st (set_stage (Stops (server_connections_ s) AtMutex)
    (set_proc (with_servers (has_left ph (globals (sv (proc st)))) (<[t := (s1, MDone)]> (servers (sv (proc st)))) (proc st)) st)).
Proof.
  intros Ea Hall Es Hst s1. destruct st as [[[g th] cg cs] ths at1 m w]. unfold server_at in Es. cbn in *. subst at1.
  eapply rtc_l; [by eapply (k_flag junk t (State (Proc (TCPServer.World g th) cg cs) ths Joining m w) s ph)|].
  set (W g ph a := State (Proc (TCPServer.World g (<[t := (s1, ph)]> th)) cg cs) ths a m w).
  change (set_stage Flagged _) with (W g ph Flagged).
  eapply rtc_l; [|apply rtc_once; refine (k_joined junk t (W (has_left ph g) MDone Flagged) s1 _ _ _);
    [done|unfold server_at; cbn; apply lookup_insert_eq|done]].
  apply (k_process junk t (W g ph Flagged) (proc (W (has_left ph g) MDone Flagged))).
  - refine (p_server junk (proc (W g ph Flagged)) (TCPServer.World (has_left ph g) (<[t := (s1, MDone)]> th)) _).
    replace (<[t := (s1, MDone)]> th) with (<[t := (s1, MDone)]> (<[t := (s1, ph)]> th)) by by rewrite insert_insert_eq.
    refine (TCPServer.w_loop junk g (<[t := (s1, ph)]> th) t s1 ph 0 0 0 [] MDone _ [] _ _); [apply lookup_insert_eq|].
    by apply loop_returns.
  - split; [done|]. unfold server_at. cbn. rewrite !lookup_insert_eq. by exists MDone.
Qed.

Lemma server_ends st :
  closing_ok junk t st → can_close t st → at_ st = Joining → Forall (λ x, x.2 = Ended) (threads st) →
  ∃ st', rtc (step junk t) st st' ∧ at_ st' = Closed.
Proof.
  intros H Hc Ea Hall. destruct (cc_server _ _ Hc) as (s & ph & Es & Hst & Hcs).
  pose proof (server_connections_apart _ _ _ (k_reachable _ _ _ H) Es) as Hnd.
  pose proof (server_told st s ph Ea Hall Es Hst) as H1. cbv zeta in H1. set (st1 := set_stage _ _) in H1.
  set (s1 := TCPServer.set_stop s) in *.
  destruct (server_stops (server_connections_ s1) st1 s1) as (st2 & H2 & Ea2 & Es2 & Ht2);
    [done|unfold server_at; cbn; apply lookup_insert_eq|done| | |].
  { intros i q Hin. eapply can_stop_same; [|by eapply Hcs]. by split. }
  { apply (cc_tidy _ _ Hc). }
  assert (closing_ok junk t st2) as Hok by (eapply closing_run; [done|by etrans]).
  pose proof (pt_servers _ (reachable_process_typed junk _ (k_reachable _ _ _ Hok))) as Hty.
  destruct (stop_release_ok 0 s1 (globals (sv (proc st2)))) as (wenv & s' & g' & fds & E); [done| |].
  { intros a p Hin. destruct (t_connections _ _ Hty) as [Hsort Hm].
    destruct (Hm a p) as (o & Eo & _); [by apply elem_map_find|]. by exists o. }
  eexists. split; [etrans; [exact H1|etrans; [exact H2|apply rtc_once]]; by eapply (k_released junk t)|done].
Qed.

Lemma close_ends st :
  closing_ok junk t st → can_close t st → at_ st = Joining → ∃ st', rtc (step junk t) st st' ∧ at_ st' = Closed.
Proof.
  intros H Hc Ea. destruct (threads_end (length (threads st)) st H Hc Ea) as (st1 & Hr1 & Hc1 & Ea1 & Hall); [done| |].
  { intros j k x Hj E%lookup_lt_Some. lia. }
  destruct (server_ends st1) as (st2 & Hr2 & Ea2); [by eapply closing_run|done..|]. exists st2. split; [by etrans|done].
Qed.

(** ** One thread after the other *)

(** [conn_stop] of a client whose thread is the only one that moves. *)
Lemma client_stops st j k c now elapsed r' :
  threads st !! j = Some (k, Leaving) → clients (proc st) !! k = Some (c, TCPClient.Stopping AtMutex) →
  mtx st = ∅ → working st = ∅ → TCPClient.close_stop now elapsed c (heap (proc st)) = Ok r' →
  rtc (step junk t) st (set_proc (with_client r' k c TCPClient.Closing (proc st)) st).
Proof.
  intros Ej Ek Em Ew E. destruct st as [p ths a1 m1 w1]. cbn in *. subst m1 w1.
  apply close_stop_heap in E as (q & o & o' & Eq & Eo & Es & _ & ->).
  set (S o m ph := State (with_client (set_object q o (heap p)) k c ph p) ths a1 m ∅).
  assert (∀ a o1 next o2 m, stop_section now elapsed (TCPClient.task_id_ c) a o1 = Ok (next, o2) →
    (a = AtMutex → m = ∅) → step junk t (S o1 m (TCPClient.Stopping a)) (S o2 (mtx_after a q m) (TCPClient.next_phase next))) as Hsec.
  { intros a o1 next o2 m E Hm.
    assert (TCPClient.close_section now elapsed a c (set_object q o1 (heap p)) = Ok (next, set_object q o2 (heap p))) as E'.
    { unfold TCPClient.close_section, TCPServer.deref. rewrite Eq. cbn [mbind mret outcome_bind outcome_ret objects set_object].
      rewrite lookup_insert_eq. cbn [mbind outcome_bind]. rewrite E. cbn [mbind outcome_bind]. unfold set_object. cbn. by rewrite insert_insert_eq. }
    assert (enabled a q (TCPClient.task_id_ c) (S o1 m (TCPClient.Stopping a))) as He.
    { unfold enabled. destruct a; first [done|rewrite Hm by done; apply lookup_empty|cbn; set_solver]. }
    pose proof (k_section junk t (S o1 m (TCPClient.Stopping a)) j k c a q now elapsed next _ Ej (lookup_insert_eq _ _ _) Eq He E') as H.
    unfold S, set_mtx, set_proc, with_client, with_clients, with_heap in *. cbn in *. by rewrite insert_insert_eq in H. }
  apply conn_stop_sections in Es as (o1 & o2 & o3 & o4 & E1 & E2 & E3 & E4 & E5).
  assert (State p ths a1 ∅ ∅ = S o ∅ (TCPClient.Stopping AtMutex)) as ->.
  { unfold S, with_client, with_clients, with_heap, set_object. rewrite !insert_id by done. destruct p as [[[[] ?] ?] ? ?]. done. }
  eapply rtc_l; [by eapply Hsec|]. eapply rtc_l; [by eapply Hsec|]. cbn [mtx_after]. rewrite delete_insert_eq, delete_empty.
  eapply rtc_l; [by eapply Hsec|]. eapply rtc_l; [by eapply Hsec|]. apply rtc_once. by apply (Hsec AtErase _ None).
Qed.

(** [close] of a connected client, as the moves of its thread. *)
Lemma client_run p ths j k c now elapsed wenv c' g' r' fds :
  ths !! j = Some (k, Begin) → clients p !! k = Some (c, TCPClient.Connected) →
  TCPClient.connected_ c = true →
  TCPClient.close junk now elapsed wenv c (shared p) (heap p) = Ok (c', g', r', fds) →
  rtc (step junk t) (State p ths Joining ∅ ∅)
    (State (with_clients r' g' (delete k (clients p)) p) (<[j := (k, Ended)]> ths) Joining ∅ ∅).
Proof.
  intros Ej Ek Hc E. unfold TCPClient.close in E. rewrite Hc in E. apply bind_Ok in E as (r1 & Es & E).
  apply bind_Ok in E as ([[g2 r2] f2] & Er & E). injection E as <- <- <- <-.
  set (c1 := TCPClient.set_unconnected c). set (ths1 := <[j := (k, Leaving)]> ths).
  assert (ths1 !! j = Some (k, Leaving)) as Ej1 by (apply list_lookup_insert_eq; by eapply lookup_lt_Some).
  eapply rtc_l; [by apply (k_begin junk t (State p ths Joining ∅ ∅) j k c)|].
  set (p1 := with_client (heap p) k c1 (TCPClient.Stopping AtMutex) p). change (goto j k Leaving _) with (State p1 ths1 Joining ∅ ∅).
  etrans; [by eapply (client_stops (State p1 ths1 Joining ∅ ∅) j k c1); [exact Ej1|apply lookup_insert_eq|done|done|exact Es]|].
  apply rtc_once. set (p2 := with_client r1 k c1 TCPClient.Closing p1).
  pose proof (k_release junk t (State p2 ths1 Joining ∅ ∅) j k c1 now wenv g2 r2 f2 Ej1 (lookup_insert_eq _ _ _) Er) as Hs.
  unfold goto, set_proc, p2, p1, with_client, with_clients, with_heap in *. cbn in *.
  unfold ths1 in *. rewrite list_insert_insert_eq, insert_insert_eq, delete_insert_eq in Hs. rewrite insert_insert_eq. exact Hs.
Qed.

Lemma clients_closed now elapsed wenv l : ∀ (done : list Z) ks p g r fds g' r' fds',
  for_each (λ '(cg, r, fds) '(_, c),
      '(_, cg, r, more) ← TCPClient.close junk now elapsed wenv c cg r; mret (cg, r, fds ++ more)) (g, r, fds) l
    = Ok (g', r', fds') →
  shared p = g → heap p = r → NoDup (ks : list Z) →
  Forall2 (λ (x : bytes * TCPClient.client) k, clients p !! k = Some (x.2, TCPClient.Connected) ∧ TCPClient.connected_ x.2 = true) l ks →
  ∃ cs, rtc (step junk t) (State p (((λ k, (k, Ended)) <$> done) ++ ((λ k, (k, Begin)) <$> ks)) Joining ∅ ∅)
              (State (with_clients r' g' cs p) (((λ k, (k, Ended)) <$> done ++ ks)) Joining ∅ ∅).
Proof.
  induction l as [|[id c] l IH]; intros ended ks p g r fds g' r' fds' E Eg Er Hnd Hall.
  - injection E as <- <- <-. apply Forall2_nil_inv_l in Hall as ->. exists (clients p).
    rewrite !app_nil_r. apply reflexive_eq. destruct p as [[[] ?] ? ?]. cbn in *. by subst.
  - apply Forall2_cons_inv_l in Hall as (k & ks' & [Ek Hc] & Hall & ->). apply NoDup_cons in Hnd as [Hk Hnd].
    cbn [for_each] in E. apply bind_Ok in E as ([[g1 r1] f1] & E1 & E).
    apply bind_Ok in E1 as ([[[c1 g2] r2] f2] & Ec & E1). injection E1 as <- <- <-. subst g r.
    set (p1 := with_clients r2 g2 (delete k (clients p)) p).
    destruct (IH (ended ++ [k]) ks' p1 g2 r2 _ _ _ _ E) as [cs Hr]; [done|done|done| |].
    { apply Forall2_same_length_lookup in Hall as [Hlen Hall]. apply Forall2_same_length_lookup. split; [done|].
      intros i0 x k' Ex Ek'. destruct (Hall i0 x k' Ex Ek') as [? ?]. split; [|done]. cbn. rewrite lookup_delete_ne; [done|].
      intros <-. apply Hk. by eapply list_elem_of_lookup_2. }
    exists cs. etrans; [|etrans; [exact Hr|]].
    + set (A := (λ k, (k, Ended)) <$> ended). set (B := (λ k, (k, Begin)) <$> ks').
      pose proof (client_run p (A ++ (k, Begin) :: B) (length A) k c now elapsed wenv c1 g2 r2 f2
        (list_lookup_middle A B (k, Begin) _ eq_refl) Ek Hc Ec) as Hrun.
      rewrite <- (Nat.add_0_r (length A)), insert_app_r in Hrun.
      rewrite fmap_app, <- app_assoc. exact Hrun.
    + by rewrite <- app_assoc.
Qed.

(** The loop of [stop] over the connections of the server. *)
Lemma server_stops_in_order now elapsed s l : ∀ p r',
  server_at t p = Some (s, MDone) →
  for_each (λ r '(_, q), o ← TCPServer.deref r q; o ← conn_stop now elapsed (TCPServer.task_id_ s) o; mret (set_object q o r))
    (heap p) l = Ok r' →
  ∀ ths, rtc (step junk t) (State p ths (Stops l AtMutex) ∅ ∅)
    (State (with_clients r' (shared p) (clients p) p) ths (Stops [] AtMutex) ∅ ∅).
Proof.
  induction l as [|[i q] l IH]; intros p r' Es E ths.
  { injection E as <-. apply reflexive_eq. by destruct p as [[[] ?] ? ?]. }
  cbn [for_each] in E. apply bind_Ok in E as (r1 & E1 & E). apply bind_Ok in E1 as (o & Eo%deref_Ok & E1).
  apply bind_Ok in E1 as (o' & Ec & E1). injection E1 as <-.
  set (P o := with_clients (set_object q o (heap p)) (shared p) (clients p) p).
  set (S o m a := State (P o) ths (Stops ((i, q) :: l) a) m ∅).
  assert (∀ a o1 next o2 m, stop_section now elapsed (TCPServer.task_id_ s) a o1 = Ok (next, o2) → (a = AtMutex → m = ∅) →
    step junk t (S o1 m a) (State (P o2) ths (match next with Some a' => Stops ((i, q) :: l) a' | None => Stops l AtMutex end)
                              (mtx_after a q m) ∅)) as Hsec.
  { intros a o1 next o2 m E1 Hm.
    assert (enabled a q (TCPServer.task_id_ s) (S o1 m a)) as He.
    { unfold enabled. destruct a; first [done|rewrite Hm by done; apply lookup_empty|cbn; set_solver]. }
    pose proof (k_server_section junk t (S o1 m a) s i q l a now elapsed next o1 o2 eq_refl Es He (lookup_insert_eq _ _ _) E1) as H.
    unfold S, P, set_stage, set_mtx, set_proc, with_clients, with_heap, set_object in *. cbn in *. by rewrite insert_insert_eq in H. }
  apply conn_stop_sections in Ec as (o1 & o2 & o3 & o4 & E1 & E2 & E3 & E4 & E5).
  assert (State p ths (Stops ((i, q) :: l) AtMutex) ∅ ∅ = S o ∅ AtMutex) as ->.
  { unfold S, P, with_clients, with_heap, set_object. rewrite insert_id by done. by destruct p as [[[[] ?] ?] ? ?]. }
  eapply rtc_l; [by eapply Hsec|]. eapply rtc_l; [by eapply Hsec|]. cbn [mtx_after]. rewrite delete_insert_eq, delete_empty.
  eapply rtc_l; [by eapply Hsec|]. eapply rtc_l; [by eapply Hsec|]. eapply rtc_l; [by apply (Hsec AtErase _ None)|].
  pose proof (IH (P o') r' Es E ths) as H. unfold P, with_clients, with_heap in H. cbn in H. exact H.
Qed.
End lemmas.

(** * Properties *)

(** C28: however the threads of [close] interleave with each other and with the other
    tasks of the process, the server of the task is stopped only when every client of
    the [BasicIO] that was connected has been closed and is gone, and when [close]
    returns the server is gone too.  A client whose [connect] had failed is skipped: it
    stays in the count of clients for ever.  The process is then one the other tasks
    can go on with, and its count is that of the clients left. *)
Theorem close_takes_connected junk t p ks m w st :
  Process.reachable junk p → NoDup ks → (∀ k, k ∈ ks → thread_ok p k Begin) →
  rtc (step junk t) (closing p ks m w) st →
  (at_ st ≠ Joining → ∀ k, k ∈ ks →
     match clients p !! k with
     | Some (c, TCPClient.Failed) => clients (proc st) !! k = Some (c, TCPClient.Failed)
     | _ => clients (proc st) !! k = None
     end)
  ∧ (at_ st = Closed → server_at t (proc st) = None)
  ∧ Process.reachable junk (proc st)
  ∧ TCPClient.task_count_ (shared (proc st)) = Z.of_nat (size (clients (proc st))).
Proof.
  intros Hr Hnd Hks Hrun. pose proof (closing_start junk t p ks m w Hr Hnd Hks) as H0.
  pose proof (closing_run junk t _ _ H0 Hrun) as H.
  assert ((threads (closing p ks m w)).*1 = ks) as Eks by by cbn; rewrite <- list_fmap_compose, list_fmap_id.
  split_and!; [|apply (k_server _ _ _ H)|apply (k_reachable _ _ _ H)
    |apply (TCPClient.wf_count _ (reachable_clients_wf junk _ (k_reachable _ _ _ H)))].
  intros Ha k Hk.
  assert (∀ c, failed (proc st) k c ↔ failed p k c) as Hf by (intros c; apply (failed_stays junk t (closing p ks m w)); [done..|congruence]).
  destruct (Hks k Hk) as (c & ph & Ek & [->| ->]); rewrite Ek; [|by apply Hf].
  destruct (ended_gone junk t ks st H) with (k := k) as [?|[d Hd%Hf]]; try done; [by rewrite (threads_same _ _ _ _ Hrun)|].
  unfold failed in Hd. congruence.
Qed.


(** C30: the sequential [BasicIO.close], one client after the other, is one of those
    runs, with the same effect on the process, whatever the loop of the server is doing
    when it is told to stop: waiting for its turn, waiting for the clients, serving or
    done.  No other task is in [start] or [stop] of a connection meanwhile, and the
    threads of the task have finished when they are joined.  And calling it again, as
    the destructor does after an explicit [close], changes nothing and closes no
    descriptor. *)
Theorem close_in_order junk p ks i g now elapsed wenv i' g' fds ph :
  BasicIO.close junk now elapsed wenv true i g = Ok (i', g', fds) →
  shared p = BasicIO.clients_of g → has_left ph (globals (sv p)) = BasicIO.servers_of g →
  server_at (BasicIO.task_id_ i) p = Some (BasicIO.server i, ph) →
  stop_ (BasicIO.server i) = false → TCPServer.loop_thread_ (BasicIO.server i) = true → NoDup ks →
  Forall2 (λ (x : bytes * TCPClient.client) k,
    clients p !! k = Some (x.2, TCPClient.Connected) ∧ TCPClient.connected_ x.2 = true) (BasicIO.clients i) ks →
  (∃ st, rtc (step junk (BasicIO.task_id_ i)) (closing p ks ∅ ∅) st ∧ at_ st = Closed
     ∧ shared (proc st) = BasicIO.clients_of g' ∧ globals (sv (proc st)) = BasicIO.servers_of g')
  ∧ ∀ now elapsed wenv returned, BasicIO.close junk now elapsed wenv returned i' g' = Ok (i', g', []).
Proof.
  intros E Esh Egl Esv Hst Hlt Hnd Hall. unfold BasicIO.close in E.
  apply bind_Ok in E as ([[cg r] f1] & Ec & E). apply bind_Ok in E as ([[s sg] f2] & Es & E). injection E as <- <- <-.
  unfold TCPServer.stop in Es. rewrite Hst, Hlt in Es. cbn [negb wait_until mbind outcome_bind] in Es.
  unfold TCPServer.stop_joined in Es. apply bind_Ok in Es as (r1 & Est & Es).
  assert (stop_ s = true) as Hs'.
  { unfold TCPServer.stop_release in Es. apply bind_Ok in Es as (u & _ & Es).
    destruct (_ && _); [apply bind_Ok in Es as ([r2 f3] & _ & Es)|]; by injection Es as <- _ _. }
  split.
  - destruct (clients_closed junk (BasicIO.task_id_ i) now elapsed wenv _ [] ks p _ _ _ _ _ _ Ec) as [cs Hrun]; [done| |done..|].
    { unfold BasicIO.heap. by rewrite <- Egl. }
    cbn in Hrun. set (st1 := State _ _ Joining ∅ ∅) in Hrun at 2.
    pose proof (server_told junk (BasicIO.task_id_ i) st1 (BasicIO.server i) ph eq_refl) as Ht. cbv zeta in Ht.
    specialize (Ht ltac:(cbn; apply Forall_fmap; by apply Forall_true) Esv Hst).
    set (st2 := set_stage _ _) in Ht. set (s1 := TCPServer.set_stop (BasicIO.server i)) in *.
    assert (server_at (BasicIO.task_id_ i) (proc st2) = Some (s1, MDone)) as Es2 by (unfold server_at; cbn; apply lookup_insert_eq).
    pose proof (server_stops_in_order junk (BasicIO.task_id_ i) now elapsed s1 (server_connections_ s1) (proc st2) r1 Es2 Est
      (threads st2)) as Hstop. set (st3 := State _ _ (Stops [] _) ∅ ∅) in Hstop.
    assert (server_at (BasicIO.task_id_ i) (proc st3) = Some (s1, MDone)) as Es3 by exact Es2.
    assert (globals (sv (proc st3)) = set_reg r1 (set_reg r (BasicIO.servers_of g))) as Eg3.
    { rewrite <- Egl. by destruct p as [[[] ?] ? ?]. }
    rewrite <- Eg3 in Es. pose proof (k_released junk (BasicIO.task_id_ i) st3 AtMutex s1 now wenv s sg f2 eq_refl Es3 eq_refl Es) as H3.
    eexists. split; [|split; [by instantiate (1 := set_stage Closed _)|]].
    + etrans; [exact Hrun|]. etrans; [exact Ht|]. etrans; [exact Hstop|]. apply rtc_once. exact H3.
    + done.
  - intros. unfold BasicIO.close, TCPServer.stop. cbn. rewrite Hs'. cbn. by destruct sg.
Qed.

(** * Witnesses *)

(** Task "b" of [Lifetime] closes, with one client, on connection 2. *)
Definition zero : nat → byte := λ _, x00.
Definition b_process : process := Lifetime.proc (Lifetime.connected_b zero Lifetime.ready_object).

Lemma b_process_reachable : Process.reachable zero b_process.
Proof.
  assert (∀ w, Lifetime.reachable zero w → Process.reachable zero (Lifetime.proc w)) as H.
  { intros w Hr. unfold Process.reachable.
    refine (proj2 (invariant_rtc (Lifetime.step zero) (λ w, Lifetime.lifetime_wf w
      ∧ rtc (Process.step zero) process_init (Lifetime.proc w)) _ _ _ Hr)).
    - intros w1 w2 [Hw Hr1] Hs. split; [by eapply Lifetime.lifetime_invariant|]. etrans; [exact Hr1|].
      by apply Lifetime.step_process.
    - split; [|done]. apply (Lifetime.lifetime_reachable_wf zero). constructor. }
  apply H, Lifetime.scenario_connected.
Qed.

Lemma b_begins k : k ∈ [1] → thread_ok b_process k Begin.
Proof. intros ->%list_elem_of_singleton. do 2 eexists. split; [reflexivity|by left]. Qed.

Lemma ready_wf : conn_wf (conn Lifetime.ready_object).
Proof. split; [by apply ring_of_wf..|]. by apply map_Forall_singleton, ring_of_wf. Qed.

(** The thread of "b" on connection 2 has not finished. *)
Definition b_working : gset (Z * bytes) := {[(2, str "b")]}.

Lemma b_can_close : can_close (str "b") (closing b_process [1] ∅ b_working).
Proof.
  split.
  - apply map_Forall_insert_2; [exact ready_wf|]. apply map_Forall_insert_2; [|apply map_Forall_empty].
    apply Connection_create_wf.
  - intros k c ph [= ->]%list_elem_of_singleton [= <- <-]. done.
  - intros k x c ph a [= -> ->]%list_elem_of_singleton [= <- <-] [= <-]. exists 2. split; [reflexivity|].
    split; [|done]. exists Lifetime.ready_object. split; [reflexivity|]. split; [exact ready_wf|].
    split; [reflexivity|]. split; [reflexivity|by eexists].
  - intros k1 k2 x1 x2 c1 c2 ph1 ph2 q [= -> _]%list_elem_of_singleton [= -> _]%list_elem_of_singleton. done.
  - do 2 eexists. split; [reflexivity|]. split; [reflexivity|]. intros i q ?%elem_of_nil. done.
Qed.

Lemma close_takes_connected_witness :
  ∃ st, at_ st = Closed ∧ clients (proc st) !! 1 = None ∧ server_at (str "b") (proc st) = None
    ∧ Process.reachable zero (proc st)
    ∧ TCPClient.task_count_ (shared (proc st)) = Z.of_nat (size (clients (proc st))).
Proof.
  destruct (close_ends zero (str "b") (closing b_process [1] ∅ b_working)) as (st & Hr & Ea);
    [apply closing_start; [exact b_process_reachable|apply NoDup_singleton|exact b_begins]|exact b_can_close|reflexivity|].
  exists st. split; [exact Ea|].
  destruct (close_takes_connected zero (str "b") b_process [1] ∅ b_working st) as (H1 & H2 & H3);
    [exact b_process_reachable|apply NoDup_singleton|exact b_begins|exact Hr|].
  split; [|split; [by apply H2|exact H3]]. apply (H1 ltac:(by rewrite Ea) 1). by apply list_elem_of_singleton.
Defined.


(** The [BasicIO] of the task; the loop of its server waits for its turn. *)
Definition b_io : BasicIO.io :=
  BasicIO.IO (str "b") (sample_plan "P0").1 [] [] 1000 3 (Lifetime.task_server (str "b") false)
    [(str "P2", Lifetime.b_client_on 2)] [(str "P2", Some 2)].
Definition b_globals : BasicIO.process :=
  BasicIO.Process (has_left TCPServer.MWait (globals (sv b_process))) (shared b_process).

Lemma b_close : ∃ i' g' fds, BasicIO.close zero 0 0 (λ _, []) true b_io b_globals = Ok (i', g', fds).
Proof.
  unfold b_globals, b_process. cbn [Lifetime.proc Lifetime.connected_b Lifetime.waiting_b Lifetime.running sv shared globals].
  unfold Lifetime.one_object. generalize (Lifetime.listen_object zero) as l. intros l. do 3 eexists. vm_compute. reflexivity.
Qed.

Lemma close_in_order_witness :
  Process.reachable zero b_process ∧
  ∃ i' g' fds, BasicIO.close zero 0 0 (λ _, []) true b_io b_globals = Ok (i', g', fds)
    ∧ (∃ st, rtc (step zero (BasicIO.task_id_ b_io)) (closing b_process [1] ∅ ∅) st ∧ at_ st = Closed
         ∧ shared (proc st) = BasicIO.clients_of g' ∧ globals (sv (proc st)) = BasicIO.servers_of g')
    ∧ ∀ now elapsed wenv returned, BasicIO.close zero now elapsed wenv returned i' g' = Ok (i', g', []).
Proof.
  split; [exact b_process_reachable|].
  destruct b_close as (i' & g' & fds & E). exists i', g', fds. split; [exact E|].
  refine (close_in_order zero b_process [1] b_io b_globals 0 0 (λ _, []) i' g' fds TCPServer.MWait E _ _ _ _ _ _ _);
    [reflexivity..| |].
  - apply NoDup_singleton.
  - repeat constructor.
Defined.
End Closing.
