(* ===== verification/Network.v ===== *)
(** The nodes of a computation and the connections between them: every node is a
    [BasicIO] in its process, the applications call [Send] and [Recv] of
    [src/channel.cpp] and [src/net_io.cpp] on it, and the worker threads, the
    server threads and the network move the bytes of every connection as in [Link].
    What it implements is a mailbox: one queue of bytes per sender, receiver and
    message id.  Network and mailbox simulate each other, so whatever the threads
    and the network do, the applications see a mailbox, and everything the mailbox
    lets them do the network can do too. *)
From stdpp Require Import functions.
From Stdlib Require Import Strings.Byte.
From S2P Require Import Prelude Timer CycleBuffer SimpleBuffer Transport Connection Link StdMap Config.
From S2P Require Import Codec Topology Work Server Client NetIO.
#[local] Open Scope Z_scope.

(** * The system *)

Record node := Node { n_io : BasicIO.io; n_process : BasicIO.process }.

(** From one node to another: the local of [loop_send] at the sender, the wire, the
    locals of [loop_recv] at the receiver, and what was sent and received so far. *)
Record channel := Channel {
  c_out : bytes;
  c_wire : bytes;
  c_in : option msg;
  c_sent : list msg;
  c_recv : list msg
}.

Definition no_traffic : channel := Channel [] [] None [] [].

Record net := Net {
  nodes : gmap bytes node;
  chans : bytes * bytes → channel          (** (sender, receiver) *)
}.

(** The connection object a node uses for a peer. *)
Definition address_of (nd : node) (peer : bytes) : option Z :=
  mjoin (map_find peer (BasicIO.connection_map (n_io nd))).
Definition object_of (nd : node) (peer : bytes) : option conn_obj :=
  p ← address_of nd peer; TCPServer.objects (BasicIO.heap (n_process nd)) !! p.

Definition end_of (w : net) (a b : bytes) : option Connection :=
  nd ← nodes w !! a; conn <$> object_of nd b.

(** One direction of the connection between two nodes. *)
Definition link_of (w : net) (a b : bytes) : option link :=
  c ← end_of w a b; c' ← end_of w b a;
  let ch := chans w (a, b) in
  Some (Link c (c_out ch) (c_wire ch) c' (c_in ch) (c_sent ch) (c_recv ch)).

(** Updates. *)
Definition set_conn (peer : bytes) (c : Connection) (nd : node) : node :=
  match address_of nd peer, object_of nd peer with
  | Some p, Some o =>
    let g := n_process nd in
    Node (n_io nd)
         (BasicIO.set_heap (TCPServer.set_object p (Obj c (tasks o)) (BasicIO.heap g)) g)
  | _, _ => nd
  end.
Definition set_end (a b : bytes) (c : Connection) (w : net) : net :=
  Net (alter (set_conn b c) a (nodes w)) (chans w).
Definition set_chan (a b : bytes) (ch : channel) (w : net) : net :=
  Net (nodes w) (<[(a, b) := ch]> (chans w)).
Definition set_link (a b : bytes) (l : link) (w : net) : net :=
  set_chan a b (Channel (outbox l) (wire l) (inbox l) (log_sent l) (log_recv l))
    (set_end b a (rx l) (set_end a b (tx l) w)).

Definition log_send (m : msg) (ch : channel) : channel :=
  Channel (c_out ch) (c_wire ch) (c_in ch) (c_sent ch ++ [m]) (c_recv ch).
Definition log_receive (m : msg) (ch : channel) : channel :=
  Channel (c_out ch) (c_wire ch) (c_in ch) (c_sent ch) (c_recv ch ++ [m]).

(** What the applications see: the calls that returned. *)
Inductive event :=
  | Sent (from to id data : bytes)
  | Received (from to id data : bytes)
  | Failed (from to id : bytes) (ret : Z).    (** [Recv] returned an error result *)

Section system.
Context (junk : nat → byte).

Inductive net_step : option event → relation net :=
  | net_internal w a b l l' :
      link_of w a b = Some l → internal junk l l' →
      net_step None w (set_link a b l' w)
  | net_send w a b nd now id bin data n g' :
      nodes w !! a = Some nd → get_string id = Ok bin → sendable (bin, data) = true →
      BasicIO.Send junk now (n_io nd) (n_process nd) b id data (zlen data) = Ok (n, g') →
      net_step (Some (Sent a b bin data)) w
        (set_chan a b (log_send (bin, data) (chans w (a, b)))
           (Net (<[a := Node (n_io nd) g']> (nodes w)) (chans w)))
  | net_recv w a b nd now elapsed st id bin len data timeout g' :
      nodes w !! b = Some nd → get_string id = Ok bin → 0 ≤ len →
      BasicIO.Recv now elapsed st (n_io nd) (n_process nd) a id (new_char junk len) len timeout
        = Ok (len, data, g') →
      net_step (Some (Received a b bin data)) w
        (set_chan a b (log_receive (bin, data) (chans w (a, b)))
           (Net (<[b := Node (n_io nd) g']> (nodes w)) (chans w)))
  | net_fail w a b nd now elapsed st id bin len ret data timeout g' :
      nodes w !! b = Some nd → get_string id = Ok bin → 0 ≤ len → ret < 0 →
      BasicIO.Recv now elapsed st (n_io nd) (n_process nd) a id (new_char junk len) len timeout
        = Ok (ret, data, g') →
      net_step (Some (Failed a b bin ret)) w (Net (<[b := Node (n_io nd) g']> (nodes w)) (chans w)).
End system.

(** * The specification: a mailbox *)

(** What was sent and not yet received, by sender, receiver and id. *)
Abbreviation mailbox := (bytes * bytes * bytes → bytes).

Inductive mailbox_step : option event → relation mailbox :=
  | mailbox_send mb a b id data :
      mailbox_step (Some (Sent a b id data)) mb (<[(a, b, id) := mb (a, b, id) ++ data]> mb)
  | mailbox_recv mb a b id data rest :
      mb (a, b, id) = data ++ rest →
      mailbox_step (Some (Received a b id data)) mb (<[(a, b, id) := rest]> mb)
  | mailbox_fail mb a b id ret :
      ret < 0 → mailbox_step (Some (Failed a b id ret)) mb mb.

Definition no_mail : mailbox := λ _, [].

(** * What relates them *)

(** The connections of a node are different objects, one to each of its peers, and
    each has another end. *)
Record wired (w : net) : Prop := {
  w_inj a nd b b' p :
    nodes w !! a = Some nd → address_of nd b = Some p → address_of nd b' = Some p → b = b';
  w_other a b : is_Some (end_of w a b) → is_Some (end_of w b a);
  w_self a : end_of w a a = None
}.

(** The counters of the rings do not wrap. *)
Definition bounded (w : net) : Prop := ∀ a b, 3 * volume (c_sent (chans w (a, b))) < 2 ^ 63.

(** A step to a state whose counters do not wrap. *)
Definition bounded_step (junk : nat → byte) (e : option event) (w w' : net) : Prop :=
  net_step junk e w w' ∧ bounded w'.

Definition carries (mb : mailbox) (a b : bytes) (l : link) : Prop :=
  (∃ done_ todo, in_transit l done_ todo)
  ∧ ∀ id, on (log_recv l) id ++ mb (a, b, id) = on (log_sent l) id.

Record implements (w : net) (mb : mailbox) : Prop := {
  i_wired : wired w;
  i_bounded : bounded w;
  i_link a b l : link_of w a b = Some l → carries mb a b l
}.

(** Connections that were just made. *)
Definition fresh (c : Connection) : Prop :=
  conn_wf c ∧ to_send c = [] ∧ received c = [] ∧ ∀ id, ready c id = [].

Record connected (w : net) : Prop := {
  k_wired : wired w;
  k_fresh a b c : end_of w a b = Some c → fresh c;
  k_chans a b : chans w (a, b) = no_traffic
}.

(** * Lemmas *)

(** ** Ends *)

Lemma address_of_set_conn b c nd y : address_of (set_conn b c nd) y = address_of nd y.
Proof. unfold set_conn. by destruct (address_of nd b), (object_of nd b). Qed.

Lemma object_of_set_conn b c nd y :
  (∀ p, address_of nd b = Some p → address_of nd y = Some p → b = y) →
  conn <$> object_of (set_conn b c nd) y
  = if decide (y = b) then (λ _, c) <$> object_of nd b else conn <$> object_of nd y.
Proof.
  intros Hinj. unfold set_conn. destruct (address_of nd b) as [p|] eqn:Ep.
  2: { case_decide; [|done]. subst. unfold object_of. by rewrite Ep. }
  destruct (object_of nd b) as [o|] eqn:Eo.
  2: { case_decide; [|done]. subst. by rewrite Eo. }
  unfold object_of at 1. change (address_of (Node _ _) y) with (address_of nd y).
  destruct (address_of nd y) as [q|] eqn:Eq; cbn.
  2: { case_decide; [by subst; rewrite Ep in Eq|]. unfold object_of. by rewrite Eq. }
  destruct (decide (q = p)) as [->|Hne].
  - rewrite lookup_insert_eq. rewrite (Hinj p) by done. by rewrite decide_True.
  - rewrite lookup_insert_ne by done. case_decide; [by subst; simplify_eq|].
    unfold object_of. by rewrite Eq.
Qed.

Lemma set_conn_id b nd o : object_of nd b = Some o → set_conn b (conn o) nd = nd.
Proof.
  intros E. unfold set_conn. rewrite E. pose proof E as E'. unfold object_of in E'.
  destruct (address_of nd b) as [p|]; [|done]. cbn in E'.
  destruct nd as [i [sg cg]], o as [c t]. cbn in *. unfold BasicIO.set_heap, BasicIO.heap in *.
  destruct sg as [[]]. cbn in *. unfold TCPServer.set_object, TCPServer.set_reg. cbn. do 4 f_equal.
  by rewrite insert_id.
Qed.

Lemma end_of_Some w a b c :
  end_of w a b = Some c ↔ ∃ nd o, nodes w !! a = Some nd ∧ object_of nd b = Some o ∧ conn o = c.
Proof.
  unfold end_of. destruct (nodes w !! a) as [nd|]; cbn; [|by split; [|intros (? & ? & ? & _)]].
  split; [intros (o & E & ->)%fmap_Some; eauto|]. by intros (nd' & o & [= <-] & -> & <-).
Qed.

Lemma end_of_set_end w a b c x y :
  wired w →
  end_of (set_end a b c w) x y
  = if decide ((x, y) = (a, b)) then (λ _, c) <$> end_of w a b else end_of w x y.
Proof.
  intros Hw. unfold end_of, set_end. cbn [nodes]. destruct (decide (x = a)) as [->|Hne].
  2: { rewrite lookup_alter_ne by done. case_decide; [by simplify_eq|done]. }
  rewrite lookup_alter_eq. destruct (nodes w !! a) as [nd|] eqn:E; cbn; [|by case_decide].
  rewrite object_of_set_conn by eauto using w_inj. destruct (object_of nd b), (decide (y = b)) as [->|];
    by repeat case_decide; simplify_eq.
Qed.

Lemma set_end_id w a b c : end_of w a b = Some c → set_end a b c w = w.
Proof.
  intros (nd & o & En & Eo & <-)%end_of_Some. destruct w as [ns cs]. unfold set_end. cbn in *. f_equal.
  rewrite <- (alter_id (λ nd, nd) ns a) at 2; [|done]. apply alter_ext. intros nd' E. simplify_eq.
  by apply set_conn_id.
Qed.

(** The update of one node, as an update of the map. *)
Lemma set_end_nodes w a b c nd :
  nodes w !! a = Some nd → Net (<[a := set_conn b c nd]> (nodes w)) (chans w) = set_end a b c w.
Proof.
  intros E. unfold set_end. f_equal. apply map_eq. intros x. destruct (decide (x = a)) as [->|].
  - by rewrite lookup_insert_eq, lookup_alter_eq, E.
  - by rewrite lookup_insert_ne, lookup_alter_ne.
Qed.

Lemma set_end_wired w a b c : wired w → wired (set_end a b c w).
Proof.
  intros Hw. split.
  - intros x nd y y' p E. cbn [nodes set_end] in E.
    assert (∃ nd', nodes w !! x = Some nd' ∧ ∀ z, address_of nd z = address_of nd' z) as (nd' & E' & Hz).
    { destruct (decide (x = a)) as [->|].
      - rewrite lookup_alter_eq in E. apply fmap_Some in E as (nd' & E' & ->).
        eauto using address_of_set_conn.
      - rewrite lookup_alter_ne in E by done. eauto. }
    rewrite !Hz. by apply (w_inj w Hw x nd').
  - intros x y. rewrite !end_of_set_end by done. intros H.
    destruct (decide ((x, y) = (a, b))) as [[= -> ->]|].
    + apply fmap_is_Some in H. case_decide; simplify_eq; [|by apply w_other].
      by apply fmap_is_Some.
    + apply (w_other w Hw) in H. case_decide; [|done]. simplify_eq. by apply fmap_is_Some.
  - intros x. rewrite end_of_set_end by done. case_decide; [|by apply w_self].
    simplify_eq. by rewrite w_self.
Qed.

(** ** Links *)

Lemma link_of_Some w a b l :
  link_of w a b = Some l ↔
  end_of w a b = Some (tx l) ∧ end_of w b a = Some (rx l)
  ∧ chans w (a, b) = Channel (outbox l) (wire l) (inbox l) (log_sent l) (log_recv l).
Proof.
  unfold link_of. destruct (end_of w a b), (end_of w b a), (chans w (a, b)), l; cbn;
    split; try done;
    [injection 1; intros; subst; by split_and!|intros (E1 & E2 & E3); congruence|by intros (_ & ? & _)|by intros (? & _)..].
Qed.

Lemma link_ends_differ w a b l : wired w → link_of w a b = Some l → a ≠ b.
Proof. intros Hw (E & _)%link_of_Some ->. by rewrite w_self in E. Qed.

Lemma set_link_wired w a b l : wired w → wired (set_link a b l w).
Proof. intros Hw. destruct (set_end_wired _ b a (rx l) (set_end_wired w a b (tx l) Hw)). by split. Qed.

Lemma end_of_set_link w a b l l' x y :
  wired w → link_of w a b = Some l →
  end_of (set_link a b l' w) x y
  = if decide ((x, y) = (a, b)) then Some (tx l')
    else if decide ((x, y) = (b, a)) then Some (rx l') else end_of w x y.
Proof.
  intros Hw El. pose proof (link_ends_differ w a b l Hw El) as Hab.
  pose proof (set_end_wired w a b (tx l') Hw) as Hw1. apply link_of_Some in El as (Ea & Eb & _).
  change (end_of (set_link a b l' w)) with (end_of (set_end b a (rx l') (set_end a b (tx l') w))).
  rewrite !end_of_set_end by done. rewrite Ea, Eb. repeat case_decide; by simplify_eq.
Qed.

(** What every pair sees of an update of one link. *)
Lemma link_of_set_link w a b l l' x y lx :
  wired w → link_of w a b = Some l → link_of (set_link a b l' w) x y = Some lx →
  (x, y) = (a, b) ∧ lx = l'
  ∨ (∃ l2, (x, y) = (b, a) ∧ link_of w b a = Some l2 ∧ tx l2 = rx l ∧ rx l2 = tx l
       ∧ lx = Link (rx l') (outbox l2) (wire l2) (tx l') (inbox l2) (log_sent l2) (log_recv l2))
  ∨ (x, y) ≠ (a, b) ∧ (x, y) ≠ (b, a) ∧ link_of w x y = Some lx.
Proof.
  intros Hw Hl Hx. pose proof (link_ends_differ w a b l Hw Hl) as Hab.
  pose proof (set_end_wired w a b (tx l') Hw) as Hw1.
  pose proof (λ x y, end_of_set_link w a b l l' x y Hw Hl) as Hends.
  apply link_of_Some in Hx as (E1 & E2 & E3). rewrite Hends in E1, E2. cbn [chans set_link set_chan] in E3.
  destruct (decide ((x, y) = (a, b))) as [[= -> ->]|Hxy].
  - left. split; [done|]. rewrite fn_lookup_insert in E3.
    rewrite decide_False, decide_True in E2 by congruence. destruct l', lx. cbn in *. congruence.
  - right. rewrite fn_lookup_insert_ne in E3 by done. change (chans (set_end _ _ _ _)) with (chans w) in E3.
    destruct (decide ((x, y) = (b, a))) as [[= -> ->]|Hyx].
    + left. rewrite decide_True in E2 by done. apply link_of_Some in Hl as (Ea & Eb & _).
      exists (Link (rx l) (outbox lx) (wire lx) (tx l) (inbox lx) (log_sent lx) (log_recv lx)).
      split_and!; [done|by apply link_of_Some|done|done|]. destruct lx. cbn in *. congruence.
    + right. split_and!; [done..|]. rewrite !decide_False in E2 by congruence.
      by apply link_of_Some.
Qed.

(** ** Calls of the applications *)

(** A call that returned worked on the connection of its peer. *)
Lemma connection_of_inv g nd b p o :
  BasicIO.connection_of (n_io nd) b = Ok p → g = n_process nd →
  TCPServer.deref (BasicIO.heap g) p = Ok o →
  object_of nd b = Some o
  ∧ ∀ c, Node (n_io nd) (BasicIO.set_heap (TCPServer.set_object p (Obj c (tasks o)) (BasicIO.heap g)) g)
         = set_conn b c nd.
Proof.
  intros Ep -> Eo. unfold BasicIO.connection_of in Ep.
  assert (address_of nd b = Some p) as Ha.
  { unfold address_of. destruct (map_find b _) as [[q|]|]; [by injection Ep as ->|done..]. }
  unfold TCPServer.deref in Eo. destruct (TCPServer.objects _ !! p) as [o'|] eqn:E; [|done]. simplify_eq.
  assert (object_of nd b = Some o) as Ho by (unfold object_of; rewrite Ha; exact E).
  split; [done|]. intros c. unfold set_conn. by rewrite Ha, Ho.
Qed.

Section calls.
Context (junk : nat → byte).

Lemma Send_inv nd now b id bin data n g' :
  get_string id = Ok bin →
  BasicIO.Send junk now (n_io nd) (n_process nd) b id data (zlen data) = Ok (n, g') →
  ∃ o c, object_of nd b = Some o ∧ send junk now (conn o) bin data (zlen data) = Ok (n, c)
    ∧ Node (n_io nd) g' = set_conn b c nd.
Proof.
  unfold BasicIO.Send, BasicIO.send. intros -> E. cbn [mbind outcome_bind] in E.
  apply bind_Ok in E as (p & Ep & E). apply bind_Ok in E as (o & Eo & E).
  apply bind_Ok in E as ([m c] & Es & E). injection E as <- <-.
  destruct (connection_of_inv _ _ _ _ _ Ep eq_refl Eo) as [Ho Hset]. eauto.
Qed.

Lemma Recv_inv nd now elapsed st a id bin data len timeout ret data' g' :
  get_string id = Ok bin →
  BasicIO.Recv now elapsed st (n_io nd) (n_process nd) a id data len timeout = Ok (ret, data', g') →
  ∃ o c, object_of nd a = Some o
    ∧ recv now elapsed st (conn o) bin data len timeout = Ok (ret, data', c)
    ∧ Node (n_io nd) g' = set_conn a c nd.
Proof.
  unfold BasicIO.Recv, BasicIO.recv. intros -> E. cbn [mbind outcome_bind] in E.
  destruct (TCPServer.stoped_ _); [done|].
  apply bind_Ok in E as (p & Ep & E). apply bind_Ok in E as (o & Eo & E).
  apply bind_Ok in E as ([[m d] c] & Es & E). injection E as <- <- <-.
  destruct (connection_of_inv _ _ _ _ _ Ep eq_refl Eo) as [Ho Hset]. eauto.
Qed.

(** What a step of the net does to the link it works on. *)
Inductive link_event (a b : bytes) : option event → relation link :=
  | le_internal s s' : internal junk s s' → link_event a b None s s'
  | le_send s now id data n tx' :
      sendable (id, data) = true →
      send junk now (tx s) id data (zlen data) = Ok (n, tx') →
      link_event a b (Some (Sent a b id data)) s
        (Link tx' (outbox s) (wire s) (rx s) (inbox s) (log_sent s ++ [(id, data)]) (log_recv s))
  | le_recv s now elapsed st timeout id len data rx' :
      0 ≤ len →
      recv now elapsed st (rx s) id (new_char junk len) len timeout = Ok (len, data, rx') →
      link_event a b (Some (Received a b id data)) s
        (Link (tx s) (outbox s) (wire s) rx' (inbox s) (log_sent s) (log_recv s ++ [(id, data)])).

(** Every step of the net is the step of one link; a [recv] that failed left its
    result in the connection it was called on. *)
Lemma net_step_link w e w' :
  wired w → net_step junk e w w' →
  ∃ a b l, link_of w a b = Some l ∧
    ((∃ l', w' = set_link a b l' w ∧ link_event a b e l l')
     ∨ ∃ now elapsed st timeout id len ret data c,
         e = Some (Failed a b id ret) ∧ w' = set_end b a c w ∧ 0 ≤ len ∧ ret < 0
         ∧ recv now elapsed st (rx l) id (new_char junk len) len timeout = Ok (ret, data, c)).
Proof.
  intros Hw Hstep.
  assert (∀ a b o nd c, nodes w !! a = Some nd → object_of nd b = Some o →
    ∃ co, end_of w a b = Some (conn o) ∧ end_of w b a = Some co
      ∧ end_of (set_end a b c w) b a = Some co) as Hends.
  { intros a b o nd c En Eo. assert (end_of w a b = Some (conn o)) as E.
    { apply end_of_Some. eauto. }
    destruct (w_other w Hw a b) as [co Eco]; [by eexists|]. exists co. split_and!; [done..|].
    rewrite end_of_set_end by done. case_decide; [|done]. simplify_eq. by rewrite w_self in E. }
  assert (∀ a b, link_of w a b = (c ← end_of w a b; c' ← end_of w b a;
    let ch := chans w (a, b) in
    Some (Link c (c_out ch) (c_wire ch) c' (c_in ch) (c_sent ch) (c_recv ch)))) as Hlink by done.
  destruct Hstep as [w a b l l' Hl Hi|w a b nd now id bin data n g' En Eid Hg E
    |w a b nd now el st id bin len data tmo g' En Eid Hlen E
    |w a b nd now el st id bin len ret data tmo g' En Eid Hlen Hret E].
  - exists a, b, l. eauto 6 using le_internal.
  - destruct (Send_inv _ _ _ _ _ _ _ _ Eid E) as (o & c & Eo & Es & ->).
    destruct (Hends a b o nd c En Eo) as (co & E1 & E2 & E3).
    specialize (Hlink a b). rewrite E1, E2 in Hlink. cbn in Hlink.
    do 3 eexists. split; [exact Hlink|]. left. eexists. split; [|by eapply le_send].
    unfold set_link. cbn [tx rx outbox wire inbox log_sent log_recv].
    by rewrite (set_end_id (set_end a b c w) b a), set_end_nodes.
  - destruct (Recv_inv _ _ _ _ _ _ _ _ _ _ _ _ _ Eid E) as (o & c & Eo & Es & ->).
    destruct (Hends b a o nd c En Eo) as (co & E1 & E2 & E3).
    specialize (Hlink a b). rewrite E1, E2 in Hlink. cbn in Hlink.
    do 3 eexists. split; [exact Hlink|]. left. eexists. split; [|by eapply le_recv].
    unfold set_link. cbn [tx rx outbox wire inbox log_sent log_recv].
    by rewrite (set_end_id w a b), set_end_nodes.
  - destruct (Recv_inv _ _ _ _ _ _ _ _ _ _ _ _ _ Eid E) as (o & c & Eo & Es & ->).
    destruct (Hends b a o nd c En Eo) as (co & E1 & E2 & E3).
    specialize (Hlink a b). rewrite E1, E2 in Hlink. cbn in Hlink.
    do 3 eexists. split; [exact Hlink|]. right. do 9 eexists. split; [done|]. split; [|split; [exact Hlen|split; [exact Hret|exact Es]]].
    by rewrite set_end_nodes.
Qed.
End calls.

(** ** The simulation *)

Section simulation.
Context (junk : nat → byte).

(** A step of one link, with what the mailbox does and what the other direction
    notices. *)
Lemma link_event_carries a b e l l' mb :
  carries mb a b l → 3 * volume (log_sent l') < 2 ^ 63 → link_event junk a b e l l' →
  ∃ mb', trace mailbox_step mb (option_list e) mb' ∧ carries mb' a b l'
    ∧ (∀ x y id, (x, y) ≠ (a, b) → mb' (x, y, id) = mb (x, y, id))
    ∧ same_rx (tx l) (tx l') ∧ same_tx (rx l) (rx l').
Proof.
  intros [(d & t & H) Hmb] Hmax He.
  pose proof (it_tx _ _ _ H) as Htx. pose proof (it_rx _ _ _ H) as Hrx.
  assert (Link.step junk l l') as Hstep.
  { destruct He; [by apply Link.step_internal|by eapply Link.step_send|by eapply Link.step_recv]. }
  pose proof (step_volume junk l l' Hstep) as Hmono.
  destruct (step_in_transit junk l l' d t H Hmax Hstep) as (d' & t' & H').
  destruct He as [l l' Hi|l now id data n tx' Hg E|l now el st tmo id len data rx' Hlen E].
  - exists mb. split; [constructor|]. destruct (internal_in_transit junk _ _ _ _ H ltac:(lia) Hi) as (Es & _).
    split; [|split; [done|by apply (internal_other junk _ _ d t H ltac:(lia) Hi)]]. split; [by exists d', t'|].
    intros id. rewrite Es. replace (log_recv l') with (log_recv l) by (by inversion Hi). apply Hmb.
  - eexists. split; [apply trace_one, mailbox_send|]. cbn [tx rx log_sent log_recv] in *. split_and!.
    + split; [by exists d', t'|]. intros id'. cbn [log_sent log_recv]. rewrite on_app, on_one.
      case_decide as Eid; [subst|].
      * by rewrite fn_lookup_insert, app_assoc, Hmb.
      * rewrite fn_lookup_insert_ne by congruence. by rewrite app_nil_r.
    + intros x y id' Hxy. apply fn_lookup_insert_ne. congruence.
    + eapply send_other; [done| |exact E]. pose proof (zlen_in_flight _ _ _ H) as [Hz Hv].
      pose proof (volume_nonneg d). pose proof (volume_nonneg (option_list (inbox l))).
      pose proof (zlen_nonneg (received (rx l))). pose proof (zlen_nonneg (wire l)).
      pose proof (zlen_nonneg (outbox l)).
      rewrite volume_app, volume_cons in Hmax. cbn [fst snd] in Hmax. pose proof (volume_nonneg []). lia.
    + by apply same_tx_refl.
  - cbn [tx rx log_sent log_recv] in *.
    assert (∃ rest, mb (a, b, id) = data ++ rest) as [rest Erest].
    { exists (ready rx' id ++ on (option_list (inbox l)) id ++ on t' id).
      apply (app_inv_head (on (log_recv l) id)). rewrite Hmb.
      pose proof (it_ready _ _ _ H' id) as Er. cbn [log_recv rx] in Er.
      rewrite on_app, on_one, decide_True in Er by done.
      pose proof (it_split _ _ _ H') as Esp. cbn [log_sent inbox] in Esp.
      by rewrite Esp, !on_app, <- Er, <- !app_assoc. }
    eexists. split; [apply trace_one; by eapply mailbox_recv|]. split_and!.
    + split; [by exists d', t'|]. intros id'. cbn [log_sent log_recv]. rewrite on_app, on_one, <- Hmb.
      case_decide as Eid; [subst|].
      * by rewrite fn_lookup_insert, Erest, <- app_assoc.
      * rewrite fn_lookup_insert_ne by congruence. by rewrite app_nil_r.
    + intros x y id' Hxy. apply fn_lookup_insert_ne. congruence.
    + by apply same_rx_refl.
    + by eapply recv_other.
Qed.

Lemma implements_set_link w mb a b l l' mb' :
  implements w mb → link_of w a b = Some l → bounded (set_link a b l' w) → carries mb' a b l' →
  (∀ x y id, (x, y) ≠ (a, b) → mb' (x, y, id) = mb (x, y, id)) →
  same_rx (tx l) (tx l') → same_tx (rx l) (rx l') →
  implements (set_link a b l' w) mb'.
Proof.
  intros [Hw Hb Hl] El Hb' Hc Hmb Hrx Htx. split; [by apply set_link_wired|done|].
  intros x y lx Ex. destruct (link_of_set_link w a b l l' x y lx Hw El Ex)
    as [[[= -> ->] ->]|[(l2 & [= -> ->] & E2 & Et & Er & ->)|(Hxy & Hyx & E)]]; [done| |].
  - pose proof (link_ends_differ _ _ _ _ Hw El). destruct (Hl _ _ _ E2) as [(d & t & Hit) Hid].
    split; [|intros id; rewrite Hmb by congruence; apply Hid].
    assert (Link.step junk l2 (Link (rx l') (outbox l2) (wire l2) (tx l') (inbox l2) (log_sent l2) (log_recv l2)))
      as Hstep by (apply step_other; by rewrite ?Et, ?Er).
    apply (step_in_transit junk l2 _ d t Hit); [|done]. cbn [log_sent].
    apply link_of_Some in E2 as (_ & _ & Ech). specialize (Hb b a). by rewrite Ech in Hb.
  - destruct (Hl _ _ _ E) as [Hit Hid]. split; [done|]. intros id. by rewrite Hmb.
Qed.

Lemma bounded_set_link w a b l : bounded (set_link a b l w) → 3 * volume (log_sent l) < 2 ^ 63.
Proof. intros H. specialize (H a b). cbn in H. by rewrite fn_lookup_insert in H. Qed.

(** What a step does: a [recv] that fails changes nothing. *)
Lemma bounded_step_inv w mb e w' :
  implements w mb → bounded_step junk e w w' →
  (∃ a b l l', link_of w a b = Some l ∧ w' = set_link a b l' w ∧ link_event junk a b e l l'
               ∧ 3 * volume (log_sent l') < 2 ^ 63)
  ∨ (w' = w ∧ ∃ a b id ret, e = Some (Failed a b id ret) ∧ ret < 0).
Proof.
  intros H [Hstep Hb']. destruct (net_step_link junk w e w' (i_wired _ _ H) Hstep)
    as (a & b & l & El & [(l' & -> & He)|(now & el & st & tmo & id & len & ret & data & c & -> & -> & Hlen & Hret & E)]).
  - left. exists a, b, l, l'. split_and!; [done..|]. by eapply bounded_set_link.
  - right. split; [|by exists a, b, id, ret]. destruct (i_link _ _ H a b l El) as [(d & t & Hit) _].
    replace c with (rx l); [|symmetry; eapply recv_fail_inv; [apply (it_rx _ _ _ Hit)| |done|exact E]].
    + apply link_of_Some in El as (_ & Eb & _). by rewrite set_end_id.
    + rewrite zlen_new_char. lia.
Qed.

#[export] Instance net_simulated : Simulation (bounded_step junk) mailbox_step implements.
Proof.
  intros w mb e w' H Hs. pose proof Hs as [_ Hb'].
  destruct (bounded_step_inv w mb e w' H Hs) as [(a & b & l & l' & El & -> & He & Hmax)|(-> & a & b & id & ret & -> & Hret)].
  - destruct (link_event_carries a b e l l' mb) as (mb' & Ht & Hc & Hmb & Hrx & Htx);
      [by apply (i_link _ _ H)|done..|].
    exists mb'. split; [by eapply implements_set_link|done].
  - exists mb. split; [done|]. by apply trace_one, mailbox_fail.
Qed.

Lemma connected_implements w : connected w → implements w no_mail.
Proof.
  intros [Hw Hf Hc]. split; [done|intros a b; by rewrite Hc|].
  intros a b l (E1 & E2 & E3)%link_of_Some. rewrite Hc in E3. injection E3 as Eo Ew Ei Es Er.
  destruct (Hf _ _ _ E1) as (Ht & Hts & _). destruct (Hf _ _ _ E2) as (Hr & _ & Hrr & Hid).
  split; [|intros id; by rewrite <- Er, <- Es]. exists [], [].
  split; [done|done|by rewrite <- Es, <- Ei|by rewrite <- Es|by rewrite <- Eo, <- Ew, Hts, Hrr|].
  intros id. by rewrite <- Er, Hid.
Qed.
End simulation.

(** ** The other way round *)

Section arrival.
Context (junk : nat → byte).

Lemma link_of_set_link_eq w a b l l' :
  wired w → link_of w a b = Some l → link_of (set_link a b l' w) a b = Some l'.
Proof.
  intros Hw El. pose proof (link_ends_differ _ _ _ _ Hw El).
  apply link_of_Some. rewrite !(end_of_set_link w a b l) by done. cbn [chans set_link set_chan].
  rewrite fn_lookup_insert. split_and!; [| |done]; repeat case_decide; congruence || done.
Qed.

(** The process at a node has not stopped its server. *)
Definition serving (w : net) (b : bytes) : Prop :=
  ∀ nd, nodes w !! b = Some nd → TCPServer.stoped_ (BasicIO.servers_of (n_process nd)) = false.

Lemma serving_set_link w a b l x : serving w x → serving (set_link a b l w) x.
Proof.
  assert (∀ w a b c, serving w x → serving (set_end a b c w) x) as Hend.
  { intros w' a' b' c H nd E. cbn [nodes set_end] in E. destruct (decide (x = a')) as [->|].
    - rewrite lookup_alter_eq in E. apply fmap_Some in E as (nd' & E & ->). rewrite <- (H nd' E).
      unfold set_conn. by destruct (address_of nd' b'), (object_of nd' b').
    - rewrite lookup_alter_ne in E by done. by apply H. }
  intros H. apply (Hend (set_end a b (tx l) w)), Hend, H.
Qed.

(** The threads of one link move it whatever the others do. *)
Lemma internal_lift w mb a b l l' :
  implements w mb → serving w b → link_of w a b = Some l → rtc (internal junk) l l' →
  ∃ w', rtc (bounded_step junk None) w w' ∧ implements w' mb ∧ serving w' b
    ∧ link_of w' a b = Some l'.
Proof.
  intros H Hsv El Hr. revert w H Hsv El. induction Hr as [l|l l1 l' Hs Hr IH]; intros w H Hsv El.
  { exists w. by split_and!. }
  destruct (i_link _ _ H a b l El) as [(d & t & Hit) _].
  assert (chans w (a, b) = Channel (outbox l) (wire l) (inbox l) (log_sent l) (log_recv l)) as Ec.
  { by apply link_of_Some in El as (_ & _ & ?). }
  assert (3 * volume (log_sent l) < 2 ^ 63) as Hmax by (pose proof (i_bounded _ _ H a b) as Hb; by rewrite Ec in Hb).
  destruct (internal_in_transit junk _ _ _ _ Hit Hmax Hs) as (Elog & _).
  assert (bounded_step junk None w (set_link a b l1 w)) as Hstep.
  { split; [by eapply net_internal|]. intros x y. cbn [chans set_link set_chan].
    destruct (decide ((x, y) = (a, b))) as [->|]; [|rewrite fn_lookup_insert_ne by done; apply (i_bounded _ _ H)].
    rewrite fn_lookup_insert. cbn [c_sent]. by rewrite Elog. }
  destruct (net_simulated junk w mb None _ H Hstep) as (mb' & H' & Ht).
  assert (mb' = mb) as ->.
  { clear -Ht. cbn in Ht. remember [] as es eqn:E. destruct Ht as [|? [e|] ? ? ? Hs]; [done..|inversion Hs]. }
  destruct (IH (set_link a b l1 w)) as (w' & ? & ?);
    [done|by apply serving_set_link|by eapply link_of_set_link_eq, El; apply H|].
  exists w'. split; [by eapply rtc_l|done].
Qed.

Lemma Recv_ok nd a id bin o len timeout :
  TCPServer.stoped_ (BasicIO.servers_of (n_process nd)) = false → get_string id = Ok bin →
  object_of nd a = Some o → conn_wf (conn o) → 0 < len ≤ zlen (ready (conn o) bin) →
  ∃ g', BasicIO.Recv 0 0 (state_ (conn o)) (n_io nd) (n_process nd) a id (new_char junk len) len timeout
        = Ok (len, ztake len (ready (conn o) bin), g').
Proof.
  intros Hs Eid Eo Hwf Hlen. unfold BasicIO.Recv, BasicIO.recv. rewrite Eid, Hs.
  cbn [mbind outcome_bind]. unfold object_of, address_of in Eo. unfold BasicIO.connection_of.
  destruct (map_find a _) as [[p|]|]; [|done..]. cbn in Eo |- *. unfold TCPServer.deref. rewrite Eo.
  cbn [mbind outcome_bind].
  assert (is_Some (mapbuffer_ (conn o) !! bin)) as Hm.
  { unfold ready in Hlen. destruct (mapbuffer_ (conn o) !! bin); [done|]. change (zlen []) with 0 in Hlen. lia. }
  pose proof (recv_ok 0 0 (state_ (conn o)) (conn o) bin (new_char junk len) len timeout Hwf eq_refl) as Hok.
  destruct (Z.leb_spec len (zlen (ready (conn o) bin))); [|lia].
  destruct Hok as (b & -> & _); [zbool; lia|rewrite zlen_new_char; lia|done|].
  rewrite (zdrop_ge len), app_nil_r by (rewrite zlen_new_char; lia). cbn. by eexists.
Qed.
(** While the worker loops of a connection run and the server of the receiver does,
    [Recv] of what the mailbox holds can return. *)
Lemma can_receive w mb a b t1 t2 id bin len l :
  implements w mb → link_of w a b = Some l →
  stop_requested (tx l) t1 = false → stop_requested (rx l) t2 = false →
  serving w b → get_string id = Ok bin → 0 < len ≤ zlen (mb (a, b, bin)) →
  ∃ w1 w2, rtc (bounded_step junk None) w w1 ∧ implements w1 mb
    ∧ bounded_step junk (Some (Received a b bin (ztake len (mb (a, b, bin))))) w1 w2.
Proof.
  intros Himp El H1 H2 Hsv Eid Hlen.
  pose proof El as (Ea & Eb & Ec)%link_of_Some.
  destruct (i_link _ _ Himp a b l El) as [(d & t & Hit) Hmb].
  assert (3 * volume (log_sent l) < 2 ^ 63) as Hmax.
  { pose proof (i_bounded _ _ Himp a b) as Hb. by rewrite Ec in Hb. }
  destruct (run_to_delivery junk t1 t2 (Z.to_nat (pending l)) l d t) as (l' & Hr & Hd & _); [lia|done..|].
  destruct (internal_lift w mb a b l l') as (w1 & Hr1 & Himp1 & Hsv1 & El1); [done..|].
  destruct (i_link _ _ Himp1 a b l' El1) as [(d' & t' & Hit') Hmb'].
  assert (mb (a, b, bin) = ready (rx l') bin) as Emb.
  { apply (app_inv_head (on (log_recv l') bin)). by rewrite Hmb', Hd. }
  pose proof El1 as (_ & Eb1 & _)%link_of_Some. pose proof Eb1 as (nd & o & En & Eo & Eco)%end_of_Some.
  destruct (Recv_ok nd a id bin o len (-1)) as [g' E];
    [by apply Hsv1|done|done|rewrite Eco; apply (it_rx _ _ _ Hit')|by rewrite Eco, <- Emb|].
  rewrite Eco, <- Emb in E. exists w1. eexists. split; [done|]. split; [done|]. split.
  - eapply net_recv; [done|done| |exact E]. lia.
  - intros x y. cbn [chans set_chan]. pose proof (i_bounded _ _ Himp1 x y) as Hb.
    destruct (decide ((x, y) = (a, b))) as [[= -> ->]|]; [rewrite fn_lookup_insert|].
    + exact Hb.
    + rewrite fn_lookup_insert_ne by done. exact Hb.
Qed.

(** [Send] over a connection that is there returns. *)
Lemma can_send w mb a b id bin data :
  implements w mb → is_Some (end_of w a b) → get_string id = Ok bin → sendable (bin, data) = true →
  3 * (volume (c_sent (chans w (a, b))) + zlen (frame bin data)) < 2 ^ 63 →
  ∃ w', bounded_step junk (Some (Sent a b bin data)) w w'.
Proof.
  intros Himp [c Ea] Eid Hg Hmax. destruct (w_other w (i_wired _ _ Himp) a b) as [c' Eb]; [by eexists|].
  assert (is_Some (link_of w a b)) as [l El] by (unfold link_of; rewrite Ea, Eb; by eexists).
  destruct (i_link _ _ Himp a b l El) as [(d & t & Hit) _].
  pose proof El as (Ea' & _ & Ec)%link_of_Some. rewrite Ea in Ea'. injection Ea' as ->.
  rewrite Ec in Hmax. cbn [c_sent] in Hmax. pose proof (zlen_in_flight _ _ _ Hit) as [Hz Hv].
  pose proof (volume_nonneg d). pose proof (volume_nonneg (option_list (inbox l))).
  pose proof (zlen_nonneg (received (rx l))). pose proof (zlen_nonneg (wire l)). pose proof (zlen_nonneg (outbox l)).
  apply end_of_Some in Ea as (nd & o & En & Eo & Eco).
  destruct (send_ok junk 0 (conn o) bin data) as (rb & E & _);
    [rewrite Eco; apply (it_tx _ _ _ Hit)|rewrite Eco; lia|].
  assert (∃ n g', BasicIO.Send junk 0 (n_io nd) (n_process nd) b id data (zlen data) = Ok (n, g')) as (n & g' & Es).
  { unfold BasicIO.Send, BasicIO.send. rewrite Eid. cbn [mbind outcome_bind].
    unfold object_of, address_of in Eo. unfold BasicIO.connection_of.
    destruct (map_find b _) as [[p|]|]; [|done..]. cbn in Eo |- *. unfold TCPServer.deref. rewrite Eo.
    cbn [mbind outcome_bind]. rewrite E. cbn. eauto. }
  eexists. split; [by eapply net_send|]. intros x y. cbn [chans set_chan].
  pose proof (i_bounded _ _ Himp x y) as Hb. destruct (decide ((x, y) = (a, b))) as [[= -> ->]|].
  - rewrite fn_lookup_insert, Ec. cbn [log_send c_sent]. rewrite volume_app, volume_cons. cbn [fst snd].
    change (volume []) with 0. lia.
  - by rewrite fn_lookup_insert_ne.
Qed.

(** ** What every step keeps *)

(** The servers serve and the worker loops run. *)
Record running (w : net) : Prop := {
  r_serving b : serving w b;
  r_loops a b c : end_of w a b = Some c → ∃ t, stop_requested c t = false
}.

Lemma link_event_stops a b e l l' mb :
  carries mb a b l → 3 * volume (log_sent l') < 2 ^ 63 → link_event junk a b e l l' → same_stops l l'.
Proof.
  intros [(d & t & H) _] Hmax He. pose proof (it_tx _ _ _ H) as Htx. pose proof (it_rx _ _ _ H) as Hrx.
  destruct He as [l l' Hi|l now id data n tx' Hg E|l now el st tmo id len data rx' Hlen E].
  - assert (log_sent l' = log_sent l) as El by (by inversion Hi). rewrite El in Hmax.
    by destruct (internal_in_transit junk _ _ _ _ H Hmax Hi) as (_ & ? & _).
  - unfold send, put_into_send_buffer in E. split; [|done]. cbn [tx]. by outcome_inv.
  - destruct (recv_inv junk _ _ _ _ _ _ _ _ _ Hrx Hlen E) as (_ & _ & rb & -> & _). by split.
Qed.

Lemma running_step w mb e w' :
  implements w mb → bounded_step junk e w w' → running w →
  running w' ∧ ∀ a b, is_Some (end_of w a b) → is_Some (end_of w' a b).
Proof.
  intros H Hs [Hsv Hl].
  destruct (bounded_step_inv junk w mb e w' H Hs) as [(a & b & l & l' & El & -> & He & Hmax)|(-> & _)]; [|by split].
  destruct (link_event_stops a b e l l' mb) as [E1 E2]; [by apply (i_link _ _ H)|done..|].
  pose proof (λ x y, end_of_set_link w a b l l' x y (i_wired _ _ H) El) as Hends.
  pose proof El as (Ea & Eb & _)%link_of_Some.
  split; [split; [intros x; by apply serving_set_link|]|].
  - intros x y c Ec. rewrite Hends in Ec. unfold stop_requested in *. repeat case_decide; simplify_eq.
    + rewrite E1. by eapply Hl.
    + rewrite E2. by eapply Hl.
    + by eapply Hl.
  - intros x y Hx. rewrite Hends. repeat case_decide; try done; by eexists.
Qed.

(** The messages the events of a run sent. *)
Definition sent_by (es : list event) (a b : bytes) : list msg :=
  es ≫= λ e, match e with
             | Sent x y id data => if decide ((x, y) = (a, b)) then [(id, data)] else []
             | _ => []
             end.

Lemma sent_step w mb e w' a b :
  implements w mb → bounded_step junk e w w' →
  c_sent (chans w' (a, b)) = c_sent (chans w (a, b)) ++ sent_by (option_list e) a b.
Proof.
  intros H Hs.
  destruct (bounded_step_inv junk w mb e w' H Hs)
    as [(x & y & l & l' & El & -> & He & Hmax)|(-> & x & y & id & ret & -> & _)]; [|by rewrite app_nil_r].
  apply link_of_Some in El as (_ & _ & Ec). cbn [chans set_link set_chan].
  assert (log_sent l' = log_sent l ++ sent_by (option_list e) x y) as El'.
  { destruct He as [l l' Hi| |]; cbn; [by inversion Hi; rewrite app_nil_r| |by rewrite app_nil_r].
    by rewrite decide_True. }
  destruct (decide ((a, b) = (x, y))) as [[= -> ->]|Hne].
  - rewrite fn_lookup_insert. cbn [c_sent]. by rewrite El', Ec.
  - rewrite fn_lookup_insert_ne by done. change (chans (set_end _ _ _ _)) with (chans w).
    replace (sent_by (option_list e) a b) with (@nil msg); [by rewrite app_nil_r|].
    destruct He; cbn; try done. by rewrite decide_False by congruence.
Qed.
End arrival.

(** * Properties *)

(** C1: any number of connected nodes, with all their threads and whatever the
    network does, implement a mailbox: what the calls of [Send] and [Recv] at all
    nodes return, in the order in which they return, is what they would return on
    one queue of bytes per sender, receiver and message id; and all that each
    direction of each connection carries is accounted for. *)
Theorem net_refines_mailbox junk w es w' :
  connected w → trace (bounded_step junk) w es w' →
  ∃ mb, trace mailbox_step no_mail es mb ∧ implements w' mb.
Proof.
  intros Hc Ht. destruct (simulation_trace (bounded_step junk) mailbox_step implements
    w no_mail es w' (connected_implements w Hc) Ht) as (mb & ? & ?). eauto.
Qed.

(** C2: conversely, what the mailbox holds can be received: after any run, while the
    worker loops of a connection run and the server of the receiving process does,
    the threads can bring about a state in which [Recv] returns exactly the oldest
    bytes the mailbox has for its sender and id, for every length up to all of them. *)
Theorem mail_can_be_received junk w0 es w a b t1 t2 id bin :
  connected w0 → trace (bounded_step junk) w0 es w → is_Some (link_of w a b) →
  (∀ c, end_of w a b = Some c → stop_requested c t1 = false) →
  (∀ c, end_of w b a = Some c → stop_requested c t2 = false) →
  serving w b → get_string id = Ok bin →
  ∃ mb, trace mailbox_step no_mail es mb ∧
    ∀ len, 0 < len ≤ zlen (mb (a, b, bin)) →
      ∃ w1 w2, rtc (bounded_step junk None) w w1
        ∧ bounded_step junk (Some (Received a b bin (ztake len (mb (a, b, bin))))) w1 w2.
Proof.
  intros Hc Ht [l El] H1 H2 Hsv Eid.
  destruct (simulation_trace (bounded_step junk) mailbox_step implements
    w0 no_mail es w (connected_implements w0 Hc) Ht) as (mb & Himp & Hmt).
  pose proof El as (Ea & Eb & _)%link_of_Some.
  exists mb. split; [done|]. intros len Hlen.
  destruct (can_receive junk w mb a b t1 t2 id bin len l) as (w1 & w2 & Hr & _ & Hs); [by auto..|]. eauto.
Qed.

(** * Witnesses *)

(** Two nodes, connected to each other. *)
Definition sample_node (id peer : string) : node :=
  Node (BasicIO.IO (str id) (sample_plan "P0").1 [] [] 1000 3
          (TCPServer.Server (str "t") false false [] [] true) [] [(str peer, Some 7)])
       (BasicIO.Process
          (TCPServer.Statics (TCPServer.Reg [] [] {[7 := Obj (small_conn [] []) works_init]} ∅ 8)
             1 false None 3 4 9000 true 1)
          TCPClient.statics_init).

Definition sample_net : net :=
  Net {[ str "P0" := sample_node "P0" "P1"; str "P1" := sample_node "P1" "P0" ]} (λ _, no_traffic).

Lemma sample_node_address id peer b p :
  address_of (sample_node id peer) b = Some p → b = str peer ∧ p = 7.
Proof.
  unfold address_of. cbn. case_decide; cbn; [|done]. intros [= <-]. by split.
Qed.

Lemma sample_node_lookup a nd :
  nodes sample_net !! a = Some nd →
  a = str "P0" ∧ nd = sample_node "P0" "P1" ∨ a = str "P1" ∧ nd = sample_node "P1" "P0".
Proof.
  cbn [nodes sample_net]. intros [[<- <-]|[Hne [<- <-]%lookup_singleton_Some]]%lookup_insert_Some; auto.
Qed.

Lemma sample_net_end a b c :
  end_of sample_net a b = Some c →
  c = small_conn [] [] ∧ ((a, b) = (str "P0", str "P1") ∨ (a, b) = (str "P1", str "P0")).
Proof.
  intros (nd & o & En & Eo & <-)%end_of_Some. unfold object_of in Eo.
  apply sample_node_lookup in En as [[-> ->]|[-> ->]];
    (destruct (address_of _ b) as [p|] eqn:Ep; [|done]);
    apply sample_node_address in Ep as [-> ->]; cbn in Eo; injection Eo as <-; auto.
Qed.

Lemma sample_net_connected : connected sample_net.
Proof.
  split; [split|intros a b c [-> _]%sample_net_end|done].
  - intros a nd b b' p [[-> ->]|[-> ->]]%sample_node_lookup [-> _]%sample_node_address
      [-> _]%sample_node_address; done.
  - intros a b [c Ec]. apply sample_net_end in Ec as [-> [[= -> ->]|[= -> ->]]]; by eexists.
  - intros a. destruct (end_of _ a a) eqn:E; [|done]. apply sample_net_end in E as [_ [[= -> ?]|[= -> ?]]]; done.
  - by split; [apply small_conn_wf|].
Qed.

(** P0 sends two bytes to P1 with the id whose hexadecimal form is [0a]. *)
Lemma sample_net_sends :
  ∃ w, trace (bounded_step (λ _, x00)) sample_net [Sent (str "P0") (str "P1") [x0a] (str "hi")] w
    ∧ (∃ c, nodes w = <[str "P0" := set_conn (str "P1") c (sample_node "P0" "P1")]> (nodes sample_net)
            ∧ stop_works_ c = ∅)
    ∧ chans w = <[(str "P0", str "P1") := Channel [] [] None [([x0a], str "hi")] []]> (chans sample_net).
Proof.
  destruct (send_ok (λ _, x00) 0 (small_conn [] []) [x0a] (str "hi")) as (b & E & _);
    [by apply small_conn_wf|vm_compute; done|].
  eexists. split; [|split].
  - apply (trace_one _ (Some _)). split.
    + eapply (net_send _ sample_net (str "P0") (str "P1") (sample_node "P0" "P1") 0 (str "0a"));
        [reflexivity|reflexivity|reflexivity|].
      unfold BasicIO.Send, BasicIO.send. change (get_string (str "0a")) with (Ok [x0a]).
      cbn [mbind outcome_bind]. change (BasicIO.connection_of _ _) with (Ok 7). cbn [mbind outcome_bind].
      change (TCPServer.deref _ _) with (Ok (Obj (small_conn [] []) works_init)).
      cbn [mbind outcome_bind conn]. rewrite E. reflexivity.
    + intros x y. cbn [chans set_chan]. destruct (decide ((x, y) = (str "P0", str "P1"))) as [->|].
      * rewrite fn_lookup_insert. vm_compute. done.
      * rewrite fn_lookup_insert_ne by done. vm_compute. done.
  - eexists. split; [reflexivity|]. reflexivity.
  - reflexivity.
Qed.

Lemma net_refines_mailbox_witness :
  ∃ w mb, trace mailbox_step no_mail [Sent (str "P0") (str "P1") [x0a] (str "hi")] mb
    ∧ implements w mb.
Proof.
  destruct sample_net_sends as (w & Ht & _). exists w.
  apply (net_refines_mailbox (λ _, x00) sample_net _ w sample_net_connected Ht).
Defined.

Lemma mail_can_be_received_witness :
  ∃ w mb, trace mailbox_step no_mail [Sent (str "P0") (str "P1") [x0a] (str "hi")] mb ∧
    ∀ len, 0 < len ≤ zlen (mb (str "P0", str "P1", [x0a])) →
      ∃ w1 w2, rtc (bounded_step (λ _, x00) None) w w1
        ∧ bounded_step (λ _, x00)
            (Some (Received (str "P0") (str "P1") [x0a] (ztake len (mb (str "P0", str "P1", [x0a]))))) w1 w2.
Proof.
  destruct sample_net_sends as (w & Ht & (c & En & Es) & _). exists w.
  assert (end_of w (str "P0") (str "P1") = Some c) as E1.
  { unfold end_of. by rewrite En, lookup_insert_eq. }
  assert (end_of w (str "P1") (str "P0") = Some (small_conn [] [])) as E2.
  { unfold end_of. by rewrite En, lookup_insert_ne. }
  apply (mail_can_be_received (λ _, x00) sample_net _ w (str "P0") (str "P1") [] [] (str "0a") [x0a]
           sample_net_connected Ht).
  - unfold link_of. rewrite E1, E2. by eexists.
  - intros c' E. rewrite E1 in E. injection E as <-. unfold stop_requested. by rewrite Es.
  - intros c' E. rewrite E2 in E. by injection E as <-.
  - intros nd E. rewrite En, lookup_insert_ne in E by done.
    apply sample_node_lookup in E as [[[=] _]|[_ ->]]. done.
  - reflexivity.
Defined.
