(* ===== verification/Barrier.v ===== *)
(** The two ends of a connection and their tasks ([Connection::start] and
    [Connection::stop] of [src/connection.cpp]).  [start] sends the peer the lock of
    the task; [stop] takes the lock of the peer and waits for it, and holds
    [task_mtx_] while it waits, so that no other task can start or stop at that end in
    the meantime.  The connections, their threads and the network between them are
    those of [Link]; [loop_send] and [loop_recv] run only while the thread of some task
    of that end is in its loops and its flag is not raised. *)
From stdpp Require Import functions.
From Stdlib Require Import Strings.Byte.
From S2P Require Import Prelude Timer CycleBuffer SimpleBuffer Transport Connection Link Work Network.
#[local] Open Scope Z_scope.

Module Barrier.

(** * The program *)

(** A task that was started, or whose [stop] is in its first section. *)
Inductive stage := Started | Stopping.

(** Where the thread [do_start] of a task is: it waits for its turn, or its two loops
    run. *)
Inductive worker := Turn | Loops.

#[global] Instance worker_eq_dec : EqDecision worker.
Proof. solve_decision. Defined.

(** One end: the connection with the tasks it counts, where its tasks are, the task
    that holds [task_mtx_], the threads of the tasks, and those whose [do_stop] has
    raised the flag. *)
Record peer := Peer {
  obj : conn_obj;
  stages : gmap bytes stage;
  task_mtx_ : option bytes;
  workers : gmap bytes worker;
  flags : gset bytes
}.

(** The loops of some task run and have not found their flag. *)
Definition at_work (p : peer) : Prop := ∃ t, workers p !! t = Some Loops ∧ t ∉ flags p.

(** The end [b] sends on the channel [b]. *)
Record state := State { peers : bool → peer; chans : bool → channel }.

Definition set_peer (b : bool) (p : peer) (w : state) : state := State (<[b := p]> (peers w)) (chans w).
Definition set_chan (b : bool) (ch : channel) (w : state) : state := State (peers w) (<[b := ch]> (chans w)).
Definition set_conn (c : Connection) (p : peer) : peer :=
  Peer (Obj c (tasks (obj p))) (stages p) (task_mtx_ p) (workers p) (flags p).
Definition set_workers (ws : gmap bytes worker) (fs : gset bytes) (p : peer) : peer :=
  Peer (obj p) (stages p) (task_mtx_ p) ws fs.

(** The direction from [b]. *)
Definition way (w : state) (b : bool) : link :=
  let ch := chans w b in
  Link (conn (obj (peers w b))) (c_out ch) (c_wire ch) (conn (obj (peers w (negb b)))) (c_in ch)
       (c_sent ch) (c_recv ch).
Definition set_way (b : bool) (l : link) (w : state) : state :=
  set_chan b (Channel (outbox l) (wire l) (inbox l) (log_sent l) (log_recv l))
    (set_peer (negb b) (set_conn (rx l) (peers w (negb b)))
      (set_peer b (set_conn (tx l) (peers w b)) w)).

(** Ids of applications are not those of locks. *)
Definition no_lock (id : bytes) : Prop := ∀ t, id ≠ lock_id t.

Section program.
Context (junk : nat → byte).

(** Only the loops of a task that works take something out of a ring: [loop_send] of the
    sender a buffer, [loop_recv] of the receiver a message.  What they have taken they
    bring to its end: they [writen] the buffer and sort the message. *)
Definition by_loops (l l' : link) (from to : peer) : Prop :=
  (tx l' ≠ tx l → at_work from) ∧ (inbox l = None → inbox l' ≠ None → at_work to).

(** What the threads, the network and the applications do. *)
Inductive traffic_step : relation state :=
  | b_threads w b l' :
      internal junk (way w b) l' → by_loops (way w b) l' (peers w b) (peers w (negb b)) →
      traffic_step w (set_way b l' w)
  | b_send w b now id data n c' :
      sendable (id, data) = true → no_lock id →
      send junk now (conn (obj (peers w b))) id data (zlen data) = Ok (n, c') →
      traffic_step w (set_chan b (log_send (id, data) (chans w b))
                        (set_peer b (set_conn c' (peers w b)) w))
  | b_recv w b now elapsed st timeout id len data c' :
      0 ≤ len → no_lock id →
      recv now elapsed st (conn (obj (peers w (negb b)))) id (new_char junk len) len timeout
        = Ok (len, data, c') →
      traffic_step w (set_chan b (log_receive (id, data) (chans w b))
                        (set_peer (negb b) (set_conn c' (peers w (negb b))) w)).

(** What the tasks do.  [start] sends the lock and leaves a thread, which works when it is
    its turn; [stop] takes the mutex, gives it back when the lock of the peer is there,
    raises the flag and joins the thread, which ends its loops when they see the flag.  A
    task starts and stops by turns. *)
Inductive task_step : relation state :=
  | b_start w b t now p w' c' :
      peers w b = p → stages p !! t = None → workers p !! t = None → task_mtx_ p = None →
      sendable (lock_id t, str "1") = true →
      start_lock junk now t (tasks (obj p)) (conn (obj p)) = Ok (w', c') →
      task_step w (set_chan b (log_send (lock_id t, str "1") (chans w b))
                     (set_peer b (Peer (Obj c' w') (<[t := Started]> (stages p)) None
                                   (<[t := Turn]> (workers p)) (flags p)) w))
  | b_stop w b t p :
      peers w b = p → stages p !! t = Some Started → task_mtx_ p = None →
      task_step w (set_peer b (Peer (obj p) (<[t := Stopping]> (stages p)) (Some t) (workers p) (flags p)) w)
  | b_stopped w b t now p w' c' :
      peers w b = p → stages p !! t = Some Stopping →
      stop_lock now 0 (state_ (conn (obj p))) t (tasks (obj p)) (conn (obj p)) = Ok (w', c') →
      task_step w (set_chan (negb b)
                     (log_receive (lock_id t, ztake 1 (ready (conn (obj p)) (lock_id t))) (chans w (negb b)))
                     (set_peer b (Peer (Obj c' w') (delete t (stages p)) None (workers p) (flags p)) w))
  | b_flag w b t p :                       (* [do_stop] *)
      peers w b = p → stages p !! t = None → is_Some (workers p !! t) → t ∉ flags p →
      task_step w (set_peer b (set_workers (workers p) ({[t]} ∪ flags p) p) w)
  | b_turn w b t p :                       (* [do_start] *)
      peers w b = p → workers p !! t = Some Turn → (∀ u, workers p !! u ≠ Some Loops) →
      task_step w (set_peer b (set_workers (<[t := Loops]> (workers p)) (flags p) p) w)
  | b_skip w b t p :                       (* stopped before it was its turn *)
      peers w b = p → workers p !! t = Some Turn → t ∈ flags p → (∃ u, workers p !! u = Some Loops) →
      task_step w (set_peer b (set_workers (delete t (workers p)) (flags p ∖ {[t]}) p) w)
  | b_finish w b t p :                     (* both loops have ended, and [do_stop] has joined *)
      peers w b = p → workers p !! t = Some Loops → t ∈ flags p →
      c_out (chans w b) = [] → c_in (chans w (negb b)) = None →
      task_step w (set_peer b (set_workers (delete t (workers p)) (flags p ∖ {[t]}) p) w).

Definition step (w w' : state) : Prop := traffic_step w w' ∨ task_step w w'.

(** Two connected ends without tasks. *)
Definition connected (w : state) : Prop :=
  ∀ b, fresh (conn (obj (peers w b))) ∧ stop_works_ (conn (obj (peers w b))) = ∅
       ∧ stages (peers w b) = ∅ ∧ task_mtx_ (peers w b) = None ∧ workers (peers w b) = ∅ ∧ flags (peers w b) = ∅
       ∧ chans w b = no_traffic.

(** The counters of the rings do not wrap. *)
Definition bounded (w : state) : Prop := ∀ b, 3 * volume (c_sent (chans w b)) < 2 ^ 63.
Definition bounded_step (w w' : state) : Prop := step w w' ∧ bounded w'.

Definition reachable (w : state) : Prop := ∃ w0, connected w0 ∧ rtc bounded_step w0 w.
End program.

(** * Specification *)

(** How often the task was started at an end, and how often its [stop] there got
    the lock of the peer. *)
Definition starts (w : state) (b : bool) (t : bytes) : Z := zlen (on (c_sent (chans w b)) (lock_id t)).
Definition stops (w : state) (b : bool) (t : bytes) : Z :=
  zlen (on (c_recv (chans w (negb b))) (lock_id t)).

(** Both directions carry their messages ([Link]). *)
Definition ways_ok (w : state) : Prop := ∀ b, ∃ d t, in_transit (way w b) d t.

(** A task has its thread, without the flag, until its [stop] has the lock of the peer;
    one task works at a time ([Work.one_task_works]). *)
Record workers_ok (p : peer) : Prop := {
  wo_stages t : is_Some (stages p !! t) → is_Some (workers p !! t) ∧ t ∉ flags p;
  wo_flags t : t ∈ flags p → is_Some (workers p !! t);
  wo_turn t u : workers p !! t = Some Loops → workers p !! u = Some Loops → t = u
}.

Record barrier_wf (w : state) : Prop := {
  ba_way : ways_ok w;
  ba_stops b : stop_works_ (conn (obj (peers w b))) = ∅;
  ba_mutex b t : task_mtx_ (peers w b) = Some t ↔ stages (peers w b) !! t = Some Stopping;
  ba_count b t : starts w b t = stops w b t + (if decide (is_Some (stages (peers w b) !! t)) then 1 else 0);
  ba_workers b : workers_ok (peers w b)
}.

(** * Lemmas *)

(** ** The two directions *)

Lemma way_set_way w b l : way (set_way b l w) b = l.
Proof. by destruct b, l. Qed.

Lemma way_set_way_other w b l :
  way (set_way b l w) (negb b)
  = Link (rx l) (c_out (chans w (negb b))) (c_wire (chans w (negb b))) (tx l) (c_in (chans w (negb b)))
         (c_sent (chans w (negb b))) (c_recv (chans w (negb b))).
Proof. by destruct b, l. Qed.

(** An end sends: its channel and its connection change. *)
Lemma way_send w b ch p :
  way (set_chan b ch (set_peer b p w)) b
  = Link (conn (obj p)) (c_out ch) (c_wire ch) (conn (obj (peers w (negb b)))) (c_in ch) (c_sent ch) (c_recv ch).
Proof. by destruct b. Qed.

Lemma way_send_other w b ch p :
  way (set_chan b ch (set_peer b p w)) (negb b)
  = Link (tx (way w (negb b))) (outbox (way w (negb b))) (wire (way w (negb b))) (conn (obj p))
         (inbox (way w (negb b))) (log_sent (way w (negb b))) (log_recv (way w (negb b))).
Proof. by destruct b. Qed.

(** An end receives: the channel to it and its connection change. *)
Lemma way_receive w b ch p :
  way (set_chan (negb b) ch (set_peer b p w)) (negb b)
  = Link (conn (obj (peers w (negb b)))) (c_out ch) (c_wire ch) (conn (obj p)) (c_in ch) (c_sent ch) (c_recv ch).
Proof. by destruct b. Qed.

Lemma way_receive_other w b ch p :
  way (set_chan (negb b) ch (set_peer b p w)) b
  = Link (conn (obj p)) (outbox (way w b)) (wire (way w b)) (rx (way w b)) (inbox (way w b))
         (log_sent (way w b)) (log_recv (way w b)).
Proof. by destruct b. Qed.

(** ** The locks *)

Lemma start_lock_inv junk now t w c w' c' :
  start_lock junk now t w c = Ok (w', c') →
  ∃ n, send junk now c (lock_id t) (str "1") (zlen (str "1")) = Ok (n, c').
Proof.
  unfold start_lock. intros E. apply bind_Ok in E as ([n c1] & E1 & E). injection E as <- <-. eauto.
Qed.

(** The wait of [stop] is over when there is a byte of the lock. *)
Lemma stop_lock_inv now t w c w' c' :
  conn_wf c → stop_lock now 0 (state_ c) t w c = Ok (w', c') →
  zlen (ztake 1 (ready c (lock_id t))) = 1
  ∧ recv now 0 (state_ c) c (lock_id t) (new_char (λ _, x31) 1) 1 (-1)
    = Ok (1, ztake 1 (ready c (lock_id t)), c').
Proof.
  intros H E. unfold stop_lock in E. apply bind_Ok in E as ([[ret d] c1] & E1 & E). injection E as <- <-.
  change (new_char (λ _, x31) 1) with (str "1").
  assert (0 ≤ 0 ≤ if -1 <? 0 then 1000 * 1000000 else -1) as Ht by (vm_compute; intuition congruence).
  assert (0 ≤ 1 ≤ zlen (str "1")) as H1 by (vm_compute; intuition congruence).
  destruct (mapbuffer_ c !! lock_id t) as [b|] eqn:Eb.
  2: { by rewrite recv_no_id in E1 by (done || apply Ht). }
  pose proof (recv_ok now 0 (state_ c) c (lock_id t) (str "1") 1 (-1) H eq_refl Ht H1) as Hr.
  rewrite Eb in Hr. specialize (Hr ltac:(eauto)).
  destruct (Z.leb_spec 1 (zlen (ready c (lock_id t)))); [|congruence].
  destruct Hr as (b' & Er & _). rewrite Er in E1 |- *. injection E1 as <- <- <-.
  change (zdrop 1 (str "1")) with (@nil byte). rewrite app_nil_r. split; [zlia|done].
Qed.

(** ** Every step is one of [Link] in one direction *)

(** What an event of one direction is to the other one. *)
Lemma link_event_keeps junk e l l' d t :
  in_transit l d t → 3 * volume (log_sent l') < 2 ^ 63 → link_event junk [] [] e l l' →
  (∃ d' t', in_transit l' d' t') ∧ same_rx (tx l) (tx l') ∧ same_tx (rx l) (rx l').
Proof.
  intros H Hmax He.
  destruct (link_event_carries junk [] [] e l l'
              (λ k, ready (rx l) k.2 ++ on (option_list (inbox l)) k.2 ++ on t k.2))
    as (mb & _ & [Hit _] & _ & Hs); [|done..|by split].
  split; [by exists d, t|]. intros id. cbn.
  by rewrite app_assoc, (it_ready _ _ _ H), (it_split _ _ _ H), !on_app.
Qed.

Lemma ways_event junk e w w' b l' :
  ways_ok w → bounded w' → link_event junk [] [] e (way w b) l' → way w' b = l' →
  way w' (negb b) = Link (rx l') (outbox (way w (negb b))) (wire (way w (negb b))) (tx l')
                      (inbox (way w (negb b))) (log_sent (way w (negb b))) (log_recv (way w (negb b))) →
  ways_ok w'.
Proof.
  intros H Hb He E1 E2. destruct (H b) as (d & t & Hd).
  destruct (link_event_keeps junk e (way w b) l' d t) as (Hit & Hrx & Htx);
    [done|rewrite <- E1; apply Hb|done|].
  assert (∃ d t, in_transit (way w' (negb b)) d t) as Ho.
  { destruct (H (negb b)) as (d2 & t2 & H2). eapply (step_in_transit junk (way w (negb b))); [done|apply Hb|].
    rewrite E2. replace (rx l') with (tx (Link (rx l') [] [] (tx l') None [] [])) by done.
    apply step_other; [by destruct b|by destruct b]. }
  intros c. destruct (decide (c = b)) as [->|Hc]; [by rewrite E1|].
  by replace c with (negb b) by (by destruct b, c).
Qed.

Lemma traffic_ways junk w w' : ways_ok w → bounded w' → traffic_step junk w w' → ways_ok w'.
Proof.
  intros H Hb Hs. destruct Hs as [w b l' Hi _|w b now id data n c' Hg Hid E
    |w b now el st tmo id len data c' Hlen Hid E].
  - eapply (ways_event junk); [done|done|by apply le_internal|apply way_set_way|apply way_set_way_other].
  - eapply (ways_event junk); [done|done|by eapply (le_send junk _ _ (way w b))|by rewrite way_send|by rewrite way_send_other].
  - eapply (ways_event junk); [done|done|by eapply (le_recv junk _ _ (way w b))|..]; by destruct b.
Qed.

(** The tasks of an end change, not its connection. *)
Lemma same_ways w b p : ways_ok w → obj p = obj (peers w b) → ways_ok (set_peer b p w).
Proof.
  intros H E c. destruct (H c) as (d & t & Hd). exists d, t. unfold way, set_peer in *. cbn [peers chans].
  destruct b, c; cbn in *; rewrite ?fn_lookup_insert, ?fn_lookup_insert_ne, ?E by done; exact Hd.
Qed.

Lemma task_ways junk w w' : ways_ok w → bounded w' → task_step junk w w' → ways_ok w'.
Proof.
  intros H Hb Hs. destruct Hs as [w b t now p w1 c' <- Hst Hwk Hm Hg E|w b t p <- Hst Hm
    |w b t now p w1 c' <- Hst E|w b t p <- Hs _ _|w b t p <- Hs _|w b t p <- Hs _ _|w b t p <- Hs _ _ _].
  - apply start_lock_inv in E as [n E].
    eapply (ways_event junk); [done|done|by eapply (le_send junk _ _ (way w b))|by rewrite way_send|by rewrite way_send_other].
  - by apply same_ways.
  - destruct (H b) as (d & t' & Hd). apply stop_lock_inv in E as [_ E]; [|apply (it_tx _ _ _ Hd)].
    assert (rx (way w (negb b)) = conn (obj (peers w b))) as Er by (by destruct b).
    rewrite <- Er in E at 2.
    pose proof (le_recv (λ _, x31) [] [] _ _ _ _ _ _ 1 _ _ ltac:(done) E) as He.
    eapply (ways_event (λ _, x31) _ _ _ (negb b)); [done|done|exact He|..]; by destruct b.
  - by apply same_ways.
  - by apply same_ways.
  - by apply same_ways.
  - by apply same_ways.
Qed.

(** ** What the steps change *)

Lemma lock_id_inj t u : lock_id t = lock_id u → t = u.
Proof. apply app_inv_head. Qed.

Lemma on_snoc l id data id' : on (l ++ [(id, data)]) id' = on l id' ++ if decide (id' = id) then data else [].
Proof. by rewrite on_app, on_one. Qed.

Lemma send_stops junk now c id data len n c' :
  send junk now c id data len = Ok (n, c') → stop_works_ c' = stop_works_ c.
Proof. unfold send, put_into_send_buffer. intros E. by outcome_inv. Qed.

Lemma recv_stops now elapsed st c id data len timeout ret data' c' :
  recv now elapsed st c id data len timeout = Ok (ret, data', c') → stop_works_ c' = stop_works_ c.
Proof. unfold recv. intros E. repeat case_match; by outcome_inv. Qed.

(** Looks up the parts of both ends after an update. *)
Ltac sides :=
  unfold set_way, set_peer, set_chan, Barrier.set_conn, set_workers, log_send, log_receive; cbn [peers chans negb];
  rewrite ?fn_lookup_insert; repeat (rewrite fn_lookup_insert_ne by done; rewrite ?fn_lookup_insert);
  cbn [obj stages task_mtx_ workers flags conn c_sent c_recv].

(** The threads, the network and the applications leave the tasks and their locks
    alone. *)
Record same_tasks (w w' : state) : Prop := {
  st_stages b : stages (peers w' b) = stages (peers w b);
  st_mutex b : task_mtx_ (peers w' b) = task_mtx_ (peers w b);
  st_workers b : workers (peers w' b) = workers (peers w b);
  st_flags b : flags (peers w' b) = flags (peers w b);
  st_stops b : stop_works_ (conn (obj (peers w' b))) = stop_works_ (conn (obj (peers w b)));
  st_sent b t : on (c_sent (chans w' b)) (lock_id t) = on (c_sent (chans w b)) (lock_id t);
  st_recv b t : on (c_recv (chans w' b)) (lock_id t) = on (c_recv (chans w b)) (lock_id t)
}.

Lemma traffic_same_tasks junk w w' :
  ways_ok w → bounded w' → traffic_step junk w w' → same_tasks w w'.
Proof.
  intros H Hb Hs. destruct Hs as [w b l' Hi _|w b now id data n c' Hg Hid E
    |w b now el st tmo id len data c' Hlen Hid E].
  - destruct (H b) as (d & t & Hd). pose proof (step_volume junk _ _ (Link.step_internal _ _ _ Hi)) as Hmono.
    specialize (Hb b). change (c_sent (chans (set_way b l' w) b)) with (log_sent (way (set_way b l' w) b)) in Hb.
    rewrite way_set_way in Hb.
    destruct (internal_in_transit junk _ _ d t Hd ltac:(lia) Hi) as (El & [E1 E2] & _).
    assert (log_recv l' = log_recv (way w b)) as Er by (by inversion Hi).
    unfold way in El, E1, E2, Er; cbn [log_sent log_recv tx rx] in El, E1, E2, Er.
    destruct b; split; intros []; sides; cbn [negb] in *; intros; congruence.
  - apply send_stops in E as Es. destruct b; split; intros []; sides; cbn [negb] in *; try done; intros t;
      by rewrite on_snoc, decide_False, app_nil_r by (intros ?; by apply (Hid t)).
  - apply recv_stops in E as Es. destruct b; split; intros []; sides; cbn [negb] in *; try done; intros t;
      by rewrite on_snoc, decide_False, app_nil_r by (intros ?; by apply (Hid t)).
Qed.

Lemma zlen_on_snoc l id data id' :
  zlen (on (l ++ [(id, data)]) id') = zlen (on l id') + if decide (id' = id) then zlen data else 0.
Proof. rewrite on_snoc, zlen_app. by case_decide. Qed.

(** A step of a task changes one end. *)
Lemma end_changes_wf w w' b p' :
  barrier_wf w → ways_ok w' → peers w' = <[b := p']> (peers w) →
  stop_works_ (conn (obj p')) = stop_works_ (conn (obj (peers w b))) →
  (∀ t, task_mtx_ p' = Some t ↔ stages p' !! t = Some Stopping) → workers_ok p' →
  (∀ t, starts w' b t - stops w' b t - (if decide (is_Some (stages p' !! t)) then 1 else 0)
        = starts w b t - stops w b t - (if decide (is_Some (stages (peers w b) !! t)) then 1 else 0)) →
  (∀ t, starts w' (negb b) t = starts w (negb b) t ∧ stops w' (negb b) t = stops w (negb b) t) →
  barrier_wf w'.
Proof.
  intros [_ Hst Hm Hc Hwk] Hw' Ep Es Hm' Hwk' Hc' Ho. split; [done|..]; intros c; rewrite Ep;
    (destruct (decide (c = b)) as [->|Hne];
      [rewrite fn_lookup_insert|rewrite fn_lookup_insert_ne by done; try done]).
  - by rewrite Es.
  - done.
  - intros t. specialize (Hc b t). specialize (Hc' t). lia.
  - intros t. replace c with (negb b) by (by destruct b, c). destruct (Ho t) as [-> ->]. apply Hc.
  - done.
Qed.

Lemma stages_insert (m : gmap bytes stage) t s u :
  (if decide (is_Some (<[t := s]> m !! u)) then 1 else 0)
  = (if decide (u = t) then 1 else if decide (is_Some (m !! u)) then 1 else 0).
Proof.
  destruct (decide (u = t)) as [->|Hne].
  - by rewrite decide_True by (rewrite lookup_insert_eq; eauto).
  - by rewrite lookup_insert_ne.
Qed.

Lemma start_wf junk w b t now w1 c' :
  barrier_wf w → stages (peers w b) !! t = None → workers (peers w b) !! t = None → task_mtx_ (peers w b) = None →
  start_lock junk now t (tasks (obj (peers w b))) (conn (obj (peers w b))) = Ok (w1, c') →
  let w' := set_chan b (log_send (lock_id t, str "1") (chans w b))
              (set_peer b (Peer (Obj c' w1) (<[t := Started]> (stages (peers w b))) None
                                (<[t := Turn]> (workers (peers w b))) (flags (peers w b))) w) in
  ways_ok w' → barrier_wf w'.
Proof.
  intros Hwf Hs Hwk Hmt [n E%send_stops]%start_lock_inv w' Hw'. pose proof (ba_workers _ Hwf b) as [Hw1 Hw2 Hw3].
  eapply (end_changes_wf w w' b); [done..| | | |]; cbn [stages task_mtx_].
  - intros u. pose proof (ba_mutex _ Hwf b u) as Hm. rewrite Hmt in Hm. split; [done|].
    destruct (decide (u = t)) as [->|]; [by rewrite lookup_insert_eq|rewrite lookup_insert_ne by done; naive_solver].
  - split; cbn [stages workers flags].
    + intros u. destruct (decide (u = t)) as [->|]; [|rewrite !lookup_insert_ne by done; apply Hw1].
      rewrite !lookup_insert_eq. split; [by eexists|]. intros [x Hx]%Hw2. congruence.
    + intros u Hu. destruct (decide (u = t)) as [->|]; [rewrite lookup_insert_eq; by eexists|].
      rewrite lookup_insert_ne by done. by apply Hw2.
    + intros u v [[_ [=]]|[_ Hu]]%lookup_insert_Some [[_ [=]]|[_ Hv]]%lookup_insert_Some. by apply Hw3.
  - intros u. rewrite stages_insert. unfold starts, stops, w'.
    assert (zlen (on (c_recv (chans w' (negb b))) (lock_id u)) = zlen (on (c_recv (chans w (negb b))) (lock_id u))) as Er
      by (by destruct b; unfold w'; sides).
    fold w'. rewrite Er. replace (c_sent (chans w' b)) with (c_sent (chans w b) ++ [(lock_id t, str "1")])
      by (by destruct b; unfold w'; sides).
    rewrite zlen_on_snoc. destruct (decide (u = t)) as [->|Hne].
    + rewrite decide_True, (decide_False (P := is_Some _)) by (done || by rewrite Hs; intros []). change (zlen (str "1")) with 1. lia.
    + rewrite decide_False by (by intros ?%lock_id_inj). lia.
  - intros u. by destruct b; unfold starts, stops, w'; sides.
Qed.

Lemma stop_wf w b t :
  barrier_wf w → stages (peers w b) !! t = Some Started → task_mtx_ (peers w b) = None →
  let w' := set_peer b (Peer (obj (peers w b)) (<[t := Stopping]> (stages (peers w b))) (Some t)
                            (workers (peers w b)) (flags (peers w b))) w in
  ways_ok w' → barrier_wf w'.
Proof.
  intros Hwf Hs Hmt w' Hw'. pose proof (ba_workers _ Hwf b) as [Hw1 Hw2 Hw3].
  eapply (end_changes_wf w w' b); [done..| | | |]; cbn [stages task_mtx_].
  - intros u. pose proof (ba_mutex _ Hwf b u) as Hm. rewrite Hmt in Hm.
    destruct (decide (u = t)) as [->|]; [by rewrite lookup_insert_eq|rewrite lookup_insert_ne by done; naive_solver].
  - split; cbn [stages workers flags]; [|done..]. intros u. destruct (decide (u = t)) as [->|].
    + intros _. apply Hw1. by eexists.
    + rewrite lookup_insert_ne by done. apply Hw1.
  - intros u. rewrite stages_insert. unfold starts, stops. change (chans w') with (chans w).
    destruct (decide (u = t)) as [->|]; [rewrite decide_True by (rewrite Hs; eauto)|]; lia.
  - done.
Qed.

Lemma stopped_wf w b t now w1 c' :
  barrier_wf w → stages (peers w b) !! t = Some Stopping →
  stop_lock now 0 (state_ (conn (obj (peers w b)))) t (tasks (obj (peers w b))) (conn (obj (peers w b)))
    = Ok (w1, c') →
  let w' := set_chan (negb b)
              (log_receive (lock_id t, ztake 1 (ready (conn (obj (peers w b))) (lock_id t))) (chans w (negb b)))
              (set_peer b (Peer (Obj c' w1) (delete t (stages (peers w b))) None
                                (workers (peers w b)) (flags (peers w b))) w) in
  ways_ok w' → barrier_wf w'.
Proof.
  intros Hwf Hs E w' Hw'. destruct (ba_way _ Hwf b) as (d & todo & Hd).
  apply stop_lock_inv in E as [Hlen E%recv_stops]; [|apply (it_tx _ _ _ Hd)].
  pose proof (ba_workers _ Hwf b) as [Hw1 Hw2 Hw3].
  eapply (end_changes_wf w w' b); [done..| | | |]; cbn [stages task_mtx_].
  - intros u. pose proof (ba_mutex _ Hwf b t) as Hm. pose proof (ba_mutex _ Hwf b u) as Hu. split; [done|].
    destruct (decide (u = t)) as [->|]; [by rewrite lookup_delete_eq|rewrite lookup_delete_ne by done].
    apply Hm in Hs. rewrite Hs in Hu. naive_solver.
  - split; cbn [stages workers flags]; [|done..]. intros u [_ Hu]%lookup_delete_is_Some. by apply Hw1.
  - intros u. unfold starts, stops.
    replace (c_sent (chans w' b)) with (c_sent (chans w b)) by (by destruct b; unfold w'; sides).
    replace (c_recv (chans w' (negb b)))
      with (c_recv (chans w (negb b)) ++ [(lock_id t, ztake 1 (ready (conn (obj (peers w b))) (lock_id t)))])
      by (by destruct b; unfold w'; sides).
    rewrite zlen_on_snoc, Hlen. destruct (decide (u = t)) as [->|Hne].
    + rewrite (decide_True (P := lock_id t = _)), lookup_delete_eq, Hs by done.
      rewrite decide_False, decide_True by (eauto || by intros []). lia.
    + rewrite lookup_delete_ne by done. rewrite decide_False by (by intros ?%lock_id_inj). lia.
  - intros u. by destruct b; unfold starts, stops, w'; sides.
Qed.

(** The threads of an end change. *)
Lemma workers_wf w b ws fs :
  barrier_wf w → workers_ok (set_workers ws fs (peers w b)) → barrier_wf (set_peer b (set_workers ws fs (peers w b)) w).
Proof.
  intros Hwf Hwk. eapply (end_changes_wf w _ b); [done|by apply same_ways; [apply Hwf|]|done|done| |done|done|done].
  intros t. apply (ba_mutex _ Hwf b t).
Qed.

Lemma flag_ok p t :
  workers_ok p → stages p !! t = None → is_Some (workers p !! t) → workers_ok (set_workers (workers p) ({[t]} ∪ flags p) p).
Proof.
  intros [H1 H2 H3] Es Ew. split; cbn; [|set_solver|done]. intros u Hu. destruct (H1 u Hu). split; [done|].
  assert (u ≠ t) by (intros ->; rewrite Es in Hu; by destruct Hu). set_solver.
Qed.

Lemma turn_ok p t :
  workers_ok p → workers p !! t = Some Turn → (∀ u, workers p !! u ≠ Some Loops) →
  workers_ok (set_workers (<[t := Loops]> (workers p)) (flags p) p).
Proof.
  intros [H1 H2 H3] Et Hn. split; cbn.
  - intros u [??]%H1. split; [|done]. rewrite lookup_insert_is_Some. destruct (decide (t = u)); auto.
  - intros u Hu%H2. rewrite lookup_insert_is_Some. destruct (decide (t = u)); auto.
  - intros u v [[<- _]|[_ Hu]]%lookup_insert_Some [[<- _]|[_ Hv]]%lookup_insert_Some; [done|by destruct (Hn v)|by destruct (Hn u)..].
Qed.

Lemma ended_ok p t :
  workers_ok p → t ∈ flags p → workers_ok (set_workers (delete t (workers p)) (flags p ∖ {[t]}) p).
Proof.
  intros [H1 H2 H3] Ht. split; cbn.
  - intros u [Hu Hf]%H1. rewrite lookup_delete_ne by (intros ->; done). set_solver.
  - intros u [Hu%H2 Hne]%elem_of_difference. rewrite lookup_delete_ne by set_solver. done.
  - intros u v [_ Hu]%lookup_delete_Some [_ Hv]%lookup_delete_Some. by apply H3.
Qed.

Lemma barrier_step_wf junk w w' : barrier_wf w → bounded_step junk w w' → barrier_wf w'.
Proof.
  intros Hwf [[Hs|Hs] Hb]; pose proof (ba_way _ Hwf) as Hw.
  { destruct (traffic_same_tasks junk w w' Hw Hb Hs) as [E1 E2 Ew Ef E3 E4 E5]. destruct Hwf as [_ Hst Hm Hc Hwk].
    split; [by eapply traffic_ways|..]; intros b; rewrite ?E1, ?E2, ?E3; try done.
    - intros t. unfold starts, stops. rewrite E4, E5. apply Hc.
    - destruct (Hwk b) as [H1 H2 H3]. split; rewrite ?E1, ?Ew, ?Ef; done. }
  pose proof (task_ways junk w w' Hw Hb Hs) as Hw'.
  destruct Hs as [w b t now p w1 c' <- Hs Hwk Hmt Hg E|w b t p <- Hs Hmt|w b t now p w1 c' <- Hs E
    |w b t p <- Hs Hwk _|w b t p <- Hwk Hn|w b t p <- Hwk Hf _|w b t p <- Hwk Hf _ _].
  - by eapply start_wf.
  - by apply stop_wf.
  - by eapply stopped_wf.
  - apply workers_wf; [done|]. by apply flag_ok; [apply (ba_workers _ Hwf)|..].
  - apply workers_wf; [done|]. by apply turn_ok; [apply (ba_workers _ Hwf)|..].
  - apply workers_wf; [done|]. by apply ended_ok; [apply (ba_workers _ Hwf)|].
  - apply workers_wf; [done|]. by apply ended_ok; [apply (ba_workers _ Hwf)|].
Qed.

#[export] Instance barrier_wf_invariant junk : Invariant (bounded_step junk) barrier_wf.
Proof. intros w w'. apply barrier_step_wf. Qed.

Lemma connected_wf w : connected w → barrier_wf w.
Proof.
  intros H. split.
  - intros b. exists [], []. destruct (H b) as ((? & Es & _) & _ & _ & _ & _ & _ & Ech).
    destruct (H (negb b)) as ((? & _ & Er & Hid) & _).
    split; cbn; rewrite ?Ech; cbn; [done..|by rewrite Es, Er|]. intros id. by rewrite Hid.
  - intros b. by destruct (H b) as (_ & ? & _).
  - intros b t. destruct (H b) as (_ & _ & -> & -> & _). by rewrite lookup_empty.
  - intros b t. destruct (H b) as (_ & _ & Est & _ & _ & _ & Ech).
    destruct (H (negb b)) as (_ & _ & _ & _ & _ & _ & Ech').
    unfold starts, stops. rewrite Est, Ech, Ech', lookup_empty. cbn. rewrite decide_False by (by intros []). done.
  - intros b. destruct (H b) as (_ & _ & Est & _ & Ew & Ef & _).
    split; rewrite ?Est, ?Ew, ?Ef; [intros t; rewrite lookup_empty; by intros []|set_solver|done].
Qed.

Lemma barrier_reachable_wf junk w : reachable junk w → barrier_wf w.
Proof.
  intros (w0 & H0 & Hr). apply (invariant_rtc (bounded_step junk) barrier_wf w0); [by apply connected_wf|done].
Qed.

(** The locks a peer has sent and a [stop] has not taken. *)
Lemma locks_counted w b t :
  ways_ok w →
  stops w b t + zlen (ready (conn (obj (peers w b))) (lock_id t)) ≤ starts w (negb b) t.
Proof.
  intros Hw. destruct (Hw (negb b)) as (d & todo & Hd).
  assert (rx (way w (negb b)) = conn (obj (peers w b))) as Er by (by destruct b).
  pose proof (it_ready _ _ _ Hd (lock_id t)) as E. pose proof (it_split _ _ _ Hd) as Esp.
  rewrite Er in E. cbn [way log_recv log_sent] in E, Esp. unfold starts, stops.
  rewrite Esp, on_app, zlen_app, <- E, zlen_app.
  pose proof (zlen_nonneg (on (option_list (inbox (way w (negb b))) ++ todo) (lock_id t))) as Hn. cbn in Hn |- *. lia.
Qed.







(** What the calls of the tasks have done is as it was. *)
Record same_calls (w w' : state) : Prop := {
  sc_stages b : stages (peers w' b) = stages (peers w b);
  sc_mutex b : task_mtx_ (peers w' b) = task_mtx_ (peers w b);
  sc_sent b t : on (c_sent (chans w' b)) (lock_id t) = on (c_sent (chans w b)) (lock_id t);
  sc_recv b t : on (c_recv (chans w' b)) (lock_id t) = on (c_recv (chans w b)) (lock_id t)
}.

Lemma same_tasks_calls w w' : same_tasks w w' → same_calls w w'.
Proof. by intros []. Qed.


Lemma workers_calls w c ws fs : same_calls w (set_peer c (set_workers ws fs (peers w c)) w).
Proof. split; intros b; try done; destruct b, c; by sides. Qed.








(** Both ends wait for a lock that was never sent. *)
Record blocked (w : state) (b : bool) (t u : bytes) : Prop := {
  bl_wf : barrier_wf w;
  bl_here : stages (peers w b) !! t = Some Stopping;
  bl_no_lock : starts w (negb b) t = stops w b t;
  bl_there : stages (peers w (negb b)) !! u = Some Stopping;
  bl_no_lock' : starts w b u = stops w (negb b) u
}.

Lemma blocked_mutex w b t u c : blocked w b t u →
  ∃ v, task_mtx_ (peers w c) = Some v ∧ starts w (negb c) v = stops w c v.
Proof.
  intros [Hwf H1 E1 H2 E2]. apply (ba_mutex _ Hwf) in H1, H2.
  destruct (decide (c = b)) as [->|Hne]; [by exists t|]. exists u.
  replace c with (negb b) by (by destruct b, c). by rewrite negb_involutive.
Qed.

(** Nothing can start or stop any more: only threads that are there move. *)
Lemma blocked_task junk w b t u w' : blocked w b t u → task_step junk w w' → same_calls w w'.
Proof.
  intros Hb Hs. pose proof (bl_wf _ _ _ _ Hb) as Hwf.
  destruct Hs as [w c v now p w1 c' <- Hs Hwk Hmt Hg E|w c v p <- Hs Hmt|w c v now p w1 c' <- Hs E
    |w c v p <- Hs Hwk _|w c v p <- Hwk Hn|w c v p <- Hwk Hf _|w c v p <- Hwk Hf _ _]; [..|by apply workers_calls|
    by apply workers_calls|by apply workers_calls|by apply workers_calls];
    destruct (blocked_mutex w b t u c Hb) as (x & Ex & Hx); [congruence..|].
  apply (ba_mutex _ Hwf) in Hs. assert (x = v) as -> by congruence.
  pose proof (locks_counted w c v (ba_way _ Hwf)). destruct (ba_way _ Hwf c) as (d & todo & Hd).
  apply stop_lock_inv in E as [Hlen _]; [|apply (it_tx _ _ _ Hd)]. rewrite zlen_ztake in Hlen. lia.
Qed.

Lemma blocked_step junk w b t u w' :
  blocked w b t u → bounded_step junk w w' → blocked w' b t u ∧ same_calls w w'.
Proof.
  intros Hb Hst. pose proof Hst as [Hs Hmax].
  assert (same_calls w w') as Hsame.
  { destruct Hs as [Hs|Hs]; [|by eapply blocked_task].
    apply same_tasks_calls. by apply (traffic_same_tasks junk w w' (ba_way _ (bl_wf _ _ _ _ Hb)) Hmax Hs). }
  split; [|done]. destruct Hb as [Hwf H1 E1 H2 E2], Hsame as [Est Em Es Er].
  unfold starts, stops in *. split; rewrite ?Est; unfold starts, stops; rewrite ?Es, ?Er; try done.
  by eapply barrier_step_wf.
Qed.

(** What is not sent yet when the loops see the flag of their task stays in the
    ring: neither [stop] nor the loop of the stopped task sends it. *)
Lemma stop_leaves_unsent junk now elapsed t o o' :
  conn_stop now elapsed t o = Ok o' →
  to_send (conn o') = to_send (conn o)
  ∧ ∀ c, stop_requested c t = true → loop_send_take junk now t c = Ok (None, c).
Proof.
  intros E. split; [|intros c Hc; unfold loop_send_take; by rewrite Hc].
  unfold conn_stop, stop_lock in E. apply bind_Ok in E as ([w c] & E1 & E). apply bind_Ok in E as (w' & _ & E).
  injection E as <-. apply bind_Ok in E1 as ([[ret d] c1] & E1 & E2). injection E2 as _ <-.
  unfold recv in E1. repeat case_match; by outcome_inv.
Qed.

(** * Properties *)

(** C12: starting and stopping a task is a barrier between the two ends, however
    the calls of all tasks at both ends, the applications, the threads and the network
    interleave: the [stop] of a task has returned at one end at most as often as the
    task was started at the other; at each end it was started once more than stopped
    while it is started and as often otherwise; and at most one [stop] waits. *)
Theorem stop_is_barrier junk w b t :
  reachable junk w →
  stops w b t ≤ starts w (negb b) t
  ∧ starts w b t = stops w b t + (if decide (is_Some (stages (peers w b) !! t)) then 1 else 0)
  ∧ ∀ u, stages (peers w b) !! t = Some Stopping → stages (peers w b) !! u = Some Stopping → t = u.
Proof.
  intros Hwf%barrier_reachable_wf. split_and!; [|apply (ba_count _ Hwf)|].
  - pose proof (locks_counted w b t (ba_way _ Hwf)).
    pose proof (zlen_nonneg (ready (conn (obj (peers w b))) (lock_id t))). lia.
  - intros u Ht%(ba_mutex _ Hwf) Hu%(ba_mutex _ Hwf). congruence.
Qed.


(** C38: two tasks can block each other for ever: when each end waits in the [stop]
    of a task that the other end has not started, neither [stop] ever returns and no
    task starts at either end any more, because a [start] needs the mutex that the
    [stop] holds while it waits. *)
Theorem stops_block_for_ever junk w b t u :
  reachable junk w →
  stages (peers w b) !! t = Some Stopping → starts w (negb b) t = stops w b t →
  stages (peers w (negb b)) !! u = Some Stopping → starts w b u = stops w (negb b) u →
  ∀ w', rtc (bounded_step junk) w w' → ∀ c, stages (peers w' c) = stages (peers w c).
Proof.
  intros Hr H1 E1 H2 E2 w' Hs.
  assert (blocked w b t u) as Hbl by (split; [by eapply barrier_reachable_wf|done..]). clear Hr H1 E1 H2 E2.
  induction Hs as [w|w w1 w' Hs _ IH]; [done|]. destruct (blocked_step junk w b t u w1 Hbl Hs) as [Hbl1 [Est _ _ _]].
  intros c. by rewrite IH, Est.
Qed.

(** * Witnesses *)

Definition two_ends : state :=
  State (λ _, Peer (Obj (small_conn [] []) works_init) ∅ None ∅ ∅) (λ _, no_traffic).

Lemma two_ends_connected : connected two_ends.
Proof.
  intros b. by split_and!.
Qed.

(** An end after [start] of its first task, and in [stop] after it. *)
Definition started (t : bytes) : peer :=
  match start_lock (λ _, x00) 0 t works_init (small_conn [] []) with
  | Ok (w, c) => Peer (Obj c w) (<[t := Started]> ∅) None (<[t := Turn]> ∅) ∅
  | _ => Peer (Obj (small_conn [] []) works_init) ∅ None ∅ ∅
  end.
Definition stopping (t : bytes) : peer :=
  Peer (obj (started t)) (<[t := Stopping]> (<[t := Started]> ∅)) (Some t) (<[t := Turn]> ∅) ∅.

Definition sent_lock (t : bytes) : channel := log_send (lock_id t, str "1") no_traffic.

(** One end starts task a and the other task b; then each stops its task. *)
Definition one_started : state := set_chan false (sent_lock (str "a")) (set_peer false (started (str "a")) two_ends).
Definition both_started : state := set_chan true (sent_lock (str "b")) (set_peer true (started (str "b")) one_started).
Definition one_stops : state := set_peer false (stopping (str "a")) both_started.
Definition crossed : state := set_peer true (stopping (str "b")) one_stops.

Lemma crossed_reachable : reachable (λ _, x00) crossed.
Proof.
  assert (∀ b, 3 * volume (c_sent (chans both_started b)) < 2 ^ 63) as Hb by (by intros []).
  exists two_ends. split; [apply two_ends_connected|].
  apply (rtc_l _ _ one_started); [split; [right|by intros []]|].
  { by apply (b_start _ two_ends false (str "a") 0 (peers two_ends false) (tasks (obj (started (str "a"))))
             (conn (obj (started (str "a"))))). }
  apply (rtc_l _ _ both_started); [split; [right|done]|].
  { by apply (b_start _ one_started true (str "b") 0 (peers two_ends true) (tasks (obj (started (str "b"))))
             (conn (obj (started (str "b"))))). }
  apply (rtc_l _ _ one_stops); [split; [right|done]|].
  { by apply (b_stop _ both_started false (str "a") (started (str "a"))). }
  apply rtc_once. split; [right|done]. by apply (b_stop _ one_stops true (str "b") (started (str "b"))).
Qed.

Lemma stops_block_for_ever_witness :
  ∃ w, stages (peers w false) !! str "a" = Some Stopping ∧ stages (peers w true) !! str "b" = Some Stopping
  ∧ ∀ w', rtc (bounded_step (λ _, x00)) w w' → ∀ c, stages (peers w' c) = stages (peers w c).
Proof.
  exists crossed. split; [done|]. split; [done|].
  by apply (stops_block_for_ever (λ _, x00) crossed false (str "a") (str "b") crossed_reachable).
Defined.

Lemma stop_is_barrier_witness :
  ∃ w, stages (peers w false) !! str "a" = Some Stopping
  ∧ stops w false (str "a") ≤ starts w true (str "a")
  ∧ starts w false (str "a")
    = stops w false (str "a") + (if decide (is_Some (stages (peers w false) !! str "a")) then 1 else 0)
  ∧ ∀ u, stages (peers w false) !! str "a" = Some Stopping →
      stages (peers w false) !! u = Some Stopping → str "a" = u.
Proof.
  exists crossed. split; [done|].
  exact (stop_is_barrier (λ _, x00) crossed false (str "a") crossed_reachable).
Defined.




End Barrier.
