(* ===== verification/CheckConfig.v ===== *)
(** The program [example/check_config_json.cpp]: every node sends the size and the
    text of its configuration to every node it is connected to, and then receives
    the same from each of them.  A program that calls [Send] and [Recv] is a value of
    [prog]; a system of programs runs over any transition system with the events of
    [Network], so what is shown over the mailbox holds over the network. *)
From stdpp Require Import functions.
From Stdlib Require Import Strings.Byte.
From S2P Require Import Prelude SimpleBuffer Transport Connection Link StdMap Config Codec Topology NetIO Network.
#[local] Open Scope Z_scope.

(** * Programs that communicate *)

(** [Recv] continues with what it put in the buffer, or with nothing if it returned an
    error result. *)
Inductive prog (R : Type) :=
  | Ret (r : R)
  | Raise (e : exn)
  | DoSend (node_id id data : bytes) (k : prog R)
  | DoRecv (node_id id : bytes) (length : Z) (k : option bytes → prog R).
Arguments Ret {_} _.
Arguments Raise {_} _.
Arguments DoSend {_} _ _ _ _.
Arguments DoRecv {_} _ _ _ _.

Section apps.
Context {R W : Type} (sys : option event → relation W).

(** A program at every node. *)
Inductive app_step : option event → relation (gmap bytes (prog R) * W) :=
  | app_silent P w w' :
      sys None w w' → app_step None (P, w) (P, w')
  | app_send P w w' a b id bin data k :
      P !! a = Some (DoSend b id data k) → get_string id = Ok bin →
      sys (Some (Sent a b bin data)) w w' →
      app_step (Some (Sent a b bin data)) (P, w) (<[a := k]> P, w')
  | app_recv P w w' a b id bin data k :
      P !! b = Some (DoRecv a id (zlen data) k) → get_string id = Ok bin →
      sys (Some (Received a b bin data)) w w' →
      app_step (Some (Received a b bin data)) (P, w) (<[b := k (Some data)]> P, w')
  | app_fail P w w' a b id bin length ret k :
      P !! b = Some (DoRecv a id length k) → get_string id = Ok bin →
      sys (Some (Failed a b bin ret)) w w' →
      app_step (Some (Failed a b bin ret)) (P, w) (<[b := k None]> P, w').
End apps.

(** Programs see only events: over an implementation they do what they can do over
    the specification. *)
#[export] Instance app_simulation {R W V} (sys : option event → relation W)
    (spec : option event → relation V) (rel : W → V → Prop) :
  Simulation sys spec rel →
  Simulation (app_step (R:=R) sys) (app_step spec) (λ x y, x.1 = y.1 ∧ rel x.2 y.2).
Proof.
  intros Hsim x [P v] l x' [Ep Hrel] Hs. cbn in Ep.
  assert (∀ l w w', rel w v → sys l w w' → ∃ v', rel w' v' ∧ trace spec v (option_list l) v') as Hm.
  { intros l0 w w'. apply simulates. }
  destruct Hs as [P' w w' Hw|P' w w' a b id bin data k EP Eid Hw|P' w w' a b id bin data k EP Eid Hw
    |P' w w' a b id bin len ret k EP Eid Hw]; cbn in Ep, Hrel; subst P';
    destruct (Hm _ _ _ Hrel Hw) as (v' & Hrel' & Ht).
  - exists (P, v'). split; [done|]. refine (trace_none (λ v, (P, v)) _ _ _ Ht). by constructor.
  - exists (<[a := k]> P, v'). split; [done|].
    refine (trace_single (λ v, (P, v)) (λ v, (<[a := k]> P, v)) _ _ _ _ _ _ Ht); [by constructor..|].
    intros. by eapply app_send.
  - exists (<[b := k (Some data)]> P, v'). split; [done|].
    refine (trace_single (λ v, (P, v)) (λ v, (<[b := k (Some data)]> P, v)) _ _ _ _ _ _ Ht); [by constructor..|].
    intros. by eapply app_recv.
  - exists (<[b := k None]> P, v'). split; [done|].
    refine (trace_single (λ v, (P, v)) (λ v, (<[b := k None]> P, v)) _ _ _ _ _ _ Ht); [by constructor..|].
    intros. by eapply app_fail.
Qed.

(** * The program *)

(** [fgets(buf, n + 1, fp)]: a line, or the first [n] bytes of it; and what is left
    of the file. *)
Fixpoint fgets (n : nat) (file : bytes) : bytes * bytes :=
  match n, file with
  | S n, c :: file =>
    if decide (c = x0a) then ([c], file) else let '(l, file) := fgets n file in (c :: l, file)
  | _, _ => ([], file)
  end.

(** [sizeof(buf) - 1]. *)
Definition chunk : nat := 1023.

(** The loop that reads the file; [string(buf)] stops at a NUL. *)
Fixpoint read_loop (fuel : nat) (file config_str : bytes) : bytes :=
  match fuel, file with
  | S fuel, _ :: _ =>
    let '(buf, file) := fgets chunk file in read_loop fuel file (config_str ++ c_str buf)
  | _, _ => config_str
  end.

Definition read_config (file : bytes) : bytes := read_loop (length file) file [].

Definition data_id : bytes := str "config str".

(** What is printed: the peer and the size; and the text received. *)
Abbreviation report := (list (bytes * Z * bytes)).

Fixpoint recv_loop (connected_nodes : list bytes) (acc : report) : prog report :=
  match connected_nodes with
  | [] => Ret acc
  | b :: connected_nodes =>
    DoRecv b data_id 4 (λ got,
      let data_size := to_int (le_value (default (zeros 4) got)) in
      if data_size <? 0 then Raise length_error             (* string data(data_size, 0) *)
      else DoRecv b data_id data_size (λ got,
             recv_loop connected_nodes (acc ++ [(b, data_size, default (zeros data_size) got)])))
  end.

Fixpoint send_loop (connected_nodes : list bytes) (size : Z) (config_str : bytes) (k : prog report)
    : prog report :=
  match connected_nodes with
  | [] => k
  | b :: connected_nodes =>
    DoSend b data_id (int_bytes size)
      (DoSend b data_id (ztake size config_str) (send_loop connected_nodes size config_str k))
  end.

(** [main], from the channel's answer to [GetConnectedNodeIDs] on.  A negative size
    becomes a length beyond the string. *)
Definition main (file : bytes) (connected : NodeIDVec) : outcome (prog report) :=
  let config_str := read_config file in
  connected_nodes ← decode_vector connected;
  let config_str_size := to_int (zlen config_str) in
  _ ← require ((0 <=? config_str_size) || bool_decide (connected_nodes = [])) OutOfBounds;
  mret (send_loop connected_nodes config_str_size config_str (recv_loop connected_nodes [])).

(** * What the programs do *)

(** The binary form of the id. *)
Definition data_bin : bytes := default [] (match get_string data_id with Ok b => Some b | _ => None end).

Lemma data_id_ok : get_string data_id = Ok data_bin.
Proof. by vm_compute. Qed.

Definition finished {R} (p : prog R) : bool := match p with Ret _ => true | _ => false end.

(** [Recv] did not return an error result. *)
Definition succeeded (e : event) : Prop := match e with Failed _ _ _ _ => False | _ => True end.

(** What the programs send: the id of the exchange and less than 2^32 bytes. *)
Definition small (e : event) : Prop :=
  match e with Sent _ _ id data => id = data_bin ∧ 0 < zlen data < 2 ^ 32 | _ => True end.

(** Every node has a configuration file, and the connections are mutual. *)
Record exchange (files : gmap bytes bytes) (peers : bytes → list bytes) : Prop := {
  x_text a f : files !! a = Some f → text f;
  x_size a f : files !! a = Some f → 0 < zlen f < 2 ^ 31;
  x_names a : Forall text (peers a);
  x_nodup a : NoDup (peers a);
  x_mutual a b f : files !! a = Some f → b ∈ peers a → is_Some (files !! b) ∧ a ∈ peers b
}.

(** [main] is about to run at every node, connected to its peers. *)
Definition started (files : gmap bytes bytes) (peers : bytes → list bytes)
    (P : gmap bytes (prog report)) : Prop :=
  ∀ a, match files !! a with
       | Some f => ∃ v p, encode_vector (peers a) = Ok v ∧ main f v = Ok p ∧ P !! a = Some p
       | None => P !! a = None
       end.

(** The configuration of a node, what it sends to each peer, and what it should print
    of some peers. *)
Definition config_of (files : gmap bytes bytes) (a : bytes) : bytes := default [] (files !! a).
Definition size_bytes (files : gmap bytes bytes) (a : bytes) : bytes :=
  int_bytes (zlen (config_of files a)).
Definition message_of (files : gmap bytes bytes) (a : bytes) : bytes :=
  size_bytes files a ++ config_of files a.
Definition expected (files : gmap bytes bytes) (l : list bytes) : report :=
  (λ b, (b, zlen (config_of files b), config_of files b)) <$> l.

(** Events all the programs together have. *)
Definition exchange_length (files : gmap bytes bytes) (peers : bytes → list bytes) : nat :=
  sum_list_with (λ a, 4 * length (peers a))%nat (base.elements (dom files)).

(** * Lemmas *)

(** ** Reading the file *)

Lemma fgets_split n file l rest :
  fgets n file = (l, rest) → file = l ++ rest ∧ (n ≠ O → file ≠ [] → l ≠ []).
Proof.
  revert file l rest. induction n as [|n IH]; intros [|c file] l rest; cbn; [intros [= <- <-]; done..|].
  case_decide; [intros [= <- <-]; done|].
  destruct (fgets n file) as [l' rest'] eqn:E. intros [= <- <-].
  destruct (IH _ _ _ E) as [-> _]. done.
Qed.

Lemma text_app l r : text (l ++ r) → text l ∧ text r.
Proof.
  unfold text. induction l as [|c l IH]; [done|]. cbn. case_decide; [done|]. intros [= E].
  destruct (IH E) as [-> ->]. done.
Qed.

Lemma read_config_text file : text file → read_config file = file.
Proof.
  intros Ht. unfold read_config.
  assert (∀ fuel file acc, text file → (length file ≤ fuel)%nat → read_loop fuel file acc = acc ++ file) as H.
  { clear. induction fuel as [|fuel IH]; intros [|c file] acc Ht Hf; [by rewrite app_nil_r|cbn in Hf; lia
      |by rewrite app_nil_r|]. cbn [read_loop].
    destruct (fgets chunk (c :: file)) as [l rest] eqn:E. apply fgets_split in E as [E Hl].
    rewrite E in Ht. apply text_app in Ht as [Hl' Hr]. assert (l ≠ []) as Hne by by apply Hl.
    rewrite IH; [by rewrite Hl', E, <- app_assoc|done|].
    apply (f_equal length) in E. rewrite length_app in E. destruct l; [done|]. cbn in E, Hf. lia. }
  by rewrite H.
Qed.

(** ** Where a program is *)

Section exchange.
Context (files : gmap bytes bytes) (peers : bytes → list bytes) (Hx : exchange files peers).

Local Abbreviation cfg := (config_of files).

(** The peers served and those still to be served; the [Text] stages are between the
    size and the text. *)
Inductive stage :=
  | Sending (l1 l2 : list bytes)
  | SendingText (l1 : list bytes) (b : bytes) (l2 : list bytes)
  | Receiving (l1 l2 : list bytes)
  | ReceivingText (l1 : list bytes) (b : bytes) (l2 : list bytes).

Definition stage_wf (a : bytes) (st : stage) : Prop :=
  match st with
  | Sending l1 l2 => peers a = l1 ++ l2 ∧ l2 ≠ []
  | SendingText l1 b l2 | ReceivingText l1 b l2 => peers a = l1 ++ b :: l2
  | Receiving l1 l2 => peers a = l1 ++ l2
  end.

Definition program_at (a : bytes) (st : stage) : prog report :=
  match st with
  | Sending _ l2 => send_loop l2 (zlen (cfg a)) (cfg a) (recv_loop (peers a) [])
  | SendingText _ b l2 =>
    DoSend b data_id (cfg a) (send_loop l2 (zlen (cfg a)) (cfg a) (recv_loop (peers a) []))
  | Receiving l1 l2 => recv_loop l2 (expected files l1)
  | ReceivingText l1 b l2 =>
    DoRecv b data_id (zlen (cfg b)) (λ got,
      recv_loop l2 (expected files l1 ++ [(b, zlen (cfg b), default (zeros (zlen (cfg b))) got)]))
  end.

(** What the program at [a] has sent to [c], and received from [c]. *)
Definition sent_at (a : bytes) (st : stage) (c : bytes) : bytes :=
  match st with
  | Sending l1 _ => if decide (c ∈ l1) then message_of files a else []
  | SendingText l1 b _ =>
    if decide (c ∈ l1) then message_of files a else if decide (c = b) then size_bytes files a else []
  | _ => if decide (c ∈ peers a) then message_of files a else []
  end.

Definition got_at (st : stage) (c : bytes) : bytes :=
  match st with
  | Sending _ _ | SendingText _ _ _ => []
  | Receiving l1 _ => if decide (c ∈ l1) then message_of files c else []
  | ReceivingText l1 b _ =>
    if decide (c ∈ l1) then message_of files c else if decide (c = b) then size_bytes files c else []
  end.

(** Events to come. *)
Definition left_at (a : bytes) (st : stage) : nat :=
  match st with
  | Sending _ l2 => 2 * length l2 + 2 * length (peers a)
  | SendingText _ _ l2 => 1 + 2 * length l2 + 2 * length (peers a)
  | Receiving _ l2 => 2 * length l2
  | ReceivingText _ _ l2 => 1 + 2 * length l2
  end.

(** After the peers [l1] have been sent to. *)
Definition next_send (l1 l2 : list bytes) : stage :=
  match l2 with [] => Receiving [] l1 | _ => Sending l1 l2 end.

Lemma next_send_ok a l1 l2 :
  peers a = l1 ++ l2 →
  stage_wf a (next_send l1 l2)
  ∧ program_at a (next_send l1 l2) = send_loop l2 (zlen (cfg a)) (cfg a) (recv_loop (peers a) [])
  ∧ left_at a (next_send l1 l2) = (2 * length l2 + 2 * length (peers a))%nat
  ∧ ∀ c, sent_at a (next_send l1 l2) c = (if decide (c ∈ l1) then message_of files a else [])
         ∧ got_at (next_send l1 l2) c = [].
Proof.
  intros E. destruct l2 as [|b l2]; cbn.
  - rewrite app_nil_r in E. split_and!; [done|by rewrite E|by rewrite E|]. intros c. by rewrite E.
  - by split_and!.
Qed.

(** The peer a loop has got to is not among those it has served. *)
Lemma current_peer a l1 b l2 : peers a = l1 ++ b :: l2 → b ∈ peers a ∧ b ∉ l1.
Proof.
  intros E. split; [rewrite E; set_solver|]. intros Hin. pose proof (x_nodup _ _ Hx a) as H. rewrite E in H.
  apply NoDup_app in H as (_ & H & _). apply (H b Hin). by left.
Qed.

Lemma config_size a : is_Some (files !! a) → 0 < zlen (cfg a) < 2 ^ 31.
Proof. unfold config_of. intros [f E]. rewrite E. by apply (x_size _ _ Hx a). Qed.

Lemma zlen_size_bytes a : zlen (size_bytes files a) = 4.
Proof. unfold size_bytes, int_bytes. by rewrite zlen_le_bytes. Qed.

Lemma stage_send a f st b id data k :
  files !! a = Some f → stage_wf a st → program_at a st = DoSend b id data k →
  id = data_id ∧ b ∈ peers a ∧ zlen data ≤ zlen (message_of files a) ∧ data ≠ [] ∧
  ∃ st', stage_wf a st' ∧ program_at a st' = k
    ∧ S (left_at a st') = left_at a st
    ∧ (∀ c, sent_at a st' c = sent_at a st c ++ if decide (c = b) then data else [])
    ∧ ∀ c, got_at st' c = got_at st c.
Proof.
  intros Ef. pose proof (config_size a ltac:(by eexists)) as Hsz. pose proof (zlen_size_bytes a) as Hs4.
  assert (zlen (message_of files a) = 4 + zlen (cfg a)) as Hmsg by (unfold message_of; rewrite zlen_app; lia).
  destruct st as [l1 l2|l1 d l2|l1 l2|l1 d l2]; intros Hwf E; cbn in Hwf, E; [| |by destruct l2|done].
  - destruct Hwf as [Hwf Hne]. destruct l2 as [|d l2]; [done|]. injection E as <- <- <- <-.
    destruct (current_peer a l1 d l2 Hwf) as [Hin Hnin].
    split_and!; [done|done|fold (size_bytes files a); lia|intros E; unfold size_bytes in Hs4; rewrite E in Hs4; zlia|].
    exists (SendingText l1 d l2). split_and!; [done| |cbn; lia| |done].
    + cbn. by rewrite ztake_ge.
    + intros c. cbn. repeat case_decide; subst; try done; by rewrite ?app_nil_r.
  - injection E as <- <- <- <-. destruct (current_peer a l1 d l2 Hwf) as [Hin Hnin].
    split_and!; [done|done|lia|intros E; rewrite E in Hsz; zlia|].
    destruct (next_send_ok a (l1 ++ [d]) l2) as (Hw & Hp & Hl & Hs); [by rewrite <- app_assoc|].
    exists (next_send (l1 ++ [d]) l2). split_and!; [done|done|rewrite Hl; cbn; lia| |intros c; apply Hs].
    intros c. rewrite (proj1 (Hs c)). cbn. unfold message_of.
    repeat case_decide; subst; first [done|by rewrite ?app_nil_r|set_solver].
Qed.

Lemma stage_recv a f st b id len k :
  files !! a = Some f → stage_wf a st → program_at a st = DoRecv b id len k →
  id = data_id ∧ b ∈ peers a ∧ 0 < len ∧ zlen (got_at st b) + len ≤ zlen (message_of files b)
  ∧ (∀ c, sent_at a st c = if decide (c ∈ peers a) then message_of files a else [])
  ∧ ∀ data rest, zlen data = len → got_at st b ++ data ++ rest = message_of files b →
    ∃ st', stage_wf a st' ∧ program_at a st' = k (Some data)
      ∧ S (left_at a st') = left_at a st
      ∧ (∀ c, got_at st' c = got_at st c ++ if decide (c = b) then data else [])
      ∧ ∀ c, sent_at a st' c = sent_at a st c.
Proof.
  intros Ef. destruct st as [l1 l2|l1 d l2|l1 l2|l1 d l2]; intros Hwf E; cbn in Hwf, E.
  - destruct Hwf as [_ Hne]. by destruct l2.
  - done.
  - destruct l2 as [|d l2]; [done|]. injection E as <- <- <- <-.
    destruct (current_peer a l1 d l2 Hwf) as [Hin Hnin].
    destruct (x_mutual _ _ Hx a d f Ef Hin) as [Hd _]. pose proof (config_size d Hd) as Hsz.
    cbn. rewrite decide_False by done. unfold message_of. rewrite zlen_app, zlen_size_bytes.
    split_and!; [done..|lia| |done|]; [pose proof (zlen_nonneg (cfg d)); change (zlen []) with 0; lia|].
    intros data rest Hlen Eq. cbn in Eq.
    apply app_inj_1 in Eq as [-> ->]; [|apply (f_equal Z.to_nat) in Hlen; pose proof (zlen_size_bytes d);
      unfold zlen in *; lia].
    exists (ReceivingText l1 d l2). cbn. split_and!; [done| |cbn; lia| |done].
    + unfold size_bytes. rewrite int_bytes_value by lia. by rewrite (proj2 (Z.ltb_ge _ _)) by lia.
    + intros c. repeat case_decide; subst; try done; by rewrite ?app_nil_r.
  - injection E as <- <- <- <-.
    destruct (current_peer a l1 d l2 Hwf) as [Hin Hnin].
    destruct (x_mutual _ _ Hx a d f Ef Hin) as [Hd _]. pose proof (config_size d Hd) as Hsz.
    cbn. rewrite decide_False, decide_True by done. unfold message_of. rewrite zlen_app, zlen_size_bytes.
    split_and!; [done..|lia|lia|done|].
    intros data rest Hlen Eq. apply app_inv_head in Eq.
    assert (data = cfg d) as ->.
    { rewrite <- (app_nil_r (cfg d)) in Eq. apply app_inj_1 in Eq as [-> _]; [done|].
      unfold zlen in Hlen. lia. }
    exists (Receiving (l1 ++ [d]) l2). cbn. split_and!; [by rewrite <- app_assoc| |lia| |done].
    + unfold expected. by rewrite fmap_app.
    + intros c. unfold message_of. repeat case_decide; subst; first [done|by rewrite ?app_nil_r|set_solver].
Qed.

Lemma sent_prefix a st c : sent_at a st c `prefix_of` message_of files a.
Proof.
  destruct st; cbn; repeat case_decide; try done; try apply prefix_nil; by apply prefix_app_r.
Qed.

(** A program returns what it should print, and throws nothing. *)
Lemma stage_finished a st r :
  stage_wf a st → program_at a st = Ret r → r = expected files (peers a).
Proof.
  destruct st as [l1 [|b l2]|l1 b l2|l1 [|b l2]|l1 b l2]; cbn; try done.
  - by intros [].
  - rewrite app_nil_r. by intros -> [= <-].
Qed.

Lemma stage_not_raise a st e : stage_wf a st → program_at a st ≠ Raise e.
Proof. destruct st as [l1 [|b l2]|l1 b l2|l1 [|b l2]|l1 b l2]; cbn; try done. by intros []. Qed.

(** ** Over the mailbox *)

(** Every program is at a stage, and what a node has sent and its peer has not
    received is in the mailbox; [n] events are still to come. *)
Definition at_stages (n : nat) (s : gmap bytes (prog report) * mailbox) : Prop :=
  ∃ st : bytes → stage,
    (∀ a, match files !! a with
          | Some f => s.1 !! a = Some (program_at a (st a)) ∧ stage_wf a (st a)
          | None => s.1 !! a = None
          end)
    ∧ (∀ a b, is_Some (files !! a) → is_Some (files !! b) →
         got_at (st b) a ++ s.2 (a, b, data_bin) = sent_at a (st a) b)
    ∧ n = sum_list_with (λ a, left_at a (st a)) (base.elements (dom files)).

Lemma at_stages_running n P mb a p :
  at_stages n (P, mb) → P !! a = Some p → is_Some (files !! a).
Proof.
  intros (st & Hst & _) E. specialize (Hst a). cbn [fst] in Hst. destruct (files !! a); [done|].
  by rewrite E in Hst.
Qed.

Lemma sum_left_insert (st : bytes → stage) a st' :
  is_Some (files !! a) → S (left_at a st') = left_at a (st a) →
  S (sum_list_with (λ x, left_at x (<[a := st']> st x)) (base.elements (dom files)))
  = sum_list_with (λ x, left_at x (st x)) (base.elements (dom files)).
Proof.
  intros Ha Hl. assert (a ∈ base.elements (dom files)) as Hin.
  { apply elem_of_elements, elem_of_dom. done. }
  pose proof (NoDup_elements (dom files)) as Hnd. revert Hin Hnd. generalize (base.elements (dom files)) as l.
  assert (∀ l, a ∉ l → sum_list_with (λ x, left_at x (<[a := st']> st x)) l
                       = sum_list_with (λ x, left_at x (st x)) l) as Hsame.
  { induction l as [|x l IH]; [done|]. intros [Hne Hnin]%not_elem_of_cons. cbn.
    rewrite fn_lookup_insert_ne, IH by done. done. }
  induction l as [|x l IH]; [by intros ?%elem_of_nil|]. intros Hin [Hx' Hnd]%NoDup_cons. cbn.
  destruct (decide (x = a)) as [->|Hne].
  - rewrite fn_lookup_insert, Hsame by done. lia.
  - rewrite fn_lookup_insert_ne by done. apply elem_of_cons in Hin as [->|Hin]; [done|].
    rewrite <- (IH Hin Hnd). lia.
Qed.

(** A program sends. *)
Lemma at_stages_send n P mb a b id bin data k :
  at_stages n (P, mb) → P !! a = Some (DoSend b id data k) → get_string id = Ok bin →
  ∃ m, n = S m ∧ at_stages m (<[a := k]> P, <[(a, b, bin) := mb (a, b, bin) ++ data]> mb) ∧ small (Sent a b bin data).
Proof.
  intros H EP Eid.
  destruct (at_stages_running _ _ _ _ _ H EP) as [f Ef]. destruct H as (st & Hst & Hmb & ->).
  pose proof (Hst a) as Ha. rewrite Ef in Ha. cbn [fst snd] in *. destruct Ha as [E Hwf].
  rewrite EP in E. injection E as E. symmetry in E.
  destruct (stage_send _ _ _ _ _ _ _ Ef Hwf E) as (-> & Hin & Hlen & Hnil & st' & Hwf' & Hp & Hl & Hsent & Hgot).
  rewrite data_id_ok in Eid. injection Eid as <-.
  eexists. split; [symmetry; apply (sum_left_insert st a st'); [by eexists|done]|].
  split; [|].
  2: { split; [done|]. pose proof (config_size a ltac:(by eexists)) as Hsz.
       unfold message_of in Hlen. rewrite zlen_app, zlen_size_bytes in Hlen.
       pose proof (zlen_zero_nil data). pose proof (zlen_nonneg data).
       assert (zlen data ≠ 0) by (intros ?; auto). lia. }
  exists (<[a := st']> st). split_and!; [| |done]; cbn [fst snd].
  + intros x. destruct (decide (x = a)) as [->|Hne].
    * rewrite Ef, lookup_insert_eq, fn_lookup_insert. split; [congruence|done].
    * rewrite fn_lookup_insert_ne, lookup_insert_ne by done. apply Hst.
  + intros x y Hx1 Hy. assert (∀ z, got_at (<[a := st']> st z) x = got_at (st z) x) as ->.
    { intros z. destruct (decide (z = a)) as [->|]; [by rewrite fn_lookup_insert|by rewrite fn_lookup_insert_ne]. }
    destruct (decide (x = a)) as [->|Hne].
    * rewrite fn_lookup_insert, Hsent, <- (Hmb a y) by done. destruct (decide (y = b)) as [->|].
      { by rewrite fn_lookup_insert, app_assoc. }
      by rewrite fn_lookup_insert_ne, app_nil_r by congruence.
    * rewrite !fn_lookup_insert_ne by congruence. by apply Hmb.
Qed.

(** A program receives. *)
Lemma at_stages_recv n P mb a b id bin data k rest :
  at_stages n (P, mb) → P !! b = Some (DoRecv a id (zlen data) k) → get_string id = Ok bin →
  mb (a, b, bin) = data ++ rest →
  ∃ m, n = S m ∧ at_stages m (<[b := k (Some data)]> P, <[(a, b, bin) := rest]> mb) ∧ small (Received a b bin data).
Proof.
  intros H EP Eid Emb.
  destruct (at_stages_running _ _ _ _ _ H EP) as [f Ef]. destruct H as (st & Hst & Hmb & ->).
  pose proof (Hst b) as Hb. rewrite Ef in Hb. cbn [fst snd] in *. destruct Hb as [E Hwf].
  rewrite EP in E. injection E as E. symmetry in E.
  destruct (stage_recv _ _ _ _ _ _ _ Ef Hwf E) as (-> & Hin & Hpos & _ & _ & Hnext).
  destruct (x_mutual _ _ Hx b a f Ef Hin) as [Ha _].
  rewrite data_id_ok in Eid. injection Eid as <-.
  pose proof (Hmb a b Ha ltac:(by eexists)) as Hab. rewrite Emb in Hab.
  destruct (sent_prefix a (st a) b) as [more Hmore]. rewrite <- Hab, <- !app_assoc in Hmore.
  destruct (Hnext data (rest ++ more) eq_refl) as (st' & Hwf' & Hp & Hl & Hgot & Hsent); [done|].
  eexists. split; [symmetry; apply (sum_left_insert st b st'); [by eexists|done]|].
  split; [|done]. exists (<[b := st']> st). split_and!; [| |done]; cbn [fst snd].
  + intros x. destruct (decide (x = b)) as [->|Hne].
    * rewrite Ef, lookup_insert_eq, fn_lookup_insert. split; [congruence|done].
    * rewrite fn_lookup_insert_ne, lookup_insert_ne by done. apply Hst.
  + intros x y Hx1 Hy. assert (sent_at x (<[b := st']> st x) y = sent_at x (st x) y) as ->.
    { destruct (decide (x = b)) as [->|]; [by rewrite fn_lookup_insert|by rewrite fn_lookup_insert_ne]. }
    rewrite <- (Hmb x y) by done. destruct (decide (y = b)) as [->|Hne].
    * rewrite fn_lookup_insert, Hgot. destruct (decide (x = a)) as [->|].
      { by rewrite fn_lookup_insert, Emb, <- app_assoc. }
      by rewrite fn_lookup_insert_ne, app_nil_r by congruence.
    * by rewrite !fn_lookup_insert_ne by congruence.
Qed.

Lemma at_stages_step n e s s' :
  at_stages n s → Forall succeeded (option_list e) → app_step mailbox_step e s s' →
  ∃ m, n = S m ∧ at_stages m s' ∧ length (option_list e) = 1%nat ∧ Forall small (option_list e).
Proof.
  intros H Hok Hs.
  destruct Hs as [P w w' Hw|P w w' a b id bin data k EP Eid Hw|P w w' a b id bin data k EP Eid Hw
    |P w w' a b id bin len ret k EP Eid Hw]; [by inversion Hw| | |by inversion Hok].
  - inversion Hw; subst. edestruct at_stages_send as (m & -> & Hm & Hsm); [done..|]. exists m. split_and!; [done..|by constructor].
  - inversion Hw; subst. edestruct at_stages_recv as (m & -> & Hm & Hsm); [done..|]. exists m. split_and!; [done..|by constructor].
Qed.

Lemma at_stages_trace n s es s' :
  at_stages n s → Forall succeeded es → trace (app_step mailbox_step) s es s' →
  ∃ m, (n = length es + m)%nat ∧ at_stages m s' ∧ Forall small es.
Proof.
  intros H Hok Ht. revert n H. induction Ht as [s|s e s1 es s' Hs _ IH]; intros n H; [by exists n|].
  apply Forall_app in Hok as [Hok1 Hok].
  destruct (at_stages_step n e s s1 H Hok1 Hs) as (m & -> & H1 & Hl & Hsm).
  destruct (IH Hok m H1) as (m' & -> & H' & Hsm'). exists m'. rewrite length_app, Hl.
  split_and!; [done..|]. by apply Forall_app_2.
Qed.

(** What a program that has not finished waits for: nothing, or data that is there. *)
Definition can_go_on (P : gmap bytes (prog report)) (mb : mailbox) : Prop :=
  (∃ a b data k, P !! a = Some (DoSend b data_id data k) ∧ is_Some (files !! a) ∧ b ∈ peers a
     ∧ 0 < zlen data < 2 ^ 32)
  ∨ (∃ a b len k, P !! a = Some (DoRecv b data_id len k) ∧ is_Some (files !! a) ∧ b ∈ peers a
     ∧ 0 < len ≤ zlen (mb (b, a, data_bin))).

Lemma sender_goes_on n P mb a b id data k :
  at_stages n (P, mb) → P !! a = Some (DoSend b id data k) → can_go_on P mb.
Proof.
  intros H EP. destruct (at_stages_running _ _ _ _ _ H EP) as [f Ef]. destruct H as (st & Hst & _ & _).
  pose proof (Hst a) as Ha. rewrite Ef in Ha. cbn [fst] in Ha. destruct Ha as [Ea Hwf].
  rewrite EP in Ea. injection Ea as Ea. symmetry in Ea.
  destruct (stage_send _ _ _ _ _ _ _ Ef Hwf Ea) as (-> & Hin & Hlen & Hnil & _).
  left. exists a, b, data, k. split_and!; [done|by eexists|done| |].
  - pose proof (zlen_zero_nil data). pose proof (zlen_nonneg data). assert (zlen data ≠ 0) by (intros ?; auto). lia.
  - pose proof (config_size a ltac:(by eexists)). unfold message_of in Hlen.
    rewrite zlen_app, zlen_size_bytes in Hlen. lia.
Qed.

(** Unless all have finished some program can go on. *)
Lemma at_stages_ready n P mb a p :
  at_stages n (P, mb) → P !! a = Some p → (∀ r, p ≠ Ret r) → can_go_on P mb.
Proof.
  intros H EP Hp. pose proof (λ a b id data k, sender_goes_on n P mb a b id data k H) as Hsend.
  destruct (at_stages_running _ _ _ _ _ H EP) as [f Ef]. destruct H as (st & Hst & Hmb & _).
  pose proof (Hst a) as Ha. rewrite Ef in Ha. cbn [fst snd] in *. destruct Ha as [Ea Hwf].
  rewrite EP in Ea. injection Ea as Ea.
  destruct p as [r|e|b id data k|b id len k].
  - by destruct (Hp r).
  - destruct (st a) as [? [|]| |? [|]|]; cbn in Ea; try done. by destruct Hwf.
  - by eapply Hsend.
  - symmetry in Ea. destruct (stage_recv _ _ _ _ _ _ _ Ef Hwf Ea) as (-> & Hin & Hpos & Hlen & _ & _).
    destruct (x_mutual _ _ Hx a b f Ef Hin) as [[g Eg] Hba].
    pose proof (Hst b) as Hb. rewrite Eg in Hb. destruct Hb as [Eb Hwfb].
    destruct (program_at b (st b)) as [| |c id data k'|] eqn:Epb; [| |by eapply Hsend|].
    all: assert (sent_at b (st b) a = message_of files b) as Hsent.
    all: try (destruct (st b) as [? [|]| |? [|]|]; cbn in Epb, Hwfb |- *; try done;
              try (by destruct Hwfb); by rewrite decide_True).
    all: pose proof (Hmb b a ltac:(by eexists) ltac:(by eexists)) as Hba'; rewrite Hsent in Hba'.
    all: apply (f_equal zlen) in Hba'; rewrite zlen_app in Hba'.
    all: right; exists a, b, len, k; split_and!; [done|by eexists|done|lia|lia].
Qed.

Lemma at_stages_moves n P mb a p :
  at_stages n (P, mb) → P !! a = Some p → (∀ r, p ≠ Ret r) →
  ∃ e s', succeeded e ∧ app_step mailbox_step (Some e) (P, mb) s'.
Proof.
  intros H EP Hp. destruct (at_stages_ready n P mb a p H EP Hp)
    as [(x & b & data & k & Ex & _)|(x & b & len & k & Ex & _ & _ & Hlen)].
  - do 2 eexists. split; [|by eapply app_send, mailbox_send; [|apply data_id_ok]]. done.
  - eexists (Received b x data_bin (ztake len (mb (b, x, data_bin)))), _. split; [done|].
    assert (zlen (ztake len (mb (b, x, data_bin))) = len) as El by (rewrite zlen_ztake; lia).
    eapply app_recv; [rewrite El; exact Ex|apply data_id_ok|].
    eapply (mailbox_recv _ _ _ _ _ (zdrop len (mb (b, x, data_bin)))). by rewrite ztake_zdrop.
Qed.

Lemma started_stages P : started files peers P → at_stages (exchange_length files peers) (P, no_mail).
Proof.
  intros H. exists (λ a, next_send [] (peers a)). split_and!; cbn [fst snd].
  - intros a. specialize (H a). destruct (files !! a) as [f|] eqn:Ef; [|done].
    destruct H as (v & p & Ev & Ep & ->). destruct (next_send_ok a [] (peers a)) as (Hwf & -> & _); [done|].
    split; [|done]. f_equal. unfold main in Ep.
    pose proof (vector_roundtrip (peers a)) as Hv. rewrite Ev in Hv. cbn [mbind outcome_bind] in Hv.
    rewrite Hv in Ep. cbn [mbind outcome_bind] in Ep. rewrite read_config_text in Ep by by eapply x_text.
    assert (c_str <$> peers a = peers a) as En.
    { rewrite <- (list_fmap_id (peers a)) at 2. apply list_fmap_ext. intros i b Eb.
      pose proof (x_names _ _ Hx a) as Hn. rewrite Forall_lookup in Hn. by apply (Hn i). }
    assert (to_int (zlen f) = zlen f) as Es.
    { pose proof (x_size _ _ Hx a f Ef). unfold to_int. rewrite Z.mod_small; lia. }
    rewrite En, Es in Ep. apply bind_Ok in Ep as ([] & _ & Ep). injection Ep as <-.
    unfold config_of. by rewrite Ef.
  - intros a b _ _. destruct (next_send_ok a [] (peers a)) as (_ & _ & _ & Ha); [done|].
    destruct (next_send_ok b [] (peers b)) as (_ & _ & _ & Hb); [done|].
    rewrite (proj1 (Ha b)), (proj2 (Hb a)). done.
  - unfold exchange_length. generalize (base.elements (dom files)) as l. induction l as [|a l IH]; [done|].
    cbn [sum_list_with]. destruct (next_send_ok a [] (peers a)) as (_ & _ & El & _); [done|].
    rewrite El, IH. lia.
Qed.

(** ** Over the network *)

Section network.
Context (junk : nat → byte).

Definition linked (w : net) : Prop :=
  ∀ a b, is_Some (files !! a) → b ∈ peers a → is_Some (end_of w a b).

(** The state of programs and network after the events [es], with [n] to come. *)
Record on_the_way (n : nat) (es : list event) (P : gmap bytes (prog report)) (w : net) (mb : mailbox)
    : Prop := {
  o_net : implements w mb;
  o_stages : at_stages n (P, mb);
  o_running : running w;
  o_linked : linked w;
  o_sent a b : c_sent (chans w (a, b)) = sent_by es a b;
  o_small : Forall small es;
  o_count : (n + length es = exchange_length files peers)%nat
}.

Lemma app_step_sys {R W : Type} (sys : option event → relation W) (e : option event)
    (s s' : gmap bytes (prog R) * W) :
  app_step sys e s s' → sys e s.2 s'.2.
Proof. by intros []. Qed.

Lemma sent_by_app es1 es2 a b : sent_by (es1 ++ es2) a b = sent_by es1 a b ++ sent_by es2 a b.
Proof. unfold sent_by. by rewrite bind_app. Qed.

Lemma sent_by_volume es a b :
  Forall small es → volume (sent_by es a b) ≤ Z.of_nat (length es) * 2 ^ 33.
Proof.
  induction 1 as [|e es He _ IH]; [done|]. change (e :: es) with ([e] ++ es).
  rewrite sent_by_app, volume_app, length_app. cbn [length].
  assert (volume (sent_by [e] a b) ≤ 2 ^ 33); [|lia].
  destruct e as [x y id data| |]; cbn; [|done..]. destruct He as [-> He].
  case_decide; [|done]. cbn [app]. rewrite volume_cons, zlen_frame. cbn [fst snd].
  change (volume []) with 0. change (zlen data_bin) with 5. lia.
Qed.

Lemma start_on_the_way w P :
  connected w → running w → linked w → started files peers P →
  on_the_way (exchange_length files peers) [] P w no_mail.
Proof.
  intros Hw Hrun Hlk Hs. split; [by apply connected_implements|by apply started_stages|done|done| |constructor|].
  - intros a b. by rewrite (k_chans _ Hw).
  - cbn [length]. lia.
Qed.

Lemma on_the_way_step n es P w mb e P' w' :
  on_the_way n es P w mb → Forall succeeded (option_list e) →
  app_step (bounded_step junk) e (P, w) (P', w') →
  ∃ m mb', on_the_way m (es ++ option_list e) P' w' mb' ∧ (n = length (option_list e) + m)%nat.
Proof.
  intros [] Hok Hs. pose proof (app_step_sys _ _ _ _ Hs) as Hw. cbn [snd] in Hw.
  destruct (simulates (P, w) (P, mb) e (P', w') (conj eq_refl o_net0) Hs) as ([P2 mb'] & [E Hi] & Ht).
  cbn in E, Hi. subst P2.
  destruct (at_stages_trace n _ _ _ o_stages0 Hok Ht) as (m & En & Hst & Hsm).
  destruct (running_step junk w mb e w' o_net0 Hw o_running0) as [Hrun Hends].
  exists m, mb'. split; [|done]. split; [done|done|done| | | |].
  - intros a b Ha Hb. by apply Hends, o_linked0.
  - intros a b. by rewrite (sent_step junk w mb e w' a b o_net0 Hw), sent_by_app, o_sent0.
  - by apply Forall_app_2.
  - rewrite length_app. lia.
Qed.

Lemma on_the_way_trace n es P w mb es' s' :
  on_the_way n es P w mb → Forall succeeded es' →
  trace (app_step (bounded_step junk)) (P, w) es' s' →
  ∃ m mb', on_the_way m (es ++ es') s'.1 s'.2 mb' ∧ (n = length es' + m)%nat.
Proof.
  intros H Hok Ht. remember (P, w) as s eqn:Es. revert n es P w mb H Es.
  induction Ht as [s|s e s1 es' s' Hs _ IH]; intros n es P w mb H ->.
  { exists n, mb. by rewrite app_nil_r. }
  apply Forall_app in Hok as [Hok1 Hok]. destruct s1 as [P1 w1].
  destruct (on_the_way_step _ _ _ _ _ _ _ _ H Hok1 Hs) as (m & mb1 & H1 & ->).
  destruct (IH Hok m _ P1 w1 mb1 H1 eq_refl) as (m' & mb' & H' & ->).
  exists m', mb'. rewrite app_assoc. split; [done|]. rewrite length_app. lia.
Qed.

(** Over the network, too, some program can go on, after some steps of the threads. *)
Lemma net_goes_on n es P w mb :
  on_the_way n es P w mb → Z.of_nat (exchange_length files peers) ≤ 2 ^ 27 → can_go_on P mb →
  ∃ e s', succeeded e ∧ trace (app_step (bounded_step junk)) (P, w) [e] s'.
Proof.
  intros [] Hmax [(a & b & data & k & Ea & Ha & Hb & Hlen)|(a & b & len & k & Ea & Ha & Hb & Hlen)].
  - destruct (can_send junk w mb a b data_id data_bin data) as [w' Hw];
      [done|by apply o_linked0|apply data_id_ok| | |].
    + unfold sendable. cbn [fst snd]. change (zlen data_bin) with 5. lia.
    + rewrite o_sent0, zlen_frame. pose proof (sent_by_volume es a b o_small0).
      change (zlen data_bin) with 5. lia.
    + exists (Sent a b data_bin data), (<[a := k]> P, w'). split; [done|].
      apply (trace_one _ (Some _)). by eapply app_send; [|apply data_id_ok|].
  - pose proof (o_linked0 a b Ha Hb) as [c Ec].
    destruct (w_other w (i_wired _ _ o_net0) a b) as [c' Ec']; [by eexists|].
    assert (is_Some (link_of w b a)) as [l El] by (unfold link_of; rewrite Ec, Ec'; by eexists).
    pose proof El as (Eb & Ea' & _)%link_of_Some.
    destruct (r_loops _ o_running0 b a _ Eb) as [t1 H1], (r_loops _ o_running0 a b _ Ea') as [t2 H2].
    destruct (can_receive junk w mb b a t1 t2 data_id data_bin len l) as (w1 & w2 & Hr & _ & Hw);
      [done..|apply (r_serving _ o_running0)|apply data_id_ok|done|].
    set (data := ztake len (mb (b, a, data_bin))) in *.
    exists (Received b a data_bin data), (<[a := k (Some data)]> P, w2). split; [done|].
    apply (trace_app (P, w) [] (P, w1) [Received b a data_bin data]).
    + refine (trace_none (λ w, (P, w)) _ _ _ (trace_silent _ _ Hr)). by constructor.
    + apply (trace_one _ (Some _)). eapply app_recv; [|apply data_id_ok|done].
      assert (zlen data = len) as -> by (unfold data; rewrite zlen_ztake; lia). done.
Qed.

Lemma can_finish n : ∀ es P w mb,
  on_the_way n es P w mb → Z.of_nat (exchange_length files peers) ≤ 2 ^ 27 →
  ∃ es' P' w', trace (app_step (bounded_step junk)) (P, w) es' (P', w') ∧ Forall succeeded es'
    ∧ ∀ a p, P' !! a = Some p → ∃ r, p = Ret r.
Proof.
  induction n as [n IH] using lt_wf_ind. intros es P w mb H Hmax.
  destruct (decide (map_Forall (λ _ p, finished p = true) P)) as [Hall|Hn].
  { exists [], P, w. split_and!; [constructor|constructor|]. intros a p Ep%Hall.
    destruct p; [by eexists|done..]. }
  apply map_not_Forall in Hn as (a & p & EP & Hp); [|apply _].
  assert (∀ r, p ≠ Ret r) as Hnot by (intros r ->; by apply Hp).
  destruct (net_goes_on n es P w mb H Hmax) as (e & [P1 w1] & He & Ht).
  { by eapply at_stages_ready, Hnot; [apply H|]. }
  assert (Forall succeeded [e]) as He1 by by repeat constructor.
  destruct (on_the_way_trace _ _ _ _ _ _ _ H He1 Ht) as (m & mb' & H1 & ->).
  destruct (IH m ltac:(cbn; lia) _ P1 w1 mb' H1 Hmax) as (es' & P' & w' & Ht' & Hok & Hall).
  exists (e :: es'), P', w'. split_and!; [by eapply (trace_app _ [e])|by constructor|done].
Qed.
End network.
End exchange.

(** * Properties *)

(** C3: on any number of connected nodes whose connections are mutual, with all their
    threads and whatever the network does, a program that finishes has received from
    each node it is connected to exactly the size and the text of that node's
    configuration file, in the order of [GetConnectedNodeIDs]; and no program throws.
    (As long as no [Recv] returns an error result, which the program does not look
    at.) *)
Theorem check_config_correct junk files peers w P0 es P w' :
  exchange files peers → connected w → started files peers P0 →
  trace (app_step (bounded_step junk)) (P0, w) es (P, w') → Forall succeeded es →
  ∀ a p, P !! a = Some p →
    (∀ r, p = Ret r → r = expected files (peers a)) ∧ ∀ e, p ≠ Raise e.
Proof.
  intros Hx Hw Hs Ht Hok a p EP.
  destruct (simulation_trace _ _ _ (P0, w) (P0, no_mail) es (P, w')
    (conj eq_refl (connected_implements w Hw)) Ht) as ([P' mb] & [EP' _] & Ht').
  cbn in EP'. subst P'.
  destruct (at_stages_trace _ _ Hx _ _ _ _ (started_stages _ _ Hx P0 Hs) Hok Ht') as (m & _ & H & _).
  destruct (at_stages_running _ _ _ _ _ _ _ H EP) as [f Ef].
  destruct H as (st & Hst & _). specialize (Hst a). rewrite Ef in Hst. cbn [fst] in Hst.
  destruct Hst as [E Hwf]. rewrite EP in E. injection E as ->.
  split; [intros r Er; by apply (stage_finished _ _ a (st a))|intros e; by apply (stage_not_raise files peers)].
Qed.

(** C4: the exchange ends: over the mailbox the programs of all nodes together have at
    most four events per connection end, and until all have finished some program can
    go on, so no node waits for ever whatever the order in which they run. *)
Theorem check_config_completes files peers P0 es P mb :
  exchange files peers → started files peers P0 →
  trace (app_step mailbox_step) (P0, no_mail) es (P, mb) → Forall succeeded es →
  (length es ≤ exchange_length files peers)%nat
  ∧ (map_Forall (λ _ p, finished p = true) P
     ∨ ∃ e s, succeeded e ∧ app_step mailbox_step (Some e) (P, mb) s).
Proof.
  intros Hx Hs Ht Hok.
  destruct (at_stages_trace _ _ Hx _ _ _ _ (started_stages _ _ Hx P0 Hs) Hok Ht) as (m & El & H & _).
  split; [lia|]. destruct (decide (map_Forall (λ _ p, finished p = true) P)) as [|Hn]; [by left|right].
  apply map_not_Forall in Hn as (a & p & EP & Hp); [|apply _].
  eapply (at_stages_moves _ _ Hx _ P mb a p); [done..|]. intros r ->. by apply Hp.
Qed.

(** C5: over the network the exchange can always be brought to its end: whatever the
    nodes, their threads and the network have done so far, while the loops and the
    servers run there is a continuation without error results after which the program
    of every node has printed the size and the text of each of its peers'
    configurations.  (A run of at most 2^27 events keeps the counters of the rings
    from wrapping.) *)
Theorem check_config_can_finish junk files peers w P0 es P w1 :
  exchange files peers → connected w → running w → linked files peers w → started files peers P0 →
  Z.of_nat (exchange_length files peers) ≤ 2 ^ 27 →
  trace (app_step (bounded_step junk)) (P0, w) es (P, w1) → Forall succeeded es →
  ∃ es' P' w', trace (app_step (bounded_step junk)) (P, w1) es' (P', w') ∧ Forall succeeded es'
    ∧ ∀ a, is_Some (files !! a) → P' !! a = Some (Ret (expected files (peers a))).
Proof.
  intros Hx Hw Hrun Hlk Hs Hmax Ht Hok.
  destruct (on_the_way_trace _ _ Hx junk _ _ _ _ _ _ _ (start_on_the_way _ _ Hx _ _ Hw Hrun Hlk Hs) Hok Ht)
    as (m & mb & H & _).
  destruct (can_finish _ _ Hx junk m _ P w1 mb H Hmax) as (es' & P' & w' & Ht' & Hok' & Hall).
  exists es', P', w'. split_and!; [done|done|].
  destruct (on_the_way_trace _ _ Hx junk _ _ _ _ _ _ _ H Hok' Ht') as (m' & mb' & H' & _).
  intros a [f Ef]. destruct (o_stages _ _ _ _ _ _ _ H') as (st & Hst & _). specialize (Hst a).
  rewrite Ef in Hst. cbn [fst] in Hst. destruct Hst as [E Hwf]. rewrite E. f_equal.
  destruct (Hall a _ E) as [r Er]. rewrite Er. f_equal. by apply (stage_finished _ _ a (st a)).
Qed.

(** * Witnesses *)

Definition sample_files : gmap bytes bytes := {[ str "P0" := str "{}"; str "P1" := str "{ }" ]}.
Definition sample_peers (a : bytes) : list bytes :=
  if decide (a = str "P0") then [str "P1"] else if decide (a = str "P1") then [str "P0"] else [].
Definition sample_programs : gmap bytes (prog report) :=
  map_imap (λ a f, match v ← encode_vector (sample_peers a); main f v with Ok p => Some p | _ => None end)
           sample_files.

Lemma sample_files_lookup a f :
  sample_files !! a = Some f → a = str "P0" ∧ f = str "{}" ∨ a = str "P1" ∧ f = str "{ }".
Proof.
  unfold sample_files. intros [[<- <-]|[_ [<- <-]%lookup_singleton_Some]]%lookup_insert_Some; auto.
Qed.

Lemma sample_exchange : exchange sample_files sample_peers.
Proof.
  split.
  - intros a f [[_ ->]|[_ ->]]%sample_files_lookup; done.
  - intros a f [[_ ->]|[_ ->]]%sample_files_lookup; done.
  - intros a. unfold sample_peers. repeat case_decide; by repeat constructor.
  - intros a. unfold sample_peers. repeat case_decide; repeat constructor; by intros ?%elem_of_nil.
  - intros a b f [[-> _]|[-> _]]%sample_files_lookup ->%list_elem_of_singleton; (split; [by eexists|by left]).
Qed.

Lemma sample_started : started sample_files sample_peers sample_programs.
Proof.
  intros a. destruct (sample_files !! a) as [f|] eqn:E.
  - unfold sample_programs. rewrite map_lookup_imap, E. cbn [mbind option_bind].
    apply sample_files_lookup in E as [[-> ->]|[-> ->]]; do 2 eexists; (split; [reflexivity|]; split; reflexivity).
  - unfold sample_programs. by rewrite map_lookup_imap, E.
Qed.

Lemma check_config_correct_witness :
  is_Some (sample_programs !! str "P0")
  ∧ ∀ a p, sample_programs !! a = Some p →
    (∀ r, p = Ret r → r = expected sample_files (sample_peers a)) ∧ ∀ e, p ≠ Raise e.
Proof.
  split; [by eexists|].
  apply (check_config_correct (λ _, x00) sample_files sample_peers sample_net sample_programs [] sample_programs
    sample_net sample_exchange sample_net_connected sample_started (trace_nil _)). constructor.
Defined.

(** P0 sends its size first. *)
Lemma sample_first_event :
  ∃ s, trace (app_step mailbox_step) (sample_programs, no_mail)
         [Sent (str "P0") (str "P1") data_bin (int_bytes 2)] s.
Proof.
  eexists. apply (trace_one _ (Some _)). eapply app_send; [reflexivity|apply data_id_ok|apply mailbox_send].
Qed.

Lemma check_config_completes_witness :
  ∃ s, (1 ≤ exchange_length sample_files sample_peers)%nat
  ∧ (map_Forall (λ _ p, finished (R:=report) p = true) s.1
     ∨ ∃ e s', succeeded e ∧ app_step mailbox_step (Some e) (s.1, s.2) s').
Proof.
  destruct sample_first_event as [[P mb] Ht]. exists (P, mb).
  apply (check_config_completes sample_files sample_peers sample_programs
    [Sent (str "P0") (str "P1") data_bin (int_bytes 2)] P mb sample_exchange sample_started Ht).
  by repeat constructor.
Defined.

Lemma sample_running : running sample_net.
Proof.
  split.
  - intros a nd [[_ ->]|[_ ->]]%sample_node_lookup; done.
  - intros a b c [-> _]%sample_net_end. by exists [].
Qed.

Lemma sample_linked : linked sample_files sample_peers sample_net.
Proof.
  intros a b [f [[-> _]|[-> _]]%sample_files_lookup] ->%list_elem_of_singleton; by eexists.
Qed.

Lemma check_config_can_finish_witness :
  ∃ es' P' w', trace (app_step (bounded_step (λ _, x00))) (sample_programs, sample_net) es' (P', w')
    ∧ Forall succeeded es'
    ∧ ∀ a, is_Some (sample_files !! a) → P' !! a = Some (Ret (expected sample_files (sample_peers a))).
Proof.
  apply (check_config_can_finish (λ _, x00) sample_files sample_peers sample_net sample_programs []
    sample_programs sample_net sample_exchange sample_net_connected sample_running sample_linked sample_started);
    [by vm_compute|constructor|constructor].
Defined.
